(* ===== verification/_CoqProject ===== *)
-Q . S2P
Prelude.v
Errors.v
Models.v
FileSystem.v
Config.v
Xml.v
Externals.v
World.v
Compression.v
Crypto.v
Database.v
Cache.v
EncryptionKeys.v
Performance.v
Storage.v
Paths.v
StorageWf.v
Deletion.v
Upload.v
Phases.v
ObjectMap.v
ObjectJobs.v
ObjectStore.v
Concurrency.v
Hazards.v
Tasks.v
Jobs.v
Guarantee.v
Interleaving.v
Confinement.v
Provenance.v
Durability.v
Stages.v
InFlight.v
Publication.v
Readers.v
Finality.v
Races.v
Ranges.v
Http.v
Limiter.v
FileHandlers.v
SourceTests.v
RangeDownload.v
Handlers.v
S3Error.v
SigV4.v
CodecTests.v
S3.v
Expiry.v
S3Objects.v
App.v
Gaps.v
Responses.v
Server.v
