(* ===== verification/Prelude.v ===== *)
(** * Local storage service: a verification library

    This library models the local storage service (the Rust crate
    src/local-storage): an object store that keeps the bytes of files on disk,
    their rows in PostgreSQL and recent entries in a cache, with optional
    compression, encryption, deduplication and times to live, behind a REST
    interface and an S3-compatible one.  File names below are relative to
    src/local-storage/src.

    ** The parts and how they are modelled

    Every operation of the service reads and changes one state, [World.World]:
    the file system (FileSystem: [FS]), the tables ([World.Db]), the cache
    store, the clock, the random source, and the list of failures still to
    come.  An operation is a function [World → result error value * World]
    (Prelude: [prog]): the state is passed explicitly and an error keeps the
    effects made before it, as a [?] in the code does.  Every call to the
    database, the file system or Redis takes the next entry of [w_faults],
    which says whether it fails; a theorem for all worlds is therefore a
    theorem for every pattern of failing calls.  Where a theorem speaks about
    runs without failures it says [w_faults w = []].

    - Prelude: results, programs with state and errors, relations every step
      respects, machine integers, the functions of the standard library on
      strings that the code uses, and lemmas on them.
    - Errors (errors.rs): [StorageError], its text, status and conversions.
    - Models (models.rs): rows, keys, statistics, response bodies.
    - FileSystem: [PathBuf] and the calls of std::fs, over a tree of files and
      directories.
    - Config (config.rs): the settings and [load].
    - Xml (s3/xml.rs): the S3 documents.
    - Externals: the crates and services outside the repository as parameters
      (class [Externals]), what the program relies on (class [ExternalsLaws]),
      and one concrete instance, with which every definition runs.
    - World: the state, the calls, SQL statements and transactions.
    - Compression (compression.rs), Crypto (crypto.rs), Database (database.rs
      and migrations/), Cache (cache.rs), EncryptionKeys (encryption_keys.rs),
      Performance (performance_optimizations.rs): one file per manager, one
      definition per method, named as in the code.  A statement of SQL is a
      function on the tables that checks the constraints of the migrations.
    - Storage (storage.rs): [StorageManager], which composes the managers.  The
      long methods are divided where the code is: [store_file] is
      [aliased_row] for duplicate content and otherwise [store_new] with
      [compress_step], [encrypt_step] and [stored_row]; [get_file] is
      [read_metadata], [expired], [read_content], [decode_content], [touch].
    - Paths: which keys have files of their own.  StorageWf, Deletion, Upload,
      Ranges: theorems about [StorageManager].
    - Phases: [store_file] in two halves, [find_stored] and [store_found], with
      the proof that one after the other they are [store_file]; a deletion is
      divided in Deletion ([delete_row], [unlink_and_invalidate]).
    - ObjectMap, ObjectJobs, ObjectStore: the abstract object store, a map from
      bucket and key to content, type and expiry ([ObjectMap.represents]
      relates it to the state), the background jobs against it, and the
      refinement theorem.  Expiry: what the routes do with a file past its time.
    - Concurrency: requests in flight as a step relation over their phases
      ([interleave]).  Hazards: situations in which the promises fail.
    - Tasks: every program as the tree of its external calls ([task], derived
      by the class [Tasked]), and what each call of a tree keeps ([safe]), over a
      family of invariants, one for each stage the state may be in.  Jobs:
      the operations of StorageManager as trees, and the pool of jobs in flight
      ([turn]): one call of one job at a time, a job arriving, a job dropped
      where it waits (as the time-out layer of app.rs and a client that hangs up
      do), and time, cache losses and failures between calls.  [schedule] runs a
      given order of moves.
    - Guarantee: the interface between the jobs and an invariant of the pool:
      the class [Kept] lists what an invariant must survive (each statement, each
      change of a file, each cache entry), under rules for the names a job may
      touch ([Rules]); [job_kept] then gives it for every job.  Confinement,
      Provenance, Durability, Publication, Readers and Finality are its
      instances; Interleaving says what happens between the calls.
    - Stages: the logic of the one job of the pool that takes the state from
      stage to stage ([follows], [pool_follows]).  InFlight, Publication and
      Readers apply it to an upload: what it saves, whenever it makes its calls;
      the stages of its key (nothing, the temporary file, the file, the row);
      and what downloads that run meanwhile see.  Finality applies it to a
      deletion.  Races: schedules and operations that hurt each other.
    - Http (app.rs): the shared state and responses.  Limiter (app.rs, main.rs):
      the concurrency limiter as the tree of its steps, over any semaphore that
      keeps the promises of tokio's (class [Semaphore]).  FileHandlers, Handlers
      (handlers/): the REST handlers.  RangeDownload: range requests of uploaded files.
      SourceTests and CodecTests: the tests beside the code, evaluated or proved.
    - S3Error (s3/error.rs), SigV4 (s3/auth.rs), S3 (s3/handlers.rs,
      s3/mod.rs): the S3 interface.  S3Objects: objects stored and fetched
      through it while other jobs run.
    - App (app.rs, s3/mod.rs): the route tables and a request on its way from
      the router through the extractors to the reply ([serve]); axum's path
      matcher and extractors are the record [Framework].  Responses: what every
      reply looks like.  Gaps: behaviours at the seams of the components that
      clients would not expect.
    - Server (main.rs): start-up, the retries of the migrations, the check for
      orphaned files, the sweep loop.

    ** What the theorems show

    - Contents: ObjectStore states what the manager promises, and that any
      sequence of uploads, downloads, deletions, sweeps, preloading rounds and
      losses of cache entries keeps it; Durability, that a file which no job
      touches is kept and served whatever else runs, call by call, so that an
      upload is what any later download returns, also when calls fail, and
      S3Objects the same from PutObject to GetObject; Publication, that an upload
      in flight is all or nothing and then stays; Readers, that a download of its
      key returns all of it or an error; Finality, that a deletion is final; Concurrency, that concurrent uploads of
      different keys all take effect in every interleaving of their phases; App,
      that over HTTP a download returns what an upload stored.  In parts: what was
      uploaded is what a download returns, through compression, encryption,
      deduplication and a cache that may lose entries (Upload); both codecs and
      both ciphers invert (Compression, Crypto); range reads are slices of full
      reads (Ranges), and a range request is answered with the slice of the
      upload whichever of three ways serves it (RangeDownload); a write is
      atomic (Performance).
    - Tables: in every reachable state, also between any two calls of the jobs in
      flight, the tables satisfy the constraints of the schema, whatever calls
      fail and wherever jobs are dropped (StorageWf, Concurrency, Provenance, with
      [db_wf] as the invariant and [stmt_keeps] for each statement), and every row
      says what an upload of its key said (Provenance); saving, finding and paging
      rows (Database).
    - Deletion and expiry: a deletion or a sweep never takes bytes that another
      row needs and removes exactly what it should (Deletion); an expired file
      is served by no route (Expiry) and is gone in the end (Server).
    - Files: no job reaches outside the storage directory, in any interleaving
      (Confinement).
    - Access: nothing is revealed without the download token (App), download
      protection (FileHandlers), signatures (SigV4), no effect without a valid
      signature (S3), the life of a key (EncryptionKeys), the bound of the
      limiter (Limiter).
    - Responses: every reply is well formed (Responses); range headers, refusals
      of an upload, full downloads (FileHandlers), listings and batch deletes
      (S3).
    - Start-up: it sets up what the environment describes, the wait for the
      database ends, and the background job deletes nothing (Server).
    - Behaviour that surprises: an upload that loses its bytes to a deletion at
      the same time (Concurrency), uploads of one key that leave the row of one
      with the bytes of the other, an upload that is dropped and corrupts the
      key, a slow download that puts an overwritten or deleted row back into the
      cache, a bucket whose deletion takes the bytes of other buckets (Races), an
      overwrite that reaches an alias or loses the old bytes, plain text under a
      row that says encrypted, keys that leave their bucket, a preloader that
      counts what it does not cache (Hazards), pages of a listing that repeat files
      of the same upload time (Database), stale cache entries after an overwrite (Upload), a passing
      read error that deletes a file (Ranges), a temporary file that destroys a
      sibling (Performance), colliding cache keys (Cache), searches and
      deletions that reach further than they should (FileHandlers), stored
      bytes returned as they are when compression is off (Compression),
      options that a repeated upload drops, a failed count that unlinks, headers
      that are honoured unsigned, the order of query parameters, the length a
      HEAD reports, a row the statistics refuse, a bucket created under an error
      (Gaps).

    The settings are arbitrary unless a theorem says otherwise.  Where content
    is compressed, what was uploaded comes back if compression is enabled: with
    the default settings it is not, and only a request that asks for compression
    is then served the stored form; theorems that speak of a service as it is
    started ([Storage.as_built]) cover both.  The database may return rows in any
    order, another one for every LIMIT and OFFSET ([pg_scan]), and the theorems
    hold for all of them.

    ** Bounds and fuel

    Fixed-width integers are [Z] with the bounds of their types where the code
    can reach them ([as_u64], [as_u32], [saturating_sub], the
    parsers).  The decoder loops
    take fuel: one more than the bytes the decoder can still yield
    ([stream_fuel]), which is enough because a read that returns nothing ends
    the loop; the loop lemmas of Compression show that fuel never runs out.
    The retry loop of the migrations takes 31 units, one a run, and Server
    shows that it ends within them.  The preloader and the sweep loop never
    end: they are given by their rounds.  Splitting and trimming loops take the
    length of the text.

    ** What is not modelled

    - What the theorems of jobs in flight leave out: a second upload of the key
      at the same time, an upload that shares its temporary file and a download
      that is on its way while the key is deleted, which Races and Performance
      show to go wrong, and, when duplicates are looked for, an upload of the
      same content under another key.
    - Interleavings inside a call.  A transaction is one call, so what
      PostgreSQL's isolation level lets two transactions see of each other is not
      modelled; a file that is open while it is written is known by its place,
      not by its handle.  A request that calls the manager several times is, in
      the pool, one job for each.
    - [f32]/[f64]: ratios and sizes are exact rationals.  Times are whole
      microseconds, the resolution of the database.
    - Symbolic links, permissions and file names that are not UTF-8; texts with
      NUL bytes, which PostgreSQL refuses.
    - The rows of storage_stats, which the program never reads: only the check
      with which its trigger can refuse a statement ([stats_ok]).
    - Logging, the connection pool, the statements of the migration runner,
      CORS headers, the 408 reply of the time-out, the listener and
      axum::serve: I/O and layers of crates outside the repository. *)

From Stdlib Require Export ZArith Lia.
From Stdlib Require Strings.Ascii Strings.Byte Strings.String.
From stdpp Require Export prelude strings gmap fin_maps list pretty sorting.

Export Stdlib.Strings.Ascii (ascii(..)).
Export (notations) Stdlib.Strings.Ascii.
#[global] Open Scope Z_scope.

(** ** Results

    Rust's [Result<T, E>].  The error type comes first so that [result E]
    is a monad. *)
Inductive result (E A : Type) : Type :=
| Ok (a : A)
| Err (e : E).
Arguments Ok {E A} a.
Arguments Err {E A} e.

#[export] Instance result_eq_dec {E A} `{EqDecision E, EqDecision A} :
  EqDecision (result E A).
Proof. solve_decision. Defined.

Definition map_result_err {E F A} (g : E → F) (r : result E A) : result F A :=
  match r with Ok a => Ok a | Err e => Err (g e) end.

(** [Result::is_ok] and [Result::ok]. *)
Definition is_ok {E A} (r : result E A) : bool :=
  match r with Ok _ => true | Err _ => false end.

Definition ok {E A} (r : result E A) : option A :=
  match r with Ok a => Some a | Err _ => None end.

(** [Option::ok_or]. *)
Definition ok_or {E A} (e : E) (o : option A) : result E A :=
  match o with Some a => Ok a | None => Err e end.

#[export] Instance result_ret {E} : MRet (result E) := λ A a, Ok a.
#[export] Instance result_bind {E} : MBind (result E) := λ A B f r,
  match r with Ok a => f a | Err e => Err e end.

(** ** Programs with state and errors

    A call that reads and changes the world and may fail.  An error keeps
    the state reached so far: the effects of the calls made before the
    failing one stay, as they do in the code. *)
Definition prog (S E A : Type) : Type := S → result E A * S.

#[export] Instance prog_ret {S E} : MRet (prog S E) := λ A a w, (Ok a, w).
#[export] Instance prog_bind {S E} : MBind (prog S E) := λ A B f m w,
  match m w with
  | (Ok a, w') => f a w'
  | (Err e, w') => (Err e, w')
  end.

Section prog.
Context {S E : Type}.

(** [return Err(e)], or a [?] on a value that is an error. *)
Definition throw {A} (e : E) : prog S E A := λ w, (Err e, w).

(** [?] on a pure result. *)
Definition lift {A} (r : result E A) : prog S E A := λ w, (r, w).

Definition get_state : prog S E S := λ w, (Ok w, w).

(** Running a call and keeping its result as a value: what [match f().await]
    and [if let Err(e) = f().await] do. *)
Definition attempt {A F} (m : prog S E A) : prog S F (result E A) := λ w,
  let '(r, w') := m w in (Ok r, w').

(** [for x in l { ... }] with a body that may return early on an error. *)
Fixpoint for_each {A B} (l : list A) (acc : B) (body : A → B → prog S E B) : prog S E B :=
  match l with
  | [] => mret acc
  | x :: rest => acc' ← body x acc; for_each rest acc' body
  end.
End prog.

(** [map_err]. *)
Definition map_err {S E F A} (g : E → F) (m : prog S E A) : prog S F A := λ w,
  let '(r, w') := m w in (map_result_err g r, w').


(** ** Relations kept by programs

    [respects R m]: whatever the call returns, the state after it is related
    to the state before it.  For a preorder [R] the calls that respect it are
    closed under sequencing, so a property of a whole handler follows from the
    same property of the external calls it makes. *)
Definition respects {S E A} (R : relation S) (m : prog S E A) : Prop :=
  ∀ w, R w (m w).2.

(** An invariant of the state is the case of the preorder "if it held before,
    it holds after". *)
Definition keeps {S} (I : S → Prop) : relation S := λ w w', I w → I w'.

#[export] Instance keeps_preorder {S} (I : S → Prop) : PreOrder (keeps I).
Proof. split; unfold keeps; [by intros ??|by intros x y z; auto]. Qed.

Create HintDb respects.

Section respects.
Context {S E : Type} (R : relation S) `{!PreOrder R}.

Lemma respects_ret {A} (a : A) : respects R (mret a : prog S E A).
Proof. intros w. reflexivity. Qed.

Lemma respects_throw {A} (e : E) : respects R (throw e : prog S E A).
Proof. intros w. reflexivity. Qed.

Lemma respects_lift {A} (r : result E A) : respects R (lift r : prog S E A).
Proof. intros w. reflexivity. Qed.

Lemma respects_get_state : respects R (get_state : prog S E S).
Proof. intros w. reflexivity. Qed.

Lemma respects_bind {A B} (m : prog S E A) (k : A → prog S E B) :
  respects R m → (∀ a, respects R (k a)) → respects R (m ≫= k).
Proof.
  intros Hm Hk w. unfold mbind, prog_bind.
  specialize (Hm w). destruct (m w) as [[a|e] w']; [|done].
  etrans; [exact Hm|apply Hk].
Qed.

Lemma respects_attempt {A F} (m : prog S E A) :
  respects R m → respects R (attempt m : prog S F _).
Proof. intros Hm w. specialize (Hm w). unfold attempt. by destruct (m w). Qed.

Lemma respects_map_err {A F} (g : E → F) (m : prog S E A) :
  respects R m → respects R (map_err g m).
Proof. intros Hm w. specialize (Hm w). unfold map_err. by destruct (m w). Qed.

Lemma respects_for_each {A B} (l : list A) (acc : B) (body : A → B → prog S E B) :
  (∀ x b, respects R (body x b)) → respects R (for_each l acc body).
Proof.
  intros Hb. revert acc. induction l as [|x l IH]; intros acc; simpl.
  - apply respects_ret.
  - apply respects_bind; auto.
Qed.
End respects.

#[export] Hint Resolve respects_ret respects_throw respects_lift respects_get_state
  respects_bind respects_attempt respects_map_err respects_for_each : respects.

(** Walks through a handler: splits binds, branches and error handlers until
    only the external calls are left, and closes those with the hints. *)
Ltac solve_respects :=
  repeat first
    [ progress intros
    | solve [eauto 2 with respects typeclass_instances]
    | match goal with |- PreOrder _ => typeclasses eauto end
    | simple apply respects_ret | simple apply respects_throw | simple apply respects_lift
    | simple apply respects_get_state
    | simple apply respects_attempt | simple apply respects_map_err | simple apply respects_for_each
    | solve [eauto with respects]
    | simple apply respects_bind
    | match goal with |- respects _ (match ?x with _ => _ end) => destruct x end
    | progress cbv beta zeta ].

(** ** Machine integers

    Fixed-width integers are [Z] with the bounds of their Rust types written
    out where the code can reach them. *)
Definition u64_max : Z := 2 ^ 64 - 1.
Definition u32_max : Z := 2 ^ 32 - 1.
Definition i64_max : Z := 2 ^ 63 - 1.
Definition i64_min : Z := - 2 ^ 63.
Definition i32_max : Z := 2 ^ 31 - 1.
Definition i32_min : Z := - 2 ^ 31.

(** [u64::saturating_sub]. *)
Definition saturating_sub (a b : Z) : Z := Z.max 0 (a - b).

(** [x as u64], [x as u32] for a signed [x]: two's complement. *)
Definition as_u64 (x : Z) : Z := x mod 2 ^ 64.
Definition as_u32 (x : Z) : Z := x mod 2 ^ 32.

Lemma as_u64_id x : 0 ≤ x ≤ i64_max → as_u64 x = x.
Proof. intros H. unfold as_u64, i64_max in *. apply Z.mod_small. lia. Qed.

(** ** Bytes and strings

    A Rust [String] is modelled by its UTF-8 bytes ([string], one [ascii] per
    byte), a [Vec<u8>] by [list byte]. *)
Abbreviation bytes := (list Byte.byte).

Definition as_bytes (s : string) : bytes := String.list_byte_of_string s.
Definition bytes_to_string (b : bytes) : string := String.string_of_list_byte b.
Definition byte_val (b : Byte.byte) : Z := Z.of_N (Byte.to_N b).
Definition char_val (c : ascii) : Z := Z.of_N (Ascii.N_of_ascii c).
Definition zlen {A} (l : list A) : Z := Z.of_nat (length l).
Definition slen (s : string) : Z := Z.of_nat (String.length s).

Lemma zlen_nonneg {A} (l : list A) : 0 ≤ zlen l.
Proof. unfold zlen. lia. Qed.

Lemma zlen_nil {A} : zlen (@nil A) = 0.
Proof. done. Qed.

Lemma zlen_cons {A} (x : A) l : zlen (x :: l) = 1 + zlen l.
Proof. unfold zlen. rewrite length_cons. lia. Qed.

Lemma zlen_app {A} (l l' : list A) : zlen (l ++ l') = zlen l + zlen l'.
Proof. unfold zlen. rewrite length_app. lia. Qed.

#[export] Instance byte_eq_dec : EqDecision Byte.byte := Byte.byte_eq_dec.
#[export] Instance byte_countable : Countable Byte.byte.
Proof.
  refine (inj_countable' Byte.to_N (λ n, default Byte.x00 (Byte.of_N n)) _).
  intros b. by rewrite Byte.of_to_N.
Defined.

Definition char_eqb (a b : ascii) : bool := Ascii.eqb a b.

(** [str::strip_prefix] and [str::starts_with]. *)
Fixpoint strip_prefix (p s : string) : option string :=
  match p, s with
  | EmptyString, _ => Some s
  | String a p', String b s' => if char_eqb a b then strip_prefix p' s' else None
  | String _ _, EmptyString => None
  end.

Definition starts_with (s p : string) : bool :=
  match strip_prefix p s with Some _ => true | None => false end.

(** [str::contains] for a character and for a string. *)
Fixpoint contains_char (c : ascii) (s : string) : bool :=
  match s with
  | EmptyString => false
  | String d s' => char_eqb c d || contains_char c s'
  end.

Fixpoint contains_str (p s : string) : bool :=
  starts_with s p ||
  match s with EmptyString => false | String _ s' => contains_str p s' end.

(** [str::split_once] for a character. *)
Fixpoint split_once (c : ascii) (s : string) : option (string * string) :=
  match s with
  | EmptyString => None
  | String d s' =>
    if char_eqb c d then Some (EmptyString, s')
    else match split_once c s' with
         | Some (a, b) => Some (String d a, b)
         | None => None
         end
  end.

(** [str::split] for a character: always at least one piece. *)
Fixpoint split (c : ascii) (s : string) : list string :=
  match s with
  | EmptyString => [EmptyString]
  | String d s' =>
    if char_eqb c d then EmptyString :: split c s'
    else match split c s' with
         | [] => [String d EmptyString]
         | x :: r => String d x :: r
         end
  end.

(** [str::splitn]. *)
Fixpoint splitn (n : nat) (c : ascii) (s : string) : list string :=
  match n with
  | O => []
  | 1%nat => [s]
  | Datatypes.S n' =>
    match split_once c s with
    | Some (a, b) => a :: splitn n' c b
    | None => [s]
    end
  end.

(** [[String]::join]. *)
Fixpoint join (sep : string) (l : list string) : string :=
  match l with
  | [] => EmptyString
  | [x] => x
  | x :: r => x +:+ sep +:+ join sep r
  end.

(** [str::trim], over the ASCII white space the headers and settings can hold. *)
Fixpoint trim_start (s : string) : string :=
  match s with
  | EmptyString => EmptyString
  | String c s' => if Ascii.is_space c then trim_start s' else s
  end.

Fixpoint trim_end (s : string) : string :=
  match s with
  | EmptyString => EmptyString
  | String c s' =>
    match trim_end s' with
    | EmptyString => if Ascii.is_space c then EmptyString else String c EmptyString
    | t => String c t
    end
  end.

Definition trim (s : string) : string := trim_end (trim_start s).

(** [str::ends_with], and the part before the suffix. *)
Fixpoint strip_suffix (suf s : string) : option string :=
  if decide (s = suf) then Some EmptyString
  else match s with
       | EmptyString => None
       | String c s' => String c <$> strip_suffix suf s'
       end.

Definition ends_with (s suf : string) : bool :=
  match strip_suffix suf s with Some _ => true | None => false end.

(** [str::trim_end_matches] removes the suffix as often as it occurs.  Each
    removal shortens the string, so its length is enough fuel (the suffix is
    never empty in this program). *)
Fixpoint trim_end_matches_fuel (fuel : nat) (suf s : string) : string :=
  match fuel with
  | O => s
  | Datatypes.S f =>
    match strip_suffix suf s with
    | Some s' => trim_end_matches_fuel f suf s'
    | None => s
    end
  end.

Definition trim_end_matches (suf s : string) : string :=
  trim_end_matches_fuel (String.length s) suf s.

(** [trim_start_matches] for a character. *)
Fixpoint trim_start_matches (c : ascii) (s : string) : string :=
  match s with
  | EmptyString => EmptyString
  | String d s' => if char_eqb c d then trim_start_matches c s' else s
  end.

Definition is_ascii_digit (c : ascii) : bool := (48 <=? char_val c) && (char_val c <=? 57).

Definition is_ascii_alphanumeric (c : ascii) : bool :=
  is_ascii_digit c
  || ((65 <=? char_val c) && (char_val c <=? 90))
  || ((97 <=? char_val c) && (char_val c <=? 122)).

Definition to_lowercase_char (c : ascii) : ascii :=
  if (65 <=? char_val c) && (char_val c <=? 90)
  then Ascii.ascii_of_N (Z.to_N (char_val c + 32)) else c.

(** [str::to_lowercase] on ASCII text. *)
Fixpoint to_lowercase (s : string) : string :=
  match s with
  | EmptyString => EmptyString
  | String c s' => String (to_lowercase_char c) (to_lowercase s')
  end.

(** [str::parse] for the integer types: an optional sign, then at least one
    digit, and an error when the value does not fit.  A minus sign is only
    accepted by the signed types. *)
Fixpoint parse_digits (acc : Z) (s : string) : option Z :=
  match s with
  | EmptyString => Some acc
  | String c s' =>
    if is_ascii_digit c then parse_digits (acc * 10 + (char_val c - 48)) s' else None
  end.

Definition parse_nat_digits (s : string) : option Z :=
  match s with EmptyString => None | _ => parse_digits 0 s end.

Definition parse_unsigned (mx : Z) (s : string) : option Z :=
  let body := match s with String "+" s' => s' | _ => s end in
  match parse_nat_digits body with
  | Some n => if n <=? mx then Some n else None
  | None => None
  end.

Definition parse_signed (mn mx : Z) (s : string) : option Z :=
  let r := match s with
           | String "+" s' => parse_nat_digits s'
           | String "-" s' => Z.opp <$> parse_nat_digits s'
           | _ => parse_nat_digits s
           end in
  match r with
  | Some n => if (mn <=? n) && (n <=? mx) then Some n else None
  | None => None
  end.

Definition parse_u64 : string → option Z := parse_unsigned u64_max.
Definition parse_u32 : string → option Z := parse_unsigned u32_max.
Definition parse_u16 : string → option Z := parse_unsigned (2 ^ 16 - 1).
Definition parse_u8 : string → option Z := parse_unsigned (2 ^ 8 - 1).
Definition parse_i64 : string → option Z := parse_signed i64_min i64_max.
Definition parse_i32 : string → option Z := parse_signed i32_min i32_max.

Definition parse_bool (s : string) : option bool :=
  if decide (s = "true") then Some true
  else if decide (s = "false") then Some false else None.

(** ** Lemmas on strings *)
Create Rewrite HintDb strings.

Lemma str_app_nil_l s : EmptyString +:+ s = s.
Proof. done. Qed.

Lemma str_app_cons a s t : String a s +:+ t = String a (s +:+ t).
Proof. done. Qed.

Lemma str_app_nil_r s : s +:+ EmptyString = s.
Proof. induction s as [|a s IH]; [done|]. by rewrite str_app_cons, IH. Qed.

Lemma str_app_assoc s t u : (s +:+ t) +:+ u = s +:+ t +:+ u.
Proof. induction s as [|a s IH]; [done|]. by rewrite !str_app_cons, IH. Qed.

Lemma length_str_app s t : String.length (s +:+ t) = (String.length s + String.length t)%nat.
Proof. induction s as [|a s IH]; [done|]. rewrite str_app_cons. simpl. by rewrite IH. Qed.

#[export] Hint Rewrite str_app_nil_l str_app_cons str_app_nil_r str_app_assoc
  length_str_app : strings.

Lemma str_app_inj_r s1 s2 t : s1 +:+ t = s2 +:+ t → s1 = s2.
Proof.
  revert s2. induction s1 as [|a s1 IH]; intros [|b s2]; rewrite ?str_app_cons, ?str_app_nil_l.
  - done.
  - intros H. apply (f_equal String.length) in H. simpl in H.
    rewrite length_str_app in H. lia.
  - intros H. apply (f_equal String.length) in H. simpl in H.
    rewrite length_str_app in H. lia.
  - intros [= -> H]. f_equal. auto.
Qed.

Lemma char_eqb_eq a b : char_eqb a b = true ↔ a = b.
Proof. apply Ascii.eqb_eq. Qed.

Lemma char_eqb_refl a : char_eqb a a = true.
Proof. by apply char_eqb_eq. Qed.

Lemma char_eqb_neq a b : a ≠ b → char_eqb a b = false.
Proof. intros H. apply not_true_is_false. by rewrite char_eqb_eq. Qed.

(** [char_case a b] splits on whether two characters are the same. *)
Ltac char_case a b :=
  let H := fresh "Hc" in
  destruct (char_eqb a b) eqn:H;
  [apply char_eqb_eq in H; subst|].

Lemma strip_prefix_app p s : strip_prefix p (p +:+ s) = Some s.
Proof.
  induction p as [|a p IH]; [done|]. rewrite str_app_cons. simpl.
  by rewrite char_eqb_refl.
Qed.

Lemma strip_prefix_Some p s r : strip_prefix p s = Some r ↔ s = p +:+ r.
Proof.
  split; [|intros ->; apply strip_prefix_app].
  revert s. induction p as [|a p IH]; intros s; simpl.
  - by intros [= ->].
  - destruct s as [|b s]; [done|]. char_case a b; [|done].
    intros ->%IH. by rewrite str_app_cons.
Qed.

Lemma starts_with_app p s : starts_with (p +:+ s) p = true.
Proof. unfold starts_with. by rewrite strip_prefix_app. Qed.

Lemma strip_suffix_Some suf s r : strip_suffix suf s = Some r ↔ s = r +:+ suf.
Proof.
  revert r. induction s as [|c s IH]; intros r; simpl; case_decide as Heq.
  - split; [intros [= <-]; by rewrite str_app_nil_l, <-Heq|].
    intros H. destruct r; [done|]. by rewrite str_app_cons in H.
  - split; [done|]. intros H. destruct r; [by rewrite str_app_nil_l in H|].
    by rewrite str_app_cons in H.
  - split; [intros [= <-]; by rewrite str_app_nil_l, <-Heq|].
    intros H. f_equal. rewrite <-Heq in H.
    rewrite <-(str_app_nil_l (String c s)) in H at 1. by apply str_app_inj_r in H.
  - rewrite fmap_Some. split.
    + intros (x & Hx & ->). apply IH in Hx. by rewrite str_app_cons, <-Hx.
    + destruct r as [|d r]; [by rewrite str_app_nil_l|].
      rewrite str_app_cons. intros [= -> H]. exists r. by rewrite IH.
Qed.

Lemma split_once_Some c s a b :
  split_once c s = Some (a, b) ↔ s = a +:+ String c b ∧ contains_char c a = false.
Proof.
  revert a b. induction s as [|d s IH]; intros a b; simpl.
  - split; [done|]. intros [H _]. destruct a; by rewrite ?str_app_nil_l, ?str_app_cons in H.
  - char_case c d.
    + split; [by intros [= <- <-]|]. intros [H Ha]. destruct a as [|e a].
      * rewrite str_app_nil_l in H. by injection H as ->.
      * rewrite str_app_cons in H. injection H as -> ->. simpl in Ha.
        by rewrite char_eqb_refl in Ha.
    + transitivity (∃ a', a = String d a' ∧ split_once c s = Some (a', b)).
      { destruct (split_once c s) as [[a' b']|].
        - split; [intros [= <- <-]; eauto|by intros (? & -> & [= -> ->])].
        - by split; [|intros (? & _ & ?)]. }
      split.
      * intros (a' & -> & [-> Ha]%IH). simpl. by rewrite Hc, str_app_cons.
      * intros [H Ha]. destruct a as [|e a].
        { rewrite str_app_nil_l in H. injection H as -> _. by rewrite char_eqb_refl in Hc. }
        rewrite str_app_cons in H. injection H as -> H. simpl in Ha.
        apply orb_false_iff in Ha as [_ Ha]. exists a. by rewrite IH.
Qed.

Lemma split_once_None c s : split_once c s = None ↔ contains_char c s = false.
Proof.
  induction s as [|d s IH]; [done|]. simpl. destruct (char_eqb c d); [done|]. simpl.
  rewrite <-IH. by destruct (split_once c s) as [[??]|].
Qed.

Lemma contains_char_app c s t :
  contains_char c (s +:+ t) = contains_char c s || contains_char c t.
Proof.
  induction s as [|d s IH]; [done|]. rewrite str_app_cons. simpl.
  by rewrite IH, orb_assoc.
Qed.

Lemma split_not_nil c s : split c s ≠ [].
Proof. destruct s as [|d s]; simpl; repeat case_match; done. Qed.

Lemma join_cons sep x l : l ≠ [] → join sep (x :: l) = x +:+ sep +:+ join sep l.
Proof. by destruct l. Qed.

Lemma join_snoc sep l x : l ≠ [] → join sep (l ++ [x]) = join sep l +:+ sep +:+ x.
Proof.
  intros Hl. induction l as [|y l IH]; [done|]. destruct l as [|z l]; [done|].
  change ((y :: z :: l) ++ [x]) with (y :: ((z :: l) ++ [x])).
  rewrite !(join_cons _ y) by (by destruct l). rewrite IH by done.
  by rewrite !str_app_assoc.
Qed.

(** Splitting and joining with the same separator is the identity. *)
Lemma join_split c s : join (String c EmptyString) (split c s) = s.
Proof.
  induction s as [|d s IH]; [done|]. simpl. char_case c d.
  - rewrite join_cons by apply split_not_nil. rewrite IH. done.
  - destruct (split c s) as [|x r] eqn:E; [by destruct (split_not_nil c s)|].
    rewrite <-IH. destruct r; done.
Qed.

Lemma split_pieces c s : Forall (λ p, contains_char c p = false) (split c s).
Proof.
  induction s as [|d s IH]; simpl; [by repeat constructor|]. char_case c d.
  - by constructor.
  - destruct (split c s) as [|x r]; simpl in *.
    + constructor; [simpl; by rewrite Hc|done].
    + inversion IH; subst. constructor; [simpl; by rewrite Hc|done].
Qed.

Lemma split_once_app c a b : contains_char c a = false → split_once c (a +:+ String c b) = Some (a, b).
Proof. intros H. by apply split_once_Some. Qed.

Lemma split_no_char c s : contains_char c s = false → split c s = [s].
Proof.
  induction s as [|d s IH]; [done|]. simpl. intros [Hd Hs]%orb_false_iff. by rewrite Hd, IH.
Qed.

Lemma split_app c p s : contains_char c p = false → split c (p +:+ String c s) = p :: split c s.
Proof.
  induction p as [|d p IH]; [intros _; rewrite str_app_nil_l; simpl; by rewrite char_eqb_refl|].
  rewrite str_app_cons. simpl. intros [Hd Hp]%orb_false_iff. by rewrite Hd, IH.
Qed.

(** Joining pieces without the separator and splitting gives the pieces. *)
Lemma split_join c l :
  l ≠ [] → Forall (λ p, contains_char c p = false) l → split c (join (String c EmptyString) l) = l.
Proof.
  intros Hne Hl. induction Hl as [|p l Hp Hl IH]; [done|].
  destruct l as [|q l]; [by apply split_no_char|].
  rewrite join_cons by done. rewrite str_app_cons, str_app_nil_l, split_app by done. by rewrite IH.
Qed.

Lemma join_inj c l l' :
  l ≠ [] → l' ≠ [] → Forall (λ p, contains_char c p = false) l →
  Forall (λ p, contains_char c p = false) l' →
  join (String c EmptyString) l = join (String c EmptyString) l' → l = l'.
Proof. intros ? ? ? ? H. rewrite <-(split_join c l), <-(split_join c l') by done. by rewrite H. Qed.

(** ** Texts whose characters all have a property *)

Definition all_chars (P : ascii → Prop) (s : string) : Prop :=
  Forall P (String.list_ascii_of_string s).

Lemma all_chars_app P s t : all_chars P (s +:+ t) ↔ all_chars P s ∧ all_chars P t.
Proof.
  unfold all_chars. induction s as [|c s IH].
  - rewrite str_app_nil_l. simpl. split; [by split; [constructor|]|by intros [_ ?]].
  - rewrite str_app_cons. simpl. rewrite !Forall_cons, IH. tauto.
Qed.

Lemma all_chars_cons P c s : all_chars P (String c s) ↔ P c ∧ all_chars P s.
Proof. unfold all_chars. simpl. apply Forall_cons. Qed.

Lemma all_chars_impl (P Q : ascii → Prop) s : (∀ c, P c → Q c) → all_chars P s → all_chars Q s.
Proof. unfold all_chars. intros H Hs. by eapply Forall_impl. Qed.

Lemma all_chars_join P sep l : all_chars P sep → Forall (all_chars P) l → all_chars P (join sep l).
Proof.
  intros Hs Hl. induction Hl as [|p l Hp Hl IH]; [constructor|].
  destruct l; [done|]. rewrite join_cons by done. rewrite !all_chars_app. tauto.
Qed.

Lemma all_chars_free (P : ascii → Prop) c s : ¬ P c → all_chars P s → contains_char c s = false.
Proof.
  intros Hc Hs. unfold all_chars in Hs. induction s as [|d s IH]; [done|]. simpl in *.
  inversion Hs; subst. rewrite IH, char_eqb_neq by (done || (intros ->; done)). done.
Qed.

Lemma trim_end_id s : all_chars (λ c, Ascii.is_space c = false) s → trim_end s = s.
Proof.
  induction s as [|c s IH]; [done|]. rewrite all_chars_cons. intros [Hc Hs]. simpl.
  rewrite (IH Hs). destruct s; [by rewrite Hc|done].
Qed.

(** White space in front goes, and nothing else when there is none elsewhere. *)
Lemma trim_spaces_front s t :
  all_chars (λ c, Ascii.is_space c = true) s → all_chars (λ c, Ascii.is_space c = false) t →
  trim (s +:+ t) = t.
Proof.
  intros Hs Ht. unfold trim. induction s as [|c s IH].
  - rewrite str_app_nil_l. destruct t as [|c t]; [done|]. simpl trim_start.
    apply all_chars_cons in Ht as Hc. rewrite (proj1 Hc). by apply trim_end_id.
  - apply all_chars_cons in Hs as [Hc Hs]. rewrite str_app_cons. simpl. rewrite Hc. auto.
Qed.

Lemma trim_id s : all_chars (λ c, Ascii.is_space c = false) s → trim s = s.
Proof. rewrite <- (str_app_nil_l s) at 2. apply trim_spaces_front. constructor. Qed.

(** ** Lemmas on number parsing *)

Lemma is_ascii_digit_range c : is_ascii_digit c = true → 0 ≤ char_val c - 48 ≤ 9.
Proof. unfold is_ascii_digit. intros [H1 H2]%andb_true_iff. lia. Qed.

Lemma parse_digits_nonneg s acc n : 0 ≤ acc → parse_digits acc s = Some n → 0 ≤ n.
Proof.
  revert acc. induction s as [|c s IH]; intros acc Ha; simpl; [by intros [= <-]|].
  destruct (is_ascii_digit c) eqn:Hd; [|done].
  apply is_ascii_digit_range in Hd. apply IH. lia.
Qed.

Lemma parse_nat_digits_nonneg s n : parse_nat_digits s = Some n → 0 ≤ n.
Proof. destruct s; [done|]. apply parse_digits_nonneg. lia. Qed.

(** Whatever the text, a parsed unsigned number is in the range of its type. *)
Lemma parse_unsigned_range mx s n : parse_unsigned mx s = Some n → 0 ≤ n ≤ mx.
Proof.
  unfold parse_unsigned. destruct (parse_nat_digits _) as [m|] eqn:E; [|done].
  apply parse_nat_digits_nonneg in E. case_match eqn:Hle; [|done].
  intros [= <-]. lia.
Qed.

Lemma parse_signed_range mn mx s n : parse_signed mn mx s = Some n → mn ≤ n ≤ mx.
Proof.
  unfold parse_signed. set (r := match s with EmptyString => _ | _ => _ end).
  destruct r as [m|]; [|done]. case_match eqn:Hle; [|done].
  apply andb_true_iff in Hle. intros [= <-]. lia.
Qed.

Lemma pretty_digit_char d :
  (d < 10)%N → is_ascii_digit (pretty_N_char d) = true
  ∧ char_val (pretty_N_char d) - 48 = Z.of_N d.
Proof.
  intros H. assert (d = 0 ∨ d = 1 ∨ d = 2 ∨ d = 3 ∨ d = 4 ∨ d = 5 ∨ d = 6 ∨ d = 7
    ∨ d = 8 ∨ d = 9)%N as Hd by lia.
  destruct_or! Hd; subst; done.
Qed.

Lemma parse_digits_pretty_go x s :
  ∃ k, 0 ≤ k ∧ ∀ acc, parse_digits acc (pretty_N_go x s)
                      = parse_digits (acc * 10 ^ k + Z.of_N x) s.
Proof.
  revert s. induction (N.lt_wf_0 x) as [x _ IH]; intros s.
  destruct (decide (x = 0)%N) as [->|Hx].
  { exists 0. split; [lia|]. intros acc. rewrite pretty_N_go_0. f_equal. lia. }
  destruct (IH (x `div` 10)%N (N.div_lt x 10 ltac:(lia) ltac:(lia))
              (String (pretty_N_char (x `mod` 10)) s)) as (k & Hk & H).
  exists (k + 1). split; [lia|]. intros acc.
  rewrite pretty_N_go_step by lia. rewrite H. simpl.
  destruct (pretty_digit_char (x `mod` 10)) as [-> ->]; [by apply N.mod_lt|].
  f_equal. rewrite Z.pow_add_r by lia.
  rewrite N2Z.inj_div, N2Z.inj_mod. pose proof (Z.div_mod (Z.of_N x) 10). lia.
Qed.

(** Printing a natural number and reading it back. *)
Lemma parse_nat_digits_pretty n : parse_nat_digits (pretty (n : N)) = Some (Z.of_N n).
Proof.
  unfold pretty, pretty_N. case_decide as Hn; [by subst|].
  assert (parse_digits 0 (pretty_N_go n "") = Some (Z.of_N n)) as H.
  { destruct (parse_digits_pretty_go n "") as (k & _ & ->). simpl. f_equal; lia. }
  unfold parse_nat_digits. destruct (pretty_N_go n "") eqn:E; [|done].
  simpl in H. injection H as H. lia.
Qed.

Lemma pretty_N_head_digit n : ∃ c s, pretty (n : N) = String c s ∧ is_ascii_digit c = true.
Proof.
  pose proof (parse_nat_digits_pretty n) as H. destruct (pretty n) as [|c s]; [done|].
  exists c, s. split; [done|]. simpl in H. by destruct (is_ascii_digit c).
Qed.

Lemma parse_unsigned_pretty mx n : 0 ≤ n ≤ mx → parse_unsigned mx (pretty n) = Some n.
Proof.
  intros Hn. assert (pretty n = pretty (Z.to_N n)) as -> by (by destruct n; try lia).
  unfold parse_unsigned.
  assert (match pretty (Z.to_N n) with String "+" s' => s' | _ => pretty (Z.to_N n) end
          = pretty (Z.to_N n)) as ->.
  { destruct (pretty_N_head_digit (Z.to_N n)) as (c & s & -> & Hc).
    destruct c as [[] [] [] [] [] [] [] []]; try done; vm_compute in Hc; done. }
  rewrite parse_nat_digits_pretty, Z2N.id by lia.
  destruct (Z.leb_spec n mx); [done|lia].
Qed.

Lemma is_ascii_digit_not_dash : is_ascii_digit "-" = false.
Proof. done. Qed.

Lemma contains_char_pretty_go c x s :
  is_ascii_digit c = false → contains_char c (pretty_N_go x s) = contains_char c s.
Proof.
  intros Hc. revert s. induction (N.lt_wf_0 x) as [x _ IH]; intros s.
  destruct (decide (x = 0)%N) as [->|Hx]; [by rewrite pretty_N_go_0|].
  rewrite pretty_N_go_step by lia. rewrite IH by (apply N.div_lt; lia). simpl.
  destruct (pretty_digit_char (x `mod` 10)) as [Hd _]; [by apply N.mod_lt|].
  rewrite char_eqb_neq; [done|]. intros ->. congruence.
Qed.

(** A decimal number holds nothing but digits. *)
Lemma contains_char_pretty c n :
  0 ≤ n → is_ascii_digit c = false → contains_char c (pretty n) = false.
Proof.
  intros Hn Hc. assert (pretty n = pretty (Z.to_N n)) as -> by (by destruct n; try lia).
  unfold pretty at 1, pretty_N. case_decide.
  - simpl. rewrite char_eqb_neq; [done|]. intros ->. done.
  - by rewrite contains_char_pretty_go.
Qed.
