(* ===== verification/Errors.v ===== *)
(** * Errors (errors.rs)

    The error type of every operation, its conversions from the errors of the
    libraries, its text and the HTTP response it becomes. *)

From S2P Require Import Prelude.

Inductive StorageError : Type :=
| NotFound (bucket key : string)
| AlreadyExists (bucket key : string)
| InvalidBucket (msg : string)
| InvalidKey (msg : string)
| InvalidFile (msg : string)
| Validation (msg : string)
| Configuration (msg : string)
| Migration (msg : string)
| Redis (msg : string)
| Json (msg : string)
| Multipart (msg : string)
| BadRequest (msg : string)
| PayloadTooLarge (msg : string)
| Database (msg : string)
| Io (msg : string)
| Compression (msg : string)
| Encryption (msg : string)
| InvalidEncryptionAlgorithm (msg : string)
| Cache (msg : string)
| MissingEncryptionKey
| Forbidden (msg : string).

#[export] Instance StorageError_eq_dec : EqDecision StorageError.
Proof. solve_decision. Defined.

(** Errors of the libraries, as far as this program looks at them: their text,
    and for a database error the SQLSTATE code. *)
Record SqlxError := { sqlx_code : option string; sqlx_text : string }.
Record IoError := { io_text : string }.
Record RedisError := { redis_text : string }.
Record JsonError := { json_text : string }.

#[export] Instance IoError_eq_dec : EqDecision IoError.
Proof. solve_decision. Defined.

Definition from_io_error (err : IoError) : StorageError := Io (io_text err).
Definition from_sqlx_error (err : SqlxError) : StorageError := Database (sqlx_text err).
Definition from_redis_error (err : RedisError) : StorageError := Redis (redis_text err).
Definition from_json_error (err : JsonError) : StorageError := Json (json_text err).
Definition from_utf8_error : StorageError := Validation "Invalid UTF-8 in request".

(** [impl fmt::Display for StorageError]. *)
Definition error_to_string (e : StorageError) : string :=
  match e with
  | NotFound bucket key => "File not found: " +:+ bucket +:+ "/" +:+ key
  | AlreadyExists bucket key => "File already exists: " +:+ bucket +:+ "/" +:+ key
  | InvalidBucket msg => "Invalid bucket: " +:+ msg
  | InvalidKey msg => "Invalid key: " +:+ msg
  | InvalidFile msg => "Invalid file: " +:+ msg
  | Validation msg => "Validation error: " +:+ msg
  | Configuration msg => "Configuration error: " +:+ msg
  | Migration msg => "Migration error: " +:+ msg
  | Redis msg => "Redis error: " +:+ msg
  | Json msg => "JSON error: " +:+ msg
  | Multipart msg => "Multipart error: " +:+ msg
  | BadRequest msg => "Bad request: " +:+ msg
  | PayloadTooLarge msg => "Payload too large: " +:+ msg
  | Database msg => "Database error: " +:+ msg
  | Io msg => "IO error: " +:+ msg
  | Compression msg => "Compression error: " +:+ msg
  | Encryption msg => "Encryption error: " +:+ msg
  | InvalidEncryptionAlgorithm msg => "Invalid encryption algorithm: " +:+ msg
  | Cache msg => "Cache error: " +:+ msg
  | MissingEncryptionKey => "Missing encryption key"
  | Forbidden msg => "Forbidden: " +:+ msg
  end.

(** The HTTP status codes the program answers with. *)
Definition STATUS_OK : Z := 200.
Definition STATUS_CREATED : Z := 201.
Definition STATUS_NO_CONTENT : Z := 204.
Definition STATUS_PARTIAL_CONTENT : Z := 206.
Definition STATUS_BAD_REQUEST : Z := 400.
Definition STATUS_FORBIDDEN : Z := 403.
Definition STATUS_NOT_FOUND : Z := 404.
Definition STATUS_CONFLICT : Z := 409.
Definition STATUS_PAYLOAD_TOO_LARGE : Z := 413.
Definition STATUS_RANGE_NOT_SATISFIABLE : Z := 416.
Definition STATUS_TOO_MANY_REQUESTS : Z := 429.
Definition STATUS_INTERNAL_SERVER_ERROR : Z := 500.
Definition STATUS_NOT_IMPLEMENTED : Z := 501.
Definition STATUS_SERVICE_UNAVAILABLE : Z := 503.

(** The [(status, error_message)] pair computed by
    [impl IntoResponse for StorageError]. *)
Definition into_response (e : StorageError) : Z * string :=
  match e with
  | NotFound bucket key => (STATUS_NOT_FOUND, "File not found: " +:+ bucket +:+ "/" +:+ key)
  | AlreadyExists bucket key =>
    (STATUS_CONFLICT, "File already exists: " +:+ bucket +:+ "/" +:+ key)
  | InvalidBucket msg => (STATUS_BAD_REQUEST, "Invalid bucket: " +:+ msg)
  | InvalidKey msg => (STATUS_BAD_REQUEST, "Invalid key: " +:+ msg)
  | InvalidFile msg => (STATUS_BAD_REQUEST, "Invalid file: " +:+ msg)
  | Validation msg => (STATUS_BAD_REQUEST, "Validation error: " +:+ msg)
  | Configuration msg => (STATUS_INTERNAL_SERVER_ERROR, "Configuration error: " +:+ msg)
  | Migration msg => (STATUS_INTERNAL_SERVER_ERROR, "Migration error: " +:+ msg)
  | Redis msg => (STATUS_INTERNAL_SERVER_ERROR, "Redis error: " +:+ msg)
  | Json msg => (STATUS_BAD_REQUEST, "JSON error: " +:+ msg)
  | Multipart msg => (STATUS_BAD_REQUEST, "Multipart error: " +:+ msg)
  | BadRequest msg => (STATUS_BAD_REQUEST, "Bad request: " +:+ msg)
  | PayloadTooLarge msg => (STATUS_PAYLOAD_TOO_LARGE, "Payload too large: " +:+ msg)
  | Database msg => (STATUS_INTERNAL_SERVER_ERROR, "Database error: " +:+ msg)
  | Io msg => (STATUS_INTERNAL_SERVER_ERROR, "IO error: " +:+ msg)
  | Compression msg => (STATUS_INTERNAL_SERVER_ERROR, "Compression error: " +:+ msg)
  | Encryption msg => (STATUS_INTERNAL_SERVER_ERROR, "Encryption error: " +:+ msg)
  | InvalidEncryptionAlgorithm msg =>
    (STATUS_INTERNAL_SERVER_ERROR, "Invalid encryption algorithm: " +:+ msg)
  | Cache msg => (STATUS_INTERNAL_SERVER_ERROR, "Cache error: " +:+ msg)
  | MissingEncryptionKey => (STATUS_INTERNAL_SERVER_ERROR, "Missing encryption key")
  | Forbidden msg => (STATUS_FORBIDDEN, "Forbidden: " +:+ msg)
  end.

(** The body of an error response says what the error's own text says, and
    every error is a client error or a server error, never a success. *)
Lemma into_response_text e :
  (into_response e).2 = error_to_string e ∧ 400 ≤ (into_response e).1 < 600.
Proof. destruct e; split; try reflexivity; vm_compute; split; congruence. Qed.

Lemma into_response_not_found e :
  (into_response e).1 = STATUS_NOT_FOUND ↔ ∃ bucket key, e = NotFound bucket key.
Proof. split; [destruct e; try discriminate; eauto|by intros (? & ? & ->)]. Qed.
