(* ===== verification/Models.v ===== *)
(** * Data model (models.rs)

    The rows and the response bodies, and the conversions between them.
    Times are microseconds since the epoch (the resolution of the database),
    ratios are exact rationals where the code has [f32]/[f64], and a JSON value
    is its text. *)

From Stdlib Require Export QArith_base.
From S2P Require Import Prelude.
#[global] Open Scope Z_scope.

Abbreviation Uuid := bytes.
Abbreviation DateTime := Z.
Abbreviation JsonValue := string.

Record StoredFile := mkStoredFile {
  sf_id : Uuid;
  sf_bucket : string;
  sf_key : string;
  sf_filename : string;
  sf_file_path : string;
  sf_file_size : Z;
  sf_original_size : Z;
  sf_content_type : string;
  sf_hash_blake3 : string;
  sf_hash_md5 : string;
  sf_metadata : option JsonValue;
  sf_is_compressed : option bool;
  sf_is_encrypted : option bool;
  sf_compression_algorithm : option string;
  sf_encryption_algorithm : option string;
  sf_compression_ratio : option Q;
  sf_upload_time : option DateTime;
  sf_last_accessed : option DateTime;
  sf_access_count : Z;
  sf_encryption_key_id : option string;
  sf_compression_enabled : option bool;
  sf_encryption_enabled : option bool;
  sf_compression_level : option Z;
  sf_cache_status : option string;
  sf_last_cache_update : option DateTime;
  sf_cache_hits : option Z;
  sf_cache_priority : option Z;
  sf_expires_at : option DateTime
}.

Record EncryptionKey := mkEncryptionKey {
  ek_id : Z;
  ek_key_id : string;
  ek_key_data : bytes;
  ek_algorithm : string;
  ek_created_at : option DateTime;
  ek_updated_at : option DateTime;
  ek_is_active : option bool;
  ek_description : option string
}.

Record CacheConfig := mkCacheConfig {
  cc_id : Z;
  cc_max_cache_size_gb : option Q;
  cc_cache_ttl_seconds : option Z;
  cc_preload_enabled : option bool;
  cc_min_access_count : option Z;
  cc_cache_priority_weights : option JsonValue;
  cc_auto_cache_threshold : option Z;
  cc_updated_at : option DateTime
}.

Record StorageStats := mkStorageStats {
  ss_total_files : Z;
  ss_total_size : Z;
  ss_compressed_files : Z;
  ss_encrypted_files : Z;
  ss_compression_ratio : option Q;
  ss_last_updated : DateTime
}.

Record UploadRequest := mkUploadRequest {
  urq_bucket : string;
  urq_key : string;
  urq_metadata : option JsonValue;
  urq_compress : option bool;
  urq_encrypt : option bool;
  urq_compression_algorithm : option string;
  urq_compression_level : option Z;
  urq_encryption_key_id : option string
}.

Definition default_upload_request : UploadRequest :=
  mkUploadRequest EmptyString EmptyString None None None None None None.

Record UploadResponse := mkUploadResponse {
  ur_id : Uuid;
  ur_bucket : string;
  ur_key : string;
  ur_file_size : Z;
  ur_content_type : string;
  ur_hash_blake3 : string;
  ur_hash_md5 : string;
  ur_is_compressed : bool;
  ur_is_encrypted : bool;
  ur_compression_ratio : option Q;
  ur_upload_time : DateTime;
  ur_compression_enabled : bool;
  ur_encryption_enabled : bool;
  ur_encryption_key_id : option string;
  ur_expires_at : option DateTime
}.

Record FileInfo := mkFileInfo {
  fi_id : Uuid;
  fi_bucket : string;
  fi_key : string;
  fi_filename : string;
  fi_file_size : Z;
  fi_original_size : Z;
  fi_content_type : string;
  fi_hash_blake3 : string;
  fi_hash_md5 : string;
  fi_metadata : option JsonValue;
  fi_is_compressed : bool;
  fi_is_encrypted : bool;
  fi_compression_algorithm : option string;
  fi_encryption_algorithm : option string;
  fi_compression_ratio : option Q;
  fi_upload_time : DateTime;
  fi_last_accessed : option DateTime;
  fi_access_count : Z;
  fi_compression_enabled : bool;
  fi_encryption_enabled : bool;
  fi_encryption_key_id : option string;
  fi_expires_at : option DateTime
}.

(** ** The documents of an interface no handler produces yet *)

Record FileListResponse := mkFileListResponse {
  fl_files : list FileInfo; fl_total_count : Z; fl_page : Z; fl_per_page : Z; fl_has_more : bool }.

Record BucketInfo := mkBucketInfo {
  bi_name : string; bi_file_count : Z; bi_total_size : Z; bi_compressed_files : Z;
  bi_encrypted_files : Z; bi_compression_ratio : Q; bi_created_at : DateTime;
  bi_last_updated : DateTime }.

Record PopularFile := mkPopularFile {
  pf_bucket : string; pf_key : string; pf_filename : string; pf_access_count : Z;
  pf_file_size : Z; pf_last_accessed : DateTime }.

Record StorageStatsResponse := mkStorageStatsResponse {
  sr_total_files : Z; sr_total_size : Z; sr_total_buckets : Z; sr_compressed_files : Z;
  sr_encrypted_files : Z; sr_average_file_size : Q; sr_compression_ratio : Q;
  sr_popular_files : list PopularFile; sr_bucket_stats : list BucketInfo }.

Record MemoryUsage := mkMemoryUsage { mu_used_mb : Q; mu_total_mb : Q; mu_usage_percent : Q }.

Record HealthResponse := mkHealthResponse {
  hr_status : string; hr_version : string; hr_uptime_seconds : Z; hr_database_connected : bool;
  hr_redis_connected : bool; hr_storage_path : string; hr_available_space : Z; hr_total_space : Z;
  hr_memory_usage : MemoryUsage }.

Record SearchRequest := mkSearchRequest {
  srq_query : string; srq_bucket : option string; srq_content_type : option string;
  srq_min_size : option Z; srq_max_size : option Z; srq_uploaded_after : option DateTime;
  srq_uploaded_before : option DateTime; srq_limit : option Z; srq_offset : option Z }.

Record ErrorResponse := mkErrorResponse { er_error : string; er_status : Z; er_timestamp : DateTime }.

(** [unwrap_or(false)] on the nullable flags of a row. *)
Definition flag (o : option bool) : bool := default false o.

(** [impl From<StoredFile> for FileInfo]; [unwrap_or_default] on a missing
    time is the epoch. *)
Definition file_info_from (file : StoredFile) : FileInfo := {|
  fi_id := sf_id file;
  fi_bucket := sf_bucket file;
  fi_key := sf_key file;
  fi_filename := sf_filename file;
  fi_file_size := sf_file_size file;
  fi_original_size := sf_original_size file;
  fi_content_type := sf_content_type file;
  fi_hash_blake3 := sf_hash_blake3 file;
  fi_hash_md5 := sf_hash_md5 file;
  fi_metadata := sf_metadata file;
  fi_is_compressed := flag (sf_is_compressed file);
  fi_is_encrypted := flag (sf_is_encrypted file);
  fi_compression_algorithm := sf_compression_algorithm file;
  fi_encryption_algorithm := sf_encryption_algorithm file;
  fi_compression_ratio := sf_compression_ratio file;
  fi_upload_time := default 0 (sf_upload_time file);
  fi_last_accessed := sf_last_accessed file;
  fi_access_count := sf_access_count file;
  fi_compression_enabled := flag (sf_compression_enabled file);
  fi_encryption_enabled := flag (sf_encryption_enabled file);
  fi_encryption_key_id := sf_encryption_key_id file;
  fi_expires_at := sf_expires_at file
|}.

(** [impl From<StoredFile> for UploadResponse]. *)
Definition upload_response_from (file : StoredFile) : UploadResponse := {|
  ur_id := sf_id file;
  ur_bucket := sf_bucket file;
  ur_key := sf_key file;
  ur_file_size := sf_file_size file;
  ur_content_type := sf_content_type file;
  ur_hash_blake3 := sf_hash_blake3 file;
  ur_hash_md5 := sf_hash_md5 file;
  ur_is_compressed := flag (sf_is_compressed file);
  ur_is_encrypted := flag (sf_is_encrypted file);
  ur_compression_ratio := sf_compression_ratio file;
  ur_upload_time := default 0 (sf_upload_time file);
  ur_compression_enabled := flag (sf_compression_enabled file);
  ur_encryption_enabled := flag (sf_encryption_enabled file);
  ur_encryption_key_id := sf_encryption_key_id file;
  ur_expires_at := sf_expires_at file
|}.

(** [(bucket, key)], the identity of a row. *)
Definition file_key (f : StoredFile) : string * string := (sf_bucket f, sf_key f).

(** Field updates used by the statements that change single columns. *)
Definition set_access (last_accessed : option DateTime) (access_count : Z)
    (f : StoredFile) : StoredFile :=
  let '(mkStoredFile id b k fn fp fs os ct hb hm md ic ie ca ea cr ut _ _ ek ce ee cl cs lu ch cp ex) := f in
  mkStoredFile id b k fn fp fs os ct hb hm md ic ie ca ea cr ut last_accessed access_count
    ek ce ee cl cs lu ch cp ex.

Definition set_cache_columns (status : option string) (upd : option DateTime) (hits : option Z)
    (f : StoredFile) : StoredFile :=
  let '(mkStoredFile id b k fn fp fs os ct hb hm md ic ie ca ea cr ut la ac ek ce ee cl _ _ _ cp ex) := f in
  mkStoredFile id b k fn fp fs os ct hb hm md ic ie ca ea cr ut la ac ek ce ee cl
    status upd hits cp ex.

Definition set_encryption_key_id (kid : option string) (f : StoredFile) : StoredFile :=
  let '(mkStoredFile id b k fn fp fs os ct hb hm md ic ie ca ea cr ut la ac _ ce ee cl cs lu ch cp ex) := f in
  mkStoredFile id b k fn fp fs os ct hb hm md ic ie ca ea cr ut la ac kid ce ee cl
    cs lu ch cp ex.

(** The row an [INSERT ... ON CONFLICT DO UPDATE] leaves: the new values, with
    the id and the four cache columns (which the statement does not set) of
    the row that was there, or their column defaults. *)
Definition set_identity (id : Uuid) (status : option string) (upd : option DateTime)
    (hits prio : option Z) (f : StoredFile) : StoredFile :=
  let '(mkStoredFile _ b k fn fp fs os ct hb hm md ic ie ca ea cr ut la ac ek ce ee cl _ _ _ _ ex) := f in
  mkStoredFile id b k fn fp fs os ct hb hm md ic ie ca ea cr ut la ac ek ce ee cl
    status upd hits prio ex.

#[export] Instance Q_eq_dec : EqDecision Q.
Proof. solve_decision. Defined.
#[export] Instance StoredFile_eq_dec : EqDecision StoredFile.
Proof. solve_decision. Defined.

#[export] Instance Q_countable : Countable Q.
Proof.
  refine (inj_countable' (λ q, (Qnum q, Qden q)) (λ p, Qmake p.1 p.2) _). by intros [].
Defined.

#[export] Instance StoredFile_countable : Countable StoredFile.
Proof.
  refine (inj_countable'
    (λ f, let '(mkStoredFile id b k fn fp fs os ct hb hm md ic ie ca ea cr ut la ac ek ce ee cl cs lu ch cp ex) := f in
       ((id, b, k, fn, fp, fs, os), (ct, hb, hm, md, ic, ie, ca), (ea, cr, ut, la, ac, ek, ce),
        (ee, cl, cs, lu, ch, cp, ex)))
    (λ t, let '((id, b, k, fn, fp, fs, os), (ct, hb, hm, md, ic, ie, ca),
                (ea, cr, ut, la, ac, ek, ce), (ee, cl, cs, lu, ch, cp, ex)) := t in
       mkStoredFile id b k fn fp fs os ct hb hm md ic ie ca ea cr ut la ac ek ce ee cl cs lu ch cp ex) _).
  by intros [].
Defined.
