(* ===== verification/FileSystem.v ===== *)
(** * Paths and the file system

    [PathBuf] as the standard library defines it on Unix, and the file calls
    of [std::fs]/[tokio::fs] the program makes, over a tree of files and
    directories without symbolic links.  The last section states what the
    storage layer relies on. *)

From S2P Require Import Prelude.
From S2P Require Import Errors.

(** ** Paths *)

(** [Path::join]: an absolute argument replaces the base. *)
Definition path_join (base p : string) : string :=
  if starts_with p "/" then p
  else if decide (base = EmptyString) then p
  else if ends_with base "/" then base +:+ p
  else base +:+ "/" +:+ p.

Definition is_noise (c : string) : bool := bool_decide (c = EmptyString ∨ c = ".").

(** The components a path walks through. *)
Definition components (p : string) : list string :=
  filter (λ c, is_noise c = false) (split "/" p).

(** The pieces of a path without the trailing separators (and dots) that
    [Path::components] ignores, in reverse order. *)
Fixpoint drop_noise (l : list string) : list string :=
  match l with
  | c :: r => if is_noise c then drop_noise r else l
  | [] => []
  end.

Definition rev_pieces (p : string) : list string := drop_noise (rev (split "/" p)).

(** [Path::file_name]. *)
Definition path_file_name (p : string) : option string :=
  match rev_pieces p with
  | n :: _ => if decide (n = "..") then None else Some n
  | [] => None
  end.

(** The part of a name before its last dot, when there is one that is not the
    first character ([rsplit_file_at_dot]). *)
Fixpoint before_last_dot (s : string) : option string :=
  match s with
  | EmptyString => None
  | String c s' =>
    match before_last_dot s' with
    | Some t => Some (String c t)
    | None => if char_eqb c "." then Some EmptyString else None
    end
  end.

Definition file_stem (name : string) : string :=
  match before_last_dot name with
  | Some EmptyString | None => name
  | Some stem => stem
  end.

(** [Path::with_extension]. *)
Definition with_extension (p ext : string) : string :=
  match rev_pieces p with
  | n :: dirs =>
    if decide (n = "..") then p
    else let name := file_stem n +:+ "." +:+ ext in
         match dirs with
         | [] => name
         | _ => join "/" (rev dirs) +:+ "/" +:+ name
         end
  | [] => p
  end.

(** The components of [Path::parent]; [None] for a root or empty path. *)
Definition parent_components (p : string) : option (list string) :=
  match rev (components p) with
  | [] => None
  | _ :: dirs => Some (rev dirs)
  end.

(** ** The tree *)

(** A place in the tree is its components from the last to the first, so that
    the parent is the tail. *)
Abbreviation place := (list string).

Inductive node := NFile (data : bytes) | NDir.

#[export] Instance node_eq_dec : EqDecision node.
Proof. solve_decision. Defined.

Record FS := mkFS { fs_cwd : place; fs_nodes : gmap place node }.

Definition set_nodes (f : gmap place node → gmap place node) (s : FS) : FS :=
  mkFS (fs_cwd s) (f (fs_nodes s)).

Definition ENOENT : IoError := {| io_text := "No such file or directory (os error 2)" |}.
Definition EEXIST : IoError := {| io_text := "File exists (os error 17)" |}.
Definition ENOTDIR : IoError := {| io_text := "Not a directory (os error 20)" |}.
Definition EISDIR : IoError := {| io_text := "Is a directory (os error 21)" |}.
Definition EINVAL : IoError := {| io_text := "Invalid argument (os error 22)" |}.
Definition UNEXPECTED_EOF : IoError := {| io_text := "failed to fill whole buffer" |}.

(** The place a path names: every component but the last is a directory. *)
Fixpoint walk (ns : gmap place node) (cur : place) (cs : list string) : result IoError place :=
  match cs with
  | [] => Ok cur
  | c :: rest =>
    if decide (c = "..") then walk ns (tail cur) rest
    else match rest with
         | [] => Ok (c :: cur)
         | _ => match ns !! (c :: cur) with
                | Some NDir => walk ns (c :: cur) rest
                | Some (NFile _) => Err ENOTDIR
                | None => Err ENOENT
                end
         end
  end.

Definition start_place (s : FS) (p : string) : place :=
  if starts_with p "/" then [] else fs_cwd s.

Definition resolve (s : FS) (p : string) : result IoError place :=
  walk (fs_nodes s) (start_place s p) (components p).

(** A path with a trailing separator only names a directory. *)
Definition wants_dir (p : string) : bool :=
  match rev (split "/" p) with c :: _ => is_noise c | [] => false end.

Definition node_at (s : FS) (l : place) : option node :=
  match l with [] => Some NDir | _ => fs_nodes s !! l end.

Definition parent_is_dir (s : FS) (l : place) : result IoError unit :=
  match node_at s (tail l) with
  | Some NDir => Ok tt
  | Some (NFile _) => Err ENOTDIR
  | None => Err ENOENT
  end.

(** [fs::read] (and the open of [File::open]). *)
Definition fs_read (s : FS) (p : string) : result IoError bytes :=
  l ← resolve s p;
  match node_at s l with
  | Some (NFile d) => if wants_dir p then Err ENOTDIR else Ok d
  | Some NDir => Err EISDIR
  | None => Err ENOENT
  end.

(** [Path::exists]. *)
Definition fs_exists (s : FS) (p : string) : bool :=
  match resolve s p with
  | Ok l => match node_at s l with
            | Some (NFile _) => negb (wants_dir p)
            | Some NDir => true
            | None => false
            end
  | Err _ => false
  end.

(** [File::create]: the file is emptied or made; the place stands for the
    open handle. *)
Definition fs_create (s : FS) (p : string) : result IoError (place * FS) :=
  l ← resolve s p;
  _ ← parent_is_dir s l;
  match node_at s l with
  | Some NDir => Err EISDIR
  | _ => if wants_dir p then Err EISDIR else Ok (l, set_nodes <[l := NFile []]> s)
  end.

Definition fs_write_handle (s : FS) (l : place) (d : bytes) : FS :=
  set_nodes <[l := NFile d]> s.

(** [fs::rename] of a file. *)
Definition fs_rename (s : FS) (p q : string) : result IoError FS :=
  l ← resolve s p;
  m ← resolve s q;
  match node_at s l with
  | Some (NFile d) =>
    _ ← parent_is_dir s m;
    match node_at s m with
    | Some NDir => Err EISDIR
    | _ => if wants_dir q then Err ENOTDIR
           else Ok (set_nodes (λ ns, <[m := NFile d]> (delete l ns)) s)
    end
  | Some NDir => Err EINVAL
  | None => Err ENOENT
  end.

(** [fs::remove_file]. *)
Definition fs_remove_file (s : FS) (p : string) : result IoError FS :=
  l ← resolve s p;
  match node_at s l with
  | Some (NFile _) => if wants_dir p then Err ENOTDIR else Ok (set_nodes (delete l) s)
  | Some NDir => Err EISDIR
  | None => Err ENOENT
  end.

(** [fs::create_dir_all]: makes the missing directories from the outside in;
    a file in the way is an error. *)
Fixpoint make_dirs (ns : gmap place node) (cur : place) (cs : list string) :
    result IoError (gmap place node) :=
  match cs with
  | [] => Ok ns
  | c :: rest =>
    if decide (c = "..") then make_dirs ns (tail cur) rest
    else match ns !! (c :: cur) with
         | Some NDir => make_dirs ns (c :: cur) rest
         | Some (NFile _) => Err (match rest with [] => EEXIST | _ => ENOTDIR end)
         | None => make_dirs (<[c :: cur := NDir]> ns) (c :: cur) rest
         end
  end.

Definition fs_make_dirs (s : FS) (start : place) (cs : list string) : result IoError FS :=
  ns ← make_dirs (fs_nodes s) start cs; Ok (mkFS (fs_cwd s) ns).

Definition fs_create_dir_all (s : FS) (p : string) : result IoError FS :=
  fs_make_dirs s (start_place s p) (components p).

(** The entries below a place. *)
Definition is_below (l m : place) : bool := bool_decide (l `suffix_of` m ∧ l ≠ m).

(** [fs::remove_dir_all]: everything below the directory goes first, then the
    directory itself, which the system refuses for a root and for a path that
    ends in a dot or two. *)
Definition fs_remove_dir_all (s : FS) (p : string) : result IoError unit * FS :=
  match resolve s p with
  | Err e => (Err e, s)
  | Ok l =>
    match node_at s l with
    | None => (Err ENOENT, s)
    | Some (NFile _) => (Err ENOTDIR, s)
    | Some NDir =>
      let s' := set_nodes (filter (λ kv, is_below l kv.1 = false)) s in
      if decide (l = []) then (Err EINVAL, s')
      else match filter (λ c, c ≠ EmptyString) (rev (split "/" p)) with
           | "." :: _ | ".." :: _ => (Err EINVAL, s')
           | _ => (Ok tt, set_nodes (delete l) s')
           end
    end
  end.

(** ** Lemmas *)

Definition dirs_kept (s s' : FS) : Prop :=
  fs_cwd s' = fs_cwd s ∧ ∀ x, node_at s x = Some NDir → node_at s' x = Some NDir.

#[export] Instance dirs_kept_preorder : PreOrder dirs_kept.
Proof.
  split; [by split|]. intros x y z [H1 H2] [H3 H4]. split; [congruence|auto].
Qed.

Lemma walk_mono ns ns' cur cs l :
  (∀ c x, ns !! (c :: x) = Some NDir → ns' !! (c :: x) = Some NDir) →
  walk ns cur cs = Ok l → walk ns' cur cs = Ok l.
Proof.
  intros Hd. revert cur. induction cs as [|c rest IH]; intros cur; simpl; [done|].
  case_decide; [apply IH|]. destruct rest as [|c' rest]; [done|].
  destruct (ns !! (c :: cur)) as [[]|] eqn:E; try done. rewrite (Hd _ _ E). apply IH.
Qed.

Lemma resolve_mono s s' p l :
  dirs_kept s s' → resolve s p = Ok l → resolve s' p = Ok l.
Proof.
  intros [Hc Hd]. unfold resolve, start_place. rewrite Hc. apply walk_mono.
  intros c x. apply (Hd (c :: x)).
Qed.

(** The place a path names when every directory on it exists. *)
Fixpoint lexical (cur : place) (cs : list string) : place :=
  match cs with
  | [] => cur
  | c :: rest => if decide (c = "..") then lexical (tail cur) rest else lexical (c :: cur) rest
  end.

Definition place_of (s : FS) (p : string) : place := lexical (start_place s p) (components p).

Lemma walk_lexical ns cur cs l : walk ns cur cs = Ok l → l = lexical cur cs.
Proof.
  revert cur. induction cs as [|c rest IH]; intros cur; simpl; [by intros [= ->]|].
  case_decide; [apply IH|]. destruct rest as [|c' rest]; [by intros [= <-]|].
  destruct (ns !! (c :: cur)) as [[]|]; try done. apply IH.
Qed.

Lemma resolve_place s p l : resolve s p = Ok l → l = place_of s p.
Proof. apply walk_lexical. Qed.

Lemma place_of_cwd s s' p : fs_cwd s' = fs_cwd s → place_of s' p = place_of s p.
Proof. unfold place_of, start_place. by intros ->. Qed.

(** What exists outside a set of places stays as it is. *)
Definition fs_frame (P : place → Prop) (s s' : FS) : Prop :=
  dirs_kept s s' ∧ ∀ x n, ¬ P x → node_at s x = Some n → node_at s' x = Some n.

#[export] Instance fs_frame_preorder P : PreOrder (fs_frame P).
Proof.
  split; unfold fs_frame.
  - intros s. split; [reflexivity|done].
  - intros s1 s2 s3 [H1 H2] [H3 H4]. split; [by etrans|]. auto.
Qed.

Lemma fs_read_Ok s p d :
  fs_read s p = Ok d ↔
  ∃ l, resolve s p = Ok l ∧ node_at s l = Some (NFile d) ∧ wants_dir p = false.
Proof.
  unfold fs_read. destruct (resolve s p) as [l|e]; simpl.
  - split.
    + destruct (node_at s l) as [[]|] eqn:E; try done. destruct (wants_dir p) eqn:Ew; [done|].
      intros [= ->]. eauto.
    + intros (x & [= <-] & -> & ->). done.
  - split; [done|]. intros (x & Hx & _). discriminate Hx.
Qed.

(** The bytes at a path survive any change that keeps the directories and that
    file's own node. *)
Lemma fs_read_frame s s' p d :
  dirs_kept s s' →
  (∀ l, resolve s p = Ok l → node_at s' l = node_at s l) →
  fs_read s p = Ok d → fs_read s' p = Ok d.
Proof.
  intros Hd Hl. rewrite !fs_read_Ok. intros (l & Hr & Hn & Hw).
  exists l. split_and!; [by eapply resolve_mono|by rewrite Hl|done].
Qed.

Lemma node_at_insert s f l x :
  l ≠ [] → node_at (set_nodes <[l := f]> s) x = if decide (x = l) then Some f else node_at s x.
Proof.
  intros Hl. destruct x as [|a x]; simpl.
  - rewrite decide_False; [done|congruence].
  - rewrite lookup_insert. repeat case_decide; congruence.
Qed.

Lemma dirs_kept_write_file s l d :
  node_at s l ≠ Some NDir → dirs_kept s (set_nodes <[l := NFile d]> s).
Proof.
  intros Hl. split; [done|]. intros [|a x] Hx; simpl in *; [done|].
  rewrite lookup_insert_ne; [done|]. by intros ->.
Qed.

Lemma fs_create_Ok s p l s' :
  fs_create s p = Ok (l, s') →
  resolve s p = Ok l ∧ node_at s l ≠ Some NDir ∧ l ≠ [] ∧ wants_dir p = false
  ∧ s' = set_nodes <[l := NFile []]> s.
Proof.
  unfold fs_create. destruct (resolve s p) as [l0|]; simpl; [|done].
  destruct (parent_is_dir s l0); simpl; [|done].
  destruct (node_at s l0) as [[]|] eqn:E; try done; destruct (wants_dir p); try done;
    intros [= <- <-]; (split_and!; [done|congruence| |done|done]); intros ->; done.
Qed.

Lemma fs_rename_Ok s p q s' :
  fs_rename s p q = Ok s' →
  ∃ l m d, resolve s p = Ok l ∧ resolve s q = Ok m ∧ node_at s l = Some (NFile d)
  ∧ node_at s m ≠ Some NDir ∧ m ≠ [] ∧ wants_dir q = false
  ∧ s' = set_nodes (λ ns, <[m := NFile d]> (delete l ns)) s.
Proof.
  unfold fs_rename. destruct (resolve s p) as [l|]; simpl; [|done].
  destruct (resolve s q) as [m|]; simpl; [|done].
  destruct (node_at s l) as [[d|]|] eqn:El; try done.
  destruct (parent_is_dir s m); simpl; [|done].
  destruct (node_at s m) as [[]|] eqn:Em; try done; destruct (wants_dir q); try done;
    intros [= <-]; exists l, m, d; (split_and!; [done|done|done|congruence| |done|done]);
    intros ->; done.
Qed.

Lemma fs_rename_dirs_kept s p q s' : fs_rename s p q = Ok s' → dirs_kept s s'.
Proof.
  intros (l & m & d & Hl & Hm & Hnl & Hnm & Hm0 & _ & ->)%fs_rename_Ok.
  split; [done|]. intros [|a x] Hx; simpl in *; [done|].
  rewrite lookup_insert_ne, lookup_delete_ne; [done| |].
  - intros ->. simpl in Hnl. congruence.
  - intros ->. simpl in Hnm. congruence.
Qed.

(** After a rename the new name holds the bytes of the old one. *)
Lemma fs_rename_read s p q s' d :
  fs_rename s p q = Ok s' → fs_read s p = Ok d → fs_read s' q = Ok d.
Proof.
  intros Hr Hp. pose proof (fs_rename_dirs_kept _ _ _ _ Hr) as Hd.
  apply fs_rename_Ok in Hr as (l & m & d' & Hl & Hm & Hnl & Hnm & Hm0 & Hw & ->).
  apply fs_read_Ok in Hp as (l' & Hl' & Hnl' & _). simplify_eq.
  apply fs_read_Ok. exists m. split_and!; [by eapply resolve_mono| |done].
  destruct m; [done|]. simpl. rewrite lookup_insert_eq. congruence.
Qed.

Lemma fs_rename_other s p q s' x :
  fs_rename s p q = Ok s' → resolve s p ≠ Ok x → resolve s q ≠ Ok x →
  node_at s' x = node_at s x.
Proof.
  intros (l & m & d & Hl & Hm & _ & _ & _ & _ & ->)%fs_rename_Ok Hp Hq.
  destruct x as [|a x]; [done|]. simpl.
  rewrite lookup_insert_ne, lookup_delete_ne; [done| |]; congruence.
Qed.

Lemma fs_remove_file_Ok s p s' :
  fs_remove_file s p = Ok s' →
  ∃ l d, resolve s p = Ok l ∧ node_at s l = Some (NFile d) ∧ s' = set_nodes (delete l) s.
Proof.
  unfold fs_remove_file. destruct (resolve s p) as [l|]; simpl; [|done].
  destruct (node_at s l) as [[d|]|] eqn:E; try done. destruct (wants_dir p); [done|].
  intros [= <-]. eauto.
Qed.

Lemma fs_remove_file_dirs_kept s p s' : fs_remove_file s p = Ok s' → dirs_kept s s'.
Proof.
  intros (l & d & _ & Hn & ->)%fs_remove_file_Ok. split; [done|]. intros [|a x] Hx; simpl in *; [done|].
  rewrite lookup_delete_ne; [done|]. intros ->. simpl in Hn. congruence.
Qed.

Lemma fs_remove_file_other s p s' x :
  fs_remove_file s p = Ok s' → resolve s p ≠ Ok x → node_at s' x = node_at s x.
Proof.
  intros (l & d & Hl & _ & ->)%fs_remove_file_Ok Hx. destruct x as [|a x]; [done|].
  simpl. rewrite lookup_delete_ne; [done|]. congruence.
Qed.

Lemma make_dirs_kept ns cur cs ns' :
  make_dirs ns cur cs = Ok ns' → ∀ x n, ns !! x = Some n → ns' !! x = Some n.
Proof.
  revert ns cur. induction cs as [|c rest IH]; intros ns cur; simpl; [by intros [= <-]|].
  case_decide; [by apply IH|].
  destruct (ns !! (c :: cur)) as [[]|] eqn:E; [done|by apply IH|].
  intros Hm x n Hx. eapply IH; [exact Hm|]. rewrite lookup_insert_ne; [done|]. congruence.
Qed.

(** Making directories changes no existing file or directory. *)
Lemma fs_make_dirs_kept s start cs s' :
  fs_make_dirs s start cs = Ok s' →
  fs_cwd s' = fs_cwd s ∧ ∀ x n, node_at s x = Some n → node_at s' x = Some n.
Proof.
  unfold fs_make_dirs. destruct (make_dirs _ _ _) as [ns|] eqn:E; simpl; [|done].
  intros [= <-]. split; [done|]. intros [|a x] n; simpl; [done|].
  eapply make_dirs_kept. exact E.
Qed.

Lemma fs_make_dirs_dirs_kept s start cs s' :
  fs_make_dirs s start cs = Ok s' → dirs_kept s s'.
Proof.
  intros H. unfold fs_make_dirs in H.
  destruct (make_dirs _ _ _) as [ns|] eqn:E; simpl in H; [|done].
  injection H as <-. split; [done|]. intros [|a x]; simpl; [done|]. by eapply make_dirs_kept.
Qed.

Lemma fs_make_dirs_frame P s start cs s' :
  fs_make_dirs s start cs = Ok s' → fs_frame P s s'.
Proof.
  intros H. split; [by eapply fs_make_dirs_dirs_kept|].
  intros x n _. apply fs_make_dirs_kept in H as [_ H]. apply H.
Qed.

Lemma fs_remove_file_frame (P : place → Prop) s p s' :
  P (place_of s p) → fs_remove_file s p = Ok s' → fs_frame P s s'.
Proof.
  intros HP H. split; [by eapply fs_remove_file_dirs_kept|].
  intros x n Hx Hn. rewrite (fs_remove_file_other _ _ _ x H); [done|].
  intros ->%resolve_place. done.
Qed.

(** A path is read through places of the frame. *)
Lemma fs_read_in_frame P s s' p d :
  fs_frame P s s' → ¬ P (place_of s p) → fs_read s p = Ok d → fs_read s' p = Ok d.
Proof.
  intros [Hd Hn] HP. rewrite !fs_read_Ok. intros (l & Hr & Hl & Hw). exists l.
  split_and!; [by eapply resolve_mono| |done]. apply Hn; [|done].
  by rewrite (resolve_place _ _ _ Hr).
Qed.
