(* ===== verification/Config.v ===== *)
(** * Configuration (config.rs)

    The settings, and how they are read from the environment.  A failed
    [parse()?] is represented by the name of the variable it was parsing. *)

From S2P Require Import Prelude.

Inductive CacheBackendKind := Memory | RedisBackend.

#[export] Instance CacheBackendKind_eq_dec : EqDecision CacheBackendKind.
Proof. solve_decision. Defined.

Record S3Config := mkS3Config { s3_access_key : string; s3_secret_key : string; s3_region : string }.

Record CacheSettings := mkCacheSettings {
  cs_backend : CacheBackendKind; cs_max_size_mb : Z; cs_ttl_seconds : Z }.

Record ServerConfig := mkServerConfig { server_port : Z; server_log_level : string }.

Record DatabaseConfig := mkDatabaseConfig {
  db_host : string; db_port : Z; db_database : string; db_username : string;
  db_password : string; db_max_connections : Z; db_url : string }.

Record RedisConfig := mkRedisConfig {
  redis_host : string; redis_port : Z; redis_password : option string;
  redis_database : Z; redis_max_connections : Z }.

Record StorageConfig := mkStorageConfig {
  st_path : string; st_max_file_size : Z; st_default_bucket : string;
  st_enable_deduplication : bool }.

Record CryptoConfig := mkCryptoConfig {
  cr_enabled : bool; cr_algorithm : string; cr_key : option string }.

Record CompressionConfig := mkCompressionConfig {
  co_enabled : bool; co_algorithm : string; co_level : Z; co_min_size : Z }.

Record Config := mkConfig {
  cfg_server : ServerConfig;
  cfg_database : DatabaseConfig;
  cfg_redis : RedisConfig;
  cfg_cache : CacheSettings;
  cfg_storage : StorageConfig;
  cfg_crypto : CryptoConfig;
  cfg_compression : CompressionConfig;
  cfg_s3 : option S3Config;
  cfg_download_protection_token : option string;
  cfg_protected_read_buckets : option (list string)
}.

(** [env::var(v).ok()]. *)
Abbreviation Env := (string → option string).

(** [env::var(v).unwrap_or_else(|_| d).parse()?]. *)
Definition env_parse {A} (env : Env) (parse : string → option A) (v d : string) : result string A :=
  ok_or v (parse (default d (env v))).

(** [DatabaseConfig::new]. *)
Definition database_config_new (env : Env) : result string DatabaseConfig :=
  let host := default "localhost" (env "POSTGRES_HOST") in
  port ← env_parse env parse_u16 "POSTGRES_PORT" "5432";
  let database := default "local_storage" (env "POSTGRES_DB") in
  let username := default "postgres" (env "POSTGRES_USER") in
  let password := default "postgres123" (env "POSTGRES_PASSWORD") in
  max_connections ← env_parse env parse_u32 "DB_MAX_CONNECTIONS" "10";
  let url := "postgres://" +:+ username +:+ ":" +:+ password +:+ "@" +:+ host +:+ ":"
             +:+ pretty port +:+ "/" +:+ database in
  Ok (mkDatabaseConfig host port database username password max_connections url).

(** The [CACHE_BACKEND] setting, with the older [ENABLE_REDIS] switch. *)
Definition cache_backend_from_env (env : Env) : CacheBackendKind :=
  match env "CACHE_BACKEND" with
  | Some "redis" => RedisBackend
  | Some "memory" => Memory
  | _ => if bool_decide (env "ENABLE_REDIS" = Some "true") then RedisBackend else Memory
  end.

(** Both S3 keys, present and not empty, or no S3 API. *)
Definition s3_from_env (env : Env) : option S3Config :=
  match env "S3_ACCESS_KEY", env "S3_SECRET_KEY" with
  | Some access_key, Some secret_key =>
    if bool_decide (access_key ≠ EmptyString) && bool_decide (secret_key ≠ EmptyString) then
      Some (mkS3Config access_key secret_key (default "us-east-1" (env "S3_REGION")))
    else None
  | _, _ => None
  end.

(** [WRITE_PROTECTION_TOKEN], empty counting as unset. *)
Definition download_token_from_env (env : Env) : option string :=
  match env "WRITE_PROTECTION_TOKEN" with
  | Some v => if bool_decide (v ≠ EmptyString) then Some v else None
  | None => None
  end.

Definition nonempty_strings (l : list string) : list string := filter (λ s, s ≠ EmptyString) l.

(** The comma-separated [PROTECTED_READ_BUCKETS]. *)
Definition protected_read_buckets_from_env (env : Env) : option (list string) :=
  match env "PROTECTED_READ_BUCKETS" with
  | Some raw =>
    let l := nonempty_strings (trim <$> split "," raw) in
    match l with [] => None | _ => Some l end
  | None => None
  end.

(** [Config::load]. *)
Definition load (env : Env) : result string Config :=
  port ← env_parse env parse_u16 "PORT" "8080";
  let log_level := default "INFO" (env "LOG_LEVEL") in
  database ← database_config_new env;
  redis_port ← env_parse env parse_u16 "REDIS_PORT" "6379";
  redis_db ← env_parse env parse_u8 "REDIS_DB" "0";
  redis_max ← env_parse env parse_u32 "REDIS_MAX_CONNECTIONS" "10";
  max_size_mb ← env_parse env parse_u64 "CACHE_MAX_SIZE_MB" "256";
  ttl_seconds ← ok_or "CACHE_TTL_SECONDS"
    (parse_u64 (match env "CACHE_TTL_SECONDS" with
                | Some v => v
                | None => default "3600" (env "REDIS_TTL_SECONDS")
                end));
  max_file_size ← env_parse env parse_u64 "MAX_FILE_SIZE" "1073741824";
  dedup ← env_parse env parse_bool "ENABLE_DEDUPLICATION" "true";
  enc ← env_parse env parse_bool "ENABLE_ENCRYPTION" "false";
  comp ← env_parse env parse_bool "ENABLE_COMPRESSION" "false";
  level ← env_parse env parse_i32 "COMPRESSION_LEVEL" "3";
  min_size ← env_parse env parse_u64 "COMPRESSION_MIN_SIZE" "1024";
  Ok {|
    cfg_server := mkServerConfig port log_level;
    cfg_database := database;
    cfg_redis := mkRedisConfig (default "redis" (env "REDIS_HOST")) redis_port
                   (env "REDIS_PASSWORD") redis_db redis_max;
    cfg_cache := mkCacheSettings (cache_backend_from_env env) max_size_mb ttl_seconds;
    cfg_storage := mkStorageConfig (default "/storage" (env "STORAGE_PATH")) max_file_size
                     (default "default" (env "DEFAULT_BUCKET")) dedup;
    cfg_crypto := mkCryptoConfig enc (default "aes-gcm" (env "CRYPTO_ALGORITHM")) (env "CRYPTO_KEY");
    cfg_compression := mkCompressionConfig comp
                         (default "zstd" (env "COMPRESSION_ALGORITHM")) level min_size;
    cfg_s3 := s3_from_env env;
    cfg_download_protection_token := download_token_from_env env;
    cfg_protected_read_buckets := protected_read_buckets_from_env env
  |}.

(** [Config::redis_url] and [Config::database_url]. *)
Definition redis_url (c : Config) : string :=
  let r := cfg_redis c in
  match redis_password r with
  | Some password => "redis://:" +:+ password +:+ "@" +:+ redis_host r +:+ ":"
                     +:+ pretty (redis_port r) +:+ "/" +:+ pretty (redis_database r)
  | None => "redis://" +:+ redis_host r +:+ ":" +:+ pretty (redis_port r) +:+ "/"
            +:+ pretty (redis_database r)
  end.

Definition database_url (c : Config) : string := db_url (cfg_database c).
