(* ===== verification/Xml.v ===== *)
(** * XML documents of the S3 API (s3/xml.rs)

    The documents the S3 handlers answer with and the one they read, as data.
    Turning a document into text, and text into a document, is the work of the
    quick_xml crate. *)

From S2P Require Import Prelude.

Definition XMLNS : string := "http://s3.amazonaws.com/doc/2006-03-01/".

Record Owner := mkOwner { ow_id : string; ow_display_name : string }.
Record BucketEntry := mkBucketEntry { be_name : string; be_creation_date : string }.

Record ListAllMyBucketsResult := mkListAllMyBucketsResult {
  lb_xmlns : string;
  lb_owner : Owner;
  lb_buckets : list BucketEntry
}.

Record Content := mkContent {
  co_key : string;
  co_last_modified : string;
  co_etag : string;
  co_size : Z;
  co_storage_class : string
}.

Record ListBucketResult := mkListBucketResult {
  lr_xmlns : string;
  lr_name : string;
  lr_prefix : string;
  lr_key_count : Z;
  lr_max_keys : Z;
  lr_is_truncated : bool;
  lr_contents : list Content
}.

Record ObjectIdentifier := mkObjectIdentifier { oi_key : string }.
Record DeleteRequest := mkDeleteRequest { dr_object : list ObjectIdentifier }.

Record DeletedEntry := mkDeletedEntry { de_key : string }.
Record DeleteErrorEntry := mkDeleteErrorEntry {
  ee_key : string; ee_code : string; ee_message : string }.

Record DeleteResult := mkDeleteResult {
  dl_xmlns : string;
  dl_deleted : list DeletedEntry;
  dl_error : list DeleteErrorEntry
}.

Record CopyObjectResult := mkCopyObjectResult {
  cp_xmlns : string; cp_etag : string; cp_last_modified : string }.

(** The body of an error response (s3/error.rs). *)
Record ErrorBody := mkErrorBody {
  eb_code : string; eb_message : string; eb_resource : string; eb_request_id : string }.

(** Whatever is serialised. *)
Inductive XmlDoc :=
| XListBuckets (d : ListAllMyBucketsResult)
| XListObjects (d : ListBucketResult)
| XDelete (d : DeleteResult)
| XCopy (d : CopyObjectResult)
| XError (d : ErrorBody).
