(* ===== verification/Externals.v ===== *)
(** * Code outside the repository

    The crates and services the program calls are parameters: hashes, codecs,
    ciphers, JSON, URL decoding and the row order of PostgreSQL.  [Externals]
    collects the functions, [ExternalsLaws] what the program relies on, and
    [ToyExternals] is one concrete instance on which the definitions run. *)

From S2P Require Import Prelude.
From S2P Require Import Errors.
From S2P Require Import Models.
From S2P Require Import Xml.

(** A decoder behind [std::io::Read]: the bytes it yields, how it ends, and
    how much one [read] hands out (at position, for a buffer of a size).  A
    [read] may return fewer bytes than asked for, but at least one unless the
    stream is over or the buffer is empty. *)
Record DecodeStream := mkDecodeStream {
  ds_data : bytes;
  ds_error : option IoError;
  ds_chunk : nat → nat → nat
}.

Definition read_size (s : DecodeStream) (pos n : nat) : nat :=
  Nat.max 1 (Nat.min (ds_chunk s pos n) (Nat.min n (length (ds_data s) - pos))).

(** [reader.read(&mut buf)] for a buffer of [n] bytes at position [pos]. *)
Definition stream_read (s : DecodeStream) (pos n : nat) : result IoError bytes :=
  if decide (n = 0%nat) then Ok []
  else if decide (pos < length (ds_data s))%nat then
    Ok (take (read_size s pos n) (drop pos (ds_data s)))
  else match ds_error s with Some e => Err e | None => Ok [] end.

Abbreviation FileTable := (gmap (string * string) StoredFile).

Class Externals := {
  (* blake3 and md5 crates, as the hex text the program stores *)
  blake3_hex : bytes → string;
  md5_hex : bytes → string;
  (* flate2: GzEncoder at a level, GzDecoder *)
  gz_encode : Z → bytes → result IoError bytes;
  gz_decoder : bytes → DecodeStream;
  (* zstd::bulk::compress at a level, zstd::Decoder::new *)
  zstd_bulk_compress : Z → bytes → result IoError bytes;
  zstd_decoder_new : bytes → result IoError DecodeStream;
  (* aes_gcm and chacha20poly1305: key, nonce, data; the error's text *)
  aes_gcm_encrypt : bytes → bytes → bytes → result string bytes;
  aes_gcm_decrypt : bytes → bytes → bytes → result string bytes;
  chacha20_encrypt : bytes → bytes → bytes → result string bytes;
  chacha20_decrypt : bytes → bytes → bytes → result string bytes;
  (* hex crate *)
  hex_decode : string → result string bytes;
  hex_encode : bytes → string;
  (* hmac and sha2 crates *)
  hmac_sha256 : bytes → bytes → bytes;
  sha256 : bytes → bytes;
  (* uuid: version 4 from 16 random bytes *)
  uuid_v4 : bytes → Uuid;
  (* rand: the alphanumeric character sampled for a random byte *)
  alphanumeric : Byte.byte → ascii;
  (* serde_json on StoredFile *)
  json_to_vec : StoredFile → result JsonError bytes;
  json_from_slice : bytes → result JsonError StoredFile;
  (* redis::Client::open: whether the URL is accepted *)
  redis_client_open : string → result RedisError unit;
  (* urlencoding::decode *)
  url_decode : string → option string;
  (* http: HeaderValue::to_str, and whether HeaderValue::from_str accepts a text *)
  header_to_str : string → option string;
  header_from_str_ok : string → bool;
  (* chrono: a time plus a number of seconds; None where it panics *)
  chrono_add_seconds : DateTime → Z → option DateTime;
  (* chrono: the format %Y%m%dT%H%M%SZ read as a time, to_rfc3339 *)
  chrono_parse_amz_date : string → option DateTime;
  chrono_to_rfc3339 : DateTime → string;
  (* uuid: the hyphenated text *)
  uuid_to_string : Uuid → string;
  (* quick_xml: a document as text, and a delete request read from text *)
  xml_se : XmlDoc → option string;
  xml_de_delete : string → result string DeleteRequest;
  (* PostgreSQL: the order rows come in before any ORDER BY, which may be another
     for every LIMIT and OFFSET of the query (if it has them), the collation of text
     columns, the case folding of ILIKE, and the text of a JSONB value *)
  pg_scan : option (Z * Z) → FileTable → list StoredFile;
  pg_collate_le : string → string → bool;
  pg_lower : string → string;
  pg_jsonb_text : JsonValue → string
}.

Class ExternalsLaws (X : Externals) : Prop := {
  (** What a gzip encoder produced, a gzip decoder yields again. *)
  gz_roundtrip l d c :
    gz_encode l d = Ok c → ds_data (gz_decoder c) = d ∧ ds_error (gz_decoder c) = None;
  zstd_roundtrip l d c :
    zstd_bulk_compress l d = Ok c →
    ∃ s, zstd_decoder_new c = Ok s ∧ ds_data s = d ∧ ds_error s = None;
  (** A ciphertext opens under the key and nonce that sealed it. *)
  aes_gcm_roundtrip k n d c : aes_gcm_encrypt k n d = Ok c → aes_gcm_decrypt k n c = Ok d;
  chacha20_roundtrip k n d c : chacha20_encrypt k n d = Ok c → chacha20_decrypt k n c = Ok d;
  json_roundtrip f b : json_to_vec f = Ok b → json_from_slice b = Ok f;
  (** A row has no map with keys that are not text, the one thing serde_json
      refuses to write. *)
  json_total f : ∃ b, json_to_vec f = Ok b;
  (** A sum that does not overflow is exact (times are in microseconds). *)
  chrono_add_exact t n r : chrono_add_seconds t n = Some r → r = t + n * 1000000;
  (** Two strings of bytes have the same hex text only if they are equal, and
      the text holds nothing but digits and lower-case letters. *)
  hex_encode_inj a b : hex_encode a = hex_encode b → a = b;
  hex_encode_digits b : Forall (λ c, is_ascii_digit c = true
    ∨ 97 ≤ char_val c ≤ 102) (String.list_ascii_of_string (hex_encode b));
  (** A header value of printable ASCII is its own text. *)
  header_to_str_visible s :
    Forall (λ c, 32 ≤ char_val c ≤ 126) (String.list_ascii_of_string s) → header_to_str s = Some s;
  (** A scan returns every row once. *)
  pg_scan_perm q m : pg_scan q m ≡ₚ (map_to_list m).*2
}.

(** ** The reader contract *)

Lemma stream_read_some s pos n :
  (0 < n)%nat → (pos < length (ds_data s))%nat →
  ∃ d, stream_read s pos n = Ok d ∧ d = take (length d) (drop pos (ds_data s))
       ∧ (1 ≤ length d ≤ n)%nat ∧ (pos + length d ≤ length (ds_data s))%nat.
Proof.
  intros Hn Hpos. unfold stream_read. rewrite decide_False, decide_True by lia.
  eexists. split; [done|]. unfold read_size. rewrite length_take, length_drop.
  split_and!; [|lia..]. f_equal. lia.
Qed.

Lemma stream_read_end s pos n :
  (0 < n)%nat → (length (ds_data s) ≤ pos)%nat →
  stream_read s pos n = match ds_error s with Some e => Err e | None => Ok [] end.
Proof. intros Hn Hpos. unfold stream_read. by rewrite decide_False, decide_False by lia. Qed.

(** ** A concrete instance

    Small stand-ins that satisfy the laws: runs of one byte are stored as a
    count, a cipher appends its key as the tag, hashes are the hex text. *)
Module Toy.

Definition hex_digit (n : N) : ascii :=
  match n with
  | 0%N => "0" | 1%N => "1" | 2%N => "2" | 3%N => "3" | 4%N => "4" | 5%N => "5" | 6%N => "6"
  | 7%N => "7" | 8%N => "8" | 9%N => "9" | 10%N => "a" | 11%N => "b" | 12%N => "c"
  | 13%N => "d" | 14%N => "e" | _ => "f"
  end%char.

Fixpoint hex (b : bytes) : string :=
  match b with
  | [] => EmptyString
  | x :: r => String (hex_digit (Byte.to_N x / 16))
                (String (hex_digit (Byte.to_N x mod 16)) (hex r))
  end.

Lemma hex_cons_inj x y r r' :
  hex (x :: r) = hex (y :: r') → x = y ∧ hex r = hex r'.
Proof.
  assert (∀ n, (n < 16)%N → ∀ m, (m < 16)%N → hex_digit n = hex_digit m → n = m) as Hd.
  { assert (∀ n, (n < 16)%N → n ∈ map N.of_nat (seq 0 16)) as Hs.
    { intros n Hn. apply list_elem_of_fmap. exists (N.to_nat n). rewrite elem_of_seq. lia. }
    assert (forallb (λ n, forallb (λ m, negb (char_eqb (hex_digit n) (hex_digit m)) || (n =? m)%N)
      (map N.of_nat (seq 0 16))) (map N.of_nat (seq 0 16)) = true) as Hall by (vm_compute; reflexivity).
    rewrite forallb_forall in Hall.
    intros n Hn m Hm Heq. specialize (Hall n (proj1 (list_elem_of_In _ _) (Hs n Hn))).
    rewrite forallb_forall in Hall. specialize (Hall m (proj1 (list_elem_of_In _ _) (Hs m Hm))).
    rewrite Heq, char_eqb_refl in Hall. simpl in Hall. by apply N.eqb_eq. }
  cbn [hex]. intros [= H1 H2 Hr]. split; [|done].
  assert (∀ b, Byte.to_N b < 256)%N as Hb by (intros b; pose proof (Byte.to_N_bounded b); lia).
  apply Hd in H1; [|apply N.Div0.div_lt_upper_bound; pose proof (Hb x); lia
                   |apply N.Div0.div_lt_upper_bound; pose proof (Hb y); lia].
  apply Hd in H2; [|by apply N.mod_lt..].
  assert (Byte.to_N x = Byte.to_N y) as Hxy.
  { rewrite (N.div_mod (Byte.to_N x) 16), (N.div_mod (Byte.to_N y) 16) by done. congruence. }
  apply (f_equal Byte.of_N) in Hxy. rewrite !Byte.of_to_N in Hxy. by injection Hxy.
Qed.

Lemma hex_inj a b : hex a = hex b → a = b.
Proof.
  revert b. induction a as [|x a IH]; intros [|y b]; try done.
  intros [-> H]%hex_cons_inj. f_equal. auto.
Qed.

Lemma hex_digits b :
  Forall (λ c, is_ascii_digit c = true ∨ 97 ≤ char_val c ≤ 102) (String.list_ascii_of_string (hex b)).
Proof.
  assert (∀ n, is_ascii_digit (hex_digit n) = true ∨ 97 ≤ char_val (hex_digit n) ≤ 102) as Hd.
  { intros n. unfold hex_digit. repeat case_match; vm_compute; intuition discriminate. }
  induction b as [|x b IH]; cbn [hex String.list_ascii_of_string]; [constructor|].
  constructor; [apply Hd|]. constructor; [apply Hd|exact IH].
Qed.

Definition rle (d : bytes) : bytes :=
  match d with
  | x :: _ =>
    match Byte.of_nat (length d) with
    | Some n => if decide (d = replicate (length d) x) then [Byte.x00; x; n] else Byte.x01 :: d
    | None => Byte.x01 :: d
    end
  | [] => [Byte.x01]
  end.

Definition unrle (c : bytes) : DecodeStream :=
  let chunk := λ _ n : nat, (n / 2)%nat in
  match c with
  | [Byte.x00; x; n] => mkDecodeStream (replicate (Byte.to_nat n) x) None chunk
  | Byte.x01 :: d => mkDecodeStream d None chunk
  | _ => mkDecodeStream [] (Some {| io_text := "invalid stream" |}) chunk
  end.

Lemma unrle_stored d : ds_data (unrle (Byte.x01 :: d)) = d ∧ ds_error (unrle (Byte.x01 :: d)) = None.
Proof. destruct d as [|? [|? [|? ?]]]; by split. Qed.

Lemma unrle_rle d : ds_data (unrle (rle d)) = d ∧ ds_error (unrle (rle d)) = None.
Proof.
  unfold rle. destruct d as [|x d]; [apply unrle_stored|]. set (l := x :: d).
  destruct (Byte.of_nat (length l)) as [n|] eqn:E; [|apply unrle_stored].
  destruct (decide (l = replicate (length l) x)) as [Hr|]; [|apply unrle_stored].
  apply Byte.to_of_nat in E. cbn [unrle ds_data ds_error]. split; [|done].
  rewrite E. by symmetry.
Qed.

Definition seal (k n d : bytes) : result string bytes := Ok (d ++ k).
Definition unseal (k n c : bytes) : result string bytes :=
  if decide (drop (length c - length k) c = k) then Ok (take (length c - length k) c)
  else Err "aead::Error".

Lemma unseal_seal k n d c : seal k n d = Ok c → unseal k n c = Ok d.
Proof.
  intros [= <-]. unfold unseal. rewrite length_app, Nat.add_sub.
  rewrite drop_app_length, decide_True by done. by rewrite take_app_length.
Qed.

Fixpoint pos_to_bytes (p : positive) : bytes :=
  match p with
  | xH => []
  | xO q => Byte.x00 :: pos_to_bytes q
  | xI q => Byte.x01 :: pos_to_bytes q
  end.

Fixpoint bytes_to_pos (b : bytes) : option positive :=
  match b with
  | [] => Some xH
  | Byte.x00 :: r => xO <$> bytes_to_pos r
  | Byte.x01 :: r => xI <$> bytes_to_pos r
  | _ => None
  end.

Lemma bytes_to_pos_to_bytes p : bytes_to_pos (pos_to_bytes p) = Some p.
Proof. induction p as [p IH|p IH|]; simpl; rewrite ?IH; done. Qed.

Definition json_enc (f : StoredFile) : result JsonError bytes := Ok (pos_to_bytes (encode f)).
Definition json_dec (b : bytes) : result JsonError StoredFile :=
  ok_or {| json_text := "expected value" |} (bytes_to_pos b ≫= decode).

Definition ToyExternals : Externals := {|
  blake3_hex := λ d, hex (take 32 d);
  md5_hex := λ d, hex (take 16 d);
  gz_encode := λ _ d, Ok (rle d);
  gz_decoder := unrle;
  zstd_bulk_compress := λ _ d, Ok (rle d);
  zstd_decoder_new := λ c, Ok (unrle c);
  aes_gcm_encrypt := seal;
  aes_gcm_decrypt := unseal;
  chacha20_encrypt := seal;
  chacha20_decrypt := unseal;
  hex_decode := λ s, Ok (take 32 (as_bytes s));
  hex_encode := hex;
  hmac_sha256 := λ k d, k ++ d;
  sha256 := λ d, d;
  uuid_v4 := λ b, b;
  alphanumeric := λ b, hex_digit (Byte.to_N b mod 16);
  json_to_vec := json_enc;
  json_from_slice := json_dec;
  redis_client_open := λ _, Ok tt;
  url_decode := λ s, Some s;
  header_to_str := λ s, Some s;
  header_from_str_ok := λ s, negb (contains_char (Ascii.ascii_of_N 10) s);
  chrono_add_seconds := λ t n, if Z.abs n <? 1000000000000 then Some (t + n * 1000000) else None;
  chrono_parse_amz_date := λ s, (λ n, n * 1000000) <$> parse_i64 s;
  chrono_to_rfc3339 := λ t, pretty (t / 1000000);
  uuid_to_string := hex;
  xml_se := λ d, Some match d with
                      | XListBuckets _ => "<ListAllMyBucketsResult/>"
                      | XListObjects _ => "<ListBucketResult/>"
                      | XDelete _ => "<DeleteResult/>"
                      | XCopy _ => "<CopyObjectResult/>"
                      | XError _ => "<Error/>"
                      end;
  xml_de_delete := λ s, Ok (mkDeleteRequest (map mkObjectIdentifier (split "," s)));
  pg_scan := λ q m, let rows := (map_to_list m).*2 in
    match q with Some (_, offset) => if Z.odd offset then rev rows else rows | None => rows end;
  pg_collate_le := String.leb;
  pg_lower := to_lowercase;
  pg_jsonb_text := λ s, s
|}.

#[global] Instance ToyLaws : ExternalsLaws ToyExternals.
Proof.
  split.
  - intros l d c [= <-]. apply unrle_rle.
  - intros l d c [= <-]. exists (unrle (rle d)). split; [done|]. apply unrle_rle.
  - apply unseal_seal.
  - apply unseal_seal.
  - intros f b [= <-]. cbn [json_from_slice ToyExternals]. unfold json_dec.
    rewrite bytes_to_pos_to_bytes. unfold mbind, option_bind.
    rewrite decode_encode. reflexivity.
  - intros f. eexists. reflexivity.
  - intros t n r. unfold chrono_add_seconds. simpl. destruct (_ <? _); congruence.
  - apply hex_inj.
  - apply hex_digits.
  - done.
  - intros [[l o]|] m; simpl; [|done]. destruct (Z.odd o); [|done]. by rewrite <- Permutation_rev.
Qed.

End Toy.
