(* ===== verification/World.v ===== *)
(** * The world the service acts on

    One record holds everything an operation can read or change: the file
    system, the database tables, the cache store, the clock, the random source,
    and the failures still to come.  Every call to the database, the file
    system or Redis first takes the next entry of [w_faults]: [Some f] makes
    that call fail with the given text, [None] (or an empty list) lets it
    run.  A statement for every list of faults is therefore a statement about
    every pattern of connection losses and I/O errors. *)

From S2P Require Import Prelude.
From S2P Require Import Errors.
From S2P Require Import Models.
From S2P Require Import FileSystem.
From S2P Require Import Externals.

Record Fault := mkFault {
  fault_text : string;
  (** for a write, how many bytes reached the file before the failure *)
  fault_partial : nat
}.

(** A row of [buckets], the columns the program uses. *)
Record BucketRow := mkBucketRow { bk_is_active : option bool; bk_created_at : DateTime }.

Record Db := mkDb {
  db_files : FileTable;
  db_buckets : gmap string BucketRow;
  db_keys : gmap string EncryptionKey;
  db_key_serial : Z;
  db_cache_config : option CacheConfig
}.

Record World := mkWorld {
  w_fs : FS;
  w_db : Db;
  w_cache : gmap string bytes;
  w_now : DateTime;
  w_entropy : nat → Byte.byte;
  w_entropy_pos : nat;
  w_faults : list (option Fault)
}.

Definition set_fs (s : FS) (w : World) : World :=
  mkWorld s (w_db w) (w_cache w) (w_now w) (w_entropy w) (w_entropy_pos w) (w_faults w).
Definition set_db (d : Db) (w : World) : World :=
  mkWorld (w_fs w) d (w_cache w) (w_now w) (w_entropy w) (w_entropy_pos w) (w_faults w).
Definition set_cache (c : gmap string bytes) (w : World) : World :=
  mkWorld (w_fs w) (w_db w) c (w_now w) (w_entropy w) (w_entropy_pos w) (w_faults w).
Definition set_now (t : DateTime) (w : World) : World :=
  mkWorld (w_fs w) (w_db w) (w_cache w) t (w_entropy w) (w_entropy_pos w) (w_faults w).
Definition set_entropy_pos (n : nat) (w : World) : World :=
  mkWorld (w_fs w) (w_db w) (w_cache w) (w_now w) (w_entropy w) n (w_faults w).
Definition set_faults (f : list (option Fault)) (w : World) : World :=
  mkWorld (w_fs w) (w_db w) (w_cache w) (w_now w) (w_entropy w) (w_entropy_pos w) f.

Definition set_files (t : FileTable) (d : Db) : Db :=
  mkDb t (db_buckets d) (db_keys d) (db_key_serial d) (db_cache_config d).
Definition set_buckets (b : gmap string BucketRow) (d : Db) : Db :=
  mkDb (db_files d) b (db_keys d) (db_key_serial d) (db_cache_config d).
Definition set_keys (k : gmap string EncryptionKey) (serial : Z) (d : Db) : Db :=
  mkDb (db_files d) (db_buckets d) k serial (db_cache_config d).

Abbreviation IO E A := (prog World E A).
(** The program's own [Result<T>], with the world threaded through. *)
Abbreviation M A := (prog World StorageError A).

(** ** External calls *)

Section calls.
Context {E : Type}.

Definition next_fault : IO E (option Fault) := λ w,
  match w_faults w with
  | [] => (Ok None, w)
  | f :: fs => (Ok f, set_faults fs w)
  end.

(** [Utc::now()]. *)
Definition now : IO E DateTime := λ w, (Ok (w_now w), w).

(** [tokio::time::sleep]: the clock moves, nothing else. *)
Definition sleep (ms : Z) (w : World) : World := set_now (w_now w + ms * 1000) w.
Definition pause (ms : Z) : IO E unit := λ w, (Ok tt, sleep ms w).

(** [OsRng.fill_bytes] on a buffer of [n] bytes. *)
Definition fill_bytes (n : nat) : IO E bytes := λ w,
  (Ok (map (w_entropy w) (seq (w_entropy_pos w) n)),
   set_entropy_pos (w_entropy_pos w + n) w).
End calls.

(** One SQL statement: it sees the clock and the tables, and either fails and
    changes nothing, or gives its rows and the new tables. *)
Definition Stmt (A : Type) : Type := DateTime → Db → result SqlxError (A * Db).

Definition db_call {A} (q : Stmt A) : IO SqlxError A := λ w,
  match next_fault (E:=SqlxError) w with
  | (Ok (Some f), w1) => (Err {| sqlx_code := None; sqlx_text := fault_text f |}, w1)
  | (_, w1) =>
    match q (w_now w1) (w_db w1) with
    | Ok (a, d) => (Ok a, set_db d w1)
    | Err e => (Err e, w1)
    end
  end.

(** [query.fetch...(&pool).await?]. *)
Definition run_sql {A} (q : Stmt A) : M A := map_err from_sqlx_error (db_call q).

(** A statement that only reads. *)
Definition select {A} (q : Db → A) : Stmt A := λ _ d, Ok (q d, d).

(** [pool.begin()], the body, [tx.commit()]; when the body or the commit fails
    the tables are as they were at the beginning. *)
Definition transaction {A} (body : M A) : M A := λ w,
  match run_sql (select (λ _, tt)) w with
  | (Err e, w1) => (Err e, w1)
  | (Ok _, w1) =>
    match body w1 with
    | (Err e, w2) => (Err e, set_db (w_db w1) w2)
    | (Ok a, w2) =>
      match run_sql (select (λ _, tt)) w2 with
      | (Ok _, w3) => (Ok a, w3)
      | (Err e, w3) => (Err e, set_db (w_db w1) w3)
      end
    end
  end.

(** One file system call. *)
Definition fs_call {A} (f : FS → result IoError A * FS) : IO IoError A := λ w,
  match next_fault (E:=IoError) w with
  | (Ok (Some flt), w1) => (Err {| io_text := fault_text flt |}, w1)
  | (_, w1) => let '(r, s) := f (w_fs w1) in (r, set_fs s w1)
  end.

Definition fs_reading {A} (f : FS → result IoError A) : FS → result IoError A * FS :=
  λ s, (f s, s).

Definition fs_changing (f : FS → result IoError FS) : FS → result IoError unit * FS :=
  λ s, match f s with Ok s' => (Ok tt, s') | Err e => (Err e, s) end.

(** Writing through an open handle: a failed write leaves a prefix. *)
Definition fs_write_call (l : place) (d : bytes) : IO IoError unit := λ w,
  match next_fault (E:=IoError) w with
  | (Ok (Some flt), w1) =>
    (Err {| io_text := fault_text flt |},
     set_fs (fs_write_handle (w_fs w1) l (take (fault_partial flt) d)) w1)
  | (_, w1) => (Ok tt, set_fs (fs_write_handle (w_fs w1) l d) w1)
  end.

(** One command to Redis. *)
Definition redis_call {A} (f : gmap string bytes → A * gmap string bytes) : IO RedisError A := λ w,
  match next_fault (E:=RedisError) w with
  | (Ok (Some flt), w1) => (Err {| redis_text := fault_text flt |}, w1)
  | (_, w1) => let '(a, c) := f (w_cache w1) in (Ok a, set_cache c w1)
  end.

(** ** What the calls respect *)

(** A relation that does not look at the pending faults or the random source. *)
Class Oblivious (R : relation World) : Prop := {
  oblivious_faults w f : R w (set_faults f w);
  oblivious_entropy w n : R w (set_entropy_pos n w)
}.

Lemma set_db_id w : set_db (w_db w) w = w.
Proof. by destruct w. Qed.
Lemma set_fs_id w : set_fs (w_fs w) w = w.
Proof. by destruct w. Qed.
Lemma set_cache_id w : set_cache (w_cache w) w = w.
Proof. by destruct w. Qed.

Section respects_calls.
Context (R : relation World) `{!PreOrder R, !Oblivious R}.

Lemma respects_next_fault {E} : respects R (next_fault (E:=E)).
Proof.
  intros w. unfold next_fault. destruct (w_faults w); [reflexivity|].
  apply oblivious_faults.
Qed.

Lemma respects_now {E} : respects R (now (E:=E)).
Proof. intros w. reflexivity. Qed.

Lemma respects_fill_bytes {E} n : respects R (fill_bytes (E:=E) n).
Proof. intros w. apply oblivious_entropy. Qed.

(** A call respects the relation when its effect on the part of the world it
    touches does. *)
Lemma respects_db_call {A} (q : Stmt A) :
  (∀ w a d, q (w_now w) (w_db w) = Ok (a, d) → R w (set_db d w)) →
  respects R (db_call q).
Proof.
  intros Hq w. unfold db_call.
  pose proof (respects_next_fault (E:=SqlxError) w) as Hf.
  destruct (next_fault w) as [[[f|]|e] w1]; simpl in *; try done;
    (etrans; [exact Hf|]); destruct (q _ _) as [[a d]|e'] eqn:Eq; simpl;
    first [by eapply Hq|reflexivity].
Qed.

Lemma respects_run_sql {A} (q : Stmt A) :
  (∀ w a d, q (w_now w) (w_db w) = Ok (a, d) → R w (set_db d w)) →
  respects R (run_sql q).
Proof. intros H. by apply respects_map_err, respects_db_call. Qed.

Lemma respects_select {A} (q : Db → A) : respects R (run_sql (select q)).
Proof. apply respects_run_sql. intros w a d [= _ <-]. rewrite set_db_id. reflexivity. Qed.

Lemma respects_fs_call {A} (f : FS → result IoError A * FS) :
  (∀ w, R w (set_fs (f (w_fs w)).2 w)) → respects R (fs_call f).
Proof.
  intros Hq w. unfold fs_call.
  pose proof (respects_next_fault (E:=IoError) w) as Hf.
  destruct (next_fault w) as [[[g|]|e] w1]; simpl in *; try done;
    (etrans; [exact Hf|]); specialize (Hq w1); by destruct (f (w_fs w1)).
Qed.

Lemma respects_fs_reading {A} (f : FS → result IoError A) : respects R (fs_call (fs_reading f)).
Proof. apply respects_fs_call. intros w. simpl. rewrite set_fs_id. reflexivity. Qed.

Lemma respects_fs_write_call l d :
  (∀ w d', R w (set_fs (fs_write_handle (w_fs w) l d') w)) → respects R (fs_write_call l d).
Proof.
  intros Hq w. unfold fs_write_call.
  pose proof (respects_next_fault (E:=IoError) w) as Hf.
  destruct (next_fault w) as [[[g|]|e] w1]; simpl in *; (etrans; [exact Hf|]); apply Hq.
Qed.

Lemma respects_redis_call {A} (f : gmap string bytes → A * gmap string bytes) :
  (∀ w, R w (set_cache (f (w_cache w)).2 w)) → respects R (redis_call f).
Proof.
  intros Hq w. unfold redis_call.
  pose proof (respects_next_fault (E:=RedisError) w) as Hf.
  destruct (next_fault w) as [[[g|]|e] w1]; simpl in *; try done;
    (etrans; [exact Hf|]); specialize (Hq w1); by destruct (f (w_cache w1)).
Qed.

(** A transaction that fails puts the tables back. *)
Lemma respects_transaction {A} (body : M A) :
  (∀ w w', R w w' → R w (set_db (w_db w) w')) →
  respects R body → respects R (transaction body).
Proof.
  intros Hroll Hbody w. unfold transaction.
  pose proof (respects_select (λ _, tt) w) as H0. unfold respects in Hbody.
  assert (w_db (run_sql (select (λ _, tt)) w).2 = w_db w) as Hdb.
  { unfold run_sql, map_err, db_call, next_fault, select.
    destruct (w_faults w) as [|[g|] fs]; done. }
  destruct (run_sql _ w) as [[[]|e] w1]; simpl in *; [|done].
  specialize (Hbody w1). destruct (body w1) as [[a|e] w2]; simpl in *.
  - assert (R w w2) as H2 by (by etrans).
    pose proof (respects_select (λ _, tt) w2) as H3.
    destruct (run_sql _ w2) as [[[]|e] w3]; simpl in *; [by etrans|].
    rewrite Hdb. apply Hroll. by etrans.
  - rewrite Hdb. apply Hroll. by etrans.
Qed.
End respects_calls.

#[export] Hint Resolve respects_next_fault respects_now respects_fill_bytes
  respects_select respects_fs_reading : respects.

(** ** Running calls when nothing fails *)

Create Rewrite HintDb run.

Lemma run_bind {S E A B} (m : prog S E A) (k : A → prog S E B) w :
  (m ≫= k) w = match m w with (Ok a, w') => k a w' | (Err e, w') => (Err e, w') end.
Proof. done. Qed.

Lemma run_ret {S E A} (a : A) (w : S) : (mret a : prog S E A) w = (Ok a, w).
Proof. done. Qed.

Lemma run_throw {S E A} (e : E) (w : S) : (throw e : prog S E A) w = (Err e, w).
Proof. done. Qed.

Lemma run_lift {S E A} (r : result E A) (w : S) : (lift r : prog S E A) w = (r, w).
Proof. done. Qed.

Lemma run_now {E} w : (now (E:=E)) w = (Ok (w_now w), w).
Proof. done. Qed.

Lemma run_attempt {S E F A} (m : prog S E A) (w : S) :
  (attempt m : prog S F _) w = (Ok (m w).1, (m w).2).
Proof. unfold attempt. by destruct (m w). Qed.

Lemma run_map_err {S E F A} (g : E → F) (m : prog S E A) (w : S) :
  map_err g m w = (map_result_err g (m w).1, (m w).2).
Proof. unfold map_err. by destruct (m w). Qed.

Lemma run_fill_bytes {E} n w :
  fill_bytes (E:=E) n w =
  (Ok (map (w_entropy w) (seq (w_entropy_pos w) n)), set_entropy_pos (w_entropy_pos w + n) w).
Proof. done. Qed.

Lemma run_if {S E A} (b : bool) (m m' : prog S E A) (w : S) :
  (if b then m else m') w = if b then m w else m' w.
Proof. by destruct b. Qed.

#[export] Hint Rewrite @run_bind @run_ret @run_throw @run_lift @run_now @run_attempt
  @run_map_err @run_fill_bytes : run.

(** [run] executes the calls at the front of a program. *)
Ltac run := autorewrite with run; cbn beta iota.
Tactic Notation "run" "in" hyp(H) := autorewrite with run in H; cbn beta iota in H.

Section no_faults.
Context (w : World) (Hf : w_faults w = []).

Lemma db_call_ok {A} (q : Stmt A) :
  db_call q w = match q (w_now w) (w_db w) with
                | Ok (a, d) => (Ok a, set_db d w)
                | Err e => (Err e, w)
                end.
Proof. unfold db_call, next_fault. by rewrite Hf. Qed.

Lemma run_sql_ok {A} (q : Stmt A) :
  run_sql q w = match q (w_now w) (w_db w) with
                | Ok (a, d) => (Ok a, set_db d w)
                | Err e => (Err (from_sqlx_error e), w)
                end.
Proof. unfold run_sql, map_err. rewrite db_call_ok. by destruct (q _ _) as [[??]|]. Qed.

Lemma select_ok {A} (q : Db → A) : run_sql (select q) w = (Ok (q (w_db w)), w).
Proof. rewrite run_sql_ok. simpl. by rewrite set_db_id. Qed.

Lemma fs_call_ok {A} (f : FS → result IoError A * FS) :
  fs_call f w = ((f (w_fs w)).1, set_fs (f (w_fs w)).2 w).
Proof. unfold fs_call, next_fault. rewrite Hf. by destruct (f (w_fs w)). Qed.

Lemma fs_reading_ok {A} (f : FS → result IoError A) :
  fs_call (fs_reading f) w = (f (w_fs w), w).
Proof. rewrite fs_call_ok. simpl. by rewrite set_fs_id. Qed.

Lemma fs_write_call_ok l d :
  fs_write_call l d w = (Ok tt, set_fs (fs_write_handle (w_fs w) l d) w).
Proof. unfold fs_write_call, next_fault. by rewrite Hf. Qed.

Lemma redis_call_ok {A} (f : gmap string bytes → A * gmap string bytes) :
  redis_call f w = (Ok (f (w_cache w)).1, set_cache (f (w_cache w)).2 w).
Proof. unfold redis_call, next_fault. rewrite Hf. by destruct (f (w_cache w)). Qed.
End no_faults.

(** ** No call makes calls fail *)

(** Where nothing is pending, nothing is pending afterwards. *)
Definition calm (w w' : World) : Prop := w_faults w = [] → w_faults w' = [].

#[export] Instance calm_preorder : PreOrder calm.
Proof. split; unfold calm; [by intros ?|]. intros x y z Hxy Hyz H. auto. Qed.

Section calm.
Lemma calm_db_call {A} (q : Stmt A) : respects calm (db_call q).
Proof. intros w Hf. rewrite db_call_ok by done. by destruct (q _ _) as [[??]|]. Qed.

Lemma calm_run_sql {A} (q : Stmt A) : respects calm (run_sql q).
Proof. apply respects_map_err, calm_db_call. Qed.

Lemma calm_fs_call {A} (f : FS → result IoError A * FS) : respects calm (fs_call f).
Proof. intros w Hf. by rewrite fs_call_ok. Qed.

Lemma calm_fs_write_call l d : respects calm (fs_write_call l d).
Proof. intros w Hf. by rewrite fs_write_call_ok. Qed.

Lemma calm_redis_call {A} (f : gmap string bytes → A * gmap string bytes) : respects calm (redis_call f).
Proof. intros w Hf. by rewrite redis_call_ok. Qed.
End calm.

#[export] Hint Resolve calm_run_sql calm_fs_call calm_fs_write_call calm_redis_call : respects.
