(* ===== verification/Compression.v ===== *)
(** * Compression (compression.rs)

    [CompressionManager]: the header byte, the two codecs, the legacy formats,
    and the streaming range decoder with its loops of short reads. *)

From S2P Require Import Prelude.
From S2P Require Import Errors.
From S2P Require Import Models.
From S2P Require Import Config.
From S2P Require Import Externals.

Section compression.
Context `{X : Externals}.

(** The manager is its configuration. *)
Abbreviation CompressionManager := CompressionConfig.

Definition GZIP_HEADER : Byte.byte := Byte.x01.
Definition ZSTD_HEADER : Byte.byte := Byte.x02.

Definition compress_gzip (self : CompressionManager) (data : bytes) : result StorageError bytes :=
  map_result_err (λ e, Compression ("Gzip compression failed: " +:+ io_text e))
    (gz_encode (as_u32 (co_level self)) data).

Definition compress_zstd (self : CompressionManager) (data : bytes) : result StorageError bytes :=
  map_result_err (λ e, Compression ("Zstd compression failed: " +:+ io_text e))
    (zstd_bulk_compress (co_level self) data).

Definition unsupported_compression (self : CompressionManager) : StorageError :=
  Compression ("Unsupported compression algorithm: " +:+ co_algorithm self).

Definition compress (self : CompressionManager) (data : bytes) : result StorageError bytes :=
  if negb (co_enabled self) || (zlen data <? co_min_size self) || bool_decide (data = []) then
    Ok data
  else if decide (co_algorithm self = "gzip") then
    compressed ← compress_gzip self data; Ok (GZIP_HEADER :: compressed)
  else if decide (co_algorithm self = "zstd") then
    compressed ← compress_zstd self data; Ok (ZSTD_HEADER :: compressed)
  else Err (unsupported_compression self).

(** [Read::read_to_end]. *)
Definition read_to_end (s : DecodeStream) : result IoError bytes :=
  match ds_error s with Some e => Err e | None => Ok (ds_data s) end.

Definition decompress_gzip (data : bytes) : result StorageError bytes :=
  map_result_err (λ e, Compression ("Gzip decompression failed: " +:+ io_text e))
    (read_to_end (gz_decoder data)).

Definition READ_BUF : nat := Z.to_nat 4096.

(** The 4 KB read loop of [decompress_zstd]; [None] is fuel running out. *)
Fixpoint zstd_read_loop (fuel : nat) (s : DecodeStream) (pos : nat) (decompressed : bytes) :
    option (result IoError bytes) :=
  match fuel with
  | O => None
  | Datatypes.S fuel' =>
    match stream_read s pos READ_BUF with
    | Ok [] => Some (Ok decompressed)
    | Ok buffer => zstd_read_loop fuel' s (pos + length buffer) (decompressed ++ buffer)
    | Err e => Some (Err e)
    end
  end.

(** A read that does not end the loop takes at least one byte. *)
Definition stream_fuel (s : DecodeStream) : nat := Datatypes.S (length (ds_data s)).

Definition OUT_OF_FUEL : StorageError := Compression "decoder loop out of fuel".

Definition decompress_zstd (data : bytes) : result StorageError bytes :=
  match zstd_decoder_new data with
  | Err e => Err (Compression ("Failed to create zstd decoder: " +:+ io_text e))
  | Ok decoder =>
    match zstd_read_loop (stream_fuel decoder) decoder 0 [] with
    | Some (Ok d) => Ok d
    | Some (Err e) => Err (Compression ("Zstd decompression failed: " +:+ io_text e))
    | None => Err OUT_OF_FUEL
    end
  end.

(** Data without a header: gzip by its magic bytes, zstd by trying. *)
Definition decompress_legacy (self : CompressionManager) (data : bytes) :
    result StorageError bytes :=
  if decide (co_algorithm self = "gzip") then
    match data with
    | a :: b :: _ =>
      if bool_decide (a = Byte.x1f) && bool_decide (b = Byte.x8b) then decompress_gzip data
      else Ok data
    | _ => Ok data
    end
  else if decide (co_algorithm self = "zstd") then
    match decompress_zstd data with
    | Ok d => Ok d
    | Err _ => Ok data
    end
  else Err (unsupported_compression self).

Definition decompress (self : CompressionManager) (compressed_data : bytes) :
    result StorageError bytes :=
  if negb (co_enabled self) then Ok compressed_data
  else match compressed_data with
       | [] => Ok compressed_data
       | format :: data =>
         if bool_decide (format = GZIP_HEADER) then decompress_gzip data
         else if bool_decide (format = ZSTD_HEADER) then decompress_zstd data
         else decompress_legacy self compressed_data
       end.

Definition DISCARD_BUF : nat := Z.to_nat 65536.

(** [while remaining_to_skip > 0]: the position reached. *)
Fixpoint skip_loop (fuel : nat) (s : DecodeStream) (pos remaining_to_skip : nat) :
    option (result IoError nat) :=
  match fuel with
  | O => None
  | Datatypes.S fuel' =>
    if decide (remaining_to_skip = 0%nat) then Some (Ok pos)
    else let chunk := Nat.min remaining_to_skip DISCARD_BUF in
         match stream_read s pos chunk with
         | Ok [] => Some (Ok pos)
         | Ok buf => skip_loop fuel' s (pos + length buf) (remaining_to_skip - length buf)
         | Err e => Some (Err e)
         end
  end.

(** [while filled < len]: the bytes collected. *)
Fixpoint fill_loop (fuel : nat) (s : DecodeStream) (pos len : nat) (filled : bytes) :
    option (result IoError bytes) :=
  match fuel with
  | O => None
  | Datatypes.S fuel' =>
    if decide (length filled < len)%nat then
      match stream_read s pos (len - length filled) with
      | Ok [] => Some (Ok filled)
      | Ok buf => fill_loop fuel' s (pos + length buf) len (filled ++ buf)
      | Err e => Some (Err e)
      end
    else Some (Ok filled)
  end.

Definition read_range (reader : DecodeStream) (start len : nat) :
    result StorageError (option bytes) :=
  match skip_loop (stream_fuel reader) reader 0 start with
  | None => Err OUT_OF_FUEL
  | Some (Err e) =>
    Err (Compression ("Decompression failed while skipping to range start: " +:+ io_text e))
  | Some (Ok pos) =>
    match fill_loop (stream_fuel reader) reader pos len [] with
    | None => Err OUT_OF_FUEL
    | Some (Err e) => Err (Compression ("Decompression failed while reading range: " +:+ io_text e))
    | Some (Ok result) => Ok (Some result)
    end
  end.

Definition decompress_range (compressed_data : bytes) (start len : nat) :
    result StorageError (option bytes) :=
  match compressed_data with
  | [] => Ok (Some [])
  | format :: data =>
    if bool_decide (format = GZIP_HEADER) then read_range (gz_decoder data) start len
    else if bool_decide (format = ZSTD_HEADER) then
      match zstd_decoder_new data with
      | Ok d => read_range d start len
      | Err _ => Ok None
      end
    else Ok None
  end.

Definition compression_enabled (self : CompressionManager) : bool := co_enabled self.
Definition compression_algorithm (self : CompressionManager) : string := co_algorithm self.

Definition should_compress (self : CompressionManager) (data_size : Z) : bool :=
  co_enabled self && (co_min_size self <=? data_size).

Definition compression_ratio (original_size compressed_size : Z) : Q :=
  if decide (original_size = 0) then 0%Q
  else ((original_size - compressed_size) # 1) / (original_size # 1).
End compression.

(** ** The read loops

    For every way the decoder cuts its output into reads, each loop stops
    within its fuel and collects exactly the bytes asked for. *)

Section loops.
Context (s : DecodeStream).
Abbreviation L := (length (ds_data s)).

Lemma zstd_read_loop_spec fuel pos acc :
  (pos ≤ L)%nat → (L - pos < fuel)%nat →
  zstd_read_loop fuel s pos acc =
  Some (match ds_error s with Some e => Err e | None => Ok (acc ++ drop pos (ds_data s)) end).
Proof.
  revert pos acc. induction fuel as [|fuel IH]; intros pos acc Hpos Hf; [lia|].
  simpl. destruct (decide (pos = L)) as [->|Hne].
  - rewrite stream_read_end by (unfold READ_BUF; lia).
    rewrite drop_ge, app_nil_r by lia. by destruct (ds_error s).
  - destruct (stream_read_some s pos READ_BUF) as (d & -> & Hd & Hlen & Hb);
      [unfold READ_BUF; lia|lia|].
    destruct d as [|x d]; [simpl in Hlen; lia|]. rewrite IH by (simpl in *; lia).
    destruct (ds_error s); [done|]. do 2 f_equal. rewrite <-app_assoc. f_equal.
    rewrite Hd at 1. by rewrite <-drop_drop, take_drop.
Qed.

Lemma skip_loop_spec fuel pos rem :
  (pos ≤ L)%nat → (L - pos < fuel)%nat →
  skip_loop fuel s pos rem =
  Some (if decide (rem ≤ L - pos)%nat then Ok (pos + rem)%nat
        else match ds_error s with Some e => Err e | None => Ok L end).
Proof.
  revert pos rem. induction fuel as [|fuel IH]; intros pos rem Hpos Hf; [lia|].
  simpl. destruct (decide (rem = 0%nat)) as [->|Hrem].
  { rewrite decide_True by lia. do 2 f_equal. lia. }
  assert (0 < Nat.min rem DISCARD_BUF)%nat as Hc by (unfold DISCARD_BUF; lia).
  destruct (decide (pos = L)) as [->|Hne].
  - rewrite stream_read_end by lia. rewrite decide_False by lia. by destruct (ds_error s).
  - destruct (stream_read_some s pos (Nat.min rem DISCARD_BUF)) as (d & -> & _ & Hlen & Hb);
      [lia..|].
    destruct d as [|x d]; [simpl in Hlen; lia|]. rewrite IH by (simpl in *; lia).
    repeat case_decide; try lia; [|done]. do 2 f_equal. lia.
Qed.

Lemma fill_loop_spec fuel pos len filled :
  (pos ≤ L)%nat → (L - pos < fuel)%nat → (length filled ≤ len)%nat →
  fill_loop fuel s pos len filled =
  Some (if decide (len - length filled ≤ L - pos)%nat
        then Ok (filled ++ take (len - length filled) (drop pos (ds_data s)))
        else match ds_error s with
             | Some e => Err e
             | None => Ok (filled ++ drop pos (ds_data s))
             end).
Proof.
  revert pos filled. induction fuel as [|fuel IH]; intros pos filled Hpos Hf Hfl; [lia|].
  simpl. destruct (decide (length filled < len)%nat) as [Hlt|Hge].
  2:{ rewrite decide_True by lia.
      replace (len - length filled)%nat with 0%nat by lia. by rewrite take_0, app_nil_r. }
  destruct (decide (pos = L)) as [->|Hne].
  - rewrite stream_read_end by lia. rewrite decide_False by lia.
    rewrite drop_ge, app_nil_r by lia. by destruct (ds_error s).
  - destruct (stream_read_some s pos (len - length filled)) as (d & -> & Hd & Hlen & Hb);
      [lia..|].
    destruct d as [|x d]; [simpl in Hlen; lia|].
    rewrite IH by (rewrite ?length_app; simpl in *; lia).
    rewrite length_app. set (n := length (x :: d)) in *.
    assert (drop pos (ds_data s) = (x :: d) ++ drop (pos + n) (ds_data s)) as Hsplit.
    { rewrite Hd at 1. by rewrite <-drop_drop, take_drop. }
    rewrite Hsplit. repeat case_decide; try lia.
    + do 2 f_equal. rewrite <-app_assoc. f_equal. rewrite take_app.
      rewrite (take_ge (x :: d)) by (fold n; lia). do 2 f_equal. fold n. lia.
    + destruct (ds_error s); [done|]. by rewrite <-app_assoc.
Qed.
End loops.

Lemma read_range_spec s start len :
  (start ≤ length (ds_data s))%nat →
  (start + len ≤ length (ds_data s))%nat ∨ ds_error s = None →
  read_range s start len = Ok (Some (take len (drop start (ds_data s)))).
Proof.
  intros Hs Hor. unfold read_range.
  rewrite skip_loop_spec by (unfold stream_fuel; lia). rewrite decide_True by lia.
  rewrite fill_loop_spec by (unfold stream_fuel; simpl; lia). simpl.
  rewrite Nat.sub_0_r. case_decide; [done|].
  destruct Hor as [?|Hn]; [lia|]. rewrite Hn. by rewrite take_ge by (rewrite length_drop; lia).
Qed.

Lemma decompress_zstd_eq `{X : Externals} c s :
  zstd_decoder_new c = Ok s →
  decompress_zstd c = map_result_err (λ e, Compression ("Zstd decompression failed: " +:+ io_text e))
                        (read_to_end s).
Proof.
  intros H. unfold decompress_zstd. rewrite H.
  rewrite zstd_read_loop_spec by (unfold stream_fuel; lia).
  unfold read_to_end. rewrite drop_0. by destruct (ds_error s).
Qed.

(** ** What [compress] did *)

(** The configuration and the data for which [compress] calls a codec. *)
Definition compresses (self : CompressionConfig) (data : bytes) : Prop :=
  co_enabled self = true ∧ co_min_size self ≤ zlen data ∧ data ≠ [].

Lemma compress_codec `{X : Externals} self data :
  compresses self data →
  compress self data =
    if decide (co_algorithm self = "gzip") then
      compressed ← compress_gzip self data; Ok (GZIP_HEADER :: compressed)
    else if decide (co_algorithm self = "zstd") then
      compressed ← compress_zstd self data; Ok (ZSTD_HEADER :: compressed)
    else Err (unsupported_compression self).
Proof.
  intros (He & Hs & Hd). unfold compress. rewrite He, bool_decide_eq_false_2 by done.
  destruct (Z.ltb_spec (zlen data) (co_min_size self)); [lia|done].
Qed.

(** A successful compression is a header byte in front of a stream the
    matching decoder reads back. *)
Lemma compress_inv `{X : Externals, !ExternalsLaws X} self data out :
  compresses self data → compress self data = Ok out →
  (∃ c, out = GZIP_HEADER :: c ∧ ds_data (gz_decoder c) = data ∧ ds_error (gz_decoder c) = None)
  ∨ (∃ c s, out = ZSTD_HEADER :: c ∧ zstd_decoder_new c = Ok s ∧ ds_data s = data
            ∧ ds_error s = None).
Proof.
  intros Hc. rewrite compress_codec by done.
  case_decide; [|case_decide; [|done]].
  - unfold compress_gzip. destruct (gz_encode _ _) as [c|e] eqn:E; [|done].
    intros [= <-]. left. exists c. split; [done|]. by eapply gz_roundtrip.
  - unfold compress_zstd. destruct (zstd_bulk_compress _ _) as [c|e] eqn:E; [|done].
    intros [= <-]. right. destruct (zstd_roundtrip _ _ _ E) as (s & Hs & Hd & He).
    exists c, s. done.
Qed.

Lemma decompress_compress `{X : Externals, !ExternalsLaws X} self self' data out :
  compresses self data → compress self data = Ok out → co_enabled self' = true →
  decompress self' out = Ok data.
Proof.
  intros Hc Ho He. unfold decompress. rewrite He. simpl.
  destruct (compress_inv _ _ _ Hc Ho) as [(c & -> & Hd & Hn)|(c & s & -> & Hs & Hd & Hn)].
  - rewrite bool_decide_eq_true_2 by done.
    unfold decompress_gzip, read_to_end. by rewrite Hn, Hd.
  - rewrite bool_decide_eq_false_2, bool_decide_eq_true_2 by done.
    rewrite (decompress_zstd_eq _ _ Hs). unfold read_to_end. by rewrite Hn, Hd.
Qed.

(** ** Properties *)

Definition cfg_zstd : CompressionConfig := mkCompressionConfig true "zstd" 3 4.
Definition twelve_bytes : bytes := replicate 12 Byte.x61.

Lemma decompress_range_compress `{X : Externals, !ExternalsLaws X} self data out start len :
  compresses self data → compress self data = Ok out → (start ≤ length data)%nat →
  decompress_range out start len = Ok (Some (take len (drop start data))).
Proof.
  intros Hc Ho Hs. unfold decompress_range.
  destruct (compress_inv _ _ _ Hc Ho) as [(c & -> & Hd & Hn)|(c & s & -> & Hz & Hd & Hn)].
  - rewrite bool_decide_eq_true_2 by done. rewrite <-Hd. apply read_range_spec; [by rewrite Hd|auto].
  - rewrite bool_decide_eq_false_2, bool_decide_eq_true_2 by done. rewrite Hz, <-Hd.
    apply read_range_spec; [by rewrite Hd|auto].
Qed.

(** C22: What [compress] stored, [decompress] gives back: with compression
    enabled on both sides, whatever algorithm the reading side is set to, a
    compressed output decompresses to the bytes that went in. *)
Theorem compress_decompress_roundtrip `{X : Externals, !ExternalsLaws X} self self' data out :
  compresses self data → compress self data = Ok out → co_enabled self' = true →
  decompress self' out = Ok data.
Proof. apply decompress_compress. Qed.

Lemma compress_decompress_roundtrip_witness :
  decompress (X:=Toy.ToyExternals) (mkCompressionConfig true "gzip" 6 0)
    [Byte.x02; Byte.x00; Byte.x61; Byte.x0c] = Ok twelve_bytes.
Proof.
  apply (compress_decompress_roundtrip (X:=Toy.ToyExternals) cfg_zstd); vm_compute;
    [split_and!; congruence|reflexivity|reflexivity].
Defined.

(** The streaming range decoder agrees with the full one.  For every way
    the decoder cuts its output into short reads, a range of a compressed
    output is the same slice of the original bytes, clipped at their end, and
    neither loop runs out of fuel. *)
Theorem decompress_range_slice `{X : Externals, !ExternalsLaws X} self data out start len :
  compresses self data → compress self data = Ok out → (start ≤ length data)%nat →
  decompress_range out start len = Ok (Some (take len (drop start data))).
Proof. apply decompress_range_compress. Qed.

Lemma decompress_range_slice_witness :
  decompress_range (X:=Toy.ToyExternals) [Byte.x02; Byte.x00; Byte.x61; Byte.x0c] 3 5
  = Ok (Some (replicate 5 Byte.x61)).
Proof.
  apply (decompress_range_slice (X:=Toy.ToyExternals) cfg_zstd twelve_bytes); vm_compute;
    [split_and!; congruence|reflexivity|lia].
Defined.

(** A range that lies inside what the stream yields is served even when
    the stream breaks further on: the decoder stops reading at the end of the
    range, so a later decoding error is never met. *)
Theorem decompress_range_stops_early `{X : Externals} c start len :
  (start + len ≤ length (ds_data (gz_decoder c)))%nat →
  decompress_range (GZIP_HEADER :: c) start len
  = Ok (Some (take len (drop start (ds_data (gz_decoder c))))).
Proof.
  intros H. unfold decompress_range. rewrite bool_decide_eq_true_2 by done.
  apply read_range_spec; [lia|auto].
Qed.

Lemma decompress_range_stops_early_witness :
  decompress_range (X:=Toy.ToyExternals) [Byte.x01; Byte.x01; Byte.x61; Byte.x62; Byte.x63] 1 2
  = Ok (Some [Byte.x62; Byte.x63]).
Proof. apply (decompress_range_stops_early (X:=Toy.ToyExternals)). vm_compute. lia. Defined.

(** Decompression is switched off with the global setting even for data
    that was compressed: a manager whose configuration is disabled hands the
    stored bytes back as they are, header byte included. *)
Theorem decompress_disabled_returns_stored `{X : Externals} self self' data out :
  compresses self data → compress self data = Ok out → co_enabled self' = false →
  decompress self' out = Ok out ∧ ∃ h c, out = h :: c ∧ (h = GZIP_HEADER ∨ h = ZSTD_HEADER).
Proof.
  intros Hc Ho He. split; [unfold decompress; by rewrite He|].
  rewrite compress_codec in Ho by done.
  case_decide; [|case_decide; [|done]]; unfold compress_gzip, compress_zstd in Ho.
  - destruct (gz_encode _ _); [|done]. injection Ho as <-. eauto.
  - destruct (zstd_bulk_compress _ _); [|done]. injection Ho as <-. eauto.
Qed.

Lemma decompress_disabled_returns_stored_witness :
  decompress (X:=Toy.ToyExternals) (mkCompressionConfig false "zstd" 3 4)
    [Byte.x02; Byte.x00; Byte.x61; Byte.x0c] = Ok [Byte.x02; Byte.x00; Byte.x61; Byte.x0c]
  ∧ ∃ h c, [Byte.x02; Byte.x00; Byte.x61; Byte.x0c] = h :: c ∧ (h = GZIP_HEADER ∨ h = ZSTD_HEADER).
Proof.
  apply (decompress_disabled_returns_stored (X:=Toy.ToyExternals) cfg_zstd _ twelve_bytes);
    vm_compute; [split_and!; congruence|reflexivity|reflexivity].
Defined.
