(* ===== verification/Crypto.v ===== *)
(** * Encryption (crypto.rs)

    [EncryptionAlgorithm] and [CryptoManager]: the global cipher made at
    start-up and encryption under an explicit key.  A stored ciphertext is the
    12-byte nonce followed by what the cipher returned. *)

From S2P Require Import Prelude.
From S2P Require Import Errors.
From S2P Require Import Models.
From S2P Require Import FileSystem.
From S2P Require Import Config.
From S2P Require Import Externals.
From S2P Require Import World.

Inductive EncryptionAlgorithm := AesGcm | ChaCha20Poly1305.

#[export] Instance EncryptionAlgorithm_eq_dec : EqDecision EncryptionAlgorithm.
Proof. solve_decision. Defined.

Definition as_str (a : EncryptionAlgorithm) : string :=
  match a with AesGcm => "aes-gcm" | ChaCha20Poly1305 => "chacha20poly1305" end.

Definition from_str (s : string) : result StorageError EncryptionAlgorithm :=
  if decide (s = "aes-gcm") then Ok AesGcm
  else if decide (s = "chacha20poly1305") then Ok ChaCha20Poly1305
  else Err (InvalidEncryptionAlgorithm ("Unsupported algorithm: " +:+ s)).

(** A cipher object of the crates is its key. *)
Record CryptoManager := mkCryptoManager {
  cm_config : CryptoConfig;
  cm_aes_key : option bytes;
  cm_chacha_key : option bytes
}.

Definition NONCE_LEN : nat := 12.

Section crypto.
Context `{X : Externals}.

Definition AES_FAILED (what e : string) : StorageError :=
  Encryption ("AES " +:+ what +:+ " failed: " +:+ e).
Definition CHACHA_FAILED (what e : string) : StorageError :=
  Encryption ("ChaCha20 " +:+ what +:+ " failed: " +:+ e).
Definition TOO_SHORT : StorageError := Encryption "Invalid encrypted data: too short".

(** The key bytes [init_cipher] works with. *)
Definition init_key_bytes (config : CryptoConfig) : M bytes :=
  match cr_key config with
  | Some key_str =>
    if decide (String.length key_str = 64%nat) then
      lift (map_result_err (λ e, Encryption ("Invalid hex key: " +:+ e)) (hex_decode key_str))
    else if decide (String.length key_str = 32%nat) then mret (as_bytes key_str)
    else throw (Encryption "Key must be 32 bytes or 64 hex characters")
  | None => fill_bytes 32
  end.

Definition init_cipher (self : CryptoManager) : M CryptoManager :=
  let config := cm_config self in
  key_bytes ← init_key_bytes config;
  if decide (length key_bytes ≠ 32%nat) then throw (Encryption "Key must be exactly 32 bytes")
  else if decide (cr_algorithm config = "aes-gcm") then
    mret (mkCryptoManager config (Some key_bytes) (cm_chacha_key self))
  else if decide (cr_algorithm config = "chacha20poly1305") then
    mret (mkCryptoManager config (cm_aes_key self) (Some key_bytes))
  else throw (Encryption ("Unsupported encryption algorithm: " +:+ cr_algorithm config)).

Definition crypto_new (config : CryptoConfig) : M CryptoManager :=
  let manager := mkCryptoManager config None None in
  if cr_enabled config then init_cipher manager else mret manager.

Definition encrypt_aes (self : CryptoManager) (data : bytes) : M bytes :=
  cipher ← lift (ok_or (Encryption "AES cipher not initialized") (cm_aes_key self));
  nonce ← fill_bytes NONCE_LEN;
  ciphertext ← lift (map_result_err (AES_FAILED "encryption") (aes_gcm_encrypt cipher nonce data));
  mret (nonce ++ ciphertext).

Definition encrypt_chacha (self : CryptoManager) (data : bytes) : M bytes :=
  cipher ← lift (ok_or (Encryption "ChaCha20 cipher not initialized") (cm_chacha_key self));
  nonce ← fill_bytes NONCE_LEN;
  ciphertext ← lift (map_result_err (CHACHA_FAILED "encryption") (chacha20_encrypt cipher nonce data));
  mret (nonce ++ ciphertext).

Definition decrypt_aes (self : CryptoManager) (encrypted_data : bytes) : result StorageError bytes :=
  if decide (length encrypted_data < NONCE_LEN)%nat then Err TOO_SHORT
  else cipher ← ok_or (Encryption "AES cipher not initialized") (cm_aes_key self);
       map_result_err (AES_FAILED "decryption")
         (aes_gcm_decrypt cipher (take NONCE_LEN encrypted_data) (drop NONCE_LEN encrypted_data)).

Definition decrypt_chacha (self : CryptoManager) (encrypted_data : bytes) :
    result StorageError bytes :=
  if decide (length encrypted_data < NONCE_LEN)%nat then Err TOO_SHORT
  else cipher ← ok_or (Encryption "ChaCha20 cipher not initialized") (cm_chacha_key self);
       map_result_err (CHACHA_FAILED "decryption")
         (chacha20_decrypt cipher (take NONCE_LEN encrypted_data) (drop NONCE_LEN encrypted_data)).

Definition encrypt (self : CryptoManager) (data : bytes) (algorithm : EncryptionAlgorithm) : M bytes :=
  if negb (cr_enabled (cm_config self)) then mret data
  else match algorithm with
       | AesGcm => encrypt_aes self data
       | ChaCha20Poly1305 => encrypt_chacha self data
       end.

Definition decrypt (self : CryptoManager) (data : bytes) (algorithm : EncryptionAlgorithm) :
    result StorageError bytes :=
  if negb (cr_enabled (cm_config self)) then Ok data
  else match algorithm with
       | AesGcm => decrypt_aes self data
       | ChaCha20Poly1305 => decrypt_chacha self data
       end.

(** The algorithm a row names, AES-GCM when it names none. *)
Definition row_algorithm (file : StoredFile) : result StorageError EncryptionAlgorithm :=
  from_str (default "aes-gcm" (sf_encryption_algorithm file)).

Definition encrypt_file (self : CryptoManager) (file : StoredFile) (data : bytes) : M bytes :=
  algorithm ← lift (row_algorithm file); encrypt self data algorithm.

Definition decrypt_file (self : CryptoManager) (file : StoredFile) (data : bytes) :
    result StorageError bytes :=
  algorithm ← row_algorithm file; decrypt self data algorithm.

Definition encrypt_with_key (data : bytes) (algorithm : EncryptionAlgorithm) (key_bytes : bytes) :
    M bytes :=
  if decide (length key_bytes ≠ 32%nat) then throw (Encryption "Key must be exactly 32 bytes")
  else
    nonce ← fill_bytes NONCE_LEN;
    ciphertext ← lift (match algorithm with
      | AesGcm => map_result_err (AES_FAILED "encryption") (aes_gcm_encrypt key_bytes nonce data)
      | ChaCha20Poly1305 =>
        map_result_err (CHACHA_FAILED "encryption") (chacha20_encrypt key_bytes nonce data)
      end);
    mret (nonce ++ ciphertext).

Definition decrypt_with_key (encrypted_data : bytes) (algorithm : EncryptionAlgorithm)
    (key_bytes : bytes) : result StorageError bytes :=
  if decide (length key_bytes ≠ 32%nat) then Err (Encryption "Key must be exactly 32 bytes")
  else if decide (length encrypted_data < NONCE_LEN)%nat then Err TOO_SHORT
  else
    let nonce := take NONCE_LEN encrypted_data in
    let ciphertext := drop NONCE_LEN encrypted_data in
    match algorithm with
    | AesGcm => map_result_err (AES_FAILED "decryption") (aes_gcm_decrypt key_bytes nonce ciphertext)
    | ChaCha20Poly1305 =>
      map_result_err (CHACHA_FAILED "decryption") (chacha20_decrypt key_bytes nonce ciphertext)
    end.

Definition crypto_enabled (self : CryptoManager) : bool := cr_enabled (cm_config self).
Definition crypto_algorithm (self : CryptoManager) : string := cr_algorithm (cm_config self).
End crypto.

(** ** Lemmas *)

Lemma from_str_as_str a : from_str (as_str a) = Ok a.
Proof. by destruct a. Qed.

Lemma from_str_Ok s a : from_str s = Ok a ↔ s = as_str a.
Proof.
  split; [|intros ->; apply from_str_as_str]. unfold from_str.
  repeat case_decide; intros [= <-]; done.
Qed.

Section crypto_lemmas.
Context `{X : Externals} (R : relation World) `{!PreOrder R, !Oblivious R}.

Lemma respects_encrypt_with_key d a k : respects R (encrypt_with_key d a k).
Proof. unfold encrypt_with_key. solve_respects. Qed.

Lemma respects_encrypt self d a : respects R (encrypt self d a).
Proof. unfold encrypt, encrypt_aes, encrypt_chacha. solve_respects. Qed.

Lemma respects_crypto_new c : respects R (crypto_new c).
Proof. unfold crypto_new, init_cipher, init_key_bytes. solve_respects. Qed.
End crypto_lemmas.
#[export] Hint Resolve respects_encrypt_with_key respects_encrypt respects_crypto_new : respects.

(** What every encryption does after choosing its cipher. *)
Lemma seal_inv {F} (g : string → StorageError)
    (k : bytes → bytes → F) w c w' (enc : bytes → result string bytes) :
  (nonce ← fill_bytes NONCE_LEN;
   ciphertext ← lift (map_result_err g (enc nonce));
   mret (k nonce ciphertext) : M F) w = (Ok c, w') →
  ∃ nonce ct, length nonce = NONCE_LEN ∧ enc nonce = Ok ct ∧ c = k nonce ct.
Proof.
  run. set (nonce := map _ _). intros H.
  destruct (enc nonce) as [ct|] eqn:E; simpl in H; [|done].
  injection H as <- _. exists nonce, ct. split_and!; [|done..].
  unfold nonce. by rewrite length_map, length_seq.
Qed.

Section roundtrip.
Context `{X : Externals, !ExternalsLaws X}.

Lemma decrypt_encrypt_with_key data a key w c w' :
  encrypt_with_key data a key w = (Ok c, w') → decrypt_with_key c a key = Ok data.
Proof.
  unfold encrypt_with_key, decrypt_with_key. case_decide as Hk; [done|].
  destruct a; intros (nonce & ct & Hn & E & ->)%seal_inv;
    rewrite decide_False by (rewrite length_app; lia);
    rewrite <-Hn, take_app_length, drop_app_length.
  - by rewrite (aes_gcm_roundtrip _ _ _ _ E).
  - by rewrite (chacha20_roundtrip _ _ _ _ E).
Qed.

Lemma decrypt_encrypt self data a w c w' :
  encrypt self data a w = (Ok c, w') → decrypt self c a = Ok data.
Proof.
  unfold encrypt, decrypt. destruct (cr_enabled (cm_config self)); simpl;
    [|by intros [= <- _]].
  destruct a; unfold encrypt_aes, encrypt_chacha, decrypt_aes, decrypt_chacha;
    [destruct (cm_aes_key self) as [key|]|destruct (cm_chacha_key self) as [key|]];
    run; simpl; try done; intros (nonce & ct & Hn & E & ->)%seal_inv;
    rewrite decide_False by (rewrite length_app; lia);
    rewrite <-Hn, take_app_length, drop_app_length.
  - by rewrite (aes_gcm_roundtrip _ _ _ _ E).
  - by rewrite (chacha20_roundtrip _ _ _ _ E).
Qed.
End roundtrip.

(** The key a freshly made manager holds is the one of its algorithm. *)
Definition manager_wf (m : CryptoManager) : Prop :=
  let config := cm_config m in
  if cr_enabled config then
    ∃ key, length key = 32%nat ∧
      ((cr_algorithm config = "aes-gcm" ∧ cm_aes_key m = Some key ∧ cm_chacha_key m = None)
       ∨ (cr_algorithm config = "chacha20poly1305" ∧ cm_aes_key m = None
          ∧ cm_chacha_key m = Some key))
  else cm_aes_key m = None ∧ cm_chacha_key m = None.

Lemma crypto_new_wf `{X : Externals} config w m w' :
  crypto_new config w = (Ok m, w') → cm_config m = config ∧ manager_wf m.
Proof.
  unfold crypto_new, manager_wf. destruct (cr_enabled config) eqn:He.
  - unfold init_cipher. rewrite run_bind. cbn [cm_config cm_aes_key cm_chacha_key].
    destruct (init_key_bytes config w) as [[key|] w1]; [|done].
    destruct (decide (length key ≠ 32%nat)) as [|Hk]; [done|]. apply dec_stable in Hk.
    case_decide; [|case_decide; [|done]]; intros [= <- <-]; cbn; rewrite He; eauto 10.
  - intros [= <- <-]. cbn. by rewrite He.
Qed.

(** ** Properties *)

(** C23: What was encrypted under an explicit key decrypts under the same key
    and algorithm: the stored form carries its own nonce. *)
Theorem encrypt_with_key_roundtrip `{X : Externals, !ExternalsLaws X} data a key w c w' :
  encrypt_with_key data a key w = (Ok c, w') → decrypt_with_key c a key = Ok data.
Proof. apply decrypt_encrypt_with_key. Qed.

Definition zero_world : World :=
  mkWorld (mkFS [] ∅) (mkDb ∅ ∅ ∅ 1 None) ∅ 0 (λ _, Byte.x00) 0 [].
Definition key32 : bytes := replicate 32 Byte.x41.

Lemma encrypt_with_key_roundtrip_witness :
  decrypt_with_key (X:=Toy.ToyExternals) (replicate 12 Byte.x00 ++ [Byte.x61] ++ key32) AesGcm key32
  = Ok [Byte.x61].
Proof.
  apply (encrypt_with_key_roundtrip (X:=Toy.ToyExternals) _ _ _ zero_world _
           (set_entropy_pos 12 zero_world)).
  vm_compute. reflexivity.
Defined.

(** A manager made from an enabled configuration holds exactly one 32-byte
    key, the one of the configured algorithm, so it refuses to encrypt under
    the other algorithm; and what it encrypts under its own it decrypts. *)
Theorem crypto_manager_usable `{X : Externals, !ExternalsLaws X} config w m w' :
  crypto_new config w = (Ok m, w') → cr_enabled config = true →
  manager_wf m ∧
  (∀ a data w1 c w2, encrypt m data a w1 = (Ok c, w2) →
     cr_algorithm config = as_str a ∧ decrypt m c a = Ok data).
Proof.
  intros H He. destruct (crypto_new_wf _ _ _ _ H) as [Hc Hwf]. split; [done|].
  intros a data w1 c w2 Henc. split; [|by eapply decrypt_encrypt].
  unfold manager_wf in Hwf. rewrite Hc, He in Hwf.
  destruct Hwf as (key & _ & [(Ha & _ & Hk)|(Ha & Hk & _)]).
  - destruct a; [done|]. unfold encrypt, encrypt_chacha in Henc. by rewrite Hc, He, Hk in Henc.
  - destruct a; [|done]. unfold encrypt, encrypt_aes in Henc. by rewrite Hc, He, Hk in Henc.
Qed.

Definition crypto_config_on : CryptoConfig :=
  mkCryptoConfig true "aes-gcm" (Some "AAAAAAAAAAAAAAAAAAAAAAAAAAAAAAAA").

Lemma crypto_manager_usable_witness :
  manager_wf (mkCryptoManager crypto_config_on (Some key32) None) ∧
  (∀ a data w1 c w2,
     encrypt (X:=Toy.ToyExternals) (mkCryptoManager crypto_config_on (Some key32) None) data a w1
       = (Ok c, w2) →
     cr_algorithm crypto_config_on = as_str a
     ∧ decrypt (X:=Toy.ToyExternals) (mkCryptoManager crypto_config_on (Some key32) None) c a = Ok data).
Proof.
  apply (crypto_manager_usable (X:=Toy.ToyExternals) crypto_config_on zero_world _ zero_world);
    vm_compute; reflexivity.
Defined.
