(* ===== verification/Database.v ===== *)
(** * Database (database.rs, migrations/)

    The tables with their constraints, each SQL statement of the program as a
    function on them, and [DatabaseManager].  The [files] table is a map from
    (bucket, key) to the row, which is its unique constraint; the other
    constraints of the migrations are checked by the statements. *)

From S2P Require Import Prelude.
From S2P Require Import Errors.
From S2P Require Import Models.
From S2P Require Import FileSystem.
From S2P Require Import Config.
From S2P Require Import Externals.
From S2P Require Import World.

(** ** Constraints of the migrations *)

(** Characters of a UTF-8 text: a byte 10xxxxxx continues a character. *)
Definition is_continuation (c : ascii) : bool := (128 <=? char_val c) && (char_val c <? 192).

Fixpoint utf8_chars (s : string) : list string :=
  match s with
  | EmptyString => []
  | String c r =>
    match utf8_chars r with
    | String d t :: l => if is_continuation d then String c (String d t) :: l
                         else String c EmptyString :: String d t :: l
    | l => String c EmptyString :: l
    end
  end.

Definition char_length (s : string) : Z := zlen (utf8_chars s).

Definition sql_error (code text : string) : SqlxError :=
  {| sqlx_code := Some code; sqlx_text := "error returned from database: " +:+ text |}.

Definition UNIQUE_VIOLATION : string := "23505".
Definition too_long (n : string) : SqlxError :=
  sql_error "22001" ("value too long for type character varying(" +:+ n +:+ ")").
Definition not_null : SqlxError := sql_error "23502" "null value violates not-null constraint".
Definition check_violation (c : string) : SqlxError :=
  sql_error "23514" ("violates check constraint " +:+ c).
Definition fk_violation (c : string) : SqlxError :=
  sql_error "23503" ("violates foreign key constraint " +:+ c).
Definition duplicate_key (c : string) : SqlxError :=
  sql_error UNIQUE_VIOLATION ("duplicate key value violates unique constraint " +:+ c).

(** The first of a list of checks that fails. *)
Fixpoint first_error (l : list (bool * SqlxError)) : option SqlxError :=
  match l with
  | [] => None
  | (good, e) :: r => if good then first_error r else Some e
  end.

Definition opt_len_ok (o : option string) (n : Z) : bool :=
  match o with Some s => char_length s <=? n | None => true end.

Definition ratio_ok (o : option Q) : bool :=
  match o with Some r => Qle_bool 0 r && Qle_bool r 1 | None => true end.

(** Column types, NOT NULL and CHECK constraints of [files]. *)
Definition row_checks (f : StoredFile) : list (bool * SqlxError) := [
  (char_length (sf_bucket f) <=? 255, too_long "255");
  (char_length (sf_key f) <=? 1024, too_long "1024");
  (char_length (sf_filename f) <=? 1024, too_long "1024");
  (char_length (sf_content_type f) <=? 255, too_long "255");
  (char_length (sf_hash_blake3 f) <=? 64, too_long "64");
  (char_length (sf_hash_md5 f) <=? 32, too_long "32");
  (opt_len_ok (sf_compression_algorithm f) 50, too_long "50");
  (opt_len_ok (sf_encryption_algorithm f) 50, too_long "50");
  (opt_len_ok (sf_encryption_key_id f) 64, too_long "64");
  (bool_decide (is_Some (sf_is_compressed f)), not_null);
  (bool_decide (is_Some (sf_is_encrypted f)), not_null);
  (bool_decide (is_Some (sf_upload_time f)), not_null);
  (0 <=? sf_file_size f, check_violation "valid_file_size");
  (0 <=? sf_original_size f, check_violation "valid_original_size");
  (0 <=? sf_access_count f, check_violation "valid_access_count");
  (ratio_ok (sf_compression_ratio f), check_violation "valid_compression_ratio")].

(** The two foreign keys of [files]. *)
Definition fk_checks (d : Db) (f : StoredFile) : list (bool * SqlxError) := [
  (bool_decide (is_Some (db_buckets d !! sf_bucket f)), fk_violation "files_bucket_fkey");
  (match sf_encryption_key_id f with
   | Some kid => bool_decide (is_Some (db_keys d !! kid))
   | None => true
   end, fk_violation "files_encryption_key_id_fkey")].

(** The rows of a bucket, and the sums the statistics are made of. *)
Definition bucket_rows (b : string) (t : FileTable) : list StoredFile :=
  (map_to_list (filter (λ kv, sf_bucket kv.2 = b) t)).*2.

Definition sum_of (g : StoredFile → Z) (l : list StoredFile) : Z :=
  foldr (λ f s, g f + s) 0 l.

Definition plain_size (f : StoredFile) : Z :=
  if flag (sf_is_compressed f) then sf_original_size f else sf_file_size f.

(** The trigger [update_storage_stats] writes the ratio
    1 - sum(file_size) / sum(plain_size) into a DECIMAL(5,4) column that must
    not be negative, and the sum into a BIGINT: after any change of a row the
    sums of its bucket have to pass. A negative ratio passes only when it
    rounds to 0.0000. *)
Definition stats_ok (b : string) (t : FileTable) : bool :=
  let rows := bucket_rows b t in
  let s := sum_of sf_file_size rows in
  let p := sum_of plain_size rows in
  (s <=? i64_max) && ((p <=? 0) || (20000 * (s - p) <? p)).

(** ** Statements on [files] *)

Definition id_taken (id : Uuid) (t : FileTable) : bool :=
  bool_decide (map_Exists (λ _ r, sf_id r = id) t).

(** [INSERT INTO files ... ON CONFLICT (bucket, key) DO UPDATE SET ...]. *)
Definition upsert_file (f : StoredFile) : Stmt unit := λ _ d,
  match first_error (row_checks f ++ fk_checks d f) with
  | Some e => Err e
  | None =>
    let t := db_files d in
    row ← (match t !! file_key f with
           | Some old => Ok (set_identity (sf_id old) (sf_cache_status old) (sf_last_cache_update old)
                               (sf_cache_hits old) (sf_cache_priority old) f)
           | None =>
             if id_taken (sf_id f) t then Err (duplicate_key "files_pkey")
             else Ok (set_identity (sf_id f) (Some "not_cached") None (Some 0) (Some 0) f)
           end);
    let t' := <[file_key f := row]> t in
    if stats_ok (sf_bucket f) t' then Ok (tt, set_files t' d)
    else Err (check_violation "valid_stats")
  end.

(** [UPDATE files SET ... WHERE p]. *)
Definition update_rows (p : StoredFile → bool) (u : StoredFile → StoredFile) : Stmt unit := λ _ d,
  let t := db_files d in
  let t' := (λ r, if p r then u r else r) <$> t in
  if bool_decide (map_Forall (λ _ r, p r = true → stats_ok (sf_bucket r) t' = true) t)
  then Ok (tt, set_files t' d) else Err (check_violation "valid_stats").

(** [DELETE FROM files WHERE p], with the number of rows affected. *)
Definition delete_rows (p : StoredFile → bool) : Stmt Z := λ _ d,
  let t := db_files d in
  let t' := filter (λ kv, p kv.2 = false) t in
  if bool_decide (map_Forall (λ _ r, p r = true → stats_ok (sf_bucket r) t' = true) t)
  then Ok (Z.of_nat (size t - size t'), set_files t' d) else Err (check_violation "valid_stats").

(** [UPDATE files SET last_accessed = NOW(), access_count = access_count + 1
    WHERE id = $1]: the count is a BIGINT. *)
Definition touch_row (id : Uuid) : Stmt unit := λ now d,
  if bool_decide (map_Exists (λ _ r, sf_id r = id ∧ i64_max ≤ sf_access_count r) (db_files d))
  then Err (sql_error "22003" "bigint out of range")
  else update_rows (λ r, bool_decide (sf_id r = id))
         (λ r, set_access (Some now) (sf_access_count r + 1) r) now d.

Section database.
Context `{X : Externals}.

(** [SELECT * FROM files WHERE p], in the order of the scan. *)
Definition scan (p : StoredFile → bool) (d : Db) : list StoredFile :=
  filter (λ f, p f = true) (pg_scan None (db_files d)).

(** The same for a query with a LIMIT and an OFFSET: another plan, so maybe
    another order. *)
Definition scan_page (limit offset : Z) (p : StoredFile → bool) (d : Db) : list StoredFile :=
  filter (λ f, p f = true) (pg_scan (Some (limit, offset)) (db_files d)).

(** [LIMIT n OFFSET o]: both must not be negative. *)
Definition limit_offset {A} (limit offset : Z) (l : list A) : result SqlxError (list A) :=
  if limit <? 0 then Err (sql_error "2201W" "LIMIT must not be negative")
  else if offset <? 0 then Err (sql_error "2201X" "OFFSET must not be negative")
  else Ok (take (Z.to_nat limit) (drop (Z.to_nat offset) l)).

(** [ORDER BY upload_time DESC]: NULL comes first. *)
Definition upload_desc (a b : StoredFile) : Prop :=
  match sf_upload_time a, sf_upload_time b with
  | None, _ => True
  | Some _, None => False
  | Some s, Some t => t ≤ s
  end.

#[export] Instance upload_desc_dec : RelDecision upload_desc.
Proof. intros a b. unfold upload_desc. repeat case_match; apply _. Defined.

(** [SELECT * FROM files WHERE p ORDER BY upload_time DESC LIMIT n OFFSET o]:
    rows with the same time stay in the order the query scans them. *)
Definition select_ordered (p : StoredFile → bool) (limit offset : Z) : Stmt (list StoredFile) :=
  λ _ d, rows ← limit_offset limit offset (merge_sort upload_desc (scan_page limit offset p d));
         Ok (rows, d).

(** ** LIKE *)

Fixpoint like_match (p s : list string) : bool :=
  match p with
  | [] => bool_decide (s = [])
  | c :: p' =>
    if decide (c = "%") then
      (fix any (s : list string) : bool :=
         like_match p' s || match s with [] => false | _ :: s' => any s' end) s
    else if decide (c = "_") then match s with [] => false | _ :: s' => like_match p' s' end
    else if decide (c = "\") then
      match p', s with
      | e :: p'', d :: s' => bool_decide (d = e) && like_match p'' s'
      | _, _ => false
      end
    else match s with [] => false | d :: s' => bool_decide (d = c) && like_match p' s' end
  end.

Definition like (s pattern : string) : bool := like_match (utf8_chars pattern) (utf8_chars s).
Definition ilike (s pattern : string) : bool := like (pg_lower s) (pg_lower pattern).

(** ** DatabaseManager *)

Definition save_file (file : StoredFile) : M unit :=
  map_err (λ e, if decide (sqlx_code e = Some UNIQUE_VIOLATION)
                then AlreadyExists (sf_bucket file) (sf_key file)
                else Database (sqlx_text e))
    (db_call (upsert_file file)).

Definition get_file (bucket key : string) : M StoredFile :=
  row ← run_sql (select (λ d, db_files d !! (bucket, key)));
  lift (ok_or (NotFound bucket key) row).

Definition is_expired (now : DateTime) (f : StoredFile) : bool :=
  match sf_expires_at f with Some t => t <? now | None => false end.

Definition list_expired_files : M (list (string * string)) :=
  run_sql (λ now d, Ok (file_key <$> scan (is_expired now) d, d)).

Definition get_file_by_hash (hash_blake3 : string) : M (option StoredFile) :=
  run_sql (select (λ d, head (scan (λ f, bool_decide (sf_hash_blake3 f = hash_blake3)) d))).

Definition update_access (id : Uuid) : M unit := run_sql (touch_row id).

Definition at_key (bucket key : string) (f : StoredFile) : bool :=
  bool_decide (file_key f = (bucket, key)).

Definition delete_file (bucket key : string) : M unit :=
  rows_affected ← run_sql (delete_rows (at_key bucket key));
  if decide (rows_affected = 0) then throw (NotFound bucket key) else mret tt.

Definition list_files (bucket : string) (prefix : option string) (limit offset : Z) :
    M (list StoredFile) :=
  match prefix with
  | Some prefix =>
    run_sql (select_ordered (λ f, bool_decide (sf_bucket f = bucket)
                                  && like (sf_key f) (prefix +:+ "%")) limit offset)
  | None => run_sql (select_ordered (λ f, bool_decide (sf_bucket f = bucket)) limit offset)
  end.

(** The four columns a search looks at; a missing metadata value is no match. *)
Definition search_match (pattern : string) (f : StoredFile) : bool :=
  ilike (sf_key f) pattern || ilike (sf_filename f) pattern || ilike (sf_content_type f) pattern
  || match sf_metadata f with Some m => ilike (pg_jsonb_text m) pattern | None => false end.

Definition search_files (bucket query : string) (limit : Z) : M (list StoredFile) :=
  let pattern := "%" +:+ query +:+ "%" in
  if decide (bucket = EmptyString) then run_sql (select_ordered (search_match pattern) limit 0)
  else run_sql (select_ordered
         (λ f, bool_decide (sf_bucket f = bucket) && search_match pattern f) limit 0).

(** A NUMERIC sum read back as [i64], 0 when it does not fit. *)
Definition numeric_as_i64 (n : Z) : Z := if (i64_min <=? n) && (n <=? i64_max) then n else 0.

Definition get_bucket_stats (bucket : string) : M (Z * Z) :=
  run_sql (select (λ d,
    let rows := scan (λ f, bool_decide (sf_bucket f = bucket)) d in
    (zlen rows, numeric_as_i64 (sum_of sf_file_size rows)))).

Definition sum_ratios (l : list StoredFile) : Q :=
  foldr Qplus 0%Q (omap sf_compression_ratio l).

Definition get_total_stats : M StorageStats :=
  row ← run_sql (select (λ d,
    let rows := scan (λ _, true) d in
    let ratios := omap sf_compression_ratio rows in
    (zlen rows, numeric_as_i64 (sum_of sf_file_size rows),
     zlen (filter (λ f, flag (sf_is_compressed f) = true) rows),
     zlen (filter (λ f, flag (sf_is_encrypted f) = true) rows),
     if decide (ratios = []) then 0%Q else (sum_ratios rows / (zlen ratios # 1))%Q)));
  t ← now;
  let '(total, sz, comp, enc, avg) := row in
  mret (mkStorageStats total sz comp enc (Some avg) t).

(** [ORDER BY access_count DESC, COALESCE(last_accessed, epoch) DESC]. *)
Definition popular_order (a b : StoredFile) : Prop :=
  sf_access_count b < sf_access_count a
  ∨ (sf_access_count b = sf_access_count a
     ∧ default 0 (sf_last_accessed b) ≤ default 0 (sf_last_accessed a)).

#[export] Instance popular_order_dec : RelDecision popular_order.
Proof. intros a b. unfold popular_order. apply _. Defined.

Definition get_popular_files (limit : Z) : M (list StoredFile) :=
  run_sql (λ _ d, rows ← limit_offset limit 0
                    (merge_sort popular_order (scan_page limit 0 (λ _, true) d));
                  Ok (rows, d)).

Definition name_le (a b : string * DateTime) : Prop := pg_collate_le a.1 b.1 = true.
#[export] Instance name_le_dec : RelDecision name_le.
Proof. intros a b. unfold name_le. apply _. Defined.

(** [SELECT name, created_at FROM buckets WHERE is_active = true ORDER BY name]. *)
Definition active_buckets (d : Db) : list (string * DateTime) :=
  merge_sort name_le
    (prod_map id bk_created_at <$>
       map_to_list (filter (λ kv, bk_is_active kv.2 = Some true) (db_buckets d))).

Definition list_buckets_with_created_at : M (list (string * DateTime)) :=
  run_sql (select active_buckets).

Definition list_buckets : M (list string) := run_sql (select (λ d, (active_buckets d).*1)).

Definition bucket_exists (bucket : string) : M bool :=
  count ← run_sql (select (λ d, zlen (scan (λ f, bool_decide (sf_bucket f = bucket)) d)));
  mret (0 <? count).

Definition delete_bucket (bucket : string) : M unit :=
  rows_affected ← run_sql (delete_rows (λ f, bool_decide (sf_bucket f = bucket)));
  if decide (rows_affected = 0) then throw (InvalidBucket bucket) else mret tt.
End database.

(** ** What every statement keeps *)

Record db_wf (d : Db) : Prop := {
  (** a row is stored under its own (bucket, key) *)
  wf_keyed : map_Forall (λ k r, file_key r = k) (db_files d);
  (** and satisfies the column constraints and foreign keys of the tables *)
  wf_rows : map_Forall (λ _ r, first_error (row_checks r ++ fk_checks d r) = None) (db_files d);
  (** ids are a primary key *)
  wf_ids : ∀ k k' r r', db_files d !! k = Some r → db_files d !! k' = Some r' →
    sf_id r = sf_id r' → k = k';
  (** every bucket passes the check of its statistics row *)
  wf_stats : ∀ b, stats_ok b (db_files d) = true;
  (** a key is stored under its own id *)
  wf_keys : map_Forall (λ kid k, ek_key_id k = kid) (db_keys d)
}.

Definition world_wf (w : World) : Prop := db_wf (w_db w).

#[export] Instance world_wf_oblivious : Oblivious (keeps world_wf).
Proof. split; intros w ? H; exact H. Qed.

Lemma first_error_None l : first_error l = None ↔ Forall (λ ge, ge.1 = true) l.
Proof.
  induction l as [|[[] e] l IH]; simpl.
  - done.
  - rewrite IH, Forall_cons. simpl. tauto.
  - rewrite Forall_cons. simpl. split; [done|]. by intros [??].
Qed.

Lemma bucket_rows_ext b t t' :
  (∀ k r, sf_bucket r = b → t !! k = Some r ↔ t' !! k = Some r) →
  bucket_rows b t = bucket_rows b t'.
Proof.
  intros H. unfold bucket_rows. do 2 f_equal. apply map_eq. intros k. apply option_eq. intros r.
  rewrite !map_lookup_filter_Some. simpl.
  split; intros [Hr Hb]; (split; [by apply (H k r)|done]).
Qed.

Lemma stats_ok_ext b t t' :
  (∀ k r, sf_bucket r = b → t !! k = Some r ↔ t' !! k = Some r) → stats_ok b t = stats_ok b t'.
Proof. intros H. unfold stats_ok. by rewrite (bucket_rows_ext b t t'). Qed.

(** A statement keeps the tables well formed. *)
Definition stmt_keeps {A} (q : Stmt A) : Prop :=
  ∀ now d a d', db_wf d → q now d = Ok (a, d') → db_wf d'.

Lemma respects_wf_sql {A} (q : Stmt A) : stmt_keeps q → respects (keeps world_wf) (run_sql q).
Proof. intros H. apply (respects_run_sql _). intros w a d E Hw. by eapply H. Qed.

Lemma set_identity_checks id st u h p f d :
  row_checks (set_identity id st u h p f) ++ fk_checks d (set_identity id st u h p f)
  = row_checks f ++ fk_checks d f.
Proof. by destruct f. Qed.

Lemma upsert_file_keeps f : stmt_keeps (upsert_file f).
Proof.
  intros now d [] d' Hwf. unfold upsert_file.
  destruct (first_error _) eqn:Hck; [done|].
  set (t := db_files d).
  destruct (match t !! _ with Some _ => _ | None => _ end) as [row|e] eqn:Hrow; simpl; [|done].
  destruct (stats_ok _ _) eqn:Hst; [|done]. intros [= <-].
  assert (file_key row = file_key f ∧ first_error (row_checks row ++ fk_checks d row) = None
          ∧ ∀ k r, t !! k = Some r → sf_id r = sf_id row → k = file_key f) as (Hk & Hc & Hid).
  { destruct (t !! file_key f) as [old|] eqn:Hold.
    - injection Hrow as <-. rewrite set_identity_checks. split_and!; [by destruct f|done|].
      intros k r Hr Heq. eapply (wf_ids d Hwf); [done..|]. rewrite Heq. by destruct f.
    - unfold id_taken in Hrow. case_bool_decide as Hid; [done|]. injection Hrow as <-.
      rewrite set_identity_checks. split_and!; [by destruct f|done|].
      intros k r Hr Heq. exfalso. apply Hid. exists k, r. split; [done|].
      rewrite Heq. by destruct f. }
  destruct Hwf as [W1 W2 W3 W4 W5]. split; simpl; [| | |intros b|done].
  - by apply map_Forall_insert_2.
  - by apply map_Forall_insert_2.
  - intros k k' r r' H1 H2 Heq.
    destruct (decide (k = file_key f)) as [->|], (decide (k' = file_key f)) as [->|];
      simplify_map_eq; try done;
      first [by eauto | symmetry; by eauto].
  - destruct (decide (b = sf_bucket f)) as [->|Hne]; [done|].
    rewrite <- (W4 b). apply stats_ok_ext. intros k r Hb.
    destruct (decide (k = file_key f)) as [->|]; simplify_map_eq; [|done].
    assert (sf_bucket row = sf_bucket f) by (unfold file_key in Hk; congruence).
    split; [intros [= ->]; congruence|]. intros Hf. apply W1 in Hf.
    unfold file_key in Hf. congruence.
Qed.

(** An update of single columns keeps the tables when it leaves the identity
    and the sizes of the row alone and its constraints satisfied. *)
Definition same_row (r r' : StoredFile) : Prop :=
  file_key r' = file_key r ∧ sf_id r' = sf_id r.

Lemma update_rows_wf p u now d d' :
  (∀ r, same_row r (u r)) →
  (∀ r, p r = true → first_error (row_checks r ++ fk_checks d r) = None →
     first_error (row_checks (u r) ++ fk_checks d (u r)) = None) →
  db_wf d → update_rows p u now d = Ok (tt, d') → db_wf d'.
Proof.
  intros Hsame Hchk [W1 W2 W3 W4 W5]. unfold update_rows.
  set (t' := _ <$> db_files d). case_bool_decide as Hst; [|done]. intros [= <-].
  assert (∀ k r', t' !! k = Some r' → ∃ r, db_files d !! k = Some r ∧
            r' = (if p r then u r else r) ∧ same_row r r') as Hinv.
  { intros k r'. unfold t'. rewrite lookup_fmap_Some. intros (r & <- & Hr). exists r.
    split_and!; try done. destruct (p r); [apply Hsame|done]. }
  split; simpl; [| | |intros b|done].
  - intros k r' Hr'. destruct (Hinv k r' Hr') as (r & Hr & _ & [-> _]). by eapply W1.
  - intros k r' Hr'. destruct (Hinv k r' Hr') as (r & Hr & -> & _).
    specialize (W2 k r Hr). simpl in W2.
    destruct (p r) eqn:Hp; [by apply Hchk|done].
  - intros k k' r r' Hr Hr' Heq.
    destruct (Hinv _ _ Hr) as (r1 & Hr1 & _ & [_ H1]).
    destruct (Hinv _ _ Hr') as (r2 & Hr2 & _ & [_ H2]).
    eapply W3; [done..|congruence].
  - destruct (decide (∃ k r, db_files d !! k = Some r ∧ p r = true ∧ sf_bucket r = b))
      as [(k & r & Hr & Hp & <-)|Hno].
    { by eapply Hst. }
    rewrite <- (W4 b). apply stats_ok_ext. intros k r Hb. split.
    + intros Hr. destruct (Hinv _ _ Hr) as (r1 & Hr1 & -> & [Hk _]).
      destruct (p r1) eqn:Hp; [|done]. exfalso. apply Hno. exists k, r1.
      unfold file_key in Hk. split_and!; [done..|congruence].
    + intros Hr. unfold t'. rewrite lookup_fmap, Hr. simpl. destruct (p r) eqn:Hp; [|done].
      exfalso. apply Hno. by exists k, r.
Qed.

Lemma update_rows_keeps p u :
  (∀ r, same_row r (u r)) →
  (∀ d r, p r = true → first_error (row_checks r ++ fk_checks d r) = None →
     first_error (row_checks (u r) ++ fk_checks d (u r)) = None) →
  stmt_keeps (update_rows p u).
Proof. intros Hs Hc now d [] d'. apply update_rows_wf; auto. Qed.

Lemma delete_rows_keeps p : stmt_keeps (delete_rows p).
Proof.
  intros now d n d' [W1 W2 W3 W4 W5]. unfold delete_rows.
  set (t' := filter _ (db_files d)). case_bool_decide as Hst; [|done]. intros [= <- <-].
  assert (∀ k r, t' !! k = Some r → db_files d !! k = Some r ∧ p r = false) as Hinv.
  { intros k r. unfold t'. by rewrite map_lookup_filter_Some. }
  split; simpl; [| | |intros b|done].
  - intros k r Hr. apply W1. by apply Hinv.
  - intros k r Hr. apply (W2 k). by apply Hinv.
  - intros k k' r r' Hr Hr'. apply (W3 k k'); by apply Hinv.
  - destruct (decide (∃ k r, db_files d !! k = Some r ∧ p r = true ∧ sf_bucket r = b))
      as [(k & r & Hr & Hp & <-)|Hno].
    { by eapply Hst. }
    rewrite <- (W4 b). apply stats_ok_ext. intros k r Hb. split; [by intros [??]%Hinv|].
    intros Hr. unfold t'. apply map_lookup_filter_Some_2; [done|]. simpl.
    destruct (p r) eqn:Hp; [|done]. exfalso. apply Hno. by exists k, r.
Qed.

Lemma stmt_keeps_reading {A} (q : Stmt A) :
  (∀ now d a d', q now d = Ok (a, d') → d' = d) → stmt_keeps q.
Proof. intros H now d a d' Hwf E. by rewrite (H _ _ _ _ E). Qed.

Lemma set_access_checks t n d f :
  0 ≤ n → first_error (row_checks f ++ fk_checks d f) = None →
  first_error (row_checks (set_access t n f) ++ fk_checks d (set_access t n f)) = None.
Proof.
  intros Hn. rewrite !first_error_None. destruct f. unfold row_checks, fk_checks. simpl.
  rewrite !Forall_cons. simpl. intros H. destruct_and!. repeat split; try done. by apply Z.leb_le.
Qed.

Lemma sizes_nonneg d f :
  first_error (row_checks f ++ fk_checks d f) = None →
  0 ≤ sf_file_size f ∧ 0 ≤ sf_original_size f ∧ 0 ≤ sf_access_count f.
Proof.
  rewrite first_error_None. unfold row_checks. simpl. rewrite !Forall_cons. simpl.
  rewrite !Z.leb_le. tauto.
Qed.

Lemma touch_row_keeps id : stmt_keeps (touch_row id).
Proof.
  intros now d a d' Hwf. unfold touch_row. case_bool_decide; [done|].
  apply update_rows_keeps; [by intros []| |done].
  intros d0 r _ Hr. apply set_access_checks; [|done]. apply sizes_nonneg in Hr. lia.
Qed.

Create HintDb stmt.

#[export] Hint Resolve upsert_file_keeps delete_rows_keeps touch_row_keeps : stmt.

Section manager_facts.
Context `{X : Externals} `{L : !ExternalsLaws X}.

Lemma select_ordered_reads p limit offset : stmt_keeps (select_ordered p limit offset).
Proof.
  apply stmt_keeps_reading. intros now d a d'. unfold select_ordered.
  destruct (limit_offset _ _ _); simpl; congruence.
Qed.

Lemma save_file_wf f : respects (keeps world_wf) (save_file f).
Proof.
  apply (respects_map_err _), (respects_db_call _). intros w a d E H.
  by eapply upsert_file_keeps.
Qed.

Lemma get_file_wf (R : relation World) `{!PreOrder R, !Oblivious R} b k : respects R (get_file b k).
Proof. unfold get_file. solve_respects. Qed.

Lemma get_file_by_hash_wf (R : relation World) `{!PreOrder R, !Oblivious R} h :
  respects R (get_file_by_hash h).
Proof. unfold get_file_by_hash. solve_respects. Qed.

Lemma update_access_wf id : respects (keeps world_wf) (update_access id).
Proof. apply respects_wf_sql, touch_row_keeps. Qed.

(** ** The upsert *)

(** The row [save_file] leaves for a file: the id and the cache columns of
    the row it replaces, or the column defaults. *)
Definition saved_row (t : FileTable) (f : StoredFile) : StoredFile :=
  match t !! file_key f with
  | Some old => set_identity (sf_id old) (sf_cache_status old) (sf_last_cache_update old)
                  (sf_cache_hits old) (sf_cache_priority old) f
  | None => set_identity (sf_id f) (Some "not_cached") None (Some 0) (Some 0) f
  end.

Lemma upsert_file_inv f now d d' :
  upsert_file f now d = Ok (tt, d') →
  d' = set_files (<[file_key f := saved_row (db_files d) f]> (db_files d)) d
  ∧ first_error (row_checks f ++ fk_checks d f) = None.
Proof.
  unfold upsert_file, saved_row. destruct (first_error _); [done|].
  destruct (db_files d !! file_key f) as [old|]; simpl.
  - destruct (stats_ok _ _); [|done]. by intros [= <-].
  - destruct (id_taken _ _); simpl; [done|]. destruct (stats_ok _ _); [|done]. by intros [= <-].
Qed.

Lemma set_faults_same w : set_faults (w_faults w) w = w.
Proof. by destruct w. Qed.

Definition after_save (f : StoredFile) (d : Db) : Db :=
  set_files (<[file_key f := saved_row (db_files d) f]> (db_files d)) d.

(** A save either fails and only used up a pending fault, or leaves the
    upserted table. *)
Lemma save_file_run f w :
  (∃ e, save_file f w = (Err e, set_faults (tail (w_faults w)) w)) ∨
  save_file f w = (Ok tt, set_db (after_save f (w_db w)) (set_faults (tail (w_faults w)) w)).
Proof.
  unfold save_file, map_err, db_call, next_fault.
  destruct (w_faults w) as [|[g|] fs] eqn:Hf; simpl; [|by eauto|].
  - replace (set_faults [] w) with w by (by rewrite <- Hf, set_faults_same).
    destruct (upsert_file f (w_now w) (w_db w)) as [[[] d]|e] eqn:E; [|by eauto].
    apply upsert_file_inv in E as [-> _]. by right.
  - destruct (upsert_file f (w_now w) (w_db w)) as [[[] d]|e] eqn:E; [|by eauto].
    apply upsert_file_inv in E as [-> _]. by right.
Qed.

(** ** Scans *)

Lemma scan_page_Permutation limit offset p d : scan_page limit offset p d ≡ₚ scan p d.
Proof. unfold scan_page, scan. by rewrite !pg_scan_perm. Qed.

Lemma elem_of_scan p d f :
  f ∈ scan p d ↔ p f = true ∧ ∃ k, db_files d !! k = Some f.
Proof.
  unfold scan. rewrite list_elem_of_filter. f_equiv.
  rewrite (pg_scan_perm None (db_files d)), list_elem_of_fmap. split.
  - intros ([k f'] & -> & H). exists k. by apply elem_of_map_to_list.
  - intros [k H]. exists (k, f). split; [done|]. by apply elem_of_map_to_list.
Qed.

Lemma scan_NoDup p d : db_wf d → NoDup (scan p d).
Proof.
  intros Hwf. unfold scan. apply NoDup_filter. rewrite (pg_scan_perm None (db_files d)).
  apply (NoDup_fmap_1 sf_id). rewrite <- list_fmap_compose.
  apply NoDup_fmap_2_strong; [|apply NoDup_map_to_list].
  intros [k r] [k' r'] H1 H2 Heq. rewrite elem_of_map_to_list in H1, H2. simpl in *.
  assert (k = k') as -> by (by eapply (wf_ids d Hwf)). congruence.
Qed.

Lemma list_fmap_filter_bucket (b : string) (t : FileTable) :
  filter (λ f, bool_decide (sf_bucket f = b) = true) (map_to_list t).*2
  ≡ₚ (map_to_list (filter (λ kv, sf_bucket kv.2 = b) t)).*2.
Proof.
  induction t as [|k r t Hk IH] using map_ind; [done|].
  rewrite map_to_list_insert by done. rewrite map_filter_insert. simpl.
  rewrite filter_cons. case_bool_decide as Hb.
  - rewrite !decide_True by done. rewrite map_to_list_insert.
    + simpl. by rewrite IH.
    + apply map_lookup_filter_None_2. by left.
  - rewrite !decide_False by done. rewrite delete_id by done. done.
Qed.

Lemma scan_bucket b d :
  scan (λ f, bool_decide (sf_bucket f = b)) d ≡ₚ bucket_rows b (db_files d).
Proof.
  unfold scan, bucket_rows. rewrite (pg_scan_perm None (db_files d)).
  apply list_fmap_filter_bucket.
Qed.

(** ** LIKE *)

Lemma like_match_percent s : like_match ["%"] s = true.
Proof. induction s as [|d s IH]; [done|]. exact IH. Qed.

Lemma like_match_percent_cons p s : like_match p s = true → like_match ("%" :: p) s = true.
Proof. intros H. destruct s; simpl in *; rewrite H; done. Qed.

(** No character of the text has a meaning of its own in a pattern. *)
Definition literal (p : string) : bool :=
  forallb (λ c, negb (bool_decide (c ∈ ["%"; "_"; "\"]))) (utf8_chars p).

Lemma like_match_literal p q s :
  forallb (λ c, negb (bool_decide (c ∈ ["%"; "_"; "\"]))) p = true →
  like_match (p ++ q) s = true ↔ ∃ r, s = p ++ r ∧ like_match q r = true.
Proof.
  revert s. induction p as [|c p IH]; intros s Hl; simpl in *.
  - split; [by exists s|]. by intros (r & -> & H).
  - apply andb_true_iff in Hl as [Hc Hl]. apply negb_true_iff, bool_decide_eq_false in Hc.
    rewrite !not_elem_of_cons in Hc. destruct Hc as (H1 & H2 & H3 & _).
    rewrite !decide_False by done. destruct s as [|d s].
    + split; [done|]. by intros (r & [=] & _).
    + rewrite andb_true_iff, bool_decide_eq_true, IH by done. split.
      * intros [-> (r & -> & H)]. by exists r.
      * intros (r & [= -> ->] & H). split; [done|]. by exists r.
Qed.

Lemma utf8_chars_cons c r :
  utf8_chars (String c r) =
  match utf8_chars r with
  | String d t :: l => if is_continuation d then String c (String d t) :: l
                       else String c EmptyString :: String d t :: l
  | l => String c EmptyString :: l
  end.
Proof. done. Qed.

Lemma utf8_chars_head c r : ∃ t l, utf8_chars (String c r) = String c t :: l.
Proof.
  rewrite utf8_chars_cons. destruct (utf8_chars r) as [|[|d u] m]; [by eauto..|].
  destruct (is_continuation d); by eauto.
Qed.

Lemma utf8_chars_cons_ascii c s :
  is_continuation c = false →
  ∀ p, utf8_chars (p +:+ String c s) = utf8_chars p ++ utf8_chars (String c s).
Proof.
  intros Hc p. destruct (utf8_chars_head c s) as (t & l & Ht).
  induction p as [|a p IH]; [done|].
  change (String a p +:+ String c s) with (String a (p +:+ String c s)).
  rewrite (utf8_chars_cons a (p +:+ _)), (utf8_chars_cons a p), IH. destruct p as [|a' p'].
  - rewrite Ht. simpl. by rewrite Hc.
  - destruct (utf8_chars_head a' p') as (u & m & ->). simpl. by destruct (is_continuation a').
Qed.

Lemma like_prefix p s :
  literal p = true → like s (p +:+ "%") = true ↔ utf8_chars p `prefix_of` utf8_chars s.
Proof.
  intros Hl. unfold like. rewrite utf8_chars_cons_ascii by done.
  rewrite like_match_literal by done. split.
  - intros (r & -> & _). by exists r.
  - intros [r ->]. exists r. split; [done|]. apply like_match_percent.
Qed.

(** ** Ordered pages *)

#[local] Instance upload_desc_total : Total upload_desc.
Proof. intros a b. unfold upload_desc. repeat case_match; auto; lia. Qed.
#[local] Instance upload_desc_trans : Transitive upload_desc.
Proof. intros a b c. unfold upload_desc. repeat case_match; done || lia. Qed.

Definition list_match (bucket : string) (prefix : option string) (f : StoredFile) : bool :=
  bool_decide (sf_bucket f = bucket)
  && match prefix with Some p => like (sf_key f) (p +:+ "%") | None => true end.

(** The rows a page is cut from. *)
Definition listing (limit offset : Z) (bucket : string) (prefix : option string) (d : Db) :
    list StoredFile :=
  merge_sort upload_desc (scan_page limit offset (list_match bucket prefix) d).

Lemma list_files_run bucket prefix limit offset w :
  w_faults w = [] → 0 ≤ limit → 0 ≤ offset →
  list_files bucket prefix limit offset w =
  (Ok (take (Z.to_nat limit) (drop (Z.to_nat offset) (listing limit offset bucket prefix (w_db w)))), w).
Proof.
  intros Hf Hl Ho. unfold list_files, listing, list_match.
  assert (∀ p, run_sql (select_ordered p limit offset) w =
    (Ok (take (Z.to_nat limit) (drop (Z.to_nat offset)
        (merge_sort upload_desc (scan_page limit offset p (w_db w))))), w)) as Hq.
  { intros p. rewrite run_sql_ok by done. unfold select_ordered, limit_offset.
    destruct (Z.ltb_spec limit 0); [lia|]. destruct (Z.ltb_spec offset 0); [lia|].
    simpl. by rewrite set_db_id. }
  destruct prefix as [p|]; rewrite Hq; [done|]. do 4 f_equal.
  unfold scan_page. f_equal. apply list_filter_iff. intros f. by rewrite andb_true_r.
Qed.

(** A listing is sorted and has each matching row once. *)
Record lists_matching (bucket : string) (prefix : option string) (d : Db) (rows : list StoredFile) :
    Prop := {
  lm_sorted : StronglySorted upload_desc rows;
  lm_once : NoDup rows;
  lm_rows f : f ∈ rows ↔ db_files d !! file_key f = Some f ∧ list_match bucket prefix f = true
}.

Lemma listing_matching limit offset bucket prefix d :
  db_wf d → lists_matching bucket prefix d (listing limit offset bucket prefix d).
Proof.
  intros Hwf. unfold listing. split.
  - apply StronglySorted_merge_sort; apply _.
  - rewrite merge_sort_Permutation, scan_page_Permutation. by apply scan_NoDup.
  - intros f. rewrite merge_sort_Permutation, scan_page_Permutation, elem_of_scan. split.
    + intros [Hm [k Hk]]. split; [|done]. by rewrite (wf_keyed _ Hwf k f Hk).
    + intros [Hk Hm]. eauto.
Qed.

(** When no two matching rows were uploaded at the same time there is only one
    such list. *)
Definition times_differ (bucket : string) (prefix : option string) (d : Db) : Prop :=
  ∀ f g, db_files d !! file_key f = Some f → db_files d !! file_key g = Some g →
    list_match bucket prefix f = true → list_match bucket prefix g = true →
    sf_upload_time f = sf_upload_time g → f = g.

Lemma lists_matching_unique bucket prefix d rows rows' :
  times_differ bucket prefix d → lists_matching bucket prefix d rows →
  lists_matching bucket prefix d rows' → rows = rows'.
Proof.
  intros Ht [S1 N1 R1] [S2 N2 R2]. apply (StronglySorted_unique_strong upload_desc); [|done|done|].
  - intros f g [Hf Mf]%R1 [Hg Mg]%R2 H1 H2. apply Ht; [done..|]. unfold upload_desc in *.
    destruct (sf_upload_time f), (sf_upload_time g); try done. f_equal. lia.
  - apply NoDup_Permutation; [done..|]. intros f. by rewrite R1, R2.
Qed.

(** C29: Listing a bucket.  Every page is the window, given by its limit and
    offset, of a list with the newest upload first and each matching row
    exactly once.  The database may order rows with the same upload time
    differently for every page, so that list is the same for all pages when no
    two matching rows share their time: then consecutive pages neither skip nor
    repeat a file (see [tied_pages_repeat] for what happens otherwise). *)
Theorem list_files_pages bucket prefix w :
  db_wf (w_db w) → w_faults w = [] →
  (∀ limit offset, 0 ≤ limit → 0 ≤ offset →
     ∃ rows, lists_matching bucket prefix (w_db w) rows ∧
       list_files bucket prefix limit offset w =
       (Ok (take (Z.to_nat limit) (drop (Z.to_nat offset) rows)), w)) ∧
  (times_differ bucket prefix (w_db w) →
   ∃ rows, lists_matching bucket prefix (w_db w) rows ∧
     ∀ limit offset, 0 ≤ limit → 0 ≤ offset →
       list_files bucket prefix limit offset w =
       (Ok (take (Z.to_nat limit) (drop (Z.to_nat offset) rows)), w)).
Proof.
  intros Hwf Hf. pose proof (λ l o, listing_matching l o bucket prefix _ Hwf) as Hl. split.
  - intros limit offset H1 H2. exists (listing limit offset bucket prefix (w_db w)).
    split; [done|]. by apply list_files_run.
  - intros Ht. exists (listing 0 0 bucket prefix (w_db w)). split; [done|]. intros limit offset H1 H2.
    rewrite list_files_run by done.
    by rewrite (lists_matching_unique _ _ _ _ _ Ht (Hl limit offset) (Hl 0 0)).
Qed.

(** The prefix of a listing.  When no character of the prefix is a LIKE
    wildcard, a page lists exactly keys of the bucket whose characters begin
    with it; a prefix "%" lists the whole bucket, whatever the keys. *)
Theorem list_files_prefix bucket prefix limit offset w :
  w_faults w = [] →
  (literal prefix = true → ∀ rows w', list_files bucket (Some prefix) limit offset w = (Ok rows, w') →
     ∀ f, f ∈ rows → sf_bucket f = bucket ∧ utf8_chars prefix `prefix_of` utf8_chars (sf_key f)) ∧
  list_files bucket (Some "%") limit offset w = list_files bucket None limit offset w.
Proof.
  intros Hf. split.
  - intros Hl rows w'. simpl. rewrite run_sql_ok by done. unfold select_ordered, limit_offset.
    destruct (limit <? 0); [done|]. destruct (offset <? 0); [done|]. simpl.
    intros [= <- _] f Hin.
    assert (f ∈ scan (list_match bucket (Some prefix)) (w_db w)) as [Hm _]%elem_of_scan.
    { rewrite <- (scan_page_Permutation limit offset), <- (merge_sort_Permutation upload_desc).
      by apply subseteq_take, subseteq_drop in Hin. }
    unfold list_match in Hm. apply andb_true_iff in Hm as [Hb Hp].
    apply bool_decide_eq_true in Hb. split; [done|]. by apply like_prefix.
  - simpl. rewrite !run_sql_ok by done. unfold select_ordered, scan_page.
    rewrite (list_filter_iff (λ f, bool_decide (sf_bucket f = bucket)
               && like (sf_key f) ("%" +:+ "%") = true)
               (λ f, bool_decide (sf_bucket f = bucket) = true)); [done|]. intros f.
    rewrite andb_true_iff. split; [by intros [??]|]. intros H. split; [done|].
    unfold like. change (utf8_chars ("%" +:+ "%")) with ["%"; "%"].
    apply like_match_percent_cons, like_match_percent.
Qed.

(** C28: [save_file] is an upsert of one key.  When it reports success the row
    can be read back, equal to the one given except for the id and the cache
    columns, which stay those of the row it replaced; every other row is as
    it was; when it reports an error nothing changed. *)
Theorem save_file_get_file f w :
  w_faults w = [] →
  let '(r, w') := save_file f w in
  match r with
  | Err _ => w' = w
  | Ok _ => ∃ row, get_file (sf_bucket f) (sf_key f) w' = (Ok row, w') ∧
      set_identity (sf_id f) (sf_cache_status f) (sf_last_cache_update f) (sf_cache_hits f)
        (sf_cache_priority f) row = f ∧
      sf_id row = match db_files (w_db w) !! file_key f with
                  | Some old => sf_id old | None => sf_id f end ∧
      ∀ bucket key, (bucket, key) ≠ file_key f →
        get_file bucket key w' = ((get_file bucket key w).1, w')
  end.
Proof.
  intros Hf. destruct (save_file_run f w) as [[e ->] | ->]; rewrite Hf; simpl.
  - rewrite <- Hf. apply set_faults_same.
  - replace (set_faults [] w) with w by (by rewrite <- Hf, set_faults_same).
    set (w' := set_db _ w). assert (w_faults w' = []) as Hf' by done.
    exists (saved_row (db_files (w_db w)) f). unfold get_file.
    split_and!.
    + run. rewrite select_ok by done. run.
      change (sf_bucket f, sf_key f) with (file_key f). simpl. by rewrite lookup_insert_eq.
    + unfold saved_row. by destruct (_ !! _), f.
    + unfold saved_row. by destruct (_ !! _), f.
    + intros bucket key Hne. run. rewrite !select_ok by done. run. simpl.
      by rewrite lookup_insert_ne.
Qed.
End manager_facts.

(** ** Sums over the rows of a bucket *)

Lemma sum_of_app g l l' : sum_of g (l ++ l') = sum_of g l + sum_of g l'.
Proof. unfold sum_of. induction l as [|x l IH]; simpl in *; lia. Qed.

Lemma sum_of_perm g l l' : l ≡ₚ l' → sum_of g l = sum_of g l'.
Proof. unfold sum_of. induction 1; simpl in *; lia. Qed.

Lemma sum_of_mono g h l : (∀ x, x ∈ l → g x ≤ h x) → sum_of g l ≤ sum_of h l.
Proof.
  unfold sum_of. induction l as [|x l IH]; intros H; simpl; [lia|].
  pose proof (H x ltac:(by left)). specialize (IH (λ y Hy, H y (list_elem_of_further _ _ _ Hy))). lia.
Qed.

Lemma sum_of_nonneg g l : (∀ x, x ∈ l → 0 ≤ g x) → 0 ≤ sum_of g l.
Proof.
  intros H. pose proof (sum_of_mono (λ _, 0) g l H). unfold sum_of in *.
  assert (foldr (λ (_ : StoredFile) s, 0 + s) 0 l = 0) as E by (clear; induction l; simpl; lia). lia.
Qed.

Lemma elem_of_bucket_rows b t f :
  f ∈ bucket_rows b t ↔ sf_bucket f = b ∧ ∃ k, t !! k = Some f.
Proof.
  unfold bucket_rows. rewrite list_elem_of_fmap. split.
  - intros ([k f'] & -> & H%elem_of_map_to_list). apply map_lookup_filter_Some in H as [H Hb].
    simpl in *. eauto.
  - intros [Hb [k Hk]]. exists (k, f). split; [done|]. apply elem_of_map_to_list.
    by apply map_lookup_filter_Some.
Qed.

Lemma bucket_rows_sub b t t' : t' ⊆ t → ∃ l, bucket_rows b t ≡ₚ bucket_rows b t' ++ l.
Proof.
  intros Hsub. assert (bucket_rows b t' ⊆+ bucket_rows b t) as H.
  { unfold bucket_rows. apply fmap_submseteq, map_to_list_submseteq, map_subseteq_spec.
    intros k r. rewrite !map_lookup_filter_Some. intros [Hr Hb]. split; [|done].
    by eapply lookup_weaken. }
  apply submseteq_Permutation in H as [l H]. by exists l.
Qed.

(** No stored form is larger than the plain content it stands for. *)
Definition no_inflation (t : FileTable) : Prop := map_Forall (λ _ r, sf_file_size r ≤ plain_size r) t.

(** Then removing rows never breaks the check on the statistics. *)
Lemma stats_ok_shrink b t t' :
  map_Forall (λ _ r, 0 ≤ sf_file_size r) t → no_inflation t → stats_ok b t = true → t' ⊆ t →
  stats_ok b t' = true.
Proof.
  intros Hpos Hinf Hst Hsub. unfold stats_ok in *. apply andb_true_iff in Hst as [Hs _].
  apply Z.leb_le in Hs. destruct (bucket_rows_sub b t t' Hsub) as [l Hl].
  rewrite (sum_of_perm _ _ _ Hl), sum_of_app in Hs.
  assert (0 ≤ sum_of sf_file_size l) as Hl0.
  { apply sum_of_nonneg. intros x Hx. assert (x ∈ bucket_rows b t) as Hin by (rewrite Hl; set_solver).
    apply elem_of_bucket_rows in Hin as [_ [k Hk]]. by apply (Hpos k). }
  assert (sum_of sf_file_size (bucket_rows b t') ≤ sum_of plain_size (bucket_rows b t')) as Hle.
  { apply sum_of_mono. intros x [_ [k Hk]]%elem_of_bucket_rows. apply (Hinf k).
    by eapply lookup_weaken. }
  apply andb_true_iff. split; [apply Z.leb_le; lia|].
  destruct (Z.leb_spec (sum_of plain_size (bucket_rows b t')) 0); [done|]. simpl. apply Z.ltb_lt. lia.
Qed.

Lemma file_size_nonneg d : db_wf d → map_Forall (λ _ r, 0 ≤ sf_file_size r) (db_files d).
Proof.
  intros Hwf k r Hr. by apply (sizes_nonneg d), (wf_rows _ Hwf k).
Qed.

(** ** Concrete rows *)

Definition sample_row (id : Byte.byte) (bucket key : string) (t : DateTime) : StoredFile :=
  mkStoredFile [id] bucket key key ("/data/" +:+ bucket +:+ "/" +:+ key) 3 3 "text/plain" "ab" "cd" None
    (Some false) (Some false) None None None (Some t) None 0 None (Some false) (Some false)
    (Some 6) (Some "not_cached") None (Some 0) (Some 0) None.

Definition empty_db : Db :=
  mkDb ∅ {[ "b" := mkBucketRow (Some true) 0; "c" := mkBucketRow (Some true) 1 ]} ∅ 1 None.

Lemma empty_db_wf : db_wf empty_db.
Proof.
  split; simpl; [apply map_Forall_empty|apply map_Forall_empty| | |apply map_Forall_empty].
  - intros k k' r r' H. by rewrite lookup_empty in H.
  - intros b. reflexivity.
Qed.

Definition run_stmt {A} (q : Stmt A) (d : Db) : Db :=
  match q 0 d with Ok (_, d') => d' | Err _ => d end.

Lemma run_stmt_wf {A} (q : Stmt A) d : stmt_keeps q → db_wf d → db_wf (run_stmt q d).
Proof.
  intros Hq Hwf. unfold run_stmt. destruct (q 0 d) as [[a d']|] eqn:E; [|done]. by eapply Hq.
Qed.

Definition two_rows_db : Db :=
  run_stmt (upsert_file (sample_row Byte.x02 "b" "a/2" 20))
    (run_stmt (upsert_file (sample_row Byte.x01 "b" "a/1" 10)) empty_db).

Lemma two_rows_db_wf : db_wf two_rows_db.
Proof. do 2 (apply run_stmt_wf; [apply upsert_file_keeps|]). apply empty_db_wf. Qed.

Definition db_world (d : Db) : World :=
  mkWorld (mkFS [] ∅) d ∅ 100 (λ n, Byte.x00) 0 [].

Lemma list_files_pages_witness :
  ∃ rows, (∀ f, f ∈ rows ↔ db_files two_rows_db !! file_key f = Some f
             ∧ list_match "b" (Some "a/") f = true) ∧
    sf_key <$> rows = ["a/2"; "a/1"] ∧
    (list_files (X:=Toy.ToyExternals) "b" (Some "a/") 1 1 (db_world two_rows_db)).1 = Ok (take 1 (drop 1 rows)).
Proof.
  destruct (list_files_pages (X:=Toy.ToyExternals) "b" (Some "a/") (db_world two_rows_db)
              two_rows_db_wf eq_refl) as [_ H].
  destruct H as (rows & [_ _ Hin] & Hpage).
  - assert (map_Forall (λ _ f, map_Forall (λ _ g, sf_upload_time f = sf_upload_time g → f = g)
      (db_files two_rows_db)) (db_files two_rows_db)) as H by (apply (bool_decide_unpack _); vm_compute; exact I).
    intros f g Hf Hg _ _. exact (H _ _ Hf _ _ Hg).
  - exists rows. split; [exact Hin|]. rewrite (Hpage 1 1) by lia. split; [|reflexivity].
    specialize (Hpage 10 0).
    assert (fst (list_files (X:=Toy.ToyExternals) "b" (Some "a/") 10 0 (db_world two_rows_db))
            = Ok [sample_row Byte.x02 "b" "a/2" 20; sample_row Byte.x01 "b" "a/1" 10]) as E
      by (vm_compute; reflexivity).
    rewrite Hpage in E by lia. injection E as E.
    simpl drop in E. rewrite drop_0 in E.
    destruct rows as [|r1 [|r2 [|r3 rows]]]; try discriminate E.
    injection E as -> ->. reflexivity.
Defined.

(** Two rows with the same upload time. *)
Definition tied_rows_db : Db :=
  run_stmt (upsert_file (sample_row Byte.x02 "b" "a/2" 10))
    (run_stmt (upsert_file (sample_row Byte.x01 "b" "a/1" 10)) empty_db).

(** A page at an odd offset is scanned backwards: the first and the second page
    of one row show the same file, and no page shows the other. *)
Example tied_pages_repeat :
  let page o := (list_files (X:=Toy.ToyExternals) "b" None 1 o (db_world tied_rows_db)).1 in
  page 0 = page 1 ∧ is_ok (page 0) = true ∧ size (db_files tied_rows_db) = 2%nat.
Proof. vm_compute. split_and!; reflexivity. Qed.

Lemma list_files_prefix_witness :
  literal "a/" = true ∧
  list_files (X:=Toy.ToyExternals) "b" (Some "%") 1 1 (db_world two_rows_db)
  = list_files (X:=Toy.ToyExternals) "b" None 1 1 (db_world two_rows_db).
Proof.
  split; [reflexivity|].
  apply (list_files_prefix (X:=Toy.ToyExternals) "b" "a/" 1 1 (db_world two_rows_db) eq_refl).
Defined.

Lemma save_file_get_file_witness :
  let '(r, w') := save_file (sample_row Byte.x03 "b" "a/1" 30) (db_world two_rows_db) in
  is_ok r = true ∧
  ∃ row, get_file "b" "a/1" w' = (Ok row, w') ∧ sf_id row = [Byte.x01].
Proof.
  pose proof (save_file_get_file (sample_row Byte.x03 "b" "a/1" 30)
                (db_world two_rows_db) eq_refl) as H.
  assert (is_ok (fst (save_file (sample_row Byte.x03 "b" "a/1" 30) (db_world two_rows_db))) = true)
    as E by (vm_compute; reflexivity).
  destruct (save_file _ _) as [[[]|e] w']; [|discriminate E].
  split; [reflexivity|]. destruct H as (row & Hrow & _ & Hid & _).
  exists row. split; [exact Hrow|]. rewrite Hid. vm_compute. reflexivity.
Defined.
