(* ===== verification/Cache.v ===== *)
(** * Cache (cache.rs)

    [CacheManager]: the read-through cache of rows and small contents over the
    in-process store or Redis, and the service that warms it.  An entry of
    either store may disappear at any time (time to live, capacity); for the
    in-process store a pending fault at a read is such a loss, and at a write
    a refused admission. *)

From S2P Require Import Prelude.
From S2P Require Import Errors.
From S2P Require Import Models.
From S2P Require Import FileSystem.
From S2P Require Import Config.
From S2P Require Import Externals.
From S2P Require Import World.
From S2P Require Import Database.

Inductive Backend := BackendMemory | BackendRedis.

Record CacheManager := mkCacheManager { cache_config : Config; cache_backend : Backend }.

Record CacheStats := mkCacheStats {
  cst_total_keys : Z; cst_max_size_gb : Q; cst_ttl_seconds : Z;
  cst_preload_enabled : bool; cst_backend : string }.

(** The keys an entry is stored under. *)
Definition metadata_key (bucket key : string) : string := "file:" +:+ bucket +:+ ":" +:+ key.
Definition content_key (bucket key : string) : string := "content:" +:+ bucket +:+ ":" +:+ key.

Definition MAX_CACHE_SIZE : Z := 1024 * 1024.

(** One use of the in-process store, which cannot fail but may find that the
    entry is lost. *)
Definition memory_call {E A} (f : bool → gmap string bytes → A * gmap string bytes) : IO E A := λ w,
  match next_fault (E:=E) w with
  | (Ok fault, w1) =>
    let '(a, c) := f (bool_decide (is_Some fault)) (w_cache w1) in (Ok a, set_cache c w1)
  | (Err e, w1) => (Err e, w1)
  end.

Definition memory_get {E} (key : string) : IO E (option bytes) :=
  memory_call (λ lost c, if lost : bool then (None, delete key c) else (c !! key, c)).

Definition memory_insert {E} (key : string) (value : bytes) : IO E unit :=
  memory_call (λ lost c, (tt, if lost : bool then delete key c else <[key := value]> c)).

(** Invalidation and counting are never lost. *)
Definition memory_update {E A} (f : gmap string bytes → A * gmap string bytes) : IO E A := λ w,
  let '(a, c) := f (w_cache w) in (Ok a, set_cache c w).

(** [for key in keys { cache.invalidate(key) }], and [DEL keys]. *)
Definition remove_keys (keys : list string) (c : gmap string bytes) : gmap string bytes :=
  foldr (λ k c, delete k c) c keys.

Section cache.
Context `{X : Externals}.

Definition cache_new (config : Config) : CacheManager :=
  mkCacheManager config
    (match cs_backend (cfg_cache config) with
     | RedisBackend =>
       match redis_client_open (redis_url config) with
       | Ok _ => BackendRedis
       | Err _ => BackendMemory
       end
     | Memory => BackendMemory
     end).

(** [client.get_async_connection().await?] and one command. *)
Definition get_async_connection : IO RedisError unit := redis_call (λ c, (tt, c)).

Definition backend_get (self : CacheManager) (key : string) : M (option bytes) :=
  match cache_backend self with
  | BackendMemory => memory_get key
  | BackendRedis =>
    _ ← map_err from_redis_error get_async_connection;
    map_err from_redis_error (redis_call (λ c, (c !! key, c)))
  end.

Definition backend_set (self : CacheManager) (key : string) (value : bytes) : M unit :=
  match cache_backend self with
  | BackendMemory => memory_insert key value
  | BackendRedis =>
    _ ← map_err from_redis_error get_async_connection;
    if decide (cs_ttl_seconds (cfg_cache (cache_config self)) = 0)
    then throw (Redis "An error was signalled by the server: invalid expire time in 'setex' command")
    else map_err from_redis_error (redis_call (λ c, (tt, <[key := value]> c)))
  end.

Definition backend_del (self : CacheManager) (keys : list string) : M unit :=
  match cache_backend self with
  | BackendMemory => memory_update (λ c, (tt, remove_keys keys c))
  | BackendRedis =>
    _ ← map_err from_redis_error get_async_connection;
    map_err from_redis_error (redis_call (λ c, (tt, remove_keys keys c)))
  end.

Definition is_enabled (self : CacheManager) : bool := true.

Definition get_file_metadata (self : CacheManager) (bucket key : string) : M (option StoredFile) :=
  let cache_key := metadata_key bucket key in
  r ← attempt (backend_get self cache_key);
  match r with
  | Ok (Some b) =>
    match json_from_slice b with
    | Ok file => mret (Some file)
    | Err _ => _ ← attempt (F:=StorageError) (backend_del self [cache_key]); mret None
    end
  | Ok None => mret None
  | Err e => throw e
  end.

Definition set_file_metadata (self : CacheManager) (bucket key : string) (file : StoredFile) :
    M unit :=
  serialized ← lift (map_result_err from_json_error (json_to_vec file));
  backend_set self (metadata_key bucket key) serialized.

Definition get_file_content (self : CacheManager) (bucket key : string) : M (option bytes) :=
  backend_get self (content_key bucket key).

Definition set_file_content (self : CacheManager) (bucket key : string) (content : bytes) : M unit :=
  if decide (zlen content > MAX_CACHE_SIZE) then mret tt
  else backend_set self (content_key bucket key) content.

Definition invalidate_file (self : CacheManager) (bucket key : string) : M unit :=
  backend_del self [metadata_key bucket key; content_key bucket key].

(** The generic entries, over a serde instance given as a pair of functions. *)
Definition get {T} (from_slice : bytes → result JsonError T) (self : CacheManager) (key : string) :
    M (option T) :=
  found ← backend_get self key;
  match found with
  | Some b => v ← lift (map_result_err from_json_error (from_slice b)); mret (Some v)
  | None => mret None
  end.

Definition set {T} (to_vec : T → result JsonError bytes) (self : CacheManager) (key : string) (value : T) :
    M unit :=
  b ← lift (map_result_err from_json_error (to_vec value));
  backend_set self key b.

Definition cache_health_check (self : CacheManager) : M bool :=
  match cache_backend self with
  | BackendMemory => mret true
  | BackendRedis =>
    conn ← attempt get_async_connection;
    match conn with
    | Ok _ => pong ← attempt (redis_call (λ c, (tt, c))); mret (is_ok pong)
    | Err _ => mret false
    end
  end.

(** ** The warming service *)

Definition get_cache_config : M CacheConfig :=
  run_sql (λ _ d, match db_cache_config d with
                  | Some c => Ok (c, d)
                  | None => Err {| sqlx_code := None; sqlx_text :=
                      "no rows returned by a query that expected to return at least one row" |}
                  end).

Definition CACHE_STATUSES : list string := ["not_cached"; "cached"; "pending"].

(** [UPDATE files SET cache_status = $1, last_cache_update = NOW(),
    cache_hits = COALESCE($2, cache_hits) WHERE p]. *)
Definition set_status (p : StoredFile → bool) (status : string) (cache_hits : option Z) : Stmt unit :=
  λ now d,
  if bool_decide (status ∈ CACHE_STATUSES)
     || bool_decide (map_Forall (λ _ r, p r = false) (db_files d))
  then update_rows p (λ r, set_cache_columns (Some status) (Some now)
         (match cache_hits with Some h => Some h | None => sf_cache_hits r end) r) now d
  else Err (check_violation "valid_cache_status").

Definition update_cache_status (file_id : Uuid) (status : string) (cache_hits : option Z) : M unit :=
  run_sql (set_status (λ r, bool_decide (sf_id r = file_id)) status cache_hits).

(** [ORDER BY cache_priority DESC, access_count DESC, last_accessed DESC
    NULLS LAST]: a missing priority comes first. *)
Definition nulls_first (o : option Z) : Z * Z := match o with None => (1, 0) | Some n => (0, n) end.
Definition nulls_last (o : option Z) : Z * Z := match o with None => (0, 0) | Some n => (1, n) end.
Definition lex_ge (a b : Z * Z) (rest : Prop) : Prop :=
  b.1 < a.1 ∨ (b.1 = a.1 ∧ (b.2 < a.2 ∨ (b.2 = a.2 ∧ rest))).

#[export] Instance lex_ge_dec a b rest `{!Decision rest} : Decision (lex_ge a b rest).
Proof. unfold lex_ge. apply _. Defined.

Definition cache_order (a b : StoredFile) : Prop :=
  lex_ge (nulls_first (sf_cache_priority a)) (nulls_first (sf_cache_priority b))
    (lex_ge (0, sf_access_count a) (0, sf_access_count b)
      (lex_ge (nulls_last (sf_last_accessed a)) (nulls_last (sf_last_accessed b)) True)).

#[export] Instance cache_order_dec : RelDecision cache_order.
Proof. intros a b. unfold cache_order. apply _. Defined.

Definition uncached_and_popular (min_access_count : Z) (f : StoredFile) : bool :=
  (min_access_count <=? sf_access_count f)
  && match sf_cache_status f with Some s => bool_decide (s ≠ "cached") | None => false end
  && (sf_file_size f <=? 10485760).

Definition get_popular_uncached_files (min_access_count limit : Z) : M (list StoredFile) :=
  run_sql (λ _ d, rows ← limit_offset limit 0
                    (merge_sort cache_order (scan_page limit 0 (uncached_and_popular min_access_count) d));
                  Ok (rows, d)).

Definition cache_file_from_disk (self : CacheManager) (file : StoredFile) : M Z :=
  found ← attempt (fs_call (fs_reading (λ s, Ok (fs_exists s (sf_file_path file)))));
  if negb (match found with Ok b => b | Err _ => false end)
  then throw (NotFound (sf_bucket file) (sf_key file))
  else
    content ← map_err from_io_error (fs_call (fs_reading (λ s, fs_read s (sf_file_path file))));
    _ ← set_file_content self (sf_bucket file) (sf_key file) content;
    mret (zlen content).

(** [(x * 1024.0 * 1024.0 * 1024.0) as u64]. *)
Definition gb_as_u64 (x : Q) : Z :=
  Z.max 0 (Z.min u64_max ((Qnum x * 1073741824) / Zpos (Qden x))).

Definition preload_popular_files (self : CacheManager) : M unit :=
  cfg ← get_cache_config;
  if negb (flag (cc_preload_enabled cfg)) then mret tt
  else
    let max_cache_size_bytes := gb_as_u64 (default 1%Q (cc_max_cache_size_gb cfg)) in
    let min_access_count := default 5 (cc_min_access_count cfg) in
    popular_files ← get_popular_uncached_files min_access_count 1000;
    _ ← for_each popular_files 0 (λ file current_cache_size,
      if decide (max_cache_size_bytes ≤ current_cache_size) then mret current_cache_size
      else
        r ← attempt (cache_file_from_disk self file);
        match r with
        | Ok cached_size =>
          _ ← update_cache_status (sf_id file) "cached" None;
          mret (current_cache_size + cached_size)
        | Err _ =>
          _ ← update_cache_status (sf_id file) "not_cached" None;
          mret current_cache_size
        end);
    mret tt.

(** The warming task: a round, its error only logged, and half an hour of
    sleep; it never ends, so it is given by its first [n] rounds. *)
Fixpoint start_preload_service (n : nat) (self : CacheManager) : M unit :=
  match n with
  | O => mret tt
  | S n =>
    _ ← attempt (F:=StorageError) (preload_popular_files self);
    _ ← pause 1800000;
    start_preload_service n self
  end.

Definition clear_cache (self : CacheManager) : M unit :=
  _ ← (match cache_backend self with
       | BackendMemory => memory_update (λ _, (tt, ∅))
       | BackendRedis =>
         _ ← map_err from_redis_error get_async_connection;
         map_err (λ e, Cache ("Failed to clear cache: " +:+ redis_text e))
           (redis_call (λ _, (tt, ∅)))
       end : M unit);
  run_sql (set_status (λ r, bool_decide (sf_cache_status r = Some "cached")) "not_cached" None).

Definition get_cache_stats (self : CacheManager) : M CacheStats :=
  cfg ← get_cache_config;
  nb ← (match cache_backend self with
        | BackendMemory => memory_update (λ c, ((Z.of_nat (size c), "memory"), c))
        | BackendRedis =>
          conn ← attempt get_async_connection;
          count ← (match conn with
                   | Ok _ => n ← attempt (redis_call (λ c, (Z.of_nat (size c), c)));
                             mret (match n with Ok n => n | Err _ => 0 end)
                   | Err _ => mret 0
                   end);
          mret (count, "redis")
        end : M (Z * string));
  mret (mkCacheStats nb.1 (default 1%Q (cc_max_cache_size_gb cfg))
          (as_u64 (default 3600 (cc_cache_ttl_seconds cfg))) (flag (cc_preload_enabled cfg)) nb.2).
End cache.

(** ** What the cache calls change *)

(** Only the store (and the pending faults) differ. *)
Definition cache_only (w w' : World) : Prop :=
  w_fs w' = w_fs w ∧ w_db w' = w_db w ∧ w_now w' = w_now w.

#[export] Instance cache_only_preorder : PreOrder cache_only.
Proof. split; unfold cache_only; [done|]. intros x y z (?&?&?) (?&?&?). split_and!; congruence. Qed.

#[export] Instance cache_only_oblivious : Oblivious cache_only.
Proof. by split. Qed.

Lemma respects_weaken {S E A} (R R' : relation S) (m : prog S E A) :
  (∀ w w', R w w' → R' w w') → respects R m → respects R' m.
Proof. intros H Hm w. apply H, Hm. Qed.

Lemma cache_only_wf w w' : cache_only w w' → keeps world_wf w w'.
Proof. intros (_ & H & _). unfold keeps, world_wf. by rewrite H. Qed.

Section cache_frame.
Context `{X : Externals} (self : CacheManager).

Lemma cache_only_memory_call {E A} (f : bool → gmap string bytes → A * gmap string bytes) :
  respects cache_only (memory_call (E:=E) f).
Proof.
  intros w. unfold memory_call, next_fault.
  destruct (w_faults w); simpl; by destruct (f _ _).
Qed.

Lemma cache_only_memory_update {E A} (f : gmap string bytes → A * gmap string bytes) :
  respects cache_only (memory_update (E:=E) f).
Proof. intros w. unfold memory_update. by destruct (f _). Qed.

Lemma cache_only_redis {A} (f : gmap string bytes → A * gmap string bytes) :
  respects cache_only (redis_call f).
Proof. apply (respects_redis_call _). by intros w. Qed.

#[local] Hint Resolve cache_only_memory_call cache_only_memory_update cache_only_redis : respects.

Lemma cache_only_backend_get key : respects cache_only (backend_get self key).
Proof. unfold backend_get, memory_get, get_async_connection. solve_respects. Qed.
Lemma cache_only_backend_set key v : respects cache_only (backend_set self key v).
Proof. unfold backend_set, memory_insert, get_async_connection. solve_respects. Qed.
Lemma cache_only_backend_del keys : respects cache_only (backend_del self keys).
Proof. unfold backend_del, get_async_connection. solve_respects. Qed.

#[local] Hint Resolve cache_only_backend_get cache_only_backend_set cache_only_backend_del : respects.

Lemma cache_only_get_file_metadata b k : respects cache_only (get_file_metadata self b k).
Proof. unfold get_file_metadata. solve_respects. Qed.
Lemma cache_only_set_file_metadata b k f : respects cache_only (set_file_metadata self b k f).
Proof. unfold set_file_metadata. solve_respects. Qed.
Lemma cache_only_get_file_content b k : respects cache_only (get_file_content self b k).
Proof. unfold get_file_content. solve_respects. Qed.
Lemma cache_only_set_file_content b k c : respects cache_only (set_file_content self b k c).
Proof. unfold set_file_content. solve_respects. Qed.
Lemma cache_only_invalidate_file b k : respects cache_only (invalidate_file self b k).
Proof. unfold invalidate_file. solve_respects. Qed.
Lemma cache_only_cache_health_check : respects cache_only (cache_health_check self).
Proof. unfold cache_health_check, get_async_connection. solve_respects. Qed.
End cache_frame.

#[export] Hint Resolve cache_only_get_file_metadata cache_only_set_file_metadata
  cache_only_get_file_content cache_only_set_file_content cache_only_invalidate_file
  cache_only_cache_health_check : respects.

(** ** Keys *)

Lemma metadata_content_key b k b' k' : metadata_key b k ≠ content_key b' k'.
Proof. done. Qed.

Lemma colon_key_inj b k b' k' :
  contains_char ":" b = false → contains_char ":" b' = false →
  b +:+ ":" +:+ k = b' +:+ ":" +:+ k' → b = b' ∧ k = k'.
Proof.
  revert b'. induction b as [|a b IH]; intros [|a' b'] H H'; simpl in *.
  - intros [= Heq]. split; [done|exact Heq].
  - intros [= <- _]. done.
  - intros [= -> _]. done.
  - apply orb_false_iff in H as [_ H], H' as [_ H']. intros [= -> Heq].
    by destruct (IH b' H H' Heq) as [-> ->].
Qed.

(** ** Without failures *)

(** Redis refuses a time to live of zero. *)
Definition cache_writable (self : CacheManager) : Prop :=
  cache_backend self = BackendRedis → cs_ttl_seconds (cfg_cache (cache_config self)) ≠ 0.

Section cache_ok.
Context `{X : Externals, !ExternalsLaws X} (self : CacheManager).
Context (Hw : cache_writable self).

Lemma backend_get_ok key w :
  w_faults w = [] → backend_get self key w = (Ok (w_cache w !! key), w).
Proof.
  intros Hf. unfold backend_get, memory_get, get_async_connection.
  destruct (cache_backend self).
  - unfold memory_call, next_fault. rewrite Hf. simpl. by rewrite set_cache_id.
  - run. rewrite redis_call_ok by done. simpl. run. rewrite set_cache_id.
    rewrite redis_call_ok by done. simpl. by rewrite set_cache_id.
Qed.

Lemma backend_set_ok key v w :
  w_faults w = [] → backend_set self key v w = (Ok tt, set_cache (<[key := v]> (w_cache w)) w).
Proof.
  intros Hf. unfold backend_set, memory_insert, get_async_connection.
  destruct (cache_backend self) eqn:Hb.
  - unfold memory_call, next_fault. by rewrite Hf.
  - rewrite decide_False by auto. run. rewrite redis_call_ok by done. simpl. run.
    rewrite set_cache_id. by rewrite redis_call_ok.
Qed.

Lemma backend_del_ok keys w :
  w_faults w = [] →
  backend_del self keys w = (Ok tt, set_cache (remove_keys keys (w_cache w)) w).
Proof using Type.
  intros Hf. unfold backend_del, get_async_connection.
  destruct (cache_backend self); [done|].
  run. rewrite redis_call_ok by done. simpl. run.
  rewrite set_cache_id. by rewrite redis_call_ok.
Qed.

Lemma set_file_metadata_ok b k f w :
  w_faults w = [] → ∃ ser, json_to_vec f = Ok ser ∧
  set_file_metadata self b k f w = (Ok tt, set_cache (<[metadata_key b k := ser]> (w_cache w)) w).
Proof.
  intros Hf. destruct (json_total f) as [ser Hser]. exists ser. split; [done|].
  unfold set_file_metadata. run. rewrite Hser. simpl. by rewrite backend_set_ok.
Qed.

Lemma set_file_content_ok b k c w :
  w_faults w = [] → zlen c ≤ MAX_CACHE_SIZE →
  set_file_content self b k c w = (Ok tt, set_cache (<[content_key b k := c]> (w_cache w)) w).
Proof.
  intros Hf Hc. unfold set_file_content. rewrite decide_False by lia. by rewrite backend_set_ok.
Qed.

Lemma get_file_metadata_ok b k w :
  w_faults w = [] →
  (∀ ser, w_cache w !! metadata_key b k = Some ser → ∃ f, json_from_slice ser = Ok f) →
  get_file_metadata self b k w =
  (Ok (ser ← w_cache w !! metadata_key b k; ok (json_from_slice ser)), w).
Proof using Type.
  intros Hf Hj. unfold get_file_metadata. run. rewrite backend_get_ok by done. simpl.
  destruct (w_cache w !! _) as [ser|]; [|done]. destruct (Hj ser eq_refl) as [f Hjf].
  simpl. by rewrite Hjf.
Qed.

Lemma get_file_metadata_miss b k w :
  w_faults w = [] → w_cache w !! metadata_key b k = None →
  get_file_metadata self b k w = (Ok None, w).
Proof using Type.
  intros Hf Hc. rewrite get_file_metadata_ok by (rewrite ?Hc; done). by rewrite Hc.
Qed.

Lemma get_file_metadata_hit b k w ser f :
  w_faults w = [] → w_cache w !! metadata_key b k = Some ser → json_from_slice ser = Ok f →
  get_file_metadata self b k w = (Ok (Some f), w).
Proof using Type.
  intros Hf Hc Hj. rewrite get_file_metadata_ok; [|done|].
  - rewrite Hc. simpl. by rewrite Hj.
  - rewrite Hc. intros ? [= <-]. eauto.
Qed.
End cache_ok.

(** ** What the warming service may change *)

(** The rows differ in their cache columns only. *)
Definition same_but_cache (f f' : StoredFile) : Prop :=
  ∃ s u h, f' = set_cache_columns s u h f.

#[export] Instance same_but_cache_preorder : PreOrder same_but_cache.
Proof.
  split.
  - intros f. exists (sf_cache_status f), (sf_last_cache_update f), (sf_cache_hits f). by destruct f.
  - intros f g h (s & u & n & ->) (s' & u' & n' & ->). exists s', u', n'. by destruct f.
Qed.

Definition rows_related (R : relation StoredFile) (t t' : FileTable) : Prop :=
  ∀ k, option_relation R (λ _, False) (λ _, False) (t !! k) (t' !! k).

#[export] Instance rows_related_preorder R : PreOrder R → PreOrder (rows_related R).
Proof.
  intros HR. split.
  - intros t k. destruct (t !! k); simpl; [reflexivity|done].
  - intros t1 t2 t3 H1 H2 k. specialize (H1 k). specialize (H2 k).
    destruct (t1 !! k), (t2 !! k), (t3 !! k); simpl in *; try done. by etrans.
Qed.

Definition warming (w w' : World) : Prop :=
  w_fs w' = w_fs w ∧ w_now w' = w_now w ∧
  set_files ∅ (w_db w') = set_files ∅ (w_db w) ∧
  rows_related same_but_cache (db_files (w_db w)) (db_files (w_db w')).

#[export] Instance warming_preorder : PreOrder warming.
Proof.
  split.
  - intros w. split_and!; [done..|]. reflexivity.
  - intros x y z (?&?&?&?) (?&?&?&?). split_and!; [congruence..|]. by etrans.
Qed.

#[export] Instance warming_oblivious : Oblivious warming.
Proof. split; intros w ?; split_and!; try done; reflexivity. Qed.

Lemma cache_only_warming w w' : cache_only w w' → warming w w'.
Proof. intros (H1 & H2 & H3). unfold warming. rewrite H1, H2, H3. split_and!; done || reflexivity. Qed.

Lemma set_status_wf p s h : stmt_keeps (set_status p s h).
Proof.
  intros now d a d' Hwf. unfold set_status. destruct (_ || _); [|done].
  apply update_rows_keeps; [by intros []| |done].
  intros d0 r _. by destruct r.
Qed.

Lemma set_status_rows p s h now d d' :
  set_status p s h now d = Ok (tt, d') →
  set_files ∅ d' = set_files ∅ d ∧ rows_related same_but_cache (db_files d) (db_files d').
Proof.
  unfold set_status, update_rows. destruct (_ || _); [|done].
  case_bool_decide; [|done]. intros [= <-]. split; [done|]. intros k. simpl.
  rewrite lookup_fmap. destruct (db_files d !! k) as [r|]; simpl; [|done].
  destruct (p r); [|reflexivity]. unfold same_but_cache. eauto.
Qed.

Lemma warming_set_status p s h : respects warming (run_sql (set_status p s h)).
Proof.
  apply (respects_run_sql _). intros w [] d E. apply set_status_rows in E as [H1 H2].
  by split_and!.
Qed.

Section warming_facts.
Context `{X : Externals} (self : CacheManager).

Lemma respects_get_cache_config (R : relation World) `{!PreOrder R, !Oblivious R} :
  respects R get_cache_config.
Proof.
  apply (respects_run_sql _). intros w a d. destruct (db_cache_config _); [|done].
  intros [= _ <-]. rewrite set_db_id. reflexivity.
Qed.

Lemma respects_popular (R : relation World) `{!PreOrder R, !Oblivious R} m l :
  respects R (get_popular_uncached_files m l).
Proof.
  apply (respects_run_sql _). intros w a d. destruct (limit_offset _ _ _); [|done].
  intros [= _ <-]. rewrite set_db_id. reflexivity.
Qed.

#[local] Hint Resolve respects_get_cache_config respects_popular warming_set_status : respects.

Lemma warming_set_file_content b k c : respects warming (set_file_content self b k c).
Proof.
  eapply respects_weaken; [apply cache_only_warming|]. apply cache_only_set_file_content.
Qed.

#[local] Hint Resolve warming_set_file_content : respects.

Lemma warming_cache_file_from_disk f : respects warming (cache_file_from_disk self f).
Proof. unfold cache_file_from_disk. solve_respects. Qed.

#[local] Hint Resolve warming_cache_file_from_disk : respects.

Lemma warming_preload : respects warming (preload_popular_files self).
Proof. unfold preload_popular_files, update_cache_status. solve_respects. Qed.

Lemma warming_clear_cache : respects warming (clear_cache self).
Proof.
  unfold clear_cache. apply (respects_bind _); [|intros; apply warming_set_status].
  eapply respects_weaken; [apply cache_only_warming|].
  destruct (cache_backend self); [apply cache_only_memory_update|].
  unfold get_async_connection. pose proof (@cache_only_redis). solve_respects.
Qed.
End warming_facts.

Lemma cache_only_keeps_wf {E A} (m : IO E A) : respects cache_only m → respects (keeps world_wf) m.
Proof. apply respects_weaken, cache_only_wf. Qed.

Section wf_facts.
Context `{X : Externals} (self : CacheManager).

Lemma preload_wf : respects (keeps world_wf) (preload_popular_files self).
Proof.
  pose proof (λ p s h, respects_wf_sql _ (set_status_wf p s h)) as Hs.
  pose proof (λ b k c, cache_only_keeps_wf _ (cache_only_set_file_content self b k c)) as Hc.
  pose proof (λ m l, respects_popular (keeps world_wf) m l) as Hp.
  pose proof (respects_get_cache_config (keeps world_wf)) as Hg.
  unfold preload_popular_files, cache_file_from_disk, update_cache_status. solve_respects.
Qed.
End wf_facts.

(** ** Properties *)

Section properties.
Context `{X : Externals, !ExternalsLaws X} (self : CacheManager).

(** The read-through cache.  On a working backend, a stored row and a
    stored content of at most 1 MB are what the next read of the same bucket
    and key returns, entries of other keys (of buckets whose names have no
    colon) are untouched, and after an invalidation both reads miss. *)
Theorem cache_set_get b k f content w :
  cache_writable self → w_faults w = [] → zlen content ≤ MAX_CACHE_SIZE →
  let w' := (_ ← set_file_metadata self b k f; set_file_content self b k content : M unit) w in
  w'.1 = Ok tt ∧
  get_file_metadata self b k w'.2 = (Ok (Some f), w'.2) ∧
  get_file_content self b k w'.2 = (Ok (Some content), w'.2) ∧
  (∀ b' k', contains_char ":" b = false → contains_char ":" b' = false → (b, k) ≠ (b', k') →
     get_file_content self b' k' w'.2 = ((get_file_content self b' k' w).1, w'.2)) ∧
  let w'' := (invalidate_file self b k w'.2).2 in
  get_file_metadata self b k w'' = (Ok None, w'') ∧
  get_file_content self b k w'' = (Ok None, w'').
Proof.
  intros Hw Hf Hc. destruct (set_file_metadata_ok self Hw b k f w Hf) as (ser & Hser & Hset).
  run. rewrite Hset. run. rewrite set_file_content_ok by done. simpl.
  pose proof (json_roundtrip _ _ Hser) as Hrt.
  pose proof (metadata_content_key b k b k) as Hne.
  set (w' := set_cache (<[content_key b k := content]> _) _).
  assert (w_faults w' = []) as Hf' by done.
  assert (w_cache w' !! metadata_key b k = Some ser) as Hm.
  { simpl. rewrite lookup_insert_ne, lookup_insert_eq by done. done. }
  assert (w_cache w' !! content_key b k = Some content) as Hct.
  { simpl. by rewrite lookup_insert_eq. }
  split; [done|]. split; [|split; [|split; [|cbv zeta; split]]].
  - rewrite get_file_metadata_ok; [|done|].
    + rewrite Hm. simpl. by rewrite Hrt.
    + rewrite Hm. intros ? [= <-]. eauto.
  - unfold get_file_content. by rewrite backend_get_ok, Hct.
  - intros b' k' Hb Hb' Hk. unfold get_file_content. rewrite !backend_get_ok by done.
    assert (content_key b k ≠ content_key b' k') as Hck.
    { intros [= Heq]. by apply colon_key_inj in Heq as [-> ->]. }
    simpl. do 2 f_equal. by rewrite !lookup_insert_ne.
  - unfold invalidate_file. rewrite backend_del_ok by done. simpl.
    rewrite get_file_metadata_ok; simpl; rewrite ?lookup_delete_eq; done.
  - unfold invalidate_file. rewrite backend_del_ok by done. simpl.
    unfold get_file_content. rewrite backend_get_ok by done. simpl.
    by rewrite lookup_delete_ne, lookup_delete_eq by done.
Qed.

(** Entries are keyed by "bucket:key", so a colon in a bucket name makes
    two files share their entries: the row (and so the content) cached for
    key "b:c" of bucket "a" is served for key "c" of bucket "a:b". *)
Theorem cache_key_collision a b c f w :
  cache_writable self → w_faults w = [] →
  let w' := (set_file_metadata self a (b +:+ ":" +:+ c) f w).2 in
  get_file_metadata self (a +:+ ":" +:+ b) c w' = (Ok (Some f), w').
Proof.
  intros Hw Hf.
  destruct (set_file_metadata_ok self Hw a (b +:+ ":" +:+ c) f w Hf) as (ser & Hser & ->).
  simpl. assert (metadata_key (a +:+ ":" +:+ b) c = metadata_key a (b +:+ ":" +:+ c)) as E.
  { unfold metadata_key. by rewrite !str_app_assoc. }
  rewrite get_file_metadata_ok by (rewrite ?E; simpl; rewrite ?lookup_insert_eq; try done;
    intros ? [= <-]; eauto using json_roundtrip).
  rewrite E. simpl. rewrite lookup_insert_eq. simpl.
  by rewrite (json_roundtrip _ _ Hser).
Qed.

(** Warming the cache is invisible to readers of the tables and the
    disk: whatever calls fail, no file changes, and no column of a row other
    than the cache's own does. *)
Theorem preload_changes_cache_columns_only w :
  let w' := (preload_popular_files self w).2 in
  w_fs w' = w_fs w ∧ rows_related same_but_cache (db_files (w_db w)) (db_files (w_db w')) ∧
  (db_wf (w_db w) → db_wf (w_db w')).
Proof.
  destruct (warming_preload self w) as (H1 & _ & _ & H2).
  split_and!; [done..|]. apply (preload_wf self w).
Qed.
End properties.

Definition sample_cache : CacheManager :=
  mkCacheManager
    (mkConfig (mkServerConfig 8080 "INFO") (mkDatabaseConfig "h" 5432 "d" "u" "p" 10 "url")
       (mkRedisConfig "redis" 6379 None 0 10) (mkCacheSettings Memory 256 3600)
       (mkStorageConfig "/data" 1000 "default" true) (mkCryptoConfig false "aes-gcm" None)
       (mkCompressionConfig false "zstd" 3 1024) None None None)
    BackendMemory.

Lemma cache_set_get_witness :
  let f := sample_row Byte.x01 "b" "k" 7 in
  let w' := (_ ← set_file_metadata (X:=Toy.ToyExternals) sample_cache "b" "k" f;
             set_file_content sample_cache "b" "k" [Byte.x61] : M unit) (db_world empty_db) in
  get_file_content sample_cache "b" "k" w'.2 = (Ok (Some [Byte.x61]), w'.2).
Proof.
  apply (cache_set_get (X:=Toy.ToyExternals) sample_cache "b" "k"
           (sample_row Byte.x01 "b" "k" 7) [Byte.x61] (db_world empty_db)); [discriminate|reflexivity|].
  vm_compute. discriminate.
Defined.

Lemma cache_key_collision_witness :
  let f := sample_row Byte.x01 "a" "b:c" 7 in
  let w' := (set_file_metadata (X:=Toy.ToyExternals) sample_cache "a" "b:c" f (db_world empty_db)).2 in
  get_file_metadata (X:=Toy.ToyExternals) sample_cache "a:b" "c" w' = (Ok (Some f), w').
Proof.
  apply (cache_key_collision (X:=Toy.ToyExternals) sample_cache "a" "b" "c"
           (sample_row Byte.x01 "a" "b:c" 7) (db_world empty_db)); [discriminate|reflexivity].
Defined.
