(* ===== verification/EncryptionKeys.v ===== *)
(** * Encryption keys (encryption_keys.rs)

    [EncryptionKeyManager]: the table of explicit keys and the rows that use
    them. *)

From S2P Require Import Prelude.
From S2P Require Import Errors.
From S2P Require Import Models.
From S2P Require Import FileSystem.
From S2P Require Import Config.
From S2P Require Import Externals.
From S2P Require Import World.
From S2P Require Import Database.

(** [INSERT INTO encryption_keys (key_id, key_data, algorithm, description) ...
    RETURNING ...]. *)
Definition insert_key (key_id : string) (key_data : bytes) (algorithm : string)
    (description : option string) : Stmt EncryptionKey := λ now d,
  if negb (char_length key_id <=? 64) then Err (too_long "64")
  else if negb (char_length algorithm <=? 50) then Err (too_long "50")
  else match db_keys d !! key_id with
       | Some _ => Err (duplicate_key "encryption_keys_key_id_key")
       | None =>
         let key := mkEncryptionKey (db_key_serial d) key_id key_data algorithm
                      (Some now) (Some now) (Some true) description in
         Ok (key, set_keys (<[key_id := key]> (db_keys d)) (db_key_serial d + 1) d)
       end.

Definition key_active (k : EncryptionKey) : bool := bool_decide (ek_is_active k = Some true).

Definition set_key_inactive (now : DateTime) (k : EncryptionKey) : EncryptionKey :=
  mkEncryptionKey (ek_id k) (ek_key_id k) (ek_key_data k) (ek_algorithm k) (ek_created_at k)
    (Some now) (Some false) (ek_description k).

(** [created_at DESC]: a missing time comes first. *)
Definition created_desc (a b : EncryptionKey) : Prop :=
  match ek_created_at a, ek_created_at b with
  | None, _ => True
  | Some _, None => False
  | Some x, Some y => y ≤ x
  end.

#[export] Instance created_desc_dec : RelDecision created_desc.
Proof.
  intros a b. unfold created_desc. destruct (ek_created_at a), (ek_created_at b); apply _.
Defined.

(** [UPDATE files SET encryption_key_id = $1 WHERE id = $2]. *)
Definition set_row_key (kid : option string) (file_id : Uuid) : Stmt unit := λ now d,
  if bool_decide (map_Forall (λ _ r, sf_id r ≠ file_id) (db_files d)) then Ok (tt, d)
  else match first_error [
         (opt_len_ok kid 64, too_long "64");
         (match kid with Some k => bool_decide (is_Some (db_keys d !! k)) | None => true end,
          fk_violation "files_encryption_key_id_fkey")] with
       | Some e => Err e
       | None => update_rows (λ r, bool_decide (sf_id r = file_id)) (set_encryption_key_id kid) now d
       end.

Definition UNKNOWN_KEY (key_id : string) : StorageError :=
  Validation ("Unknown or inactive encryption_key_id: " +:+ key_id).

Section keys.
Context `{X : Externals}.

Definition create_key (key_id : string) (key_data : bytes) (algorithm : string)
    (description : option string) : M EncryptionKey :=
  run_sql (insert_key key_id key_data algorithm description).

Definition get_key (key_id : string) : M EncryptionKey :=
  key ← run_sql (select (λ d, k ← db_keys d !! key_id; if key_active k then Some k else None));
  lift (ok_or (UNKNOWN_KEY key_id) key).

Definition list_keys : M (list EncryptionKey) :=
  run_sql (select (λ d, merge_sort created_desc
    (filter (λ k, key_active k = true) (map_to_list (db_keys d)).*2))).

Definition deactivate_key (key_id : string) : M unit :=
  run_sql (λ now d, Ok (tt, set_keys (alter (set_key_inactive now) key_id (db_keys d))
                              (db_key_serial d) d)).

Definition get_file_key (file_id : Uuid) : M (option EncryptionKey) :=
  file ← run_sql (select (λ d, head (scan (λ f, bool_decide (sf_id f = file_id)) d)));
  match file with
  | Some f =>
    match sf_encryption_key_id f with
    | Some key_id => key ← get_key key_id; mret (Some key)
    | None => mret None
    end
  | None => throw (NotFound "unknown" "unknown")
  end.

Definition update_file_key (file_id : Uuid) (key_id : option string) : M unit :=
  run_sql (set_row_key key_id file_id).

Definition get_files_with_key (key_id : string) : M (list StoredFile) :=
  run_sql (select (λ d, merge_sort upload_desc
    (scan (λ f, bool_decide (sf_encryption_key_id f = Some key_id)) d))).

(** 32 characters of [Alphanumeric] from the thread's generator. *)
Definition generate_key_id : M string :=
  b ← fill_bytes 32; mret (String.string_of_list_ascii (alphanumeric <$> b)).
End keys.

Definition validate_key_format (key_data : bytes) (algorithm : string) : result StorageError unit :=
  if decide (algorithm = "aes-gcm") then
    if decide (length key_data ≠ 32%nat) then Err (Validation "AES-GCM requires 32-byte key") else Ok tt
  else if decide (algorithm = "chacha20poly1305") then
    if decide (length key_data ≠ 32%nat) then Err (Validation "ChaCha20-Poly1305 requires 32-byte key")
    else Ok tt
  else Err (Validation ("Unsupported encryption algorithm: " +:+ algorithm)).

(** ** Lemmas *)

(** Rows that refer to existing keys still do when no key disappears. *)
Lemma checks_more_keys d keys serial f :
  (∀ kid, is_Some (db_keys d !! kid) → is_Some (keys !! kid)) →
  first_error (row_checks f ++ fk_checks d f) = None →
  first_error (row_checks f ++ fk_checks (set_keys keys serial d) f) = None.
Proof.
  intros Hk. rewrite !first_error_None, !Forall_app. intros [H1 H2]. split; [done|].
  unfold fk_checks in *. rewrite !Forall_cons in *. simpl in *. destruct_and!.
  split_and!; try done. destruct (sf_encryption_key_id f); [|done].
  rewrite bool_decide_eq_true in *. auto.
Qed.

Lemma set_keys_wf d keys serial :
  db_wf d → (∀ kid, is_Some (db_keys d !! kid) → is_Some (keys !! kid)) →
  map_Forall (λ kid k, ek_key_id k = kid) keys → db_wf (set_keys keys serial d).
Proof.
  intros [W1 W2 W3 W4 W5] Hk Hkeys. split; try done.
  intros k r Hr. apply checks_more_keys; [done|]. by eapply W2.
Qed.

Lemma insert_key_keeps kid data alg desc : stmt_keeps (insert_key kid data alg desc).
Proof.
  intros now d k d' Hwf. unfold insert_key. do 2 (destruct (negb _); [done|]).
  destruct (db_keys d !! kid) eqn:E; [done|]. intros [= <- <-]. apply set_keys_wf; [done| |].
  - intros kid' H. destruct (decide (kid' = kid)) as [->|]; simplify_map_eq; eauto.
  - apply map_Forall_insert_2; [done|]. apply (wf_keys d Hwf).
Qed.

Lemma set_row_key_keeps kid id : stmt_keeps (set_row_key kid id).
Proof.
  intros now d [] d' Hwf. unfold set_row_key. case_bool_decide; [by intros [= <-]|].
  destruct (first_error _) eqn:Hc; [done|].
  apply update_rows_wf; [by intros []| |done].
  intros r _. rewrite !first_error_None, !Forall_app in *. unfold row_checks, fk_checks.
  rewrite !Forall_cons in *. simpl in *. destruct r; simpl. intros. destruct_and!. by split_and!.
Qed.

Definition deactivate_stmt (key_id : string) : Stmt unit := λ now d,
  Ok (tt, set_keys (alter (set_key_inactive now) key_id (db_keys d)) (db_key_serial d) d).

Lemma deactivate_keeps kid : stmt_keeps (deactivate_stmt kid).
Proof.
  intros now d [] d' Hwf [= <-]. apply set_keys_wf; [done| |].
  - intros kid'. by rewrite lookup_alter_is_Some.
  - intros kid' k. rewrite lookup_alter_Some. intros [(-> & k0 & Hk & ->)|[_ Hk]];
      by apply (wf_keys d Hwf) in Hk.
Qed.

Section key_facts.
Context `{X : Externals}.

Lemma respects_get_key (R : relation World) `{!PreOrder R, !Oblivious R} kid :
  respects R (get_key kid).
Proof. unfold get_key. solve_respects. Qed.

Lemma create_key_wf kid data alg desc : respects (keeps world_wf) (create_key kid data alg desc).
Proof. apply respects_wf_sql, insert_key_keeps. Qed.

Lemma deactivate_key_wf kid : respects (keeps world_wf) (deactivate_key kid).
Proof. apply respects_wf_sql, deactivate_keeps. Qed.

Lemma update_file_key_wf id kid : respects (keeps world_wf) (update_file_key id kid).
Proof. apply respects_wf_sql, set_row_key_keeps. Qed.

Lemma get_key_ok kid w :
  w_faults w = [] →
  get_key kid w = (ok_or (UNKNOWN_KEY kid)
                     (k ← db_keys (w_db w) !! kid; if key_active k then Some k else None), w).
Proof. intros Hf. unfold get_key. run. by rewrite select_ok. Qed.

(** The life of an encryption key.  A created key is found under its id
    with the data it was given; its id is taken from then on; deactivating it
    hides it from [get_key] (so what was encrypted under it can no longer be
    read) and leaves every other key and every row as it was. *)
Theorem key_lifecycle kid data alg desc w :
  w_faults w = [] →
  let '(r, w1) := create_key kid data alg desc w in
  match r with
  | Err _ => w1 = w
  | Ok key =>
    ek_key_data key = data ∧ ek_algorithm key = alg ∧ get_key kid w1 = (Ok key, w1) ∧
    (∀ data' desc', ∃ e, create_key kid data' alg desc' w1 = (Err e, w1)) ∧
    let w2 := (deactivate_key kid w1).2 in
    get_key kid w2 = (Err (UNKNOWN_KEY kid), w2) ∧
    db_files (w_db w2) = db_files (w_db w) ∧
    (∀ kid', kid' ≠ kid → get_key kid' w2 = ((get_key kid' w).1, w2))
  end.
Proof.
  intros Hf. unfold create_key. rewrite run_sql_ok by done. unfold insert_key at 1.
  destruct (negb (char_length kid <=? 64)) eqn:H1; [done|].
  destruct (negb (char_length alg <=? 50)) eqn:H2; [done|].
  destruct (db_keys (w_db w) !! kid) eqn:E; [done|].
  set (key := mkEncryptionKey _ _ _ _ _ _ _ _). set (w1 := set_db _ w).
  assert (w_faults w1 = []) as Hf1 by done.
  split; [done|]. split; [done|]. split; [|split; [|cbv zeta; split; [|split]]].
  - rewrite get_key_ok by done. simpl. by rewrite lookup_insert_eq.
  - intros data' desc'. rewrite run_sql_ok by done. unfold insert_key. rewrite H1, H2. simpl.
    rewrite lookup_insert_eq. eauto.
  - unfold deactivate_key. rewrite run_sql_ok by done. simpl. rewrite get_key_ok by done.
    simpl. by rewrite lookup_alter_eq, lookup_insert_eq.
  - unfold deactivate_key. by rewrite run_sql_ok by done.
  - intros kid' Hne. unfold deactivate_key. rewrite run_sql_ok by done. simpl.
    rewrite !get_key_ok by done. simpl. by rewrite lookup_alter_ne, lookup_insert_ne.
Qed.
End key_facts.

#[export] Hint Resolve respects_get_key create_key_wf deactivate_key_wf update_file_key_wf : respects.

Lemma key_lifecycle_witness :
  let '(r, w1) := create_key "k1" (replicate 32 Byte.x41) "aes-gcm" None (db_world empty_db) in
  is_ok r = true ∧ get_key "k1" (deactivate_key "k1" w1).2
                   = (Err (UNKNOWN_KEY "k1"), (deactivate_key "k1" w1).2).
Proof.
  pose proof (key_lifecycle "k1" (replicate 32 Byte.x41) "aes-gcm" None (db_world empty_db) eq_refl) as H.
  assert (is_ok (fst (create_key "k1" (replicate 32 Byte.x41) "aes-gcm" None (db_world empty_db))) = true)
    as E by (vm_compute; reflexivity).
  destruct (create_key _ _ _ _ _) as [[key|e] w1]; [|discriminate E].
  destruct H as (_ & _ & _ & _ & H & _). split; [reflexivity|exact H].
Defined.
