(* ===== verification/Performance.v ===== *)
(** * Hashing and atomic writes (performance_optimizations.rs)

    The two digests of an upload, and the write to a temporary file followed
    by a rename. *)

From S2P Require Import Prelude.
From S2P Require Import Errors.
From S2P Require Import Models.
From S2P Require Import FileSystem.
From S2P Require Import Config.
From S2P Require Import Externals.
From S2P Require Import World.

Section performance.
Context `{X : Externals}.

(** Both blocking tasks are joined; a task that panicked would leave the
    empty text, and hashing does not panic. *)
Definition compute_hashes_parallel (content : bytes) : string * string :=
  (blake3_hex content, md5_hex content).
End performance.

(** Create (or empty) the file, write everything, [sync_all]. *)
Definition write_file_optimized (path : string) (content : bytes) : IO IoError unit :=
  file ← fs_call (λ s, match fs_create s path with Ok (l, s') => (Ok l, s') | Err e => (Err e, s) end);
  _ ← fs_write_call file content;
  fs_call (fs_reading (λ _, Ok tt)).

Definition write_file_atomic_optimized (path : string) (content : bytes) : IO IoError unit :=
  let temp_path := with_extension path "tmp" in
  _ ← write_file_optimized temp_path content;
  fs_call (fs_changing (λ s, fs_rename s temp_path path)).

(** ** Lemmas *)

(** Only the file system (and the pending faults) differ. *)
Definition fs_only (w w' : World) : Prop :=
  w_db w' = w_db w ∧ w_cache w' = w_cache w ∧ w_now w' = w_now w.

#[export] Instance fs_only_preorder : PreOrder fs_only.
Proof. split; unfold fs_only; [done|]. intros x y z (?&?&?) (?&?&?). split_and!; congruence. Qed.
#[export] Instance fs_only_oblivious : Oblivious fs_only.
Proof. by split. Qed.

Lemma fs_only_call {A} (f : FS → result IoError A * FS) : respects fs_only (fs_call f).
Proof. apply (respects_fs_call _). by intros w. Qed.
Lemma fs_only_write l d : respects fs_only (fs_write_call l d).
Proof. apply (respects_fs_write_call _). by intros w d'. Qed.

Lemma fs_only_write_file path c : respects fs_only (write_file_atomic_optimized path c).
Proof.
  pose proof @fs_only_call. pose proof fs_only_write.
  unfold write_file_atomic_optimized, write_file_optimized. solve_respects.
Qed.

(** Nothing but the entry at place [l] changes, and no directory does. *)
Definition fs_at (l : place) (s s' : FS) : Prop :=
  dirs_kept s s' ∧ ∀ x, x ≠ l → node_at s' x = node_at s x.

(** Then a file there leads no path to a new place. *)
Lemma fs_at_resolve l s s' d p m :
  fs_at l s s' → node_at s' l = Some (NFile d) → resolve s' p = Ok m → resolve s p = Ok m.
Proof.
  intros [[Hc _] Ho] Hl. apply resolve_mono. split; [done|]. intros x Hx.
  rewrite <- Ho; [done|]. intros ->. congruence.
Qed.

#[export] Instance fs_at_preorder l : PreOrder (fs_at l).
Proof.
  split; unfold fs_at.
  - intros s. split; [reflexivity|done].
  - intros s1 s2 s3 [H1 H2] [H3 H4]. split; [by etrans|]. intros x Hx. by rewrite H4, H2.
Qed.

(** One file call, whatever fault is pending. *)
Lemma fs_call_cases {A} (f : FS → result IoError A * FS) w :
  let '(r, w') := fs_call f w in
  ((∃ e, r = Err e) ∧ w_fs w' = w_fs w) ∨ (r = (f (w_fs w)).1 ∧ w_fs w' = (f (w_fs w)).2).
Proof.
  unfold fs_call, next_fault. destruct (w_faults w) as [|[g|] fs]; simpl.
  - destruct (f _). by right.
  - left. eauto.
  - destruct (f _). by right.
Qed.

Lemma fs_write_call_cases l d w :
  let '(r, w') := fs_write_call l d w in
  ∃ d', w_fs w' = fs_write_handle (w_fs w) l d' ∧ (r = Ok tt → d' = d).
Proof.
  unfold fs_write_call, next_fault. destruct (w_faults w) as [|[g|] fs]; simpl; eauto.
  exists (take (fault_partial g) d). by split.
Qed.

(** The temporary file is written under its own place only; when the call
    succeeds it holds the whole content. *)
Lemma write_file_optimized_spec path c w :
  let '(r, w') := write_file_optimized path c w in
  (∀ l, resolve (w_fs w) path = Ok l → fs_at l (w_fs w) (w_fs w')) ∧
  (∀ e, resolve (w_fs w) path = Err e → w_fs w' = w_fs w) ∧
  (r = Ok tt → ∃ l, resolve (w_fs w) path = Ok l ∧ node_at (w_fs w') l = Some (NFile c)
                    ∧ wants_dir path = false).
Proof.
  unfold write_file_optimized. rewrite run_bind.
  set (create := λ s, _). pose proof (fs_call_cases create w) as Hc.
  destruct (fs_call create w) as [[l|e] w1].
  2:{ destruct Hc as [[_ ->]|[H1 H2]]; [split_and!; done || reflexivity|].
      unfold create in *. destruct (fs_create _ _) as [[? ?]|]; simpl in *; [done|].
      rewrite H2. split_and!; done || reflexivity. }
  destruct Hc as [[[? ?] _]|[H1 H2]]; [done|]. unfold create in *.
  destruct (fs_create (w_fs w) path) as [[l' s']|] eqn:Ec; simpl in *; [|done].
  injection H1 as <-. apply fs_create_Ok in Ec as (Hl & Hnd & Hl0 & Hwd & ->).
  assert (∀ d, fs_at l (w_fs w) (fs_write_handle (w_fs w1) l d)
               ∧ node_at (fs_write_handle (w_fs w1) l d) l = Some (NFile d)) as Hat.
  { intros d. rewrite H2. unfold fs_write_handle.
    split; [|by rewrite node_at_insert, decide_True].
    split; [etrans; apply dirs_kept_write_file; try done|].
    - rewrite node_at_insert by done. by rewrite decide_True.
    - intros x Hx. by rewrite !node_at_insert, !decide_False. }
  rewrite run_bind. pose proof (fs_write_call_cases l c w1) as Hwr.
  destruct (fs_write_call l c w1) as [[[]|e] w2]; destruct Hwr as (d' & Hd' & Hc').
  - rewrite (Hc' eq_refl) in Hd'.
    pose proof (fs_call_cases (fs_reading (λ _, Ok tt)) w2) as Hs.
    destruct (fs_call _ w2) as [r w3]. simpl in Hs.
    assert (w_fs w3 = w_fs w2) as -> by (by destruct Hs as [[_ ?]|[_ ?]]).
    rewrite Hd'. split_and!.
    + intros l2 Hl2. assert (l2 = l) as -> by congruence. exact (proj1 (Hat _)).
    + congruence.
    + intros _. exists l. split_and!; [done|exact (proj2 (Hat _))|done].
  - rewrite Hd'. split_and!; [|congruence|done]. intros l2 Hl2. assert (l2 = l) as -> by congruence. exact (proj1 (Hat _)).
Qed.

(** The whole write: a failure touches the temporary file at most, a success
    moves it over the file. *)
Definition write_failed (path : string) (s s' : FS) : Prop :=
  match resolve s (with_extension path "tmp") with
  | Ok l => fs_at l s s'
  | Err _ => s' = s
  end.

Definition write_done (path : string) (content : bytes) (s s' : FS) : Prop :=
  ∃ l m, resolve s (with_extension path "tmp") = Ok l ∧ resolve s path = Ok m ∧ m ≠ []
    ∧ wants_dir path = false ∧ dirs_kept s s' ∧ node_at s' m = Some (NFile content)
    ∧ (l ≠ m → node_at s' l = None) ∧ ∀ x, x ≠ l → x ≠ m → node_at s' x = node_at s x.

Lemma write_atomic_cases path content w :
  let '(r, w') := write_file_atomic_optimized path content w in
  ((∃ e, r = Err e) ∧ write_failed path (w_fs w) (w_fs w'))
  ∨ (r = Ok tt ∧ write_done path content (w_fs w) (w_fs w')).
Proof.
  unfold write_file_atomic_optimized, write_failed, write_done.
  set (temp := with_extension path "tmp").
  rewrite run_bind. pose proof (write_file_optimized_spec temp content w) as Hw.
  destruct (write_file_optimized temp content w) as [[[]|e] w1]; destruct Hw as (Hat & Hno & Hok).
  2:{ left. destruct (resolve (w_fs w) temp) as [l|e'] eqn:E; eauto. }
  destruct (Hok eq_refl) as (l & Hl & Hn & Hwd). specialize (Hat l Hl).
  pose proof Hat as [Hd Ho]. rewrite Hl.
  set (rename := fs_changing _). pose proof (fs_call_cases rename w1) as Hr.
  destruct (fs_call rename w1) as [r w2].
  unfold rename, fs_changing in Hr.
  destruct (fs_rename (w_fs w1) temp path) as [s'|e] eqn:E; simpl in Hr.
  2:{ left. destruct Hr as [[[e' ->] ->]|[-> ->]]; eauto. }
  destruct Hr as [[[e ->] ->]|[-> ->]]; [by eauto|]. right. split; [done|].
  pose proof (fs_rename_dirs_kept _ _ _ _ E) as Hd2.
  apply fs_rename_Ok in E as (l' & m & d & Hl' & Hm & Hnl & Hnm & Hm0 & Hw & ->).
  assert (l' = l) as -> by (apply (resolve_mono (w_fs w) (w_fs w1)) in Hl; [congruence|done]).
  assert (d = content) as -> by congruence.
  exists l, m. split_and!; [done|by eapply fs_at_resolve|done|done|by etrans| | |].
  - destruct m; [done|]. simpl. by rewrite lookup_insert_eq.
  - intros Hne. destruct l as [|a l]; [done|]. simpl. by rewrite lookup_insert_ne, lookup_delete_eq.
  - intros x Hxl Hxm. rewrite <- Ho by done. destruct x as [|a x]; [done|]. simpl.
    by rewrite lookup_insert_ne, lookup_delete_ne by congruence.
Qed.

Lemma write_done_read path content s s' :
  write_done path content s s' → fs_read s' path = Ok content.
Proof.
  intros (l & m & _ & Hm & _ & Hw & Hd & Hn & _). apply fs_read_Ok. exists m.
  split_and!; [by eapply resolve_mono|done..].
Qed.

(** ** Properties *)

(** C30: The write is atomic.  Whatever file call fails, and however much of the
    temporary file was written by then: no entry other than the file itself
    and its temporary file changes; the file holds its old bytes or the new
    ones, never a part; and when success is reported it reads back as the
    content. *)
Theorem write_file_atomic path content w :
  let '(r, w') := write_file_atomic_optimized path content w in
  (∀ x, resolve (w_fs w) (with_extension path "tmp") ≠ Ok x →
     node_at (w_fs w') x = node_at (w_fs w) x
     ∨ (resolve (w_fs w) path = Ok x ∧ node_at (w_fs w') x = Some (NFile content))) ∧
  (r = Ok tt → fs_read (w_fs w') path = Ok content).
Proof.
  pose proof (write_atomic_cases path content w) as H.
  destruct (write_file_atomic_optimized path content w) as [r w'].
  destruct H as [[[e ->] Hf]|[-> Hd]].
  - split; [|done]. intros x Hx. left. unfold write_failed in Hf.
    destruct (resolve _ _) as [l|e'] eqn:E; [|by rewrite Hf]. apply Hf. congruence.
  - split; [|intros _; by eapply write_done_read].
    destruct Hd as (l & m & Hl & Hm & _ & _ & _ & Hn & _ & Ho). intros x Hx.
    destruct (decide (x = m)) as [->|Hne]; [by right|]. left. apply Ho; congruence.
Qed.

(** The temporary file is the path with its extension replaced by "tmp",
    which may be a stored file of its own: after a successful write that file
    is gone. *)
Theorem write_destroys_tmp_sibling path sibling content w l :
  resolve (w_fs w) (with_extension path "tmp") = Ok l →
  resolve (w_fs w) sibling = Ok l → resolve (w_fs w) path ≠ Ok l →
  let '(r, w') := write_file_atomic_optimized path content w in
  r = Ok tt → fs_read (w_fs w') sibling = Err ENOENT.
Proof.
  intros Ht Hs Hp. pose proof (write_atomic_cases path content w) as H.
  destruct (write_file_atomic_optimized path content w) as [r w']. intros ->.
  destruct H as [[[e [=]] _]|[_ (l' & m & Hl & Hm & _ & _ & Hd & _ & Hno & _)]].
  assert (l' = l) as -> by congruence. assert (l ≠ m) as Hne by congruence.
  unfold fs_read. rewrite (resolve_mono _ _ _ _ Hd Hs). simpl. by rewrite Hno.
Qed.

(** A data directory with a bucket "b" holding "a.tmp". *)
Definition sample_fs : FS :=
  mkFS [] (<[["data"] := NDir]> (<[["b"; "data"] := NDir]>
    {[ ["a.tmp"; "b"; "data"] := NFile [Byte.x01; Byte.x02] ]})).

Definition fs_world (s : FS) (d : Db) : World :=
  mkWorld s d ∅ 100 (λ n, Byte.x00) 0 [].

Lemma write_destroys_tmp_sibling_witness :
  let w := fs_world sample_fs (mkDb ∅ ∅ ∅ 1 None) in
  fs_read (w_fs w) "/data/b/a.tmp" = Ok [Byte.x01; Byte.x02] ∧
  fs_read (w_fs (write_file_atomic_optimized "/data/b/a.txt" [Byte.x61] w).2) "/data/b/a.tmp"
  = Err ENOENT.
Proof.
  split; [vm_compute; reflexivity|].
  pose proof (write_destroys_tmp_sibling "/data/b/a.txt" "/data/b/a.tmp" [Byte.x61]
    (fs_world sample_fs (mkDb ∅ ∅ ∅ 1 None)) ["a.tmp"; "b"; "data"] ltac:(vm_compute; reflexivity)
    ltac:(vm_compute; reflexivity) ltac:(vm_compute; discriminate)) as H.
  assert (fst (write_file_atomic_optimized "/data/b/a.txt" [Byte.x61]
                 (fs_world sample_fs (mkDb ∅ ∅ ∅ 1 None))) = Ok tt) as E by (vm_compute; reflexivity).
  destruct (write_file_atomic_optimized _ _ _) as [r w']. exact (H E).
Defined.
