(* ===== verification/Storage.v ===== *)
(** * Storage (storage.rs)

    [StorageManager]: uploads with compression, encryption and deduplication,
    reads through the cache, ranges, expiry, reference-counted deletion,
    buckets. *)

From S2P Require Import Prelude.
From S2P Require Import Errors.
From S2P Require Import Models.
From S2P Require Import FileSystem.
From S2P Require Import Config.
From S2P Require Import Externals.
From S2P Require Import World.
From S2P Require Import Compression.
From S2P Require Import Crypto.
From S2P Require Import Database.
From S2P Require Import Cache.
From S2P Require Import EncryptionKeys.
From S2P Require Import Performance.

Record StoreOptions := mkStoreOptions {
  so_compress : option bool;
  so_encrypt : option bool;
  so_expires_at : option DateTime;
  so_compression_algorithm : option string;
  so_compression_level : option Z;
  so_encryption_key_id : option string;
  so_metadata : option JsonValue
}.

(** [StoreOptions::default()]. *)
Definition default_options : StoreOptions := mkStoreOptions None None None None None None None.

Record StorageManager := mkStorageManager {
  sm_config : Config;
  sm_base_path : string;
  sm_cache : CacheManager;
  sm_crypto : CryptoManager;
  sm_compression : CompressionConfig
}.

(** [a as f32 / b.max(1) as f32], as the exact quotient. *)
Definition size_ratio (a b : Z) : Q := a # Z.to_pos (Z.max b 1).

(** [key.split('/').last().unwrap_or(key)]. *)
Definition last_segment (key : string) : string := default key (last (split "/" key)).

Section storage.
Context `{X : Externals}.

Definition storage_new (config : Config) : M StorageManager :=
  let base_path := st_path (cfg_storage config) in
  _ ← map_err from_io_error (fs_call (fs_changing (λ s, fs_create_dir_all s base_path)));
  let cache := cache_new config in
  crypto ← crypto_new (cfg_crypto config);
  mret (mkStorageManager config base_path cache crypto (cfg_compression config)).

(** The compression manager is made from the settings uploads look at. *)
Definition as_built (self : StorageManager) : Prop :=
  sm_compression self = cfg_compression (sm_config self).

Definition get_file_path (self : StorageManager) (bucket key : string) : string :=
  path_join (path_join (sm_base_path self) bucket) key.

(** [Uuid::new_v4()]. *)
Definition new_v4 : M Uuid := b ← fill_bytes 16; mret (uuid_v4 b).

(** ** Buckets *)

Definition insert_bucket (bucket : string) : Stmt unit := λ now d,
  if negb (char_length bucket <=? 255) then Err (too_long "255")
  else match db_buckets d !! bucket with
       | Some _ => Ok (tt, d)
       | None => Ok (tt, set_buckets (<[bucket := mkBucketRow (Some true) now]> (db_buckets d)) d)
       end.

Definition create_bucket (self : StorageManager) (bucket : string) : M unit :=
  let bucket_path := path_join (sm_base_path self) bucket in
  _ ← map_err from_io_error (fs_call (fs_changing (λ s, fs_create_dir_all s bucket_path)));
  run_sql (insert_bucket bucket).

Definition ensure_bucket_exists (self : StorageManager) (bucket : string) : M unit :=
  exists_ ← run_sql (select (λ d, bool_decide (is_Some (db_buckets d !! bucket))));
  if negb exists_ then create_bucket self bucket else mret tt.

(** ** Upload *)

(** The row of an upload whose content is already stored: new identity, the
    bytes and how they were processed taken from the existing row. *)
Definition aliased_row (id : Uuid) (bucket key : string) (content_type : option string)
    (opts : StoreOptions) (hashes : string * string) (t : DateTime) (existing : StoredFile) :
    StoredFile := {|
  sf_id := id;
  sf_bucket := bucket;
  sf_key := key;
  sf_filename := last_segment key;
  sf_file_path := sf_file_path existing;
  sf_file_size := sf_file_size existing;
  sf_original_size := sf_original_size existing;
  sf_content_type := default (sf_content_type existing) content_type;
  sf_hash_blake3 := hashes.1;
  sf_hash_md5 := hashes.2;
  sf_metadata := so_metadata opts;
  sf_is_compressed := sf_is_compressed existing;
  sf_is_encrypted := sf_is_encrypted existing;
  sf_compression_algorithm := sf_compression_algorithm existing;
  sf_encryption_algorithm := sf_encryption_algorithm existing;
  sf_compression_ratio := sf_compression_ratio existing;
  sf_upload_time := Some t;
  sf_last_accessed := None;
  sf_access_count := 0;
  sf_encryption_key_id := sf_encryption_key_id existing;
  sf_compression_enabled := sf_compression_enabled existing;
  sf_encryption_enabled := sf_encryption_enabled existing;
  sf_compression_level := sf_compression_level existing;
  sf_cache_status := Some "not_cached";
  sf_last_cache_update := None;
  sf_cache_hits := Some 0;
  sf_cache_priority := Some 0;
  sf_expires_at := so_expires_at opts
|}.

(** The compressed form, kept only when it is smaller; a codec error keeps
    the content as it is. *)
Definition compress_step (self : StorageManager) (opts : StoreOptions) (content : bytes) :
    bytes * bool :=
  let config := cfg_compression (sm_config self) in
  let should_compress := default (co_enabled config) (so_compress opts) in
  if should_compress && (co_min_size config <=? zlen content) then
    let compressor := mkCompressionConfig true
      (default (co_algorithm config) (so_compression_algorithm opts))
      (default (co_level config) (so_compression_level opts)) (co_min_size config) in
    match compress compressor content with
    | Ok compressed => if zlen compressed <? zlen content then (compressed, true) else (content, false)
    | Err _ => (content, false)
    end
  else (content, false).

Definition should_encrypt (self : StorageManager) (opts : StoreOptions) : bool :=
  default (cr_enabled (cfg_crypto (sm_config self))) (so_encrypt opts).

Definition encrypt_step (self : StorageManager) (opts : StoreOptions) (content : bytes) : M bytes :=
  if should_encrypt self opts then
    algorithm ← lift (from_str (cr_algorithm (cfg_crypto (sm_config self))));
    match so_encryption_key_id opts with
    | Some key_id =>
      key ← get_key key_id;
      encrypt_with_key content algorithm (ek_key_data key)
    | None => encrypt (sm_crypto self) content algorithm
    end
  else mret content.

(** The row of an upload that was written to disk. *)
Definition stored_row (self : StorageManager) (id : Uuid) (bucket key : string)
    (content_type : option string) (opts : StoreOptions) (hashes : string * string)
    (original_size : Z) (compressed processed : bytes) (is_compressed : bool) (t : DateTime) :
    StoredFile :=
  let compression := cfg_compression (sm_config self) in
  let is_encrypted := should_encrypt self opts in {|
  sf_id := id;
  sf_bucket := bucket;
  sf_key := key;
  sf_filename := last_segment key;
  sf_file_path := get_file_path self bucket key;
  sf_file_size := zlen processed;
  sf_original_size := original_size;
  sf_content_type := default "application/octet-stream" content_type;
  sf_hash_blake3 := hashes.1;
  sf_hash_md5 := hashes.2;
  sf_metadata := so_metadata opts;
  sf_is_compressed := Some is_compressed;
  sf_is_encrypted := Some is_encrypted;
  sf_compression_algorithm :=
    if is_compressed then Some (default (co_algorithm compression) (so_compression_algorithm opts))
    else None;
  sf_encryption_algorithm :=
    if is_encrypted then Some (cr_algorithm (cfg_crypto (sm_config self))) else None;
  sf_compression_ratio :=
    if is_compressed then Some (size_ratio (zlen compressed) original_size) else None;
  sf_upload_time := Some t;
  sf_last_accessed := None;
  sf_access_count := 0;
  sf_encryption_key_id := so_encryption_key_id opts;
  sf_compression_enabled := Some (default (co_enabled compression) (so_compress opts));
  sf_encryption_enabled := Some is_encrypted;
  sf_compression_level := Some (default (co_level compression) (so_compression_level opts));
  sf_cache_status := Some "not_cached";
  sf_last_cache_update := None;
  sf_cache_hits := Some 0;
  sf_cache_priority := Some 0;
  sf_expires_at := so_expires_at opts
|}.

(** The path of new content: process, write, insert the row (removing the
    file again when that fails), warm the cache. *)
Definition store_new (self : StorageManager) (bucket key : string) (content : bytes)
    (content_type : option string) (opts : StoreOptions) (hashes : string * string) :
    M StoredFile :=
  let '(compressed, is_compressed) := compress_step self opts content in
  processed ← encrypt_step self opts compressed;
  let file_path := get_file_path self bucket key in
  _ ← (match parent_components file_path with
       | Some parent => map_err from_io_error (fs_call (fs_changing (λ s,
           fs_make_dirs s (start_place s file_path) parent)))
       | None => mret tt
       end);
  _ ← map_err from_io_error (write_file_atomic_optimized file_path processed);
  id ← new_v4;
  t ← now;
  let file := stored_row self id bucket key content_type opts hashes (zlen content)
                compressed processed is_compressed t in
  saved ← attempt (Database.save_file file);
  match saved with
  | Err e =>
    _ ← attempt (F:=StorageError) (fs_call (fs_changing (λ s, fs_remove_file s file_path)));
    throw e
  | Ok _ =>
    _ ← attempt (F:=StorageError) (set_file_metadata (sm_cache self) bucket key file);
    _ ← attempt (F:=StorageError) (set_file_content (sm_cache self) bucket key processed);
    mret file
  end.

Definition store_file (self : StorageManager) (bucket key : string) (content : bytes)
    (content_type : option string) (opts : StoreOptions) : M StoredFile :=
  _ ← ensure_bucket_exists self bucket;
  let hashes := compute_hashes_parallel content in
  existing ← (if st_enable_deduplication (cfg_storage (sm_config self))
              then get_file_by_hash hashes.1 else mret None);
  match existing with
  | Some existing_file =>
    if bool_decide (sf_bucket existing_file = bucket) && bool_decide (sf_key existing_file = key)
    then mret existing_file
    else
      id ← new_v4;
      t ← now;
      let aliased := aliased_row id bucket key content_type opts hashes t existing_file in
      _ ← Database.save_file aliased;
      mret aliased
  | None => store_new self bucket key content content_type opts hashes
  end.

(** ** Deletion *)

Definition other_references (file_path bucket key : string) (d : Db) : Z :=
  zlen (scan (λ f, bool_decide (sf_file_path f = file_path) && negb (at_key bucket key f)) d).

(** Remove the row in a transaction, unlink the bytes when no other row
    points at them, and forget the cached entries. *)
Definition delete_file (self : StorageManager) (bucket key : string) : M unit :=
  pr ← transaction (
    row ← run_sql (select (λ d, db_files d !! (bucket, key)));
    file ← lift (ok_or (NotFound bucket key) row);
    others ← run_sql (select (other_references (sf_file_path file) bucket key));
    _ ← run_sql (delete_rows (at_key bucket key));
    mret (sf_file_path file, others));
  let '(file_path, others) := pr in
  _ ← (if decide (others = 0) then
         r ← attempt (F:=StorageError) (fs_call (fs_changing (λ s, fs_remove_file s file_path)));
         mret tt
       else mret tt);
  _ ← attempt (F:=StorageError) (invalidate_file (sm_cache self) bucket key);
  mret tt.

(** ** Reading *)

Definition read_metadata (self : StorageManager) (bucket key : string) : M StoredFile :=
  cached ← attempt (F:=StorageError) (get_file_metadata (sm_cache self) bucket key);
  match cached with
  | Ok (Some file) => mret file
  | _ =>
    file ← Database.get_file bucket key;
    _ ← attempt (F:=StorageError) (set_file_metadata (sm_cache self) bucket key file);
    mret file
  end.

Definition expired (file : StoredFile) (t : DateTime) : bool :=
  match sf_expires_at file with Some e => e <=? t | None => false end.

(** The first half of [decode_content]. *)
Definition decrypt_content (self : StorageManager) (file : StoredFile) (content : bytes) : M bytes :=
  if flag (sf_is_encrypted file) then
    algorithm ← lift (row_algorithm file);
    match sf_encryption_key_id file with
    | Some key_id =>
      key ← get_key key_id;
      lift (decrypt_with_key content algorithm (ek_key_data key))
    | None => lift (decrypt (sm_crypto self) content algorithm)
    end
  else mret content.

Definition decode_content (self : StorageManager) (file : StoredFile) (content : bytes) : M bytes :=
  content ← decrypt_content self file content;
  if flag (sf_is_compressed file) then lift (decompress (sm_compression self) content)
  else mret content.

(** The test the code makes on the text of a read error. *)
Definition is_missing_file (msg : string) : bool :=
  contains_str "No such file or directory" msg || contains_str "os error 2" msg.

(** The stored bytes: from the cache, or from the recorded path; a missing
    file takes its row with it. *)
Definition read_content (self : StorageManager) (bucket key : string) (file : StoredFile) :
    M bytes :=
  cached ← attempt (F:=StorageError) (get_file_content (sm_cache self) bucket key);
  match cached with
  | Ok (Some content) => mret content
  | _ =>
    read ← attempt (fs_call (fs_reading (λ s, fs_read s (sf_file_path file))));
    match read with
    | Ok content =>
      _ ← attempt (F:=StorageError) (set_file_content (sm_cache self) bucket key content);
      mret content
    | Err e =>
      if is_missing_file (io_text e) then
        _ ← attempt (F:=StorageError) (delete_file self bucket key);
        throw (NotFound bucket key)
      else throw (Io (io_text e))
    end
  end.

(** [self.db.update_access(&file.id)], its error only logged. *)
Definition touch (file : StoredFile) : M unit :=
  _ ← attempt (F:=StorageError) (update_access (sf_id file)); mret tt.

Definition get_file (self : StorageManager) (bucket key : string) : M (bytes * option string) :=
  file ← read_metadata self bucket key;
  t ← now;
  if expired file t then
    _ ← attempt (F:=StorageError) (delete_file self bucket key);
    throw (NotFound bucket key)
  else
    raw_content ← read_content self bucket key file;
    content ← decode_content self file raw_content;
    _ ← touch file;
    mret (content, Some (sf_content_type file)).

(** [end.min(total.saturating_sub(1))], and the length of the span. *)
Definition clamp_end (end_ total : Z) : Z := Z.min end_ (saturating_sub total 1).

Definition io_msg (e : IoError) : StorageError := Io (io_text e).

(** Open, seek and [read_exact] of a span that is not empty. *)
Definition read_span (s : FS) (path : string) (start len : Z) : result IoError bytes :=
  data ← fs_read s path;
  if decide (start + len ≤ zlen data)
  then Ok (take (Z.to_nat len) (drop (Z.to_nat start) data))
  else Err UNEXPECTED_EOF.

(** [File::open] succeeds on a directory too; the read then fails. *)
Definition get_file_range_if_plain (self : StorageManager) (bucket key : string) (start end_ : Z) :
    M (option (bytes * string * Z)) :=
  file ← read_metadata self bucket key;
  if flag (sf_is_compressed file) || flag (sf_is_encrypted file) then mret None
  else
    let total := as_u64 (sf_file_size file) in
    let clamped_end := clamp_end end_ total in
    if bool_decide (total = 0) || (clamped_end <? start) then mret None
    else
      let len := clamped_end - start + 1 in
      buf ← map_err io_msg (fs_call (fs_reading (λ s, read_span s (sf_file_path file) start len)));
      _ ← touch file;
      mret (Some (buf, sf_content_type file, total)).

Definition get_compressed_file_range (self : StorageManager) (bucket key : string)
    (start end_ : Z) : M (option (bytes * string * Z)) :=
  file ← read_metadata self bucket key;
  if flag (sf_is_encrypted file) || negb (flag (sf_is_compressed file)) then mret None
  else
    let total := as_u64 (sf_original_size file) in
    let clamped_end := clamp_end end_ total in
    if bool_decide (total = 0) || (clamped_end <? start) then mret None
    else
      let want_len := clamped_end - start + 1 in
      compressed ← map_err from_io_error
        (fs_call (fs_reading (λ s, fs_read s (sf_file_path file))));
      decoded ← lift (decompress_range compressed (Z.to_nat start) (Z.to_nat want_len));
      match decoded with
      | None => mret None
      | Some buf =>
        _ ← touch file;
        mret (Some (buf, sf_content_type file, total))
      end.

Definition get_file_info (self : StorageManager) (bucket key : string) : M FileInfo :=
  file ← Database.get_file bucket key;
  t ← now;
  if expired file t then
    _ ← attempt (F:=StorageError) (delete_file self bucket key);
    throw (NotFound bucket key)
  else mret (file_info_from file).

Definition list_files (self : StorageManager) (bucket : string) (prefix : option string)
    (limit offset : option Z) : M (list FileInfo) :=
  files ← Database.list_files bucket prefix (default 100 limit) (default 0 offset);
  mret (file_info_from <$> files).

Definition search_files (self : StorageManager) (bucket : option string) (query : string)
    (limit : option Z) : M (list FileInfo) :=
  files ← Database.search_files (default EmptyString bucket) query (default 100 limit);
  mret (file_info_from <$> files).

(** ** Expiry *)

Definition sweep_expired_files (self : StorageManager) : M Z :=
  expired ← list_expired_files;
  for_each expired 0 (λ bk removed,
    r ← attempt (F:=StorageError) (delete_file self bk.1 bk.2);
    mret (match r with Ok _ => removed + 1 | Err _ => removed end)).

(** ** Buckets and statistics *)

(** [DELETE FROM buckets WHERE name = $1], with the cascade to [files]. *)
Definition delete_bucket_row (bucket : string) : Stmt Z := λ _ d,
  match db_buckets d !! bucket with
  | None => Ok (0, d)
  | Some _ =>
    Ok (1, set_buckets (delete bucket (db_buckets d))
             (set_files (filter (λ kv, sf_bucket kv.2 ≠ bucket) (db_files d)) d))
  end.

Definition path_references (file_path : string) (d : Db) : Z :=
  zlen (scan (λ f, bool_decide (sf_file_path f = file_path)) d).

(** What the deletion of a bucket does for each of its former rows. *)
Definition clean_file (self : StorageManager) (bucket : string) (file : StoredFile) : M unit :=
  count ← attempt (F:=StorageError) (run_sql (select (path_references (sf_file_path file))));
  let others := match count with Ok n => n | Err _ => 0 end in
  _ ← (if decide (others = 0) then
         r ← attempt (F:=StorageError)
           (fs_call (fs_changing (λ s, fs_remove_file s (sf_file_path file))));
         mret tt
       else mret tt);
  _ ← attempt (F:=StorageError) (invalidate_file (sm_cache self) bucket (sf_key file));
  mret tt.

Definition delete_bucket (self : StorageManager) (bucket : string) : M unit :=
  files ← run_sql (select (scan (λ f, bool_decide (sf_bucket f = bucket))));
  _ ← transaction (
    deleted_count ← run_sql (delete_bucket_row bucket);
    if decide (deleted_count = 0) then
      _ ← run_sql (select (λ _, tt));
      throw (InvalidBucket bucket)
    else mret tt);
  _ ← for_each files tt (λ file _, clean_file self bucket file);
  let bucket_path := path_join (sm_base_path self) bucket in
  _ ← attempt (F:=StorageError) (fs_call (λ s, fs_remove_dir_all s bucket_path));
  mret tt.

Definition get_bucket_stats (self : StorageManager) (bucket : string) : M StorageStats :=
  counts ← Database.get_bucket_stats bucket;
  files ← Database.list_files bucket None 1000 0;
  let compressed_files := zlen (filter (λ f, flag (sf_is_compressed f) = true) files) in
  let encrypted_files := zlen (filter (λ f, flag (sf_is_encrypted f) = true) files) in
  let avg_compression :=
    if 0 <? compressed_files
    then Some (sum_ratios files / (compressed_files # 1))%Q else None in
  t ← now;
  mret (mkStorageStats counts.1 counts.2 compressed_files encrypted_files avg_compression t).

Definition get_storage_stats : M StorageStats := get_total_stats.
Definition list_buckets : M (list string) := Database.list_buckets.
Definition list_buckets_with_created_at : M (list (string * DateTime)) :=
  Database.list_buckets_with_created_at.

Definition health_check (self : StorageManager) : M (bool * bool) :=
  db ← attempt (run_sql (select (λ _, tt)));
  redis_ok ← (if is_enabled (sm_cache self) then cache_health_check (sm_cache self) else mret true);
  mret (is_ok db, redis_ok).

Definition max_file_size (self : StorageManager) : Z := st_max_file_size (cfg_storage (sm_config self)).

(** ** Encryption keys *)

Definition create_encryption_key (algorithm : string) (description : option string) :
    M EncryptionKey :=
  algorithm ← lift (from_str algorithm);
  key_id ← generate_key_id;
  key_data ← fill_bytes 32;
  create_key key_id key_data (as_str algorithm) description.

Definition list_encryption_keys : M (list EncryptionKey) := list_keys.
Definition deactivate_encryption_key (key_id : string) : M unit := deactivate_key key_id.
End storage.
