(* ===== verification/Paths.v ===== *)
(** * The paths of stored files

    Where [get_file_path] puts the bytes of a key, and where the temporary file
    of a write goes: for ordinary bucket and key names different keys have
    different places, and no temporary file is the file of a key. *)

From S2P Require Import Prelude.
From S2P Require Import Errors.
From S2P Require Import Models.
From S2P Require Import FileSystem.
From S2P Require Import Config.
From S2P Require Import Externals.
From S2P Require Import World.
From S2P Require Import Compression.
From S2P Require Import Crypto.
From S2P Require Import Database.
From S2P Require Import Cache.
From S2P Require Import EncryptionKeys.
From S2P Require Import Performance.
From S2P Require Import Storage.

(** Ordinary names: no empty, "." or ".." segment, a bucket of one segment and
    without a colon, a key that does not end like a temporary file. *)
Definition ordinary_segment (c : string) : bool :=
  negb (is_noise c) && bool_decide (c ≠ "..").

Definition ordinary_bucket (b : string) : bool :=
  ordinary_segment b && negb (contains_char "/" b) && negb (contains_char ":" b).

Definition ordinary_key (k : string) : bool :=
  forallb ordinary_segment (split "/" k) && negb (ends_with k ".tmp").

(** ** Components *)

Lemma split_sep c s t : split c (s +:+ String c t) = split c s ++ split c t.
Proof.
  induction s as [|d s IH].
  - rewrite str_app_nil_l. simpl. by rewrite char_eqb_refl.
  - rewrite str_app_cons. simpl. char_case c d; [by rewrite IH|].
    rewrite IH. destruct (split c s) eqn:E; [by destruct (split_not_nil c s)|done].
Qed.

Lemma components_sep s t : components (s +:+ String "/" t) = components s ++ components t.
Proof. unfold components. by rewrite split_sep, filter_app. Qed.

Lemma starts_with_slash_app s t : s ≠ EmptyString → starts_with (s +:+ t) "/" = starts_with s "/".
Proof. destruct s as [|c s]; [done|]. intros _. rewrite str_app_cons. unfold starts_with.
  cbn [strip_prefix]. by destruct (char_eqb _ c). Qed.

Lemma components_join base p :
  starts_with p "/" = false → components (path_join base p) = components base ++ components p.
Proof.
  intros Hp. unfold path_join. rewrite Hp. case_decide; [by subst|].
  unfold ends_with. destruct (strip_suffix "/" base) as [base'|] eqn:Es.
  - apply strip_suffix_Some in Es as ->. rewrite str_app_assoc, str_app_cons, str_app_nil_l.
    rewrite !components_sep. by rewrite app_nil_r.
  - rewrite str_app_cons, str_app_nil_l. apply components_sep.
Qed.

Lemma start_place_join s base p :
  starts_with p "/" = false → start_place s (path_join base p) = start_place s base.
Proof.
  intros Hp. unfold path_join, start_place. rewrite Hp. case_decide; [by subst; rewrite Hp|].
  destruct (ends_with base "/"); by rewrite starts_with_slash_app.
Qed.

Lemma lexical_app cur l l' : lexical cur (l ++ l') = lexical (lexical cur l) l'.
Proof. revert cur. induction l as [|c l IH]; intros cur; simpl; [done|]. by case_decide. Qed.

Lemma lexical_plain cur l : Forall (λ c, c ≠ "..") l → lexical cur l = rev l ++ cur.
Proof.
  intros Hl. revert cur. induction Hl as [|c l Hc Hl IH]; intros cur; simpl; [done|].
  rewrite decide_False by done. rewrite IH, <- app_assoc. done.
Qed.

(** ** Ordinary names *)

Lemma ordinary_segments l :
  forallb ordinary_segment l = true →
  Forall (λ c, is_noise c = false) l ∧ Forall (λ c, c ≠ "..") l.
Proof.
  rewrite forallb_forall, !Forall_forall. intros H.
  split; intros c Hc%list_elem_of_In; specialize (H c Hc); unfold ordinary_segment in H;
    apply andb_true_iff in H as [H1 H2]; [by apply negb_true_iff|by apply bool_decide_eq_true in H2].
Qed.

Lemma filter_all {A} (P : A → Prop) `{!∀ x, Decision (P x)} l : Forall P l → filter P l = l.
Proof. induction 1; [done|]. by rewrite filter_cons, decide_True, IHForall. Qed.

Lemma no_leading_slash s : forallb ordinary_segment (split "/" s) = true → starts_with s "/" = false.
Proof.
  destruct s as [|c s]; [done|]. unfold starts_with. cbn [strip_prefix split].
  by destruct (char_eqb "/" c).
Qed.

Lemma ordinary_bucket_segments b :
  ordinary_bucket b = true → split "/" b = [b] ∧ forallb ordinary_segment [b] = true ∧
  contains_char ":" b = false.
Proof.
  unfold ordinary_bucket. rewrite !andb_true_iff, !negb_true_iff. intros [[H1 H2] H3].
  split_and!; [by apply split_no_char| |done]. simpl. by rewrite H1.
Qed.

Lemma ordinary_key_segments k :
  ordinary_key k = true → forallb ordinary_segment (split "/" k) = true ∧ ends_with k ".tmp" = false.
Proof. unfold ordinary_key. by rewrite andb_true_iff, negb_true_iff. Qed.

(** ** Where the bytes of a key are *)

Section places.
Context `{X : Externals} (self : StorageManager).

Lemma file_path_components b k :
  ordinary_bucket b = true → ordinary_key k = true →
  components (get_file_path self b k) = components (sm_base_path self) ++ b :: split "/" k.
Proof using Type.
  intros (Hb & Hbs & _)%ordinary_bucket_segments (Hk & _)%ordinary_key_segments.
  unfold get_file_path. rewrite !components_join; [|apply no_leading_slash; by rewrite ?Hb..|by apply no_leading_slash].
  unfold components. rewrite Hb, <- app_assoc. f_equal.
  rewrite !filter_all by (by apply ordinary_segments). done.
Qed.

(** The place of the base directory. *)
Definition base_place (s : FS) : place := place_of s (sm_base_path self).

Lemma file_place b k s :
  ordinary_bucket b = true → ordinary_key k = true →
  place_of s (get_file_path self b k) = rev (split "/" k) ++ b :: base_place s.
Proof using Type.
  intros Hb Hk. unfold place_of. rewrite file_path_components by done.
  apply ordinary_bucket_segments in Hb as (Hb & Hbs & _). apply ordinary_key_segments in Hk as (Hk & _).
  unfold get_file_path. rewrite !start_place_join;
    [|apply no_leading_slash; by rewrite ?Hb..|by apply no_leading_slash].
  rewrite lexical_app, lexical_plain; [|constructor; [|by apply ordinary_segments]].
  - simpl. by rewrite <- app_assoc.
  - apply ordinary_segments in Hbs as [_ Hbs]. by inversion Hbs.
Qed.

Lemma file_place_inj b k b' k' s :
  ordinary_bucket b = true → ordinary_key k = true →
  ordinary_bucket b' = true → ordinary_key k' = true →
  place_of s (get_file_path self b k) = place_of s (get_file_path self b' k') → b = b' ∧ k = k'.
Proof using Type.
  intros Hb Hk Hb' Hk'. rewrite !file_place by done. intros H.
  apply (f_equal (@rev string)) in H. rewrite !rev_app_distr, !rev_involutive in H. simpl in H.
  rewrite <- !app_assoc in H. apply app_inv_head in H. simpl in H. injection H as -> H.
  split; [done|]. by rewrite <- (join_split "/" k), <- (join_split "/" k'), H.
Qed.

(** The directory of a bucket. *)
Lemma bucket_components b s :
  ordinary_bucket b = true →
  components (path_join (sm_base_path self) b) = components (sm_base_path self) ++ [b] ∧
  start_place s (path_join (sm_base_path self) b) = start_place s (sm_base_path self).
Proof using Type.
  intros (Hb & Hs & _)%ordinary_bucket_segments.
  assert (starts_with b "/" = false) as Hn by (apply no_leading_slash; by rewrite Hb).
  rewrite components_join, start_place_join by done. split; [|done]. f_equal.
  unfold components. rewrite Hb. apply filter_all. by apply ordinary_segments.
Qed.

Lemma bucket_place b s :
  ordinary_bucket b = true → place_of s (path_join (sm_base_path self) b) = b :: base_place s.
Proof using Type.
  intros Hb. unfold base_place, place_of. destruct (bucket_components b s Hb) as [-> ->].
  rewrite lexical_app. apply ordinary_bucket_segments in Hb as (_ & Hs & _).
  apply ordinary_segments in Hs as [_ Hs]. apply Forall_inv in Hs. simpl. by rewrite decide_False.
Qed.

Lemma start_place_file b k s :
  ordinary_bucket b = true → ordinary_key k = true →
  start_place s (get_file_path self b k) = start_place s (sm_base_path self).
Proof using Type.
  intros Hb (Hk & _)%ordinary_key_segments. unfold get_file_path.
  rewrite start_place_join by (by apply no_leading_slash). by apply bucket_components.
Qed.

(** ** Where its temporary file is *)

Lemma file_stem_no_slash n : contains_char "/" n = false → contains_char "/" (file_stem n) = false.
Proof using Type.
  assert (∀ s t, before_last_dot s = Some t → contains_char "/" s = false → contains_char "/" t = false) as H.
  { induction s as [|c s IH]; intros t; simpl; [done|].
    destruct (before_last_dot s) as [u|].
    - intros [= <-]. simpl. rewrite !orb_false_iff. intros [? ?]. split; [done|]. by apply IH.
    - destruct (char_eqb c "."); [|done]. by intros [= <-]. }
  intros Hn. unfold file_stem. destruct (before_last_dot n) as [[|c s]|] eqn:E; [done| |done].
  by apply (H n).
Qed.

Lemma get_file_path_eq b k :
  ordinary_bucket b = true → ordinary_key k = true →
  ∃ base, get_file_path self b k = base +:+ String "/" k.
Proof using Type.
  intros Hb Hk. pose proof Hb as Hb'. unfold ordinary_bucket in Hb'.
  apply andb_true_iff in Hb' as [[Hs Hnb]%andb_true_iff _]. apply negb_true_iff in Hnb.
  apply ordinary_key_segments in Hk as [Hk _]. apply no_leading_slash in Hk.
  unfold get_file_path. unfold path_join at 1. rewrite Hk.
  set (p := path_join (sm_base_path self) b).
  assert (p ≠ EmptyString ∧ ends_with p "/" = false) as [Hp He].
  { assert (∃ q, p = q +:+ b ∧ b ≠ EmptyString) as (q & -> & Hne).
    { unfold p, path_join. assert (b ≠ EmptyString) by (by intros ->).
      destruct (starts_with b "/"); [by exists EmptyString|]. case_decide; [by exists EmptyString|].
      destruct (ends_with _ "/"); [by eexists|]. exists (sm_base_path self +:+ "/").
      by rewrite str_app_assoc. }
    split; [by destruct q; [rewrite str_app_nil_l|rewrite str_app_cons]|].
    unfold ends_with. destruct (strip_suffix "/" (q +:+ b)) as [r|] eqn:Er; [|done]. exfalso.
    apply strip_suffix_Some in Er. clear -Er Hnb Hne.
    revert q r Er. induction b as [|c b IH]; [done|]. intros q r Er.
    destruct b as [|c' b].
    - change (String c EmptyString) with (EmptyString +:+ String c EmptyString) in Er.
      rewrite str_app_nil_l in Er.
      assert (∀ x y, x +:+ String c EmptyString = y +:+ String "/" EmptyString → c = "/"%char) as Hl.
      { clear. induction x as [|a x IH]; intros [|d y]; rewrite ?str_app_nil_l, ?str_app_cons; intros H.
        - by injection H.
        - injection H as _ H. destruct y; rewrite ?str_app_nil_l, ?str_app_cons in H; done.
        - injection H as _ H. destruct x; rewrite ?str_app_nil_l, ?str_app_cons in H; done.
        - injection H as _ H. by eapply IH. }
      apply Hl in Er as ->. simpl in Hnb. done.
    - simpl in Hnb. apply orb_false_iff in Hnb as [_ Hnb].
      apply (IH Hnb ltac:(done) (q +:+ String c EmptyString) r).
      rewrite str_app_assoc, str_app_cons, str_app_nil_l. exact Er. }
  rewrite decide_False by done. rewrite He. exists p. by rewrite str_app_cons, str_app_nil_l.
Qed.

Lemma place_last s d n :
  contains_char "/" n = false → is_noise n = false → n ≠ ".." →
  place_of s (d +:+ String "/" n) = n :: lexical (start_place s (d +:+ "/")) (components d).
Proof using Type.
  intros Hs Hn Hd. unfold place_of. rewrite components_sep, lexical_app.
  assert (components n = [n]) as ->.
  { unfold components. rewrite split_no_char by done. by apply filter_all; constructor. }
  simpl. rewrite decide_False by done. do 2 f_equal. unfold start_place.
  destruct d as [|c d]; [done|]. by rewrite !starts_with_slash_app.
Qed.

(** Only the last component differs. *)
Lemma temp_path_eq b k :
  ordinary_bucket b = true → ordinary_key k = true →
  ∃ d n, get_file_path self b k = d +:+ String "/" n ∧
    with_extension (get_file_path self b k) "tmp" = d +:+ String "/" (file_stem n +:+ ".tmp") ∧
    contains_char "/" n = false ∧ is_noise n = false ∧ n ≠ "..".
Proof using Type.
  intros Hb Hk. destruct (get_file_path_eq b k Hb Hk) as [base Heq].
  apply ordinary_key_segments in Hk as [Hk _]. pose proof (ordinary_segments _ Hk) as [Hnoise Hdots].
  pose proof (split_pieces "/" k) as Hslash.
  destruct (split "/" k) as [|x0 l0] eqn:Ek using rev_ind; [by destruct (split_not_nil "/" k)|].
  clear IHl0. rename x0 into n, l0 into init.
  apply Forall_app in Hnoise as [_ Hn], Hdots as [_ Hd], Hslash as [_ Hsl].
  apply Forall_inv in Hn, Hd, Hsl. simpl in Hn, Hd, Hsl.
  set (dirs := split "/" base ++ init).
  assert (dirs ≠ []) as Hne.
  { unfold dirs. intros [H _]%app_nil. by destruct (split_not_nil "/" base). }
  assert (split "/" (get_file_path self b k) = dirs ++ [n]) as Hsp.
  { rewrite Heq, split_sep, Ek. unfold dirs. by rewrite app_assoc. }
  exists (join "/" dirs), n. split_and!; [|..]; try done.
  - rewrite <- (join_split "/" (get_file_path self b k)), Hsp, join_snoc by done. done.
  - unfold with_extension, rev_pieces. rewrite Hsp, rev_app_distr. simpl. rewrite Hn.
    rewrite decide_False by done. assert (rev dirs ≠ []) as Hrd.
    { intros H. apply Hne. by rewrite <- (rev_involutive dirs), H. }
    destruct (rev dirs) eqn:Er; [done|]. rewrite <- Er, rev_involutive. done.
Qed.

Lemma temp_name n :
  contains_char "/" n = false →
  contains_char "/" (file_stem n +:+ ".tmp") = false ∧ is_noise (file_stem n +:+ ".tmp") = false ∧
  file_stem n +:+ ".tmp" ≠ "..".
Proof using Type.
  intros Hsl. set (name := file_stem n +:+ ".tmp"). split_and!.
  - unfold name. by rewrite contains_char_app, file_stem_no_slash.
  - apply bool_decide_eq_false. intros H. unfold name in H.
    destruct H as [H|H]; apply (f_equal String.length) in H; rewrite length_str_app in H; simpl in H; lia.
  - intros H. apply (f_equal String.length) in H. unfold name in H. rewrite length_str_app in H. simpl in H. lia.
Qed.

(** It is in the same directory. *)
Lemma temp_place b k s :
  ordinary_bucket b = true → ordinary_key k = true →
  ∃ stem, place_of s (with_extension (get_file_path self b k) "tmp")
          = (stem +:+ ".tmp") :: tail (place_of s (get_file_path self b k)).
Proof using Type.
  intros Hb Hk. destruct (temp_path_eq b k Hb Hk) as (d & n & Hp & Ht & Hsl & Hn & Hd).
  exists (file_stem n). destruct (temp_name n Hsl) as (H1 & H2 & H3). by rewrite Ht, Hp, !place_last.
Qed.

Lemma temp_components b k :
  ordinary_bucket b = true → ordinary_key k = true →
  Forall (λ c, c ≠ "..") (components (get_file_path self b k)) →
  Forall (λ c, c ≠ "..") (components (with_extension (get_file_path self b k) "tmp")).
Proof using Type.
  intros Hb Hk. destruct (temp_path_eq b k Hb Hk) as (d & n & -> & -> & Hsl & _ & _).
  destruct (temp_name n Hsl) as (H1 & H2 & H3).
  rewrite !components_sep, !Forall_app. intros [Hd _]. split; [done|].
  unfold components. rewrite split_no_char by done. apply Forall_forall. intros c Hc.
  apply list_elem_of_filter in Hc as [_ Hc]. apply list_elem_of_singleton in Hc as ->. done.
Qed.

Lemma file_path_plain b k :
  Forall (λ c, c ≠ "..") (components (sm_base_path self)) →
  ordinary_bucket b = true → ordinary_key k = true →
  Forall (λ c, c ≠ "..") (components (get_file_path self b k)).
Proof using Type.
  intros Hbase Hb Hk. rewrite file_path_components by done. apply Forall_app. split; [done|]. constructor.
  - apply ordinary_bucket_segments in Hb as (_ & Hb & _). apply ordinary_segments in Hb as [_ Hb].
    by apply Forall_inv in Hb.
  - apply ordinary_key_segments in Hk as [Hk _]. by apply ordinary_segments in Hk as [_ Hk].
Qed.

(** The temporary file of a write is the file of no key. *)
Lemma temp_not_file b k b' k' s :
  ordinary_bucket b = true → ordinary_key k = true →
  ordinary_bucket b' = true → ordinary_key k' = true →
  place_of s (with_extension (get_file_path self b k) "tmp") ≠ place_of s (get_file_path self b' k').
Proof using Type.
  intros Hb Hk Hb' Hk'. destruct (temp_place b k s Hb Hk) as (stem & ->).
  rewrite (file_place b' k') by done. apply ordinary_key_segments in Hk' as [_ Hend].
  destruct (split "/" k') as [|n init] eqn:E using rev_ind; [by destruct (split_not_nil "/" k')|].
  clear IHinit. rewrite rev_app_distr. simpl. intros H. injection H as Hn _.
  apply not_true_iff_false in Hend. apply Hend. unfold ends_with.
  destruct (strip_suffix ".tmp" k') as [r|] eqn:Es; [done|]. exfalso.
  assert (∃ pre, k' = pre +:+ n) as [pre Hpre].
  { rewrite <- (join_split "/" k'), E. clear. induction init as [|x l IH].
    - by exists EmptyString.
    - destruct IH as [pre IH]. exists (x +:+ "/" +:+ pre).
      simpl app. rewrite join_cons by (by destruct l). rewrite IH. by rewrite !str_app_assoc. }
  rewrite <- Hn, <- str_app_assoc in Hpre.
  apply (proj2 (strip_suffix_Some _ _ _)) in Hpre. congruence.
Qed.
End places.
