(* ===== verification/StorageWf.v ===== *)
(** * Every storage operation keeps the tables consistent

    The invariant [db_wf] through every operation of [StorageManager],
    whatever calls fail on the way, and the reachable states of the service. *)

From S2P Require Import Prelude.
From S2P Require Import Errors.
From S2P Require Import Models.
From S2P Require Import FileSystem.
From S2P Require Import Config.
From S2P Require Import Externals.
From S2P Require Import World.
From S2P Require Import Compression.
From S2P Require Import Crypto.
From S2P Require Import Database.
From S2P Require Import Cache.
From S2P Require Import EncryptionKeys.
From S2P Require Import Performance.
From S2P Require Import Storage.

Lemma fs_only_wf w w' : fs_only w w' → keeps world_wf w w'.
Proof. intros (H & _). unfold keeps, world_wf. by rewrite H. Qed.

Lemma fs_only_keeps_wf {E A} (m : IO E A) : respects fs_only m → respects (keeps world_wf) m.
Proof. apply respects_weaken, fs_only_wf. Qed.

Lemma fs_call_wf {A} (f : FS → result IoError A * FS) : respects (keeps world_wf) (fs_call f).
Proof. apply fs_only_keeps_wf, fs_only_call. Qed.

Lemma write_atomic_wf path c : respects (keeps world_wf) (write_file_atomic_optimized path c).
Proof. apply fs_only_keeps_wf, fs_only_write_file. Qed.

Lemma transaction_wf {A} (body : M A) :
  respects (keeps world_wf) body → respects (keeps world_wf) (transaction body).
Proof.
  apply (respects_transaction _). intros w w' _ Hw. exact Hw.
Qed.

Lemma insert_bucket_keeps b : stmt_keeps (insert_bucket b).
Proof.
  intros now d [] d' [W1 W2 W3 W4 W5]. unfold insert_bucket. destruct (negb _); [done|].
  destruct (db_buckets d !! b) eqn:E; intros [= <-]; [by split|]. split; try done.
  intros k r Hr. pose proof (W2 k r Hr : first_error (row_checks r ++ fk_checks d r) = None) as W.
  rewrite first_error_None, Forall_app in W |- *. destruct W as [H1 H2]. split; [done|].
  unfold fk_checks in *. rewrite !Forall_cons in *. simpl in *. destruct_and!.
  split_and!; try done. rewrite bool_decide_eq_true in *.
  destruct (decide (sf_bucket r = b)) as [->|]; simplify_map_eq; eauto.
Qed.

Lemma delete_bucket_row_keeps b : stmt_keeps (delete_bucket_row b).
Proof.
  intros now d n d' [W1 W2 W3 W4 W5]. unfold delete_bucket_row.
  destruct (db_buckets d !! b); intros [= <- <-]; [|by split].
  assert (∀ k r, filter (λ kv, sf_bucket kv.2 ≠ b) (db_files d) !! k = Some r →
            db_files d !! k = Some r ∧ sf_bucket r ≠ b) as Hinv.
  { intros k r. by rewrite map_lookup_filter_Some. }
  split; [| | |intros b'|done].
  - intros k r [Hr _]%Hinv. by apply W1.
  - intros k r [Hr Hne]%Hinv. cbv beta. pose proof (W2 k r Hr : first_error (row_checks r ++ fk_checks d r) = None) as W.
    rewrite first_error_None, Forall_app in W |- *. destruct W as [H1 H2]. split; [done|].
    unfold fk_checks in *. rewrite !Forall_cons in *. simpl in *. destruct_and!.
    split_and!; try done. rewrite lookup_delete_ne by done. done.
  - intros k k' r r' [Hr _]%Hinv [Hr' _]%Hinv. by apply W3.
  - cbn [db_files set_buckets set_files]. destruct (decide (b' = b)) as [->|Hne].
    + unfold stats_ok. replace (bucket_rows b _) with (@nil StoredFile); [done|].
      unfold bucket_rows. symmetry.
      rewrite (map_eq (filter (λ kv, sf_bucket kv.2 = b) _) (∅ : FileTable)); [done|].
      intros k. rewrite lookup_empty. apply map_lookup_filter_None. right.
      by intros r [_ ?]%Hinv.
    + rewrite <- (W4 b'). apply stats_ok_ext. intros k r Hb. split; [by intros [? _]%Hinv|].
      intros Hr. apply map_lookup_filter_Some_2; [done|]. simpl. congruence.
Qed.

Section storage_wf.
Context `{X : Externals} (self : StorageManager).

#[local] Hint Resolve fs_call_wf write_atomic_wf save_file_wf update_access_wf : respects.
#[local] Hint Extern 2 (respects (keeps world_wf) _) =>
  (apply cache_only_keeps_wf; solve [eauto with respects]) : respects.
#[local] Hint Extern 2 (respects (keeps world_wf) (run_sql _)) =>
  (apply respects_wf_sql; solve [eauto with stmt]) : respects.
#[local] Hint Resolve insert_bucket_keeps delete_bucket_row_keeps : stmt.

Lemma create_bucket_wf b : respects (keeps world_wf) (create_bucket self b).
Proof. unfold create_bucket. solve_respects. Qed.
#[local] Hint Resolve create_bucket_wf get_file_by_hash_wf get_file_wf : respects.

Lemma store_file_wf b k c ct o : respects (keeps world_wf) (store_file self b k c ct o).
Proof.
  unfold store_file, store_new, ensure_bucket_exists, encrypt_step, new_v4. solve_respects.
Qed.

Lemma delete_file_wf b k : respects (keeps world_wf) (delete_file self b k).
Proof.
  unfold delete_file. apply (respects_bind _); [apply transaction_wf|]; solve_respects.
Qed.
#[local] Hint Resolve delete_file_wf : respects.

Lemma read_metadata_wf b k : respects (keeps world_wf) (read_metadata self b k).
Proof. unfold read_metadata. solve_respects. Qed.
Lemma touch_wf f : respects (keeps world_wf) (touch f).
Proof. unfold touch. solve_respects. Qed.
#[local] Hint Resolve read_metadata_wf touch_wf : respects.

Lemma storage_get_file_wf b k : respects (keeps world_wf) (get_file self b k).
Proof. unfold get_file, read_content, decode_content, decrypt_content. solve_respects. Qed.

Lemma ranges_wf b k s e :
  respects (keeps world_wf) (get_file_range_if_plain self b k s e)
  ∧ respects (keeps world_wf) (get_compressed_file_range self b k s e).
Proof. unfold get_file_range_if_plain, get_compressed_file_range. split; solve_respects. Qed.

Lemma get_file_info_wf b k : respects (keeps world_wf) (get_file_info self b k).
Proof. unfold get_file_info. solve_respects. Qed.

Lemma sweep_wf : respects (keeps world_wf) (sweep_expired_files self).
Proof.
  unfold sweep_expired_files, list_expired_files. apply (respects_bind _).
  - apply respects_wf_sql, stmt_keeps_reading. by intros now d a d' [= _ <-].
  - solve_respects.
Qed.

Lemma delete_bucket_wf b : respects (keeps world_wf) (delete_bucket self b).
Proof.
  unfold delete_bucket. apply (respects_bind _); [solve_respects|intros files].
  apply (respects_bind _); [apply transaction_wf; solve_respects|].
  unfold clean_file. solve_respects.
Qed.
End storage_wf.

(** ** The service as a transition system *)

(** A request or a background job. *)
Inductive event :=
| Upload (bucket key : string) (content : bytes) (content_type : option string) (opts : StoreOptions)
| Download (bucket key : string)
| DownloadRange (bucket key : string) (start end_ : Z)
| DownloadCompressedRange (bucket key : string) (start end_ : Z)
| Info (bucket key : string)
| Remove (bucket key : string)
| Sweep
| MakeBucket (bucket : string)
| DropBucket (bucket : string)
| Preload
| MakeKey (algorithm : string) (description : option string)
| DropKey (key_id : string).

Section steps.
Context `{X : Externals} (self : StorageManager).

Definition run_event (e : event) (w : World) : World :=
  match e with
  | Upload b k c ct o => (store_file self b k c ct o w).2
  | Download b k => (get_file self b k w).2
  | DownloadRange b k s e => (get_file_range_if_plain self b k s e w).2
  | DownloadCompressedRange b k s e => (get_compressed_file_range self b k s e w).2
  | Info b k => (get_file_info self b k w).2
  | Remove b k => (delete_file self b k w).2
  | Sweep => (sweep_expired_files self w).2
  | MakeBucket b => (create_bucket self b w).2
  | DropBucket b => (delete_bucket self b w).2
  | Preload => (preload_popular_files (sm_cache self) w).2
  | MakeKey a d => (create_encryption_key a d w).2
  | DropKey kid => (deactivate_encryption_key kid w).2
  end.

(** Between events time passes, cache entries are lost, other random bytes
    come up, and any pattern of failures may lie ahead. *)
Inductive step : relation World :=
| step_event e w : step w (run_event e w)
| step_environment w cache t entropy pos faults :
    cache ⊆ w_cache w → w_now w ≤ t →
    step w (mkWorld (w_fs w) (w_db w) cache t entropy pos faults).

Lemma create_encryption_key_wf a d : respects (keeps world_wf) (create_encryption_key a d).
Proof. unfold create_encryption_key, generate_key_id. solve_respects. Qed.

Lemma run_event_wf e w : world_wf w → world_wf (run_event e w).
Proof.
  destruct e; simpl.
  - apply (store_file_wf self).
  - apply (storage_get_file_wf self).
  - apply (proj1 (ranges_wf self _ _ _ _)).
  - apply (proj2 (ranges_wf self _ _ _ _)).
  - apply (get_file_info_wf self).
  - apply (delete_file_wf self).
  - apply (sweep_wf self).
  - apply (create_bucket_wf self).
  - apply (delete_bucket_wf self).
  - apply (preload_wf (sm_cache self)).
  - apply create_encryption_key_wf.
  - apply deactivate_key_wf.
Qed.

(** The tables stay consistent in every reachable state.  From tables
    that satisfy their constraints, any sequence of requests and background
    jobs, with any calls failing at any point and any entries lost from the
    cache, leads only to tables where every row is stored under its own
    bucket and key, satisfies the column constraints and the foreign keys
    (its bucket and its encryption key exist), ids are unique, and the
    statistics of every bucket are representable. *)
Theorem reachable_tables_consistent w w' :
  rtc step w w' → db_wf (w_db w) → db_wf (w_db w').
Proof.
  induction 1 as [w|w w1 w' Hs _ IH]; [done|]. intros Hwf. apply IH.
  destruct Hs as [e w|w cache t entropy pos faults _ _]; [by apply run_event_wf|done].
Qed.
End steps.

Definition sample_storage : StorageManager :=
  mkStorageManager (cache_config sample_cache) "/data" sample_cache
    (mkCryptoManager (mkCryptoConfig false "aes-gcm" None) None None)
    (cfg_compression (cache_config sample_cache)).

Lemma reachable_tables_consistent_witness :
  let X := Toy.ToyExternals in
  let w := db_world empty_db in
  let w' := run_event (X:=X) sample_storage (Upload "b" "k" [Byte.x61] None default_options) w in
  rtc (step (X:=X) sample_storage) w w' ∧ db_files (w_db w') !! ("b", "k") ≠ None ∧ db_wf (w_db w').
Proof.
  cbv zeta. set (w' := run_event _ _ _).
  assert (rtc (step (X:=Toy.ToyExternals) sample_storage) (db_world empty_db) w') as H
    by (apply rtc_once, step_event).
  split; [exact H|]. split; [vm_compute; discriminate|].
  exact (reachable_tables_consistent (X:=Toy.ToyExternals) sample_storage _ _ H empty_db_wf).
Defined.
