(* ===== verification/Deletion.v ===== *)
(** * Deletion, reference counts and expiry

    [delete_file] removes one row and unlinks its bytes only when no other row
    points at them; the expiry sweep is a sequence of such deletions. All of it
    is stated for any pattern of failing calls. *)

From S2P Require Import Prelude.
From S2P Require Import Errors.
From S2P Require Import Models.
From S2P Require Import FileSystem.
From S2P Require Import Config.
From S2P Require Import Externals.
From S2P Require Import World.
From S2P Require Import Compression.
From S2P Require Import Crypto.
From S2P Require Import Database.
From S2P Require Import Cache.
From S2P Require Import EncryptionKeys.
From S2P Require Import Performance.
From S2P Require Import Storage.
From S2P Require Import StorageWf.

(** ** Transactions *)

(** Only the tables (and the pending faults) differ. *)
Definition db_only (w w' : World) : Prop :=
  w_fs w' = w_fs w ∧ w_cache w' = w_cache w ∧ w_now w' = w_now w.

#[export] Instance db_only_preorder : PreOrder db_only.
Proof. split; unfold db_only; [done|]. intros x y z (?&?&?) (?&?&?). split_and!; congruence. Qed.
#[export] Instance db_only_oblivious : Oblivious db_only.
Proof. by split. Qed.

Lemma db_only_run_sql {A} (q : Stmt A) : respects db_only (run_sql q).
Proof. by apply (respects_run_sql _). Qed.

Lemma db_only_transaction {A} (body : M A) :
  respects db_only body → respects db_only (transaction body).
Proof. apply (respects_transaction _). by intros w w' (?&?&?). Qed.

(** A statement fails and leaves the tables, or is applied to them. *)
Lemma run_sql_cases {A} (q : Stmt A) w :
  match run_sql q w with
  | (Ok a, w') => q (w_now w) (w_db w) = Ok (a, w_db w')
  | (Err _, w') => w_db w' = w_db w
  end.
Proof.
  unfold run_sql, map_err, db_call, next_fault.
  destruct (w_faults w) as [|[g|] fs]; simpl; [|done|];
    by destruct (q (w_now w) (w_db w)) as [[a d]|].
Qed.

(** A transaction leaves the tables, or has run its body on them. *)
Lemma transaction_cases {A} (body : M A) w :
  match transaction body w with
  | (Ok a, w') => ∃ w1 w2, w_db w1 = w_db w ∧ w_now w1 = w_now w ∧ body w1 = (Ok a, w2) ∧ w_db w' = w_db w2
  | (Err _, w') => w_db w' = w_db w
  end.
Proof.
  unfold transaction. pose proof (run_sql_cases (select (λ _, tt)) w) as H1.
  pose proof (db_only_run_sql (select (λ _, tt)) w) as (_ & _ & Hn).
  destruct (run_sql _ w) as [[[]|e] w1]; [|done]. unfold select in H1. simpl in Hn.
  injection H1 as Hd. destruct (body w1) as [[a|e] w2] eqn:Eb; [|by simpl].
  pose proof (run_sql_cases (select (λ _, tt)) w2) as H2.
  destruct (run_sql _ w2) as [[[]|e] w3]; [|by simpl].
  unfold select in H2. injection H2 as Hd2. exists w1, w2. split_and!; congruence.
Qed.

Section deletion.
Context `{X : Externals} `{L : !ExternalsLaws X} (self : StorageManager).

Lemma delete_at_key d b k :
  db_wf d → filter (λ kv, at_key b k kv.2 = false) (db_files d) = delete (b, k) (db_files d).
Proof using Type.
  intros Hwf. apply map_eq. intros k'. apply option_eq. intros r.
  rewrite map_lookup_filter_Some, lookup_delete_Some. unfold at_key. simpl.
  rewrite bool_decide_eq_false. split.
  - intros [Hr Hne]. split; [|done]. intros <-. apply Hne. by apply (wf_keyed _ Hwf).
  - intros [Hne Hr]. split; [done|]. intros Heq. apply Hne.
    pose proof (wf_keyed _ Hwf _ _ Hr) as Hk. simpl in Hk. congruence.
Qed.

Lemma delete_rows_inv p now d n d' :
  delete_rows p now d = Ok (n, d') →
  d' = set_files (filter (λ kv, p kv.2 = false) (db_files d)) d.
Proof using Type. unfold delete_rows. case_bool_decide; [|done]. by intros [= _ <-]. Qed.

(** The transaction of [delete_file]. *)
Definition delete_row (bucket key : string) : M (string * Z) :=
  transaction (
    row ← run_sql (select (λ d, db_files d !! (bucket, key)));
    file ← lift (ok_or (NotFound bucket key) row);
    others ← run_sql (select (other_references (sf_file_path file) bucket key));
    _ ← run_sql (delete_rows (at_key bucket key));
    mret (sf_file_path file, others)).

Lemma delete_row_cases b k w :
  db_wf (w_db w) →
  db_only w (delete_row b k w).2 ∧
  match delete_row b k w with
  | (Ok (path, n), w') => ∃ r, db_files (w_db w) !! (b, k) = Some r ∧ path = sf_file_path r ∧
      n = other_references path b k (w_db w) ∧
      w_db w' = set_files (delete (b, k) (db_files (w_db w))) (w_db w)
  | (Err e, w') => w_db w' = w_db w
  end.
Proof using Type.
  intros Hwf. split.
  { apply db_only_transaction. pose proof @db_only_run_sql. solve_respects. }
  unfold delete_row. match goal with |- context [transaction ?m w] =>
    pose proof (transaction_cases m w) as H; destruct (transaction m w) as [[[p n]|e] w'] end;
    [|done].
  destruct H as (w1 & w2 & Hdb & Hnow & Hbody & ->). rewrite <- Hdb in *. clear Hdb Hnow.
  rewrite run_bind in Hbody.
  pose proof (run_sql_cases (select (λ d, db_files d !! (b, k))) w1) as H1.
  destruct (run_sql _ w1) as [[o|] w3]; [|done]. unfold select in H1. injection H1 as <- Hd3.
  run in Hbody. destruct (db_files (w_db w1) !! (b, k)) as [r|] eqn:Er; simpl in Hbody; [|done].
  exists r. rewrite run_bind in Hbody.
  pose proof (run_sql_cases (select (other_references (sf_file_path r) b k)) w3) as H2.
  destruct (run_sql _ w3) as [[m|] w4]; [|done]. unfold select in H2. injection H2 as <- Hd4.
  rewrite run_bind in Hbody.
  pose proof (run_sql_cases (delete_rows (at_key b k)) w4) as H3.
  destruct (run_sql _ w4) as [[m|] w5]; [|done]. apply delete_rows_inv in H3.
  run in Hbody. injection Hbody as <- <- <-.
  rewrite <- Hd4, <- Hd3, (delete_at_key _ _ _ Hwf) in H3. split_and!; try done.
  by rewrite Hd3.
Qed.

(** The rest of [delete_file], once the row is gone. *)
Definition unlink_and_invalidate (bucket key file_path : string) (others : Z) : M unit :=
  _ ← (if decide (others = 0) then
         r ← attempt (F:=StorageError) (fs_call (fs_changing (λ s, fs_remove_file s file_path)));
         mret tt
       else mret tt);
  _ ← attempt (F:=StorageError) (invalidate_file (sm_cache self) bucket key);
  mret tt.

Lemma delete_file_eq b k :
  delete_file self b k =
  (pr ← delete_row b k; let '(path, n) := pr in unlink_and_invalidate b k path n).
Proof using Type. done. Qed.

Definition rows_kept (w w' : World) : Prop := w_db w' = w_db w ∧ w_now w' = w_now w.

#[local] Instance rows_kept_preorder : PreOrder rows_kept.
Proof using Type. split; unfold rows_kept; [done|]. intros x y z (?&?) (?&?). split; congruence. Qed.

Lemma unlink_rows_kept b k path n : respects rows_kept (unlink_and_invalidate b k path n).
Proof using Type.
  assert (∀ E A (m : IO E A), respects fs_only m → respects rows_kept m) as Hf.
  { intros E A m. apply respects_weaken. by intros w w' (?&?&?). }
  assert (∀ E A (m : IO E A), respects cache_only m → respects rows_kept m) as Hc.
  { intros E A m. apply respects_weaken. by intros w w' (?&?&?). }
  pose proof (Hf _ _ _ (fs_only_call (fs_changing (λ s, fs_remove_file s path)))).
  pose proof (Hc _ _ _ (cache_only_invalidate_file (sm_cache self) b k)).
  unfold unlink_and_invalidate. solve_respects.
Qed.

(** Only the entry of the unlinked path can go, and only when it is the last
    reference. *)
Lemma unlink_frame b k path n w :
  fs_frame (λ x, n = 0 ∧ x = place_of (w_fs w) path) (w_fs w)
    (w_fs (unlink_and_invalidate b k path n w).2).
Proof using Type.
  unfold unlink_and_invalidate. rewrite run_bind.
  assert (∀ w1, w_fs (attempt (F:=StorageError) (invalidate_file (sm_cache self) b k) w1).2
                = w_fs w1) as Hinv.
  { intros w1. rewrite run_attempt. apply (cache_only_invalidate_file (sm_cache self) b k). }
  destruct (decide (n = 0)) as [->|Hn].
  - run. set (rm := fs_call _ w). pose proof (fs_call_cases (fs_changing (λ s, fs_remove_file s path)) w) as H.
    fold rm in H. destruct rm as [r w1]. simpl. specialize (Hinv w1).
    rewrite run_attempt in Hinv. simpl in Hinv. rewrite Hinv.
    destruct H as [[_ ->]|[_ ->]]; [reflexivity|]. unfold fs_changing.
    destruct (fs_remove_file (w_fs w) path) as [s'|] eqn:E; simpl; [|reflexivity].
    by apply (fs_remove_file_frame _ _ path).
  - run. specialize (Hinv w). rewrite run_attempt in Hinv. simpl in *. by rewrite Hinv.
Qed.

Lemma delete_file_rows b k w :
  db_wf (w_db w) →
  w_now (delete_file self b k w).2 = w_now w ∧
  (w_db (delete_file self b k w).2 = w_db w
   ∨ ∃ r, db_files (w_db w) !! (b, k) = Some r
     ∧ w_db (delete_file self b k w).2 = set_files (delete (b, k) (db_files (w_db w))) (w_db w)).
Proof using Type.
  intros Hwf. destruct (delete_row_cases b k w Hwf) as [(_ & _ & Hn) Hc].
  rewrite delete_file_eq, run_bind.
  destruct (delete_row b k w) as [[[path n]|e] w1]; simpl in *; [|by auto].
  destruct (unlink_rows_kept b k path n w1) as [-> ->]. split; [done|].
  destruct Hc as (r & Hr & _ & _ & Hd). right. eauto.
Qed.

(** Two rows name the same file only by the same path. *)
Definition paths_separate (w : World) : Prop :=
  ∀ k1 k2 r1 r2, db_files (w_db w) !! k1 = Some r1 → db_files (w_db w) !! k2 = Some r2 →
    place_of (w_fs w) (sf_file_path r1) = place_of (w_fs w) (sf_file_path r2) →
    sf_file_path r1 = sf_file_path r2.

(** Rows only disappear, and the bytes of those that stay can still be read. *)
Definition shrinks (w w' : World) : Prop :=
  db_wf (w_db w) → paths_separate w →
  db_wf (w_db w') ∧ db_files (w_db w') ⊆ db_files (w_db w) ∧ fs_cwd (w_fs w') = fs_cwd (w_fs w) ∧
  ∀ k r d, db_files (w_db w') !! k = Some r →
    fs_read (w_fs w) (sf_file_path r) = Ok d → fs_read (w_fs w') (sf_file_path r) = Ok d.

Lemma paths_separate_sub w w' :
  paths_separate w → db_files (w_db w') ⊆ db_files (w_db w) → fs_cwd (w_fs w') = fs_cwd (w_fs w) →
  paths_separate w'.
Proof using Type.
  intros Hs Hsub Hc k1 k2 r1 r2 H1 H2. rewrite !(place_of_cwd _ _ _ Hc).
  eapply Hs; by eapply lookup_weaken.
Qed.

#[local] Instance shrinks_preorder : PreOrder shrinks.
Proof using Type.
  split; unfold shrinks.
  - intros w Hwf Hs. by split_and!.
  - intros x y z Hxy Hyz Hwf Hs. destruct (Hxy Hwf Hs) as (Hwf' & Hsub & Hc & Hb).
    destruct (Hyz Hwf' (paths_separate_sub _ _ Hs Hsub Hc)) as (Hwf'' & Hsub' & Hc' & Hb').
    split_and!; [done|by etrans|congruence|].
    intros k r d Hr Hd. eapply Hb'; [done|]. eapply Hb; [|done]. by eapply lookup_weaken.
Qed.

#[local] Instance shrinks_oblivious : Oblivious shrinks.
Proof using Type. split; intros w ? Hwf Hs; by split_and!. Qed.

Lemma other_references_zero path b k d k' r :
  db_wf d → other_references path b k d = 0 →
  delete (b, k) (db_files d) !! k' = Some r → sf_file_path r ≠ path.
Proof.
  intros Hwf H0 [Hne Hr]%lookup_delete_Some Hp. unfold other_references, zlen in H0.
  assert (r ∈ scan (λ f, bool_decide (sf_file_path f = path) && negb (at_key b k f)) d) as Hin.
  { rewrite elem_of_scan. split; [|eauto]. rewrite bool_decide_eq_true_2 by done. simpl.
    unfold at_key. rewrite bool_decide_eq_false_2; [done|]. intros Heq.
    pose proof (wf_keyed _ Hwf _ _ Hr) as Hk. simpl in Hk. congruence. }
  destruct (scan _ d); [by inversion Hin|]. simpl in H0. lia.
Qed.

Lemma delete_file_shrinks b k : respects shrinks (delete_file self b k).
Proof.
  intros w Hwf Hs. pose proof (delete_file_wf self b k w Hwf) as Hwf'.
  split; [exact Hwf'|]. clear Hwf'.
  destruct (delete_row_cases b k w Hwf) as [(Hfs & _ & _) Hc].
  rewrite delete_file_eq, run_bind.
  destruct (delete_row b k w) as [[[path n]|e] w1]; simpl in *.
  2:{ by rewrite Hc, Hfs. }
  destruct Hc as (r0 & Hr0 & -> & -> & Hd).
  destruct (unlink_rows_kept b k (sf_file_path r0) (other_references (sf_file_path r0) b k (w_db w)) w1)
    as [Hd' _].
  pose proof (unlink_frame b k (sf_file_path r0) (other_references (sf_file_path r0) b k (w_db w)) w1)
    as Hfr. set (w' := (unlink_and_invalidate _ _ _ _ w1).2) in *.
  rewrite Hd', Hd. rewrite Hfs in Hfr. split_and!.
  - apply delete_subseteq.
  - apply Hfr.
  - intros k' r d Hr. apply (fs_read_in_frame _ _ _ _ _ Hfr). intros [H0 Hpl].
    pose proof (other_references_zero _ _ _ _ _ _ Hwf H0 Hr) as Hne. apply Hne.
    cbn [db_files set_files] in Hr. apply lookup_delete_Some in Hr as [_ Hr]. by eapply Hs.
Qed.

(** ** Without failures *)

Lemma transaction_ok {A} (body : M A) w :
  w_faults w = [] →
  (∀ a w2, body w = (Ok a, w2) → w_faults w2 = []) →
  transaction body w = match body w with
                       | (Ok a, w2) => (Ok a, w2)
                       | (Err e, w2) => (Err e, set_db (w_db w) w2)
                       end.
Proof using Type.
  intros Hf Hb. unfold transaction. rewrite select_ok by done.
  destruct (body w) as [[a|e] w2] eqn:E; [|done]. rewrite select_ok; [done|by eapply Hb].
Qed.

Definition delete_allowed (b k : string) (d : Db) : bool :=
  stats_ok b (delete (b, k) (db_files d)).

Lemma delete_rows_ok b k now d r :
  db_wf d → db_files d !! (b, k) = Some r →
  delete_rows (at_key b k) now d =
  if delete_allowed b k d then Ok (1, set_files (delete (b, k) (db_files d)) d)
  else Err (check_violation "valid_stats").
Proof using Type.
  intros Hwf Hr. unfold delete_rows, delete_allowed. rewrite delete_at_key by done.
  assert (∀ k' r', db_files d !! k' = Some r' → at_key b k r' = true ↔ k' = (b, k)) as Hat.
  { intros k' r' Hr'. unfold at_key. rewrite bool_decide_eq_true.
    by rewrite (wf_keyed _ Hwf _ _ Hr'). }
  pose proof (wf_keyed _ Hwf _ _ Hr) as Hk. simpl in Hk. injection Hk as Hb Hk.
  destruct (stats_ok b _) eqn:Hst.
  - rewrite bool_decide_eq_true_2.
    + do 2 f_equal. rewrite map_size_delete, Hr. simpl.
      assert (size (db_files d) ≠ 0%nat) by (eapply map_size_ne_0_lookup_2; eauto). lia.
    + intros k' r' Hr' Hp. apply (Hat _ _ Hr') in Hp as ->. assert (r' = r) as -> by congruence.
      by rewrite Hb.
  - rewrite bool_decide_eq_false_2; [done|]. intros Hall.
    specialize (Hall _ _ Hr). simpl in Hall. rewrite Hb, Hst in Hall.
    by discriminate Hall; apply (Hat _ _ Hr).
Qed.

Lemma delete_row_ok b k w :
  db_wf (w_db w) → w_faults w = [] →
  delete_row b k w =
  match db_files (w_db w) !! (b, k) with
  | None => (Err (NotFound b k), w)
  | Some r =>
    if delete_allowed b k (w_db w) then
      (Ok (sf_file_path r, other_references (sf_file_path r) b k (w_db w)),
       set_db (set_files (delete (b, k) (db_files (w_db w))) (w_db w)) w)
    else (Err (from_sqlx_error (check_violation "valid_stats")), w)
  end.
Proof using Type.
  intros Hwf Hf. unfold delete_row.
  set (body := run_sql _ ≫= _).
  assert (body w = match db_files (w_db w) !! (b, k) with
    | None => (Err (NotFound b k), w)
    | Some r =>
      if delete_allowed b k (w_db w) then
        (Ok (sf_file_path r, other_references (sf_file_path r) b k (w_db w)),
         set_db (set_files (delete (b, k) (db_files (w_db w))) (w_db w)) w)
      else (Err (from_sqlx_error (check_violation "valid_stats")), w)
    end) as Hbody.
  { unfold body. rewrite run_bind, select_ok by done. cbn beta iota. rewrite run_bind, run_lift.
    destruct (db_files (w_db w) !! (b, k)) as [r|] eqn:Er; simpl; [|done].
    rewrite run_bind, select_ok by done. cbn beta iota. rewrite run_bind, run_sql_ok by done.
    rewrite (delete_rows_ok _ _ _ _ r) by done. by destruct (delete_allowed _ _ _). }
  rewrite transaction_ok, Hbody; [|done|].
  - destruct (_ !! _) as [r|]; [destruct (delete_allowed _ _ _)|]; rewrite ?set_db_id; done.
  - intros a w2. rewrite Hbody. destruct (_ !! _) as [r|]; [destruct (delete_allowed _ _ _)|];
      try done. by intros [= _ <-].
Qed.

Definition unlinked (path : string) (others : Z) (s : FS) : FS :=
  if decide (others = 0) then match fs_remove_file s path with Ok s' => s' | Err _ => s end else s.

Lemma delete_file_ok b k w :
  db_wf (w_db w) → w_faults w = [] →
  delete_file self b k w =
  match db_files (w_db w) !! (b, k) with
  | None => (Err (NotFound b k), w)
  | Some r =>
    if delete_allowed b k (w_db w) then
      (Ok tt, set_cache (remove_keys [metadata_key b k; content_key b k] (w_cache w))
        (set_fs (unlinked (sf_file_path r) (other_references (sf_file_path r) b k (w_db w)) (w_fs w))
          (set_db (set_files (delete (b, k) (db_files (w_db w))) (w_db w)) w)))
    else (Err (from_sqlx_error (check_violation "valid_stats")), w)
  end.
Proof using Type.
  intros Hwf Hf. rewrite delete_file_eq, run_bind, delete_row_ok by done.
  destruct (db_files (w_db w) !! (b, k)) as [r|]; [|done].
  destruct (delete_allowed b k (w_db w)); [|done]. unfold unlink_and_invalidate, unlinked.
  set (w1 := set_db _ w). assert (w_faults w1 = []) as Hf1 by done.
  destruct (decide _); rewrite run_bind.
  - rewrite run_bind, run_attempt, fs_call_ok by done. unfold fs_changing. cbn beta iota.
    change (w_fs w1) with (w_fs w).
    destruct (fs_remove_file (w_fs w) _) as [s'|err]; simpl; rewrite run_bind, run_attempt;
      unfold invalidate_file; by rewrite backend_del_ok.
  - rewrite run_ret. rewrite run_bind, run_attempt. unfold invalidate_file.
    rewrite backend_del_ok by done. simpl. by destruct w.
Qed.

(** A read that finds no row anywhere. *)
Lemma get_file_absent b k w :
  w_faults w = [] → db_files (w_db w) !! (b, k) = None →
  w_cache w !! metadata_key b k = None →
  get_file self b k w = (Err (NotFound b k), w).
Proof.
  intros Hf Hd Hc. unfold get_file, read_metadata, Database.get_file.
  rewrite !run_bind, run_attempt, get_file_metadata_miss by done. cbn [fst snd].
  rewrite !run_bind, select_ok by done. cbn beta iota. by rewrite Hd.
Qed.

Lemma remove_file_unreadable s path d :
  fs_read (unlinked path 0 s) path ≠ Ok d.
Proof using Type.
  unfold unlinked. simpl. destruct (fs_remove_file s path) as [s'|e] eqn:E.
  - pose proof (fs_remove_file_dirs_kept _ _ _ E) as Hd.
    apply fs_remove_file_Ok in E as (l & d' & Hl & Hn & ->). intros (l' & Hl' & Hn' & _)%fs_read_Ok.
    apply (resolve_mono _ _ _ _ Hd) in Hl. assert (l' = l) as -> by congruence.
    destruct l; simpl in *; [done|]. by rewrite lookup_delete_eq in Hn'.
  - intros (l & Hl & Hn & Hw)%fs_read_Ok. unfold fs_remove_file in E.
    rewrite Hl in E. simpl in E. rewrite Hn, Hw in E. done.
Qed.

(** ** Properties *)

(** C14: Deletion never takes bytes another row needs.  Whatever calls fail,
    deleting a key changes no other row, and every row that is still there
    afterwards (aliases made by deduplication included) can still be read
    from disk if it could before.  (Assumed: rows with different paths have
    different files, which keys such as "a//b" and "a/b" of one bucket do not,
    and the tables are consistent.) *)
Theorem delete_file_keeps_others b k w :
  db_wf (w_db w) → paths_separate w →
  let w' := (delete_file self b k w).2 in
  (∀ b' k', (b', k') ≠ (b, k) → db_files (w_db w') !! (b', k') = db_files (w_db w) !! (b', k')) ∧
  (∀ key r d, db_files (w_db w') !! key = Some r →
     fs_read (w_fs w) (sf_file_path r) = Ok d → fs_read (w_fs w') (sf_file_path r) = Ok d).
Proof.
  intros Hwf Hs w'. destruct (delete_file_rows b k w Hwf) as [_ Hrows].
  destruct (delete_file_shrinks b k w Hwf Hs) as (_ & _ & _ & Hb). split; [|exact Hb].
  intros b' k' Hne. unfold w'. destruct Hrows as [->|(r & _ & ->)]; [done|].
  cbn [db_files set_files]. by rewrite lookup_delete_ne.
Qed.

(** What a deletion does when nothing fails.  Without a row it answers
    "not found" and changes nothing; with one (whose removal the statistics
    of the bucket allow) the key is gone from the tables and the cache, so a
    read answers "not found"; the bytes are unreadable exactly when no other
    row points at the path, and otherwise the disk is untouched. *)
Theorem delete_file_outcome b k w :
  db_wf (w_db w) → w_faults w = [] →
  let '(res, w') := delete_file self b k w in
  match db_files (w_db w) !! (b, k) with
  | None => res = Err (NotFound b k) ∧ w' = w
  | Some r =>
    if delete_allowed b k (w_db w) then
      res = Ok tt ∧ get_file self b k w' = (Err (NotFound b k), w') ∧
      (if decide (other_references (sf_file_path r) b k (w_db w) = 0)
       then ∀ d, fs_read (w_fs w') (sf_file_path r) ≠ Ok d
       else w_fs w' = w_fs w)
    else is_ok res = false ∧ w' = w
  end.
Proof.
  intros Hwf Hf. rewrite delete_file_ok by done.
  destruct (db_files (w_db w) !! (b, k)) as [r|]; [|done].
  destruct (delete_allowed b k (w_db w)); [|done]. split; [done|]. split.
  - apply get_file_absent; [done|..]; simpl; by rewrite lookup_delete_eq.
  - simpl. destruct (decide _) as [H0|H0].
    + rewrite H0. apply remove_file_unreadable.
    + unfold unlinked. by rewrite decide_False.
Qed.

(** Deletions of some keys leave the rows of the others. *)
Definition deletes_only (keys : list (string * string)) (w w' : World) : Prop :=
  db_wf (w_db w) → db_wf (w_db w') ∧ w_now w' = w_now w ∧
  ∀ k, k ∉ keys → db_files (w_db w') !! k = db_files (w_db w) !! k.

#[local] Instance deletes_only_preorder keys : PreOrder (deletes_only keys).
Proof using Type.
  split; unfold deletes_only; [done|]. intros x y z Hxy Hyz Hwf.
  destruct (Hxy Hwf) as (Hwf' & Hn & H1). destruct (Hyz Hwf') as (Hwf'' & Hn' & H2).
  split_and!; [done|congruence|]. intros k Hk. by rewrite H2, H1.
Qed.

Lemma delete_file_only keys b k :
  (b, k) ∈ keys → respects (deletes_only keys) (delete_file self b k).
Proof using Type.
  intros Hin w Hwf. split; [by apply (delete_file_wf self b k w)|].
  destruct (delete_file_rows b k w Hwf) as [Hn [Hd|(r & _ & Hd)]]; (split; [exact Hn|]);
    intros k' Hk'; rewrite Hd; [done|].
  cbn [db_files set_files]. rewrite lookup_delete_ne; [done|]. by intros <-.
Qed.

(** A loop whose body respects a relation for the elements of the list. *)
Lemma respects_for_each_in {A B} (R : relation World) `{!PreOrder R} (l l' : list A) (acc : B)
    (body : A → B → M B) :
  (∀ x b, x ∈ l → respects R (body x b)) → l' ⊆ l → respects R (for_each l' acc body).
Proof using Type.
  intros Hb. revert acc. induction l' as [|x l' IH]; intros acc Hsub; simpl.
  - apply (respects_ret _).
  - apply (respects_bind _).
    + apply Hb, Hsub. by left.
    + intros a. apply IH. intros y Hy. apply Hsub. by right.
Qed.

(** C25: The expiry sweep removes expired files and nothing else.  Whatever
    calls fail, a row without a time to live, or whose time has not come,
    is exactly as before, and every row left can be read if it could
    before.  (Assumed: rows with different paths have different files, which keys
    such as "a//b" and "a/b" of one bucket do not, and the tables are
    consistent.) *)
Theorem sweep_only_expired w :
  db_wf (w_db w) → paths_separate w →
  let w' := (sweep_expired_files self w).2 in
  (∀ k r, db_files (w_db w) !! k = Some r → is_expired (w_now w) r = false →
     db_files (w_db w') !! k = Some r) ∧
  (∀ k r d, db_files (w_db w') !! k = Some r →
     fs_read (w_fs w) (sf_file_path r) = Ok d → fs_read (w_fs w') (sf_file_path r) = Ok d).
Proof.
  intros Hwf Hs. unfold sweep_expired_files. rewrite run_bind. unfold list_expired_files.
  set (q := λ now d, _). pose proof (run_sql_cases q w) as Hq.
  pose proof (db_only_run_sql q w) as (Hfs & _ & Hnow).
  destruct (run_sql q w) as [[keys|e] w1]; simpl in *.
  2:{ rewrite Hq, Hfs. done. }
  injection Hq as <- Hd. set (loop := for_each _ _ _).
  assert (respects shrinks loop) as Hsh.
  { apply (respects_for_each _). intros bk n. apply (respects_bind _).
    - apply (respects_attempt _), delete_file_shrinks.
    - intros r. apply (respects_ret _). }
  assert (respects (deletes_only (file_key <$> scan (is_expired (w_now w)) (w_db w))) loop) as Hdel.
  { eapply (respects_for_each_in _); [|reflexivity]. intros [b k] n Hin. apply (respects_bind _).
    - apply (respects_attempt _). by apply delete_file_only.
    - intros r. apply (respects_ret _). }
  specialize (Hsh w1). specialize (Hdel w1). unfold shrinks, deletes_only, paths_separate in Hsh, Hdel.
  rewrite <- Hd, Hfs in Hsh. rewrite <- Hd in Hdel.
  destruct (Hsh Hwf Hs) as (_ & _ & _ & Hb). destruct (Hdel Hwf) as (_ & _ & Hk).
  split; [|exact Hb]. intros k r Hr Hexp. rewrite Hk; [done|].
  intros (r' & -> & [He [k' Hr']]%elem_of_scan)%list_elem_of_fmap.
  pose proof (wf_keyed _ Hwf _ _ Hr') as Hkey. simpl in Hkey. subst k'. congruence.
Qed.

Definition sweep_body (bk : string * string) (removed : Z) : M Z :=
  r ← attempt (F:=StorageError) (delete_file self bk.1 bk.2);
  mret (match r with Ok _ => removed + 1 | Err _ => removed end).

Lemma sweep_loop keys acc w :
  NoDup keys → db_wf (w_db w) → w_faults w = [] → no_inflation (db_files (w_db w)) →
  (∀ bk, bk ∈ keys → is_Some (db_files (w_db w) !! bk)) →
  ∃ w', for_each keys acc sweep_body w = (Ok (acc + zlen keys), w') ∧
    ∀ k, db_files (w_db w') !! k = if decide (k ∈ keys) then None else db_files (w_db w) !! k.
Proof using Type.
  revert acc w. induction keys as [|[b k] keys IH]; intros acc w Hnd Hwf Hf Hinf Hin.
  - exists w. simpl. rewrite zlen_nil, Z.add_0_r. by split.
  - apply NoDup_cons in Hnd as [Hnot Hnd]. destruct (Hin (b, k)) as [r Hr]; [by left|].
    set (body := sweep_body). cbn [for_each]. rewrite run_bind. unfold body at 1, sweep_body.
    rewrite run_bind, run_attempt, delete_file_ok by done. cbn [fst snd]. rewrite Hr.
    assert (delete_allowed b k (w_db w) = true) as Hal.
    { apply (stats_ok_shrink _ (db_files (w_db w))); [by apply file_size_nonneg|done| |].
      - apply (wf_stats _ Hwf).
      - apply delete_subseteq. }
    rewrite Hal. set (w1 := set_cache _ _). rewrite run_ret. cbn beta iota.
    assert (db_wf (w_db w1)) as Hwf1.
    { pose proof (delete_file_wf self b k w Hwf) as H. rewrite delete_file_ok in H by done.
      rewrite Hr, Hal in H. exact H. }
    destruct (IH (acc + 1) w1 Hnd Hwf1) as (w' & Hrun & Hk).
    { done. }
    { cbn [db_files set_files set_db w_db w1 set_cache set_fs].
      intros k' r' [_ Hr']%lookup_delete_Some. by apply (Hinf k'). }
    { intros bk Hbk. simpl. rewrite lookup_delete_ne; [apply Hin; by right|]. by intros <-. }
    exists w'. split.
    { unfold body. cbn [fst snd]. rewrite Hrun, zlen_cons. do 2 f_equal. lia. }
    intros k'. rewrite Hk. simpl. destruct (decide (k' = (b, k))) as [->|Hne].
    + rewrite lookup_delete_eq. rewrite (decide_True (P := (b, k) ∈ (b, k) :: keys)) by (by left).
      by destruct (decide _).
    + rewrite lookup_delete_ne by done. destruct (decide (k' ∈ keys)) as [Hk'|Hk'].
      * by rewrite decide_True by (by right).
      * rewrite decide_False; [done|]. by intros [?|?]%elem_of_cons.
Qed.

(** A sweep without failures. *)
Lemma sweep_run w :
  db_wf (w_db w) → w_faults w = [] → no_inflation (db_files (w_db w)) →
  let '(res, w') := sweep_expired_files self w in
  res = Ok (zlen (scan (is_expired (w_now w)) (w_db w))) ∧
  ∀ k r, db_files (w_db w') !! k = Some r ↔
    db_files (w_db w) !! k = Some r ∧ is_expired (w_now w) r = false.
Proof using L.
  intros Hwf Hf Hinf. unfold sweep_expired_files, list_expired_files. rewrite run_bind.
  rewrite run_sql_ok by done. rewrite set_db_id.
  set (rows := scan (is_expired (w_now w)) (w_db w)).
  assert (∀ r, r ∈ rows ↔ is_expired (w_now w) r = true
            ∧ db_files (w_db w) !! file_key r = Some r) as Hrows.
  { intros r. unfold rows. rewrite elem_of_scan. f_equiv. split; [|by eauto].
    intros [k Hk]. by rewrite (wf_keyed _ Hwf _ _ Hk). }
  destruct (sweep_loop (file_key <$> rows) 0 w) as (w' & Hrun & Hk); try done.
  - apply NoDup_fmap_2_strong; [|by apply scan_NoDup].
    intros r r' [_ Hr]%Hrows [_ Hr']%Hrows Heq. congruence.
  - intros bk (r & -> & [_ Hr]%Hrows)%list_elem_of_fmap. eauto.
  - unfold sweep_body in Hrun. rewrite Hrun. split.
    { unfold zlen. rewrite length_fmap. done. }
    intros k r. rewrite Hk. destruct (decide _) as [Hin|Hnot].
    + split; [done|]. intros [Hr He]. apply list_elem_of_fmap in Hin as (r' & -> & [He' Hr']%Hrows).
      congruence.
    + split; [|by intros [??]]. intros Hr. split; [done|].
      destruct (is_expired (w_now w) r) eqn:He; [|done]. exfalso. apply Hnot.
      apply list_elem_of_fmap. exists r. rewrite Hrows.
      pose proof (wf_keyed _ Hwf _ _ Hr) as Hkey. simpl in Hkey. by rewrite Hkey.
Qed.

(** The sweep is complete.  When nothing fails and no stored form is
    larger than its content, one sweep removes every expired file, counts
    each once, and leaves none behind. *)
Theorem sweep_complete w :
  db_wf (w_db w) → w_faults w = [] → no_inflation (db_files (w_db w)) →
  let '(res, w') := sweep_expired_files self w in
  res = Ok (zlen (scan (is_expired (w_now w)) (w_db w))) ∧
  ∀ k r, db_files (w_db w') !! k = Some r ↔
    db_files (w_db w) !! k = Some r ∧ is_expired (w_now w) r = false.
Proof. apply sweep_run. Qed.
End deletion.

(** ** A concrete state

    Bucket "b" holds "k" with a time to live of 50 and, by deduplication, the
    alias "k2" without one. *)

Definition paths_separate_b (w : World) : bool :=
  bool_decide (map_Forall (λ _ r1, map_Forall (λ _ r2,
    place_of (w_fs w) (sf_file_path r1) = place_of (w_fs w) (sf_file_path r2) →
    sf_file_path r1 = sf_file_path r2) (db_files (w_db w))) (db_files (w_db w))).

Lemma paths_separate_true w : paths_separate_b w = true → paths_separate w.
Proof.
  intros H k1 k2 r1 r2 H1 H2. apply bool_decide_eq_true in H. exact (H k1 r1 H1 k2 r2 H2).
Qed.

Definition with_ttl (t : DateTime) : StoreOptions := mkStoreOptions None None (Some t) None None None None.

Definition start_world : World :=
  mkWorld (mkFS [] ∅) empty_db ∅ 10 (λ n, default Byte.x00 (Byte.of_nat (n mod 251))) 0 [].

Definition first_world : World :=
  (store_file (X:=Toy.ToyExternals) sample_storage "b" "k" [Byte.x61; Byte.x62] None (with_ttl 50)
     start_world).2.

Definition second_world : World :=
  (store_file (X:=Toy.ToyExternals) sample_storage "b" "k2" [Byte.x61; Byte.x62] None default_options
     first_world).2.

Definition aliased_world : World := set_now 60 second_world.

Lemma set_now_wf t w : world_wf w → world_wf (set_now t w).
Proof. intros H. exact H. Qed.

Lemma aliased_world_wf : world_wf aliased_world.
Proof.
  assert (world_wf first_world) as H1.
  { exact (store_file_wf (X:=Toy.ToyExternals) sample_storage "b" "k" _ _ _ start_world empty_db_wf). }
  assert (world_wf second_world) as H2.
  { exact (store_file_wf (X:=Toy.ToyExternals) sample_storage "b" "k2" _ _ _ first_world H1). }
  exact (set_now_wf 60 second_world H2).
Qed.

Lemma aliased_world_separate : paths_separate aliased_world.
Proof. apply paths_separate_true. vm_compute. reflexivity. Qed.

Lemma aliased_world_quiet : w_faults aliased_world = [].
Proof. vm_compute. reflexivity. Qed.

Lemma aliased_world_sizes : no_inflation (db_files (w_db aliased_world)).
Proof.
  apply (bool_decide_eq_true_1 (no_inflation (db_files (w_db aliased_world)))).
  vm_compute. reflexivity.
Qed.

Lemma delete_file_keeps_others_witness :
  let w' := (delete_file (X:=Toy.ToyExternals) sample_storage "b" "k" aliased_world).2 in
  db_files (w_db w') !! ("b", "k") = None ∧
  ∃ r, db_files (w_db w') !! ("b", "k2") = Some r ∧ sf_file_path r = "/data/b/k" ∧
       fs_read (w_fs w') "/data/b/k" = Ok [Byte.x61; Byte.x62].
Proof.
  destruct (delete_file_keeps_others (X:=Toy.ToyExternals) sample_storage "b" "k" aliased_world
              aliased_world_wf aliased_world_separate) as [_ H].
  cbv zeta in *. split; [vm_compute; reflexivity|].
  destruct (db_files (w_db (delete_file (X:=Toy.ToyExternals) sample_storage "b" "k" aliased_world).2)
              !! ("b", "k2")) as [r|] eqn:E; [|vm_compute in E; discriminate E].
  exists r. assert (sf_file_path r = "/data/b/k") as Hp.
  { vm_compute in E. injection E as <-. reflexivity. }
  split; [reflexivity|]. split; [exact Hp|]. rewrite <- Hp. apply (H _ _ _ E).
  rewrite Hp. vm_compute. reflexivity.
Defined.

Lemma delete_file_outcome_witness :
  let '(res, w') := delete_file (X:=Toy.ToyExternals) sample_storage "b" "k" aliased_world in
  res = Ok tt ∧ w_fs w' = w_fs aliased_world.
Proof.
  pose proof (delete_file_outcome (X:=Toy.ToyExternals) sample_storage "b" "k" aliased_world
                aliased_world_wf aliased_world_quiet) as H.
  destruct (delete_file _ _ _ _) as [res w'].
  destruct (db_files (w_db aliased_world) !! ("b", "k")) as [r|] eqn:E;
    [|vm_compute in E; discriminate E].
  assert (delete_allowed "b" "k" (w_db aliased_world) = true) as Ha by (vm_compute; reflexivity).
  rewrite Ha in H. destruct H as (H1 & _ & H2). split; [exact H1|].
  destruct (decide _) as [H0|_]; [|exact H2].
  vm_compute in E. injection E as <-. vm_compute in H0. discriminate H0.
Defined.

Lemma sweep_only_expired_witness :
  let w' := (sweep_expired_files (X:=Toy.ToyExternals) sample_storage aliased_world).2 in
  ∃ r, db_files (w_db w') !! ("b", "k2") = Some r ∧ sf_expires_at r = None.
Proof.
  destruct (sweep_only_expired (X:=Toy.ToyExternals) sample_storage aliased_world
              aliased_world_wf aliased_world_separate) as [H _].
  cbv zeta in *. destruct (db_files (w_db aliased_world) !! ("b", "k2")) as [r|] eqn:E;
    [|vm_compute in E; discriminate E].
  assert (sf_expires_at r = None) as Hn by (vm_compute in E; injection E as <-; reflexivity).
  exists r. split; [|exact Hn]. apply H; [exact E|]. unfold is_expired. rewrite Hn. reflexivity.
Defined.

Lemma sweep_complete_witness :
  let '(res, w') := sweep_expired_files (X:=Toy.ToyExternals) sample_storage aliased_world in
  res = Ok 1 ∧ db_files (w_db w') !! ("b", "k") = None.
Proof.
  pose proof (sweep_complete (X:=Toy.ToyExternals) sample_storage aliased_world aliased_world_wf
    aliased_world_quiet aliased_world_sizes) as H.
  destruct (sweep_expired_files _ _) as [res w']. destruct H as [-> H].
  split; [vm_compute; reflexivity|].
  destruct (db_files (w_db w') !! ("b", "k")) as [r|] eqn:E; [|reflexivity].
  apply H in E as [E He]. vm_compute in E. injection E as <-. vm_compute in He. discriminate He.
Defined.
