(* ===== verification/Upload.v ===== *)
(** * Uploads and downloads

    What [store_file] stored, [get_file] and the range reads give back: from
    the cache, from the disk after the cache lost its entries, and under the
    alias a deduplicated upload makes. *)

From S2P Require Import Prelude.
From S2P Require Import Errors.
From S2P Require Import Models.
From S2P Require Import FileSystem.
From S2P Require Import Config.
From S2P Require Import Externals.
From S2P Require Import World.
From S2P Require Import Compression.
From S2P Require Import Crypto.
From S2P Require Import Database.
From S2P Require Import Cache.
From S2P Require Import EncryptionKeys.
From S2P Require Import Performance.
From S2P Require Import Storage.
From S2P Require Import StorageWf.
From S2P Require Import Deletion.

(** ** Steps that only draw random bytes *)

Definition quiet (w w' : World) : Prop := w_faults w = [] → ∃ n, w' = set_entropy_pos n w.

#[export] Instance quiet_preorder : PreOrder quiet.
Proof.
  split; unfold quiet.
  - intros w _. exists (w_entropy_pos w). by destruct w.
  - intros x y z Hxy Hyz Hf. destruct (Hxy Hf) as [n ->]. destruct (Hyz Hf) as [m ->]. by exists m.
Qed.

Lemma quiet_fill_bytes {E} n : respects quiet (fill_bytes (E:=E) n).
Proof. intros w _. eexists. done. Qed.

Lemma quiet_get_key kid : respects quiet (get_key kid).
Proof. intros w Hf. rewrite get_key_ok by done. exists (w_entropy_pos w). by destruct w. Qed.

Section upload.
Context `{X : Externals, !ExternalsLaws X} (self : StorageManager).
Context (Hcw : cache_writable (sm_cache self)).

#[local] Hint Resolve quiet_fill_bytes quiet_get_key : respects.

Lemma quiet_encrypt_step opts c : respects quiet (encrypt_step self opts c).
Proof using Type.
  unfold encrypt_step, encrypt_with_key, encrypt, encrypt_aes, encrypt_chacha. solve_respects.
Qed.

(** ** Coding *)

Lemma compress_step_inv opts content compressed is_c :
  compress_step self opts content = (compressed, is_c) →
  if is_c : bool
  then zlen compressed < zlen content ∧
       ∀ m, co_enabled m = true → decompress m compressed = Ok content
  else compressed = content.
Proof using ExternalsLaws0.
  unfold compress_step. set (cp := mkCompressionConfig _ _ _ _).
  destruct (_ && _) eqn:Hc; [|by intros [= <- <-]].
  destruct (compress cp content) as [out|] eqn:Ho; [|by intros [= <- <-]].
  destruct (Z.ltb_spec (zlen out) (zlen content)) as [Hlt|]; intros [= <- <-]; [|done].
  split; [done|]. intros m Hm. apply andb_true_iff in Hc as [_ Hmin]. apply Z.leb_le in Hmin.
  eapply (decompress_compress cp); [|done|done]. split_and!; [done|done|].
  intros ->. rewrite zlen_nil in Hlt. pose proof (zlen_nonneg out). lia.
Qed.

(** The columns of a row that say how its bytes are coded. *)
Definition same_coding (r r' : StoredFile) : Prop :=
  sf_is_compressed r' = sf_is_compressed r ∧ sf_is_encrypted r' = sf_is_encrypted r ∧
  sf_encryption_algorithm r' = sf_encryption_algorithm r ∧
  sf_encryption_key_id r' = sf_encryption_key_id r.

Lemma decode_same_coding r r' c w :
  same_coding r r' → decode_content self r' c w = decode_content self r c w.
Proof using Type.
  intros (H1 & H2 & H3 & H4). unfold decode_content, decrypt_content, row_algorithm. by rewrite H1, H2, H3, H4.
Qed.

Lemma decode_stored opts content compressed is_c processed id b k ct hashes n t w w' w2 :
  compress_step self opts content = (compressed, is_c) →
  w_faults w = [] → encrypt_step self opts compressed w = (Ok processed, w') →
  (is_c = true → co_enabled (sm_compression self) = true) →
  w_faults w2 = [] → db_keys (w_db w2) = db_keys (w_db w) →
  decode_content self
    (stored_row self id b k ct opts hashes n compressed processed is_c t) processed w2
  = (Ok content, w2).
Proof using All.
  intros Hc Hf He Hen Hf2 Hkeys. pose proof (compress_step_inv _ _ _ _ Hc) as Hinv.
  set (row := stored_row _ _ _ _ _ _ _ _ _ _ _ _). unfold decode_content.
  assert (decrypt_content self row processed w2 = (Ok compressed, w2)) as Hdec.
  { unfold decrypt_content, row_algorithm, flag. subst row.
    cbn [stored_row sf_is_encrypted sf_encryption_algorithm sf_encryption_key_id].
    unfold encrypt_step in He. destruct (should_encrypt self opts); cbn beta iota delta [from_option Datatypes.id].
    - rewrite run_bind, run_lift in He |- *.
      destruct (from_str _) as [a|]; [|done].
      destruct (so_encryption_key_id opts) as [kid|].
      + run in He. run. rewrite get_key_ok in He by done. rewrite get_key_ok by done.
        rewrite Hkeys. destruct (ok_or _ _) as [key|]; [|done]. cbn beta iota in *.
        rewrite run_lift. by rewrite (decrypt_encrypt_with_key _ _ _ _ _ _ He).
      + rewrite run_lift. by rewrite (decrypt_encrypt _ _ _ _ _ _ He).
    - by injection He as <- _. }
  rewrite run_bind, Hdec. cbn beta iota. destruct is_c; simpl in *.
  - rewrite run_lift. by rewrite (proj2 Hinv) by auto.
  - by subst.
Qed.

(** ** The new-content path *)

Lemma cache_attempt_ok (m : M unit) w :
  w_faults w = [] → (∃ c, m w = (Ok tt, set_cache c w)) →
  ∃ c, attempt (F:=StorageError) m w = (Ok (Ok tt), set_cache c w).
Proof using Type. intros _ [c Hc]. exists c. by rewrite run_attempt, Hc. Qed.

Definition cached_content (b k : string) (content : bytes) (c : gmap string bytes) :
    gmap string bytes :=
  if decide (zlen content > MAX_CACHE_SIZE) then c else <[content_key b k := content]> c.

Lemma set_file_content_cached b k c w :
  w_faults w = [] →
  set_file_content (sm_cache self) b k c w = (Ok tt, set_cache (cached_content b k c (w_cache w)) w).
Proof using Hcw.
  intros Hf. unfold cached_content. case_decide.
  - unfold set_file_content. rewrite decide_True by done. by rewrite set_cache_id.
  - apply set_file_content_ok; [done..|lia].
Qed.

(** What a successful upload of new content left behind: the compressed
    form, the bytes written, the row's id and its serialised form. *)
Record stored_new (b k : string) (content : bytes) (ct : option string) (opts : StoreOptions)
    (hashes : string * string) (w : World) (compressed : bytes) (is_c : bool) (processed : bytes)
    (id : Uuid) (ser : bytes) (file : StoredFile) (w' : World) : Prop := {
  sn_compress : compress_step self opts content = (compressed, is_c);
  sn_encrypt : ∃ wE, encrypt_step self opts compressed w = (Ok processed, wE);
  sn_file : file = stored_row self id b k ct opts hashes (zlen content) compressed
                     processed is_c (w_now w);
  sn_json : json_to_vec file = Ok ser;
  sn_read : fs_read (w_fs w') (get_file_path self b k) = Ok processed;
  sn_db : w_db w' = after_save file (w_db w);
  sn_cache : w_cache w' = cached_content b k processed (<[metadata_key b k := ser]> (w_cache w));
  sn_now : w_now w' = w_now w;
  sn_faults : w_faults w' = []
}.

Lemma fs_call_quiet {A} (f : FS → result IoError A * FS) w :
  w_faults w = [] → ∃ s, fs_call f w = ((f (w_fs w)).1, set_fs s w).
Proof using Type. intros Hf. eexists. by rewrite fs_call_ok. Qed.

Lemma write_atomic_quiet path c w r w' :
  write_file_atomic_optimized path c w = (r, w') → w_faults w = [] → w_faults w' = [].
Proof using Type.
  intros E Hf. assert (respects calm (write_file_atomic_optimized path c)) as H.
  { unfold write_file_atomic_optimized, write_file_optimized. solve_respects. }
  specialize (H w Hf). by rewrite E in H.
Qed.

Lemma store_new_inv b k content ct opts hashes w file w' :
  w_faults w = [] → store_new self b k content ct opts hashes w = (Ok file, w') →
  ∃ compressed is_c processed id ser,
    stored_new b k content ct opts hashes w compressed is_c processed id ser file w'.
Proof using All.
  intros Hf. unfold store_new. destruct (compress_step self opts content) as [compressed is_c] eqn:Hc.
  rewrite run_bind. pose proof (quiet_encrypt_step opts compressed w Hf) as [n Hn].
  destruct (encrypt_step self opts compressed w) as [[processed|] wE] eqn:He; [|done].
  simpl in Hn. rewrite run_bind.
  set (mkdirs := match parent_components _ with Some _ => _ | None => _ end).
  assert (∃ s, (mkdirs wE).2 = set_fs s wE ∧ w_faults (mkdirs wE).2 = []) as (s & Hs & Hfs).
  { subst mkdirs wE. destruct (parent_components _).
    - rewrite run_map_err, fs_call_ok by done. eexists. split; [done|]. done.
    - eexists. split; [by rewrite set_fs_id|done]. }
  destruct (mkdirs wE) as [[[]|] w1]; [|done]. simpl in Hs, Hfs.
  rewrite run_bind, run_map_err.
  pose proof (write_atomic_cases (get_file_path self b k) processed w1) as Hw.
  pose proof (fs_only_write_file (get_file_path self b k) processed w1) as Hfo.
  destruct (write_file_atomic_optimized _ _ w1) as [[[]|] w2] eqn:Ew; [|done].
  destruct Hw as [[[? ?] _]|[_ Hw]]; [done|]. apply write_done_read in Hw.
  pose proof (write_atomic_quiet _ _ _ _ _ Ew Hfs) as Hf2. destruct Hfo as (Hd2 & Hc2 & Hn2).
  simpl in Hd2, Hc2, Hn2. cbn [map_result_err fst snd].
  unfold new_v4. rewrite !run_bind, run_fill_bytes, run_ret, run_bind, run_now, run_bind, run_attempt.
  set (file' := stored_row _ _ _ _ _ _ _ _ _ _ _ _). set (w3 := set_entropy_pos _ w2).
  assert (w_faults w3 = []) as Hf3 by done.
  destruct (save_file_run file' w3) as [[e ->]| ->]; cbn [fst snd].
  { rewrite run_bind, run_attempt. by destruct (fs_call _ _). }
  rewrite Hf3. cbn [tail]. set (w4 := set_db _ _). assert (w_faults w4 = []) as Hf4 by done.
  destruct (set_file_metadata_ok (sm_cache self) Hcw b k file' w4 Hf4) as (ser & Hser & Hset).
  rewrite run_bind, run_attempt, Hset. cbn [fst snd]. set (w5 := set_cache _ w4).
  rewrite run_bind, run_attempt, set_file_content_cached by done. intros [= <- <-].
  exists compressed, is_c, processed, (uuid_v4 (map (w_entropy w2) (seq (w_entropy_pos w2) 16))), ser.
  subst w1 wE. assert (w_now w3 = w_now w) as Hnow by exact Hn2.
  split; [done|by eexists| |done|exact Hw| | | |done].
  - rewrite <- Hnow. reflexivity.
  - simpl. rewrite Hd2. done.
  - simpl. rewrite Hc2. done.
  - exact Hnow.
Qed.

(** ** Reading back *)

(** The row a read of (b, k) works with: the cached one, or the table's. *)
Definition sees_row (b k : string) (w : World) (row : StoredFile) : Prop :=
  (∃ ser, w_cache w !! metadata_key b k = Some ser ∧ json_from_slice ser = Ok row)
  ∨ (w_cache w !! metadata_key b k = None ∧ db_files (w_db w) !! (b, k) = Some row).

(** The stored bytes it works with: cached, or on disk under the row's path. *)
Definition sees_bytes (b k : string) (w : World) (row : StoredFile) (raw : bytes) : Prop :=
  w_cache w !! content_key b k = Some raw
  ∨ (w_cache w !! content_key b k = None ∧ fs_read (w_fs w) (sf_file_path row) = Ok raw).

Lemma read_metadata_ok b k w row :
  w_faults w = [] → sees_row b k w row →
  ∃ c, read_metadata self b k w = (Ok row, set_cache c w)
       ∧ c !! content_key b k = w_cache w !! content_key b k
       ∧ ∀ key v, c !! key = Some v → w_cache w !! key = Some v
           ∨ key = metadata_key b k ∧ json_to_vec row = Ok v ∧ db_files (w_db w) !! (b, k) = Some row.
Proof using All.
  intros Hf [(ser & Hser & Hj)|[Hm Hd]]; unfold read_metadata; rewrite run_bind, run_attempt.
  - rewrite (get_file_metadata_hit _ _ _ _ ser row) by done. cbn [fst snd].
    exists (w_cache w). rewrite set_cache_id. split_and!; auto.
  - rewrite get_file_metadata_miss by done. cbn [fst snd]. unfold Database.get_file.
    rewrite !run_bind, select_ok by done. cbn beta iota. rewrite run_lift, Hd. simpl.
    destruct (set_file_metadata_ok (sm_cache self) Hcw b k row w Hf) as (ser & Hser & Hset).
    rewrite run_bind, run_attempt, Hset. cbn [fst snd]. rewrite run_ret. eexists. split; [done|].
    split; [by rewrite lookup_insert_ne|]. intros key v [[<- <-]|[_ Hv]]%lookup_insert_Some; auto.
Qed.

Lemma read_content_ok b k w row raw :
  w_faults w = [] → sees_bytes b k w row raw →
  ∃ c, read_content self b k row w = (Ok raw, set_cache c w)
       ∧ ∀ key v, c !! key = Some v → w_cache w !! key = Some v
           ∨ key = content_key b k ∧ v = raw ∧ fs_read (w_fs w) (sf_file_path row) = Ok raw.
Proof using Hcw.
  intros Hf [Hc|[Hc Hr]]; unfold read_content, get_file_content;
    rewrite run_bind, run_attempt, backend_get_ok, Hc by done; cbn [fst snd].
  - exists (w_cache w). rewrite set_cache_id. auto.
  - rewrite run_bind, run_attempt, fs_reading_ok, Hr by done. cbn [fst snd].
    rewrite run_bind, run_attempt, set_file_content_cached by done. cbn [fst snd].
    eexists. split; [done|]. unfold cached_content. case_decide; [auto|].
    intros key v [[<- <-]|[_ Hv]]%lookup_insert_Some; auto.
Qed.

(** A row whose access statistics may have moved. *)
Definition accessed (r r' : StoredFile) : Prop := r' = r ∨ ∃ t n, r' = set_access t n r.

Lemma touch_quiet_fs row w :
  w_faults w = [] →
  ∃ d, touch row w = (Ok tt, set_db d w) ∧ db_keys d = db_keys (w_db w) ∧
  ∃ u, (∀ r, accessed r (u r)) ∧ db_files d = u <$> db_files (w_db w).
Proof using Type.
  intros Hf. unfold touch, update_access. rewrite run_bind, run_attempt, run_sql_ok by done.
  destruct (touch_row _ _ _) as [[[] d]|e] eqn:E; cbn [fst snd]; rewrite run_ret.
  - exists d. split; [done|]. unfold touch_row, update_rows in E.
    case_bool_decide; [done|]. case_bool_decide; [|done]. injection E as <-. split; [done|].
    eexists. split; [|reflexivity]. intros r. cbn beta. unfold accessed. case_match; eauto.
  - exists (w_db w). rewrite set_db_id. split_and!; [done..|].
    exists (λ r, r). split; [by left|]. by rewrite map_fmap_id.
Qed.

(** What a read leaves behind: access statistics, and entries in the cache that
    say what the table and the disk say. *)
Record after_read (b k : string) (row : StoredFile) (raw : bytes) (w w' : World) : Prop := {
  ar_fs : w_fs w' = w_fs w;
  ar_now : w_now w' = w_now w;
  ar_faults : w_faults w' = [];
  ar_keys : db_keys (w_db w') = db_keys (w_db w);
  ar_rows : ∃ u, (∀ r, accessed r (u r)) ∧ db_files (w_db w') = u <$> db_files (w_db w);
  ar_cache key v : w_cache w' !! key = Some v → w_cache w !! key = Some v
    ∨ key = metadata_key b k ∧ json_to_vec row = Ok v ∧ db_files (w_db w) !! (b, k) = Some row
    ∨ key = content_key b k ∧ v = raw ∧ fs_read (w_fs w) (sf_file_path row) = Ok raw
}.

Lemma get_file_ok b k w row raw content :
  w_faults w = [] → sees_row b k w row → expired row (w_now w) = false →
  sees_bytes b k w row raw →
  (∀ w2, w_faults w2 = [] → w_db w2 = w_db w → decode_content self row raw w2 = (Ok content, w2)) →
  ∃ w', get_file self b k w = (Ok (content, Some (sf_content_type row)), w')
        ∧ after_read b k row raw w w'.
Proof using All.
  intros Hf Hrow Hexp Hbytes Hdec. unfold get_file. rewrite run_bind.
  destruct (read_metadata_ok b k w row Hf Hrow) as (c & -> & Hc & Hcv). cbn beta iota.
  rewrite run_bind, run_now. change (w_now (set_cache c w)) with (w_now w). rewrite Hexp, run_bind.
  destruct (read_content_ok b k (set_cache c w) row raw) as (c' & -> & Hcv'); [done| |].
  { unfold sees_bytes. simpl. by rewrite Hc. }
  cbn beta iota. rewrite run_bind, Hdec by done. cbn beta iota. rewrite run_bind.
  destruct (touch_quiet_fs row (set_cache c' (set_cache c w))) as (d & -> & Hk & Hrows); [done|].
  cbn beta iota. rewrite run_ret. eexists. split; [done|]. split; try done.
  intros key v [Hv|(-> & -> & Hr)]%Hcv'; [|by auto]. apply Hcv in Hv as [Hv|Hv]; auto.
Qed.

(** ** Upload of new content, and reading it *)

Lemma ensure_bucket_ok b w r w1 :
  w_faults w = [] → ensure_bucket_exists self b w = (r, w1) →
  w_faults w1 = [] ∧ db_files (w_db w1) = db_files (w_db w) ∧ db_keys (w_db w1) = db_keys (w_db w) ∧
  w_cache w1 = w_cache w ∧ w_now w1 = w_now w.
Proof using Type.
  intros Hf. unfold ensure_bucket_exists. rewrite run_bind, select_ok by done. cbn beta iota.
  destruct (negb _); [|by intros [= <- <-]]. unfold create_bucket. rewrite run_bind, run_map_err, fs_call_ok by done.
  unfold fs_changing. destruct (fs_create_dir_all _ _); cbn [fst snd map_result_err];
    [|by intros [= <- <-]].
  rewrite run_sql_ok by done. unfold insert_bucket.
  destruct (negb _); [by intros [= <- <-]|]. simpl.
  destruct (_ !! _); by intros [= <- <-].
Qed.

Definition not_duplicate (content : bytes) (w : World) : Prop :=
  st_enable_deduplication (cfg_storage (sm_config self)) = true →
  scan (λ f, bool_decide (sf_hash_blake3 f = blake3_hex content)) (w_db w) = [].

Lemma store_file_new_inv b k content ct opts w file w' :
  w_faults w = [] → not_duplicate content w →
  store_file self b k content ct opts w = (Ok file, w') →
  ∃ w1 compressed is_c processed id ser,
    ensure_bucket_exists self b w = (Ok tt, w1) ∧
    stored_new b k content ct opts (compute_hashes_parallel content) w1
      compressed is_c processed id ser file w'.
Proof using All.
  intros Hf Hdup. unfold store_file. rewrite run_bind.
  destruct (ensure_bucket_exists self b w) as [[[]|] w1] eqn:He; [|done].
  destruct (ensure_bucket_ok _ _ _ _ Hf He) as (Hf1 & Hfiles & _ & _ & _).
  rewrite run_bind. set (dedup := if st_enable_deduplication _ then _ else _).
  assert (dedup w1 = (Ok None, w1)) as ->.
  { subst dedup. destruct (st_enable_deduplication _) eqn:Hd; [|done].
    unfold get_file_by_hash. rewrite select_ok by done.
    specialize (Hdup Hd). unfold scan in *. simpl. by rewrite Hfiles, Hdup. }
  intros Hst. apply store_new_inv in Hst as (compressed & is_c & processed & id & ser & Hst); [|done].
  by exists w1, compressed, is_c, processed, id, ser.
Qed.

(** ** A key and the content it serves *)

(** Rows that read the same way. *)
Definition agrees (f r : StoredFile) : Prop :=
  same_coding f r ∧ sf_file_path r = sf_file_path f ∧ sf_content_type r = sf_content_type f ∧
  sf_expires_at r = sf_expires_at f ∧ sf_file_size r = sf_file_size f ∧
  sf_hash_md5 r = sf_hash_md5 f ∧ sf_original_size r = sf_original_size f.

Lemma agrees_refl f : agrees f f.
Proof using Type. by split_and!. Qed.

Lemma saved_row_agrees t f : agrees f (saved_row t f).
Proof using Type. unfold saved_row. destruct (t !! _), f; by split_and!. Qed.

Lemma saved_row_coding t f :
  same_coding f (saved_row t f) ∧ sf_file_path (saved_row t f) = sf_file_path f ∧
  sf_content_type (saved_row t f) = sf_content_type f ∧
  sf_expires_at (saved_row t f) = sf_expires_at f.
Proof using Type. unfold saved_row. destruct (t !! _), f; by split_and!. Qed.

(** The table, the disk and whatever the cache still holds say the same of a
    key: a row that reads as [file], its stored bytes, and the content they
    decode to. *)
Record serves (b k : string) (file : StoredFile) (raw content : bytes) (w : World) : Prop := {
  sv_faults : w_faults w = [];
  sv_row : ∃ row, db_files (w_db w) !! (b, k) = Some row ∧ agrees file row;
  sv_meta ser : w_cache w !! metadata_key b k = Some ser → ∃ r, json_from_slice ser = Ok r ∧ agrees file r;
  sv_bytes : fs_read (w_fs w) (sf_file_path file) = Ok raw;
  sv_content c : w_cache w !! content_key b k = Some c → c = raw;
  sv_decode w2 : w_faults w2 = [] → db_keys (w_db w2) = db_keys (w_db w) →
    decode_content self file raw w2 = (Ok content, w2);
  sv_compressed : flag (sf_is_compressed file) = true → flag (sf_is_encrypted file) = false →
    ∃ cfg, compresses cfg content ∧ compress cfg content = Ok raw;
  sv_sizes : sf_file_size file = zlen raw ∧ sf_original_size file = zlen content
}.

Lemma serves_sees b k file raw content w :
  serves b k file raw content w → ∃ r, sees_row b k w r ∧ agrees file r ∧ sees_bytes b k w r raw.
Proof using Type.
  intros [_ (row & Hrow & Hag) Hmeta Hbytes Hcont _ _ _].
  assert (∃ r, sees_row b k w r ∧ agrees file r) as (r & Hr & Har).
  { unfold sees_row. destruct (w_cache w !! metadata_key b k) as [ser|] eqn:E; [|by eauto 6].
    destruct (Hmeta ser eq_refl) as (r & Hj & Hr). eauto 7. }
  exists r. split_and!; [done..|]. unfold sees_bytes.
  destruct (w_cache w !! content_key b k) as [c|] eqn:E; [left; by rewrite (Hcont c eq_refl)|right].
  destruct Har as (_ & -> & _). done.
Qed.

(** A download of what a key serves. *)
Lemma serves_download b k file raw content w :
  serves b k file raw content w → expired file (w_now w) = false →
  ∃ w', get_file self b k w = (Ok (content, Some (sf_content_type file)), w').
Proof using All.
  intros Hs Hexp. destruct (serves_sees _ _ _ _ _ _ Hs) as (r & Hr & (Hcod & _ & Hct & Hex & _) & Hb).
  destruct (get_file_ok b k w r raw content) as (w' & Hget & _).
  - apply (sv_faults _ _ _ _ _ _ Hs).
  - done.
  - unfold expired in *. by rewrite Hex.
  - done.
  - intros w2 Hf2 Hd2. rewrite (decode_same_coding file) by done.
    apply (sv_decode _ _ _ _ _ _ Hs); [done|by rewrite Hd2].
  - exists w'. by rewrite Hget, Hct.
Qed.

(** What the compression step did, and that without encryption it is what is
    written. *)
Lemma compress_step_codec opts content compressed :
  compress_step self opts content = (compressed, true) →
  ∃ cfg, compresses cfg content ∧ compress cfg content = Ok compressed.
Proof using Type.
  unfold compress_step. set (cp := mkCompressionConfig _ _ _ _).
  destruct (_ && _) eqn:Hc; [|done]. destruct (compress cp content) as [out|] eqn:Ho; [|done].
  destruct (Z.ltb_spec (zlen out) (zlen content)) as [Hlt|]; intros [= <-]. exists cp. split; [|done].
  apply andb_true_iff in Hc as [_ Hmin]. apply Z.leb_le in Hmin. split_and!; [done..|].
  intros ->. rewrite zlen_nil in Hlt. pose proof (zlen_nonneg out). lia.
Qed.

Lemma encrypt_step_off opts c w : should_encrypt self opts = false → encrypt_step self opts c w = (Ok c, w).
Proof using Type. intros H. unfold encrypt_step. by rewrite H. Qed.

(** After an upload of new content its key serves it, until something else
    happens: also later, and with entries of the cache lost. *)
Lemma upload_serves b k content ct opts w file w' c t :
  w_faults w = [] → not_duplicate content w →
  store_file self b k content ct opts w = (Ok file, w') →
  (sf_is_compressed file = Some true → co_enabled (sm_compression self) = true) →
  (w_cache w !! content_key b k = None ∨ sf_file_size file ≤ MAX_CACHE_SIZE) →
  c ⊆ w_cache w' →
  ∃ raw, serves b k file raw content (set_now t (set_cache c w'))
         ∧ sf_content_type file = default "application/octet-stream" ct.
Proof using All.
  intros Hf Hdup Hst Hcomp Hold Hsub.
  destruct (store_file_new_inv _ _ _ _ _ _ _ _ Hf Hdup Hst)
    as (w1 & compressed & is_c & processed & id & ser & He & [H1 [wE H2] H3 H4 H5 H6 H7 H8 H9]).
  destruct (ensure_bucket_ok _ _ _ _ Hf He) as (Hf1 & Hfiles & Hkeys & Hcache & _).
  assert (file_key file = (b, k)) as Hkey by (by rewrite H3).
  assert (sf_file_size file = zlen processed) as Hsize by (by rewrite H3).
  exists processed. split; [|by rewrite H3]. split; simpl.
  - done.
  - exists (saved_row (db_files (w_db w1)) file). split; [|apply saved_row_agrees].
    rewrite H6. unfold after_save. cbn [db_files set_files]. by rewrite Hkey, lookup_insert_eq.
  - intros ser' Hser'. exists file. split; [|apply agrees_refl].
    pose proof (lookup_weaken _ _ _ _ Hser' Hsub) as Hm. rewrite H7 in Hm. unfold cached_content in Hm.
    case_decide; [|rewrite lookup_insert_ne in Hm by done];
      rewrite lookup_insert_eq in Hm; injection Hm as <-; by apply json_roundtrip.
  - by rewrite H3.
  - intros c' Hc'. pose proof (lookup_weaken _ _ _ _ Hc' Hsub) as Hm. rewrite H7, Hcache in Hm.
    unfold cached_content in Hm. case_decide.
    + rewrite lookup_insert_ne in Hm by done. destruct Hold as [Hold|Hold]; [congruence|lia].
    + rewrite lookup_insert_eq in Hm. by injection Hm as <-.
  - intros w2 Hf2 Hk2. rewrite H3 in Hcomp |- *.
    apply (decode_stored opts content compressed is_c processed _ _ _ _ _ _ _ w1 wE); try done.
    + intros ->. by apply Hcomp.
    + by rewrite Hk2, H6.
  - rewrite H3. cbn. intros -> He2. rewrite encrypt_step_off in H2 by done. injection H2 as <- _.
    by apply compress_step_codec in H1.
  - split; [done|]. by rewrite H3.
Qed.

(** The row of an upload of new content is as long as its file says; and the
    content is compressed only when the request or else the settings say so. *)
Lemma upload_row b k content ct opts w file w' :
  w_faults w = [] → not_duplicate content w →
  store_file self b k content ct opts w = (Ok file, w') →
  (∃ row, db_files (w_db w') !! (b, k) = Some row ∧ sf_file_size row = sf_file_size file) ∧
  (sf_is_compressed file = Some true →
   default (co_enabled (cfg_compression (sm_config self))) (so_compress opts) = true).
Proof using All.
  intros Hf Hdup Hst. destruct (store_file_new_inv _ _ _ _ _ _ _ _ Hf Hdup Hst)
    as (w1 & compressed & is_c & processed & id & ser & _ & [H1 _ H3 _ _ H6 _ _ _]).
  assert (file_key file = (b, k)) as Hkey by (by rewrite H3). split.
  - exists (saved_row (db_files (w_db w1)) file). split; [|apply saved_row_agrees].
    rewrite H6. unfold after_save. cbn [db_files set_files]. by rewrite Hkey, lookup_insert_eq.
  - rewrite H3. cbn [sf_is_compressed stored_row]. intros [= ->]. unfold compress_step in H1.
    by destruct (default _ _).
Qed.

(** As the service is built, that is enough to read the file back. *)
Lemma upload_decompresses b k content ct opts w file w' :
  as_built self → w_faults w = [] → not_duplicate content w →
  store_file self b k content ct opts w = (Ok file, w') →
  (so_compress opts = Some true → co_enabled (cfg_compression (sm_config self)) = true) →
  sf_is_compressed file = Some true → co_enabled (sm_compression self) = true.
Proof using All.
  intros -> Hf Hdup Hst Hask Hc.
  destruct (upload_row _ _ _ _ _ _ _ _ Hf Hdup Hst) as [_ H]. specialize (H Hc).
  destruct (so_compress opts) as [[]|]; [by apply Hask|done|done].
Qed.

(** A download after an upload of new content. *)
Lemma upload_read_back b k content ct opts w file w' c t :
  w_faults w = [] → not_duplicate content w →
  store_file self b k content ct opts w = (Ok file, w') →
  (sf_is_compressed file = Some true → co_enabled (sm_compression self) = true) →
  (w_cache w !! content_key b k = None ∨ sf_file_size file ≤ MAX_CACHE_SIZE) →
  c ⊆ w_cache w' → expired file t = false →
  ∃ w'', get_file self b k (set_now t (set_cache c w'))
         = (Ok (content, Some (default "application/octet-stream" ct)), w'').
Proof using All.
  intros Hf Hdup Hst Hcomp Hold Hsub Hexp.
  destruct (upload_serves b k content ct opts w file w' c t) as (raw & Hs & <-); try done.
  by eapply serves_download.
Qed.

(** C13: What was uploaded is what a download returns.  When an upload of
    content that is not stored yet reports success, then at any later time
    before the file expires, and however many entries the cache has lost
    meanwhile, a download returns exactly the uploaded bytes with the
    content type given (or the default), through compression, encryption
    and the temporary file.  (Assumed: decompression is enabled if the file
    was compressed, and an older cached content of the key is replaced: see
    [large_overwrite_serves_old_content] for why that is needed.) *)
Theorem upload_download b k content ct opts w file w' c t :
  w_faults w = [] → not_duplicate content w →
  store_file self b k content ct opts w = (Ok file, w') →
  (sf_is_compressed file = Some true → co_enabled (sm_compression self) = true) →
  (w_cache w !! content_key b k = None ∨ sf_file_size file ≤ MAX_CACHE_SIZE) →
  c ⊆ w_cache w' → expired file t = false →
  ∃ w'', get_file self b k (set_now t (set_cache c w'))
         = (Ok (content, Some (default "application/octet-stream" ct)), w'').
Proof. apply upload_read_back. Qed.

(** ** Deduplicated uploads *)

(** The stored row a deduplicated upload of this content finds. *)
Definition duplicate_of (content : bytes) (w : World) (existing : StoredFile) : Prop :=
  st_enable_deduplication (cfg_storage (sm_config self)) = true ∧
  head (scan (λ f, bool_decide (sf_hash_blake3 f = blake3_hex content)) (w_db w)) = Some existing.

Lemma store_file_alias_inv b k content ct opts w file w' existing :
  w_faults w = [] → duplicate_of content w existing → file_key existing ≠ (b, k) →
  store_file self b k content ct opts w = (Ok file, w') →
  ∃ w1 id, ensure_bucket_exists self b w = (Ok tt, w1) ∧
    file = aliased_row id b k ct opts (compute_hashes_parallel content) (w_now w) existing ∧
    w_db w' = after_save file (w_db w1) ∧ w_fs w' = w_fs w1 ∧ w_cache w' = w_cache w ∧
    w_now w' = w_now w ∧ w_faults w' = [].
Proof using Type.
  intros Hf [Hd Hhd] Hne. unfold store_file. rewrite run_bind.
  destruct (ensure_bucket_exists self b w) as [[[]|] w1] eqn:He; [|done].
  destruct (ensure_bucket_ok _ _ _ _ Hf He) as (Hf1 & Hfiles & Hkeys & Hcache & Hnow).
  rewrite run_bind, Hd. unfold get_file_by_hash. rewrite select_ok by done. cbn beta iota.
  assert (head (scan (λ f, bool_decide (sf_hash_blake3 f = (compute_hashes_parallel content).1))
            (w_db w1)) = Some existing) as ->.
  { unfold scan in *. rewrite Hfiles. exact Hhd. }
  assert (bool_decide (sf_bucket existing = b) && bool_decide (sf_key existing = k) = false) as ->.
  { apply andb_false_iff. rewrite !bool_decide_eq_false. unfold file_key in Hne.
    destruct (decide (sf_bucket existing = b)); [right|by left]. intros ?. by subst. }
  unfold new_v4. rewrite !run_bind, run_fill_bytes, run_ret, run_bind, run_now.
  set (w2 := set_entropy_pos _ w1). set (al := aliased_row _ _ _ _ _ _ _ _).
  rewrite run_bind. destruct (save_file_run al w2) as [[e ->]| ->]; [done|].
  cbn beta iota. rewrite run_ret. intros [= <- <-]. assert (w_now w2 = w_now w) as Hn2 by exact Hnow.
  exists w1, (uuid_v4 (map (w_entropy w1) (seq (w_entropy_pos w1) 16))).
  split; [done|]. split; [by rewrite <- Hn2|]. split_and!; try done.
  simpl. by rewrite Hf1.
Qed.

Lemma ensure_bucket_frame b w r w1 :
  w_faults w = [] → ensure_bucket_exists self b w = (r, w1) →
  fs_frame (λ _, False) (w_fs w) (w_fs w1).
Proof using Type.
  intros Hf. unfold ensure_bucket_exists. rewrite run_bind, select_ok by done. cbn beta iota.
  destruct (negb _); [|by intros [= <- <-]]. unfold create_bucket.
  rewrite run_bind, run_map_err, fs_call_ok by done.
  unfold fs_changing. destruct (fs_create_dir_all _ _) as [s|] eqn:E; cbn [fst snd map_result_err];
    [|by intros [= <- <-]].
  apply (fs_make_dirs_frame (λ _, False)) in E.
  rewrite run_sql_ok by done. unfold insert_bucket.
  destruct (negb _); [by intros [= <- <-]|]. simpl. destruct (_ !! _); by intros [= <- <-].
Qed.

(** C21: A deduplicated upload stores no bytes and still makes its own file.
    When a row with the hash of the content is already stored under another key,
    the upload adds a row for the requested key pointing at the same bytes, and
    a download of that key returns exactly the uploaded content, with the type
    given (or that of the existing file); no other row changes.  (Assumed: the
    existing row is intact, that is, its bytes decode to a content with the hash
    it carries; the hash has no collision between that and the upload; nothing of
    the key is cached; the file has not expired; no call fails; a Redis cache
    has a time to live that is not zero.) *)
Theorem deduplicated_upload_download b k content ct opts w file w' existing raw stored :
  w_faults w = [] → duplicate_of content w existing → file_key existing ≠ (b, k) →
  w_cache w !! metadata_key b k = None → w_cache w !! content_key b k = None →
  fs_read (w_fs w) (sf_file_path existing) = Ok raw →
  (∀ w2, w_faults w2 = [] → db_keys (w_db w2) = db_keys (w_db w) →
     decode_content self existing raw w2 = (Ok stored, w2)) →
  sf_hash_blake3 existing = blake3_hex stored →
  (blake3_hex stored = blake3_hex content → stored = content) →
  store_file self b k content ct opts w = (Ok file, w') → expired file (w_now w) = false →
  fs_frame (λ _, False) (w_fs w) (w_fs w') ∧
  (∀ key, key ≠ (b, k) → db_files (w_db w') !! key = db_files (w_db w) !! key) ∧
  ∃ w'', get_file self b k w'
         = (Ok (content, Some (default (sf_content_type existing) ct)), w'').
Proof.
  intros Hf Hdup Hne Hm Hct Hraw Hdec Hhash Hcoll Hst Hexp.
  assert (stored = content) as ->.
  { apply Hcoll. rewrite <- Hhash. destruct Hdup as [_ Hhd].
    assert (existing ∈ scan (λ f, bool_decide (sf_hash_blake3 f = blake3_hex content)) (w_db w)) as Hin.
    { destruct (scan _ _); [done|]. injection Hhd as ->. by left. }
    apply elem_of_scan in Hin as [Hh _]. by apply bool_decide_eq_true in Hh. }
  destruct (store_file_alias_inv _ _ _ _ _ _ _ _ _ Hf Hdup Hne Hst)
    as (w1 & id & He & Hfile & Hdb & Hfs & Hcache & Hnow & Hf').
  destruct (ensure_bucket_ok _ _ _ _ Hf He) as (Hf1 & Hfiles & Hkeys & _ & _).
  pose proof (ensure_bucket_frame _ _ _ _ Hf He) as Hframe. rewrite <- Hfs in Hframe.
  assert (file_key file = (b, k)) as Hkey by (by rewrite Hfile).
  split; [exact Hframe|]. split.
  { intros key Hkne. rewrite Hdb. unfold after_save. cbn [db_files set_files].
    by rewrite Hkey, lookup_insert_ne, Hfiles. }
  destruct (saved_row_coding (db_files (w_db w1)) file) as (Hs1 & Hs2 & Hs3 & Hs4).
  set (row := saved_row (db_files (w_db w1)) file) in *.
  destruct (get_file_ok b k w' row raw content) as (w'' & Hget & _).
  - done.
  - right. rewrite Hcache. split; [done|]. rewrite Hdb. unfold after_save.
    cbn [db_files set_files]. by rewrite Hkey, lookup_insert_eq.
  - unfold expired in *. by rewrite Hs4, Hnow.
  - right. rewrite Hcache. split; [done|]. rewrite Hs2, Hfile.
    apply (fs_read_in_frame (λ _, False) (w_fs w)); [done|tauto|done].
  - intros w2 Hf2 Hd2. rewrite (decode_same_coding existing).
    + apply Hdec; [done|]. by rewrite Hd2, Hdb.
    + destruct Hs1 as (E1 & E2 & E3 & E4). unfold same_coding.
      rewrite E1, E2, E3, E4, Hfile. by split_and!.
  - exists w''. rewrite Hget. do 3 f_equal. by rewrite Hs3, Hfile.
Qed.

(** Overwriting a key with content that is stored elsewhere does not
    reach readers.  The deduplicated upload neither replaces nor drops what
    the cache holds for the key, so a download after the upload succeeded
    still returns the old content with the old content type. *)
Theorem deduplicated_overwrite_serves_old b k content ct opts w file w' existing
    old_row old_ser old_raw old_content :
  w_faults w = [] → duplicate_of content w existing → file_key existing ≠ (b, k) →
  w_cache w !! metadata_key b k = Some old_ser → json_from_slice old_ser = Ok old_row →
  w_cache w !! content_key b k = Some old_raw → expired old_row (w_now w) = false →
  (∀ w2, w_faults w2 = [] → db_keys (w_db w2) = db_keys (w_db w) →
     decode_content self old_row old_raw w2 = (Ok old_content, w2)) →
  store_file self b k content ct opts w = (Ok file, w') →
  sf_hash_blake3 file = blake3_hex content ∧
  ∃ w'', get_file self b k w' = (Ok (old_content, Some (sf_content_type old_row)), w'').
Proof.
  intros Hf Hdup Hne Hm Hj Hct Hexp Hdec Hst.
  destruct (store_file_alias_inv _ _ _ _ _ _ _ _ _ Hf Hdup Hne Hst)
    as (w1 & id & He & Hfile & Hdb & Hfs & Hcache & Hnow & Hf').
  destruct (ensure_bucket_ok _ _ _ _ Hf He) as (_ & _ & Hkeys & _ & _).
  split; [by rewrite Hfile|].
  destruct (get_file_ok b k w' old_row old_raw old_content) as (w'' & Hget & _).
  - done.
  - left. rewrite Hcache. eauto.
  - by rewrite Hnow.
  - left. by rewrite Hcache.
  - intros w2 Hf2 Hd2. apply Hdec; [done|]. by rewrite Hd2, Hdb.
  - eauto.
Qed.

(** Overwriting a small file with one of more than 1 MB does not reach
    readers either.  The cache skips the large content but keeps the small
    one, so the download after a successful (plain) upload returns the old
    bytes under the new content type. *)
Theorem large_overwrite_serves_old_content b k content ct opts w file w' old_raw :
  w_faults w = [] → not_duplicate content w → w_cache w !! content_key b k = Some old_raw →
  store_file self b k content ct opts w = (Ok file, w') → sf_file_size file > MAX_CACHE_SIZE →
  sf_is_compressed file = Some false → sf_is_encrypted file = Some false →
  expired file (w_now w) = false →
  ∃ w'', get_file self b k w' = (Ok (old_raw, Some (default "application/octet-stream" ct)), w'').
Proof.
  intros Hf Hdup Hold Hst Hbig Hcomp Henc Hexp.
  destruct (store_file_new_inv _ _ _ _ _ _ _ _ Hf Hdup Hst)
    as (w1 & compressed & is_c & processed & id & ser & He & [H1 H2 H3 H4 H5 H6 H7 H8 H9]).
  destruct (ensure_bucket_ok _ _ _ _ Hf He) as (Hf1 & _ & _ & Hcache & Hnow).
  assert (sf_file_size file = zlen processed) as Hsize by (by rewrite H3).
  assert (w_cache w' = <[metadata_key b k := ser]> (w_cache w)) as Hc.
  { rewrite H7, Hcache. unfold cached_content. by rewrite decide_True by lia. }
  destruct (get_file_ok b k w' file old_raw old_raw) as (w'' & Hget & _).
  - done.
  - left. exists ser. rewrite Hc, lookup_insert_eq. eauto using json_roundtrip.
  - by rewrite H8, Hnow.
  - left. by rewrite Hc, lookup_insert_ne.
  - intros w2 _ _. unfold decode_content, decrypt_content. by rewrite Hcomp, Henc.
  - exists w''. rewrite Hget. do 3 f_equal. by rewrite H3.
Qed.
End upload.

Definition one_mb_and_one : bytes := replicate (Z.to_nat 1048577) Byte.x61.

(** ** Concrete runs *)

Definition secure_config : Config :=
  mkConfig (mkServerConfig 8080 "INFO") (mkDatabaseConfig "h" 5432 "d" "u" "p" 10 "url")
    (mkRedisConfig "redis" 6379 None 0 10) (mkCacheSettings Memory 256 3600)
    (mkStorageConfig "/data" 1000 "default" true) (mkCryptoConfig true "aes-gcm" None)
    (mkCompressionConfig true "zstd" 3 4) None None None.

(** Compression from 4 bytes on, and encryption under a global key. *)
Definition secure_storage : StorageManager :=
  mkStorageManager secure_config "/data" (mkCacheManager secure_config BackendMemory)
    (mkCryptoManager (cfg_crypto secure_config) (Some key32) None) (cfg_compression secure_config).

Definition long_content : bytes := replicate 200 Byte.x61.

Definition secure_upload : result StorageError StoredFile * World :=
  store_file (X:=Toy.ToyExternals) secure_storage "b" "dir/k" long_content (Some "text/plain")
    default_options start_world.

Lemma upload_download_witness :
  (match secure_upload.1 with
   | Ok f => sf_is_compressed f = Some true ∧ sf_is_encrypted f = Some true
   | Err _ => False
   end) ∧
  ∃ w'', get_file (X:=Toy.ToyExternals) secure_storage "b" "dir/k"
           (set_now 99 (set_cache ∅ secure_upload.2)) = (Ok (long_content, Some "text/plain"), w'').
Proof.
  assert (match secure_upload.1 with
          | Ok f => bool_decide (sf_is_compressed f = Some true ∧ sf_is_encrypted f = Some true
                      ∧ sf_file_size f ≤ MAX_CACHE_SIZE) && negb (expired f 99)
          | Err _ => false
          end = true) as Hfacts by (vm_compute; reflexivity).
  destruct secure_upload as [[f|e] w'] eqn:E; simpl in Hfacts; [|discriminate Hfacts].
  apply andb_true_iff in Hfacts as [(Hc & Hen & Hs)%bool_decide_eq_true He].
  split; [split; assumption|].
  apply (upload_download (X:=Toy.ToyExternals) secure_storage ltac:(discriminate) "b" "dir/k"
           long_content (Some "text/plain") default_options start_world f w' ∅ 99).
  - reflexivity.
  - intros _. vm_compute. reflexivity.
  - exact E.
  - reflexivity.
  - right. exact Hs.
  - apply map_empty_subseteq.
  - apply negb_true_iff. exact He.
Defined.

Lemma deduplicated_upload_download_witness :
  let w' := (store_file (X:=Toy.ToyExternals) sample_storage "c" "copy" [Byte.x61; Byte.x62] None
               default_options first_world).2 in
  ∃ w'', get_file (X:=Toy.ToyExternals) sample_storage "c" "copy" w'
         = (Ok ([Byte.x61; Byte.x62], Some "application/octet-stream"), w'').
Proof.
  cbv zeta.
  assert (match head (scan (X:=Toy.ToyExternals) (λ f, bool_decide (sf_hash_blake3 f =
             blake3_hex (Externals:=Toy.ToyExternals) [Byte.x61; Byte.x62])) (w_db first_world)) with
          | Some f => bool_decide (file_key f ≠ ("c", "copy")
              ∧ fs_read (w_fs first_world) (sf_file_path f) = Ok [Byte.x61; Byte.x62]
              ∧ sf_is_compressed f = Some false ∧ sf_is_encrypted f = Some false
              ∧ sf_content_type f = "application/octet-stream"
              ∧ sf_hash_blake3 f = blake3_hex (Externals:=Toy.ToyExternals) [Byte.x61; Byte.x62])
          | None => false
          end = true) as Hex by (vm_compute; reflexivity).
  destruct (head _) as [existing|] eqn:Hhd; [|discriminate Hex].
  apply bool_decide_eq_true in Hex as (Hne & Hread & Hcomp & Henc & Hty & Hh).
  assert (match (store_file (X:=Toy.ToyExternals) sample_storage "c" "copy" [Byte.x61; Byte.x62] None
               default_options first_world).1 with
          | Ok f => negb (expired f (w_now first_world)) | Err _ => false end = true) as Hok
    by (vm_compute; reflexivity).
  destruct (store_file _ _ _ _ _ _ _) as [[f|e] w'] eqn:E; simpl in Hok; [|discriminate Hok].
  rewrite <- Hty.
  apply (deduplicated_upload_download (X:=Toy.ToyExternals) sample_storage ltac:(discriminate)
           "c" "copy" [Byte.x61; Byte.x62] None default_options first_world f w' existing
           [Byte.x61; Byte.x62] [Byte.x61; Byte.x62]).
  - vm_compute. reflexivity.
  - split; [reflexivity|exact Hhd].
  - exact Hne.
  - vm_compute. reflexivity.
  - vm_compute. reflexivity.
  - exact Hread.
  - intros w2 _ _. unfold decode_content, decrypt_content. rewrite Hcomp, Henc. reflexivity.
  - exact Hh.
  - intros _. reflexivity.
  - exact E.
  - apply negb_true_iff. exact Hok.
Defined.

(** "k" holds one content, "k2" another, and "k" is uploaded again with the
    second. *)
Definition two_contents_world : World :=
  (store_file (X:=Toy.ToyExternals) sample_storage "b" "k2" [Byte.x63] None default_options
     first_world).2.

Lemma deduplicated_overwrite_serves_old_witness :
  let '(r, w') := store_file (X:=Toy.ToyExternals) sample_storage "b" "k" [Byte.x63] None default_options
                    two_contents_world in
  is_ok r = true ∧
  ∃ w'', get_file (X:=Toy.ToyExternals) sample_storage "b" "k" w'
         = (Ok ([Byte.x61; Byte.x62], Some "application/octet-stream"), w'').
Proof.
  assert (match head (scan (X:=Toy.ToyExternals) (λ f, bool_decide (sf_hash_blake3 f =
             blake3_hex (Externals:=Toy.ToyExternals) [Byte.x63])) (w_db two_contents_world)) with
          | Some f => bool_decide (file_key f ≠ ("b", "k")) | None => false
          end = true) as Hex by (vm_compute; reflexivity).
  destruct (head _) as [existing|] eqn:Hhd; [|discriminate Hex].
  apply bool_decide_eq_true in Hex.
  assert (match w_cache two_contents_world !! metadata_key "b" "k" with
          | Some ser =>
            match json_from_slice (Externals:=Toy.ToyExternals) ser with
            | Ok f => bool_decide (sf_is_compressed f = Some false ∧ sf_is_encrypted f = Some false
                        ∧ sf_content_type f = "application/octet-stream"
                        ∧ expired f (w_now two_contents_world) = false)
            | Err _ => false
            end
          | None => false
          end = true) as Hold by (vm_compute; reflexivity).
  destruct (w_cache two_contents_world !! metadata_key "b" "k") as [ser|] eqn:Hm; [|discriminate Hold].
  destruct (json_from_slice ser) as [old|] eqn:Hj; [|discriminate Hold].
  apply bool_decide_eq_true in Hold as (Hcomp & Henc & Hty & Hexp).
  assert (is_ok (store_file (X:=Toy.ToyExternals) sample_storage "b" "k" [Byte.x63] None default_options
                   two_contents_world).1 = true) as Hok by (vm_compute; reflexivity).
  destruct (store_file _ _ _ _ _ _ _) as [[f|e] w'] eqn:E; [|discriminate Hok].
  split; [reflexivity|]. rewrite <- Hty.
  apply (deduplicated_overwrite_serves_old (X:=Toy.ToyExternals) sample_storage ltac:(discriminate)
           "b" "k" [Byte.x63] None default_options two_contents_world f w' existing old ser
           [Byte.x61; Byte.x62] [Byte.x61; Byte.x62]).
  - vm_compute. reflexivity.
  - split; [reflexivity|exact Hhd].
  - exact Hex.
  - exact Hm.
  - exact Hj.
  - vm_compute. reflexivity.
  - exact Hexp.
  - intros w2 _ _. unfold decode_content, decrypt_content. rewrite Hcomp, Henc. reflexivity.
  - exact E.
Defined.

Lemma large_overwrite_serves_old_content_witness :
  let '(r, w') := store_file (X:=Toy.ToyExternals) sample_storage "b" "k" one_mb_and_one None
                    default_options first_world in
  is_ok r = true ∧
  ∃ w'', get_file (X:=Toy.ToyExternals) sample_storage "b" "k" w'
         = (Ok ([Byte.x61; Byte.x62], Some "application/octet-stream"), w'').
Proof.
  assert (match (store_file (X:=Toy.ToyExternals) sample_storage "b" "k" one_mb_and_one None
                   default_options first_world).1 with
          | Ok f => bool_decide (sf_file_size f > MAX_CACHE_SIZE ∧ sf_is_compressed f = Some false
                      ∧ sf_is_encrypted f = Some false ∧ expired f (w_now first_world) = false)
          | Err _ => false
          end = true) as Hok by (vm_compute; reflexivity).
  destruct (store_file _ _ _ _ _ _ _) as [[f|e] w'] eqn:E; simpl in Hok; [|discriminate Hok].
  apply bool_decide_eq_true in Hok as (Hbig & Hcomp & Henc & Hexp). split; [reflexivity|].
  apply (large_overwrite_serves_old_content (X:=Toy.ToyExternals) sample_storage ltac:(discriminate)
           "b" "k" one_mb_and_one None default_options first_world f w' [Byte.x61; Byte.x62]).
  - vm_compute. reflexivity.
  - intros _. vm_compute. reflexivity.
  - vm_compute. reflexivity.
  - exact E.
  - exact Hbig.
  - exact Hcomp.
  - exact Henc.
  - exact Hexp.
Defined.
