(* ===== verification/Phases.v ===== *)
(** * Uploads in two phases

    Requests share the manager behind a read lock, so two of them interleave at
    their awaits.  This file splits an upload at the point where deduplication
    has looked for the content, and a deletion at the point where the
    transaction on the row is over, and says what each phase does on its own. *)

From S2P Require Import Prelude.
From S2P Require Import Errors.
From S2P Require Import Models.
From S2P Require Import FileSystem.
From S2P Require Import Config.
From S2P Require Import Externals.
From S2P Require Import World.
From S2P Require Import Compression.
From S2P Require Import Crypto.
From S2P Require Import Database.
From S2P Require Import Cache.
From S2P Require Import EncryptionKeys.
From S2P Require Import Performance.
From S2P Require Import Storage.
From S2P Require Import StorageWf.
From S2P Require Import Deletion.
From S2P Require Import Upload.

Section phases.
Context `{X : Externals} (self : StorageManager).

(** The first half of [store_file]: the bucket, and the stored row with the
    same content. *)
Definition find_stored (bucket : string) (content : bytes) : M (option StoredFile) :=
  _ ← ensure_bucket_exists self bucket;
  if st_enable_deduplication (cfg_storage (sm_config self))
  then get_file_by_hash (compute_hashes_parallel content).1 else mret None.

(** The second half of [store_file], with what the first one found. *)
Definition store_found (bucket key : string) (content : bytes) (content_type : option string)
    (opts : StoreOptions) (existing : option StoredFile) : M StoredFile :=
  let hashes := compute_hashes_parallel content in
  match existing with
  | Some existing_file =>
    if bool_decide (sf_bucket existing_file = bucket) && bool_decide (sf_key existing_file = key)
    then mret existing_file
    else
      id ← new_v4;
      t ← now;
      let aliased := aliased_row id bucket key content_type opts hashes t existing_file in
      _ ← Database.save_file aliased;
      mret aliased
  | None => store_new self bucket key content content_type opts hashes
  end.

(** Run one after the other, the phases are the operation. *)
Lemma store_file_phases b k content ct opts w :
  store_file self b k content ct opts w
  = (existing ← find_stored b content; store_found b k content ct opts existing) w.
Proof.
  unfold store_file, find_stored, store_found. rewrite !run_bind.
  destruct (ensure_bucket_exists self b w) as [[[]|e] w1]; [|done]. cbn beta iota.
  rewrite !run_bind. by destruct (if st_enable_deduplication _ then _ else _).
Qed.
End phases.

(** ** Failures change neither the tables nor the cache *)

Definition files_only (w w' : World) : Prop :=
  w_faults w = [] →
  w_db w' = w_db w ∧ w_cache w' = w_cache w ∧ w_now w' = w_now w ∧ w_faults w' = [].

#[export] Instance files_only_preorder : PreOrder files_only.
Proof.
  split; unfold files_only; [done|]. intros x y z Hxy Hyz Hf.
  destruct (Hxy Hf) as (?&?&?&Hf'). destruct (Hyz Hf') as (?&?&?&?). split_and!; congruence.
Qed.

Lemma quiet_files_only w w' : quiet w w' → files_only w w'.
Proof. intros H Hf. destruct (H Hf) as [n ->]. by split_and!. Qed.

Lemma files_only_fs {A} (f : FS → result IoError A * FS) : respects files_only (fs_call f).
Proof. intros w Hf. by rewrite fs_call_ok. Qed.

Lemma files_only_write p c : respects files_only (write_file_atomic_optimized p c).
Proof.
  intros w Hf. pose proof (fs_only_write_file p c w) as (H1 & H2 & H3).
  split_and!; try done. by eapply write_atomic_quiet; [apply surjective_pairing|].
Qed.

Lemma respects_quiet_files {E A} (m : IO E A) : respects quiet m → respects files_only m.
Proof. apply respects_weaken, quiet_files_only. Qed.

(** A sequence that failed, failed in its first part or in the rest. *)
Lemma bind_failed {S E A B} (R : relation S) `{!PreOrder R} (m : prog S E A) (k : A → prog S E B) w e w' :
  respects R m → (∀ a w1, k a w1 = (Err e, w') → R w1 w') →
  (m ≫= k) w = (Err e, w') → R w w'.
Proof.
  intros Hm Hk. rewrite run_bind. pose proof (Hm w) as H1.
  destruct (m w) as [[a|e1] w1] eqn:Em; simpl in H1.
  - intros Hw%Hk. by etrans.
  - by intros [= _ <-].
Qed.

Section failures.
Context `{X : Externals} (self : StorageManager).

Lemma store_new_failed b k content ct opts hashes w e w' :
  w_faults w = [] → store_new self b k content ct opts hashes w = (Err e, w') → files_only w w'.
Proof.
  intros _. unfold store_new. destruct (compress_step self opts content) as [compressed is_c].
  apply (bind_failed _). { apply respects_quiet_files, quiet_encrypt_step. }
  intros processed w1. apply (bind_failed _).
  { destruct (parent_components _); [apply (respects_map_err _), files_only_fs|apply (respects_ret _)]. }
  intros _ w2. apply (bind_failed _). { apply (respects_map_err _), files_only_write. }
  intros _ w3. apply (bind_failed _).
  { apply respects_quiet_files. unfold new_v4. pose proof (@quiet_fill_bytes). solve_respects. }
  intros id w4. rewrite run_bind, run_now, run_bind, run_attempt.
  set (file := stored_row _ _ _ _ _ _ _ _ _ _ _ _).
  intros H Hf. destruct (save_file_run file w4) as [[e' Hs]|Hs]; rewrite Hs in H; cbn [fst snd] in H.
  - rewrite run_bind, run_attempt, fs_call_ok in H by (simpl; by rewrite Hf).
    rewrite run_throw in H. injection H as _ <-. simpl. by rewrite Hf.
  - by rewrite run_bind, run_attempt, run_bind, run_attempt, run_ret in H.
Qed.

Lemma store_found_failed b k content ct opts existing w e w' :
  w_faults w = [] → store_found self b k content ct opts existing w = (Err e, w') → files_only w w'.
Proof.
  intros Hf. unfold store_found. destruct existing as [f|]; [|by apply store_new_failed].
  destruct (_ && _); [done|]. apply (bind_failed _).
  { apply respects_quiet_files. unfold new_v4. pose proof (@quiet_fill_bytes). solve_respects. }
  intros id w1. rewrite run_bind, run_now, run_bind. set (al := aliased_row _ _ _ _ _ _ _ _).
  destruct (save_file_run al w1) as [[e' ->]| ->]; [|done]. intros [= _ <-] Hf1. simpl. by rewrite Hf1.
Qed.
End failures.

(** ** What the first phase finds *)

Section finding.
Context `{X : Externals} (self : StorageManager).

Lemma find_stored_ok b content w r w1 :
  w_faults w = [] → find_stored self b content w = (r, w1) →
  w_faults w1 = [] ∧ db_files (w_db w1) = db_files (w_db w) ∧ db_keys (w_db w1) = db_keys (w_db w) ∧
  w_cache w1 = w_cache w ∧ w_now w1 = w_now w ∧ fs_frame (λ _, False) (w_fs w) (w_fs w1) ∧
  match r with
  | Ok None => not_duplicate self content w
  | Ok (Some existing) => duplicate_of self content w existing
  | Err _ => True
  end.
Proof.
  intros Hf. unfold find_stored. rewrite run_bind.
  destruct (ensure_bucket_exists self b w) as [r0 w0] eqn:He.
  destruct (ensure_bucket_ok self _ _ _ _ Hf He) as (Hf0 & Hfiles & Hkeys & Hc & Hn).
  pose proof (ensure_bucket_frame self _ _ _ _ Hf He) as Hfr.
  destruct r0 as [[]|e]; [|by intros [= <- <-]]. unfold not_duplicate, duplicate_of.
  destruct (st_enable_deduplication _); [|by intros [= <- <-]].
  unfold get_file_by_hash. rewrite select_ok by done. intros [= <- <-].
  unfold scan. rewrite Hfiles. split_and!; try done.
  change (compute_hashes_parallel content).1 with (blake3_hex content).
  set (l := filter _ _). destruct l; done.
Qed.
End finding.

(** ** What the second phase stores *)

Section storing.
Context `{X : Externals} (self : StorageManager).

Lemma store_found_alias_inv b k content ct opts existing w file w' :
  w_faults w = [] → file_key existing ≠ (b, k) →
  store_found self b k content ct opts (Some existing) w = (Ok file, w') →
  ∃ id, file = aliased_row id b k ct opts (compute_hashes_parallel content) (w_now w) existing ∧
    w_db w' = after_save file (w_db w) ∧ w_fs w' = w_fs w ∧ w_cache w' = w_cache w ∧
    w_now w' = w_now w ∧ w_faults w' = [].
Proof.
  intros Hf Hne. unfold store_found.
  assert (bool_decide (sf_bucket existing = b) && bool_decide (sf_key existing = k) = false) as ->.
  { apply andb_false_iff. rewrite !bool_decide_eq_false. unfold file_key in Hne.
    destruct (decide (sf_bucket existing = b)); [right|by left]. intros ?. by subst. }
  unfold new_v4. rewrite !run_bind, run_fill_bytes, run_ret, run_bind, run_now.
  set (w2 := set_entropy_pos _ w). set (al := aliased_row _ _ _ _ _ _ _ _).
  rewrite run_bind. destruct (save_file_run al w2) as [[e ->]| ->]; [done|].
  cbn beta iota. rewrite run_ret. intros [= <- <-].
  exists (uuid_v4 (map (w_entropy w) (seq (w_entropy_pos w) 16))).
  split_and!; try done. simpl. by rewrite Hf.
Qed.
End storing.

(** ** The phases keep the tables consistent *)

Section phases_wf.
Context `{X : Externals} (self : StorageManager).

#[local] Hint Resolve fs_call_wf write_atomic_wf save_file_wf get_file_by_hash_wf create_bucket_wf : respects.
#[local] Hint Extern 2 (respects (keeps world_wf) _) =>
  (apply cache_only_keeps_wf; solve [eauto with respects]) : respects.
#[local] Hint Extern 2 (respects (keeps world_wf) (run_sql _)) =>
  (apply respects_wf_sql; solve [eauto with stmt]) : respects.

Lemma find_stored_wf b content : respects (keeps world_wf) (find_stored self b content).
Proof. unfold find_stored, ensure_bucket_exists. solve_respects. Qed.

Lemma store_found_wf b k content ct opts e :
  respects (keeps world_wf) (store_found self b k content ct opts e).
Proof. unfold store_found, store_new, encrypt_step, new_v4. solve_respects. Qed.

Lemma delete_row_wf b k : respects (keeps world_wf) (delete_row b k).
Proof. unfold delete_row. apply transaction_wf. solve_respects. Qed.

Lemma unlink_wf b k p n : respects (keeps world_wf) (unlink_and_invalidate self b k p n).
Proof. unfold unlink_and_invalidate. solve_respects. Qed.
End phases_wf.
