(* ===== verification/ObjectMap.v ===== *)
(** * The object map behind the service

    An abstract object store is a map from bucket and key to content, content
    type and expiry.  [represents] relates it to the state of the service:
    every row has its bytes on disk, they decode to the content of the object,
    and the cache holds nothing else.  Uploads, downloads and deletions of
    [StorageManager] are the insertions, lookups and deletions of the map. *)

From S2P Require Import Prelude.
From S2P Require Import Errors.
From S2P Require Import Models.
From S2P Require Import FileSystem.
From S2P Require Import Config.
From S2P Require Import Externals.
From S2P Require Import World.
From S2P Require Import Compression.
From S2P Require Import Crypto.
From S2P Require Import Database.
From S2P Require Import Cache.
From S2P Require Import EncryptionKeys.
From S2P Require Import Performance.
From S2P Require Import Storage.
From S2P Require Import Paths.
From S2P Require Import StorageWf.
From S2P Require Import Deletion.
From S2P Require Import Upload.
From S2P Require Import Phases.

(** ** What an upload can touch on disk *)

Section isolation.
Context `{X : Externals} (self : StorageManager).

(** The file of a key and the temporary file of its writes. *)
Definition upload_places (b k : string) (s : FS) (x : place) : Prop :=
  x = place_of s (get_file_path self b k)
  ∨ x = place_of s (with_extension (get_file_path self b k) "tmp").

Definition keeps_other_files (b k : string) (w w' : World) : Prop :=
  fs_frame (upload_places b k (w_fs w)) (w_fs w) (w_fs w').

#[export] Instance keeps_other_files_preorder b k : PreOrder (keeps_other_files b k).
Proof.
  split; unfold keeps_other_files; [intros w; reflexivity|].
  intros x y z Hxy Hyz. etrans; [exact Hxy|]. unfold upload_places in *.
  pose proof (proj1 (proj1 Hxy)) as Hc. by rewrite !(place_of_cwd _ _ _ Hc) in Hyz.
Qed.

#[export] Instance keeps_other_files_oblivious b k : Oblivious (keeps_other_files b k).
Proof. split; intros w ?; unfold keeps_other_files; reflexivity. Qed.

Lemma write_keeps_other_files b k c :
  respects (keeps_other_files b k) (write_file_atomic_optimized (get_file_path self b k) c).
Proof.
  intros w. unfold keeps_other_files. pose proof (write_atomic_cases (get_file_path self b k) c w) as H.
  destruct (write_file_atomic_optimized _ c w) as [r w']. simpl.
  destruct H as [[_ H]|[_ (l & m & Hl & Hm & _ & _ & Hd & _ & _ & Ho)]].
  - unfold write_failed in H. destruct (resolve _ _) as [l|e] eqn:El; [|by rewrite H].
    destruct H as [Hd Ho]. split; [done|]. intros x n Hx Hn. rewrite Ho; [done|].
    intros ->. apply Hx. right. by apply resolve_place.
  - split; [done|]. intros x n Hx Hn. rewrite Ho; [done|..]; intros ->; apply Hx;
      [right|left]; by apply resolve_place.
Qed.

Lemma mkdirs_keep_other_files b k (f : FS → result IoError FS) :
  (∀ s s', f s = Ok s' → ∃ start cs, fs_make_dirs s start cs = Ok s') →
  respects (keeps_other_files b k) (fs_call (fs_changing f)).
Proof.
  intros Hf. apply (respects_fs_call _). intros w. unfold keeps_other_files, fs_changing.
  destruct (f (w_fs w)) as [s'|e] eqn:Ef; simpl; [|reflexivity].
  destruct (Hf _ _ Ef) as (start & cs & H). by eapply fs_make_dirs_frame.
Qed.

Lemma remove_keeps_other_files b k :
  respects (keeps_other_files b k)
    (fs_call (fs_changing (λ s, fs_remove_file s (get_file_path self b k)))).
Proof.
  apply (respects_fs_call _). intros w. unfold keeps_other_files, fs_changing.
  destruct (fs_remove_file _ _) as [s'|e] eqn:Ef; simpl; [|reflexivity].
  eapply fs_remove_file_frame; [|exact Ef]. by left.
Qed.

Lemma db_keeps_other_files {A} b k (q : Stmt A) : respects (keeps_other_files b k) (db_call q).
Proof. apply (respects_db_call _). intros w a d _. unfold keeps_other_files. reflexivity. Qed.

Lemma cache_keeps_other_files {E A} b k (m : IO E A) :
  respects cache_only m → respects (keeps_other_files b k) m.
Proof.
  apply respects_weaken. intros w w' (Hfs & _ & _). unfold keeps_other_files. by rewrite Hfs.
Qed.

(** Whatever calls fail, the second phase of an upload changes no file but its
    own and its temporary one. *)
Lemma store_found_keeps_other_files b k c ct o e :
  respects (keeps_other_files b k) (store_found self b k c ct o e).
Proof.
  pose proof @db_keeps_other_files. pose proof write_keeps_other_files.
  pose proof remove_keeps_other_files.
  assert (∀ p cs, respects (keeps_other_files b k)
    (fs_call (fs_changing (λ s, fs_make_dirs s (start_place s p) cs)))).
  { intros p cs. apply mkdirs_keep_other_files. eauto. }
  assert (∀ f, respects (keeps_other_files b k) (set_file_metadata (sm_cache self) b k f)).
  { intros f. apply cache_keeps_other_files. eauto with respects. }
  assert (∀ f, respects (keeps_other_files b k) (set_file_content (sm_cache self) b k f)).
  { intros f. apply cache_keeps_other_files. eauto with respects. }
  unfold store_found, store_new, Database.save_file,
    encrypt_step, get_key, encrypt_with_key, encrypt, encrypt_aes, encrypt_chacha, new_v4, run_sql.
  solve_respects.
Qed.
End isolation.

(** ** The clock *)

(** No operation moves the clock. *)
Definition same_now (w w' : World) : Prop := w_now w' = w_now w.

#[export] Instance same_now_preorder : PreOrder same_now.
Proof. split; unfold same_now; [done|]. intros x y z H1 H2. congruence. Qed.

#[export] Instance same_now_oblivious : Oblivious same_now.
Proof. split; done. Qed.

Section clock.
Context `{X : Externals} (self : StorageManager).

Lemma same_now_sql {A} (q : Stmt A) : respects same_now (run_sql q).
Proof. apply (respects_run_sql _). done. Qed.

Lemma same_now_db {A} (q : Stmt A) : respects same_now (db_call q).
Proof. apply (respects_db_call _). done. Qed.

Lemma same_now_fs {A} (f : FS → result IoError A * FS) : respects same_now (fs_call f).
Proof. apply (respects_fs_call _). done. Qed.

Lemma same_now_write p c : respects same_now (write_file_atomic_optimized p c).
Proof. eapply respects_weaken, fs_only_write_file. by intros w w' (_ & _ & ?). Qed.

Lemma same_now_cache {E A} (m : IO E A) : respects cache_only m → respects same_now m.
Proof. apply respects_weaken. by intros w w' (_ & _ & ?). Qed.

#[local] Hint Resolve same_now_sql same_now_db same_now_fs same_now_write : respects.
#[local] Hint Extern 2 (respects same_now _) =>
  (apply same_now_cache; solve [eauto with respects]) : respects.

Lemma store_file_now b k c ct o : respects same_now (store_file self b k c ct o).
Proof.
  unfold store_file, store_new, ensure_bucket_exists, create_bucket, get_file_by_hash, Database.save_file,
    encrypt_step, get_key, encrypt_with_key, encrypt, encrypt_aes, encrypt_chacha, new_v4.
  solve_respects.
Qed.

Lemma delete_file_now b k : respects same_now (delete_file self b k).
Proof.
  unfold delete_file. apply (respects_bind _); [|solve_respects].
  apply (respects_transaction _); [done|]. solve_respects.
Qed.
#[local] Hint Resolve delete_file_now : respects.

Lemma get_file_now b k : respects same_now (get_file self b k).
Proof.
  unfold get_file, read_metadata, Database.get_file, read_content, decode_content, decrypt_content,
    get_key, touch, update_access. solve_respects.
Qed.
End clock.

(** ** The abstract store *)

Record Object := mkObject {
  ob_content : bytes;
  ob_type : string;
  ob_expires : option DateTime
}.

Abbreviation ObjectMap := (gmap (string * string) Object).

Definition alive (o : Object) (t : DateTime) : bool :=
  match ob_expires o with Some e => t <? e | None => true end.

(** The columns a read uses. *)
Definition same_stored (r r' : StoredFile) : Prop :=
  same_coding r r' ∧ sf_file_path r' = sf_file_path r ∧ sf_content_type r' = sf_content_type r ∧
  sf_expires_at r' = sf_expires_at r.

#[export] Instance same_stored_equivalence : Equivalence same_stored.
Proof.
  unfold same_stored, same_coding. split.
  - intros r. by split_and!.
  - intros r r' ((?&?&?&?)&?&?&?). split_and!; congruence.
  - intros r1 r2 r3 ((?&?&?&?)&?&?&?) ((?&?&?&?)&?&?&?). split_and!; congruence.
Qed.

Lemma same_stored_accessed r r' : accessed r r' → same_stored r r' ∧ sf_hash_blake3 r' = sf_hash_blake3 r.
Proof. intros [->|(t & n & ->)]; [|destruct r]; by split_and!. Qed.

Section store.
Context `{X : Externals, !ExternalsLaws X} (self : StorageManager).
Context (Hcw : cache_writable (sm_cache self)).

(** A row whose bytes on disk are those of an object. *)
Record stored_object (w : World) (row : StoredFile) (o : Object) : Prop := {
  so_bytes : ∃ raw, fs_read (w_fs w) (sf_file_path row) = Ok raw ∧
    ∀ w2, w_faults w2 = [] → db_keys (w_db w2) = db_keys (w_db w) →
      decode_content self row raw w2 = (Ok (ob_content o), w2);
  so_type : sf_content_type row = ob_type o;
  so_expires : sf_expires_at row = ob_expires o;
  so_hash : sf_hash_blake3 row = blake3_hex (ob_content o)
}.

Definition canonical_path (p : string) : Prop :=
  ∃ b k, ordinary_bucket b = true ∧ ordinary_key k = true ∧ p = get_file_path self b k.

Definition related (o : option Object) (row : option StoredFile) (w : World) : Prop :=
  match o, row with
  | Some o, Some row => stored_object w row o
  | None, None => True
  | _, _ => False
  end.

(** The state of the service holds an object map. *)
Record represents (w : World) (s : ObjectMap) : Prop := {
  rp_faults : w_faults w = [];
  rp_wf : db_wf (w_db w);
  rp_rows bk : related (s !! bk) (db_files (w_db w) !! bk) w;
  rp_paths bk row : db_files (w_db w) !! bk = Some row →
    ordinary_bucket bk.1 = true ∧ ordinary_key bk.2 = true ∧ canonical_path (sf_file_path row);
  rp_meta b k ser : ordinary_bucket b = true → w_cache w !! metadata_key b k = Some ser →
    ∃ r row, json_from_slice ser = Ok r ∧ db_files (w_db w) !! (b, k) = Some row ∧ same_stored row r;
  rp_content b k raw : ordinary_bucket b = true → w_cache w !! content_key b k = Some raw →
    ∃ row, db_files (w_db w) !! (b, k) = Some row ∧ fs_read (w_fs w) (sf_file_path row) = Ok raw
}.

Lemma represents_row w s b k o :
  represents w s → s !! (b, k) = Some o →
  ∃ row, db_files (w_db w) !! (b, k) = Some row ∧ stored_object w row o.
Proof using Type.
  intros Hr Hs. pose proof (rp_rows _ _ Hr (b, k)) as H. rewrite Hs in H.
  destruct (db_files (w_db w) !! (b, k)) as [row|]; [eauto|done].
Qed.

Lemma represents_none w s b k :
  represents w s → s !! (b, k) = None → db_files (w_db w) !! (b, k) = None.
Proof using Type.
  intros Hr Hs. pose proof (rp_rows _ _ Hr (b, k)) as H. rewrite Hs in H.
  by destruct (db_files (w_db w) !! (b, k)).
Qed.

Lemma cache_key_inj b k b' k' :
  ordinary_bucket b = true → ordinary_bucket b' = true →
  (metadata_key b k = metadata_key b' k' → b = b' ∧ k = k') ∧
  (content_key b k = content_key b' k' → b = b' ∧ k = k').
Proof using Type.
  intros (_ & _ & H)%ordinary_bucket_segments (_ & _ & H')%ordinary_bucket_segments.
  split; intros Heq; apply (colon_key_inj b k b' k' H H'); by injection Heq.
Qed.

(** Paths are equal when their places are. *)
Lemma represents_separate w s : represents w s → paths_separate w.
Proof using Type.
  intros Hr k1 k2 r1 r2 H1 H2 Hpl.
  destruct (rp_paths _ _ Hr _ _ H1) as (_ & _ & b1 & q1 & Hb1 & Hq1 & Hp1).
  destruct (rp_paths _ _ Hr _ _ H2) as (_ & _ & b2 & q2 & Hb2 & Hq2 & Hp2).
  rewrite Hp1, Hp2 in *. by apply file_place_inj in Hpl as [-> ->].
Qed.

(** What a read of an object finds. *)
Lemma represents_sees w s b k o :
  represents w s → ordinary_bucket b = true → s !! (b, k) = Some o →
  ∃ row r raw, db_files (w_db w) !! (b, k) = Some row ∧ same_stored row r ∧ sees_row b k w r ∧
    sees_bytes b k w r raw ∧ fs_read (w_fs w) (sf_file_path row) = Ok raw ∧
    (∀ w2, w_faults w2 = [] → db_keys (w_db w2) = db_keys (w_db w) →
      decode_content self r raw w2 = (Ok (ob_content o), w2)) ∧
    sf_content_type r = ob_type o ∧ sf_expires_at r = ob_expires o.
Proof using Type.
  intros Hr Hb Hs. destruct (represents_row _ _ _ _ _ Hr Hs) as (row & Hrow & [Hby Ht He _]).
  destruct Hby as (raw & Hread & Hdec).
  assert (∃ r, sees_row b k w r ∧ same_stored row r) as (r & Hsee & Hsame).
  { unfold sees_row. destruct (w_cache w !! metadata_key b k) as [ser|] eqn:Em.
    - destruct (rp_meta _ _ Hr _ _ _ Hb Em) as (r & row' & Hj & Hrow' & Hsm).
      assert (row' = row) as -> by congruence. exists r. split; [left; eauto|done].
    - exists row. split; [by right|]. by split_and!. }
  exists row, r, raw. destruct Hsame as (Hcd & Hp & Hct & Hex). split_and!; try done.
  - unfold sees_bytes. rewrite Hp. destruct (w_cache w !! content_key b k) as [raw'|] eqn:Ec; [left|by right].
    destruct (rp_content _ _ Hr _ _ _ Hb Ec) as (row' & Hrow' & Hread'). congruence.
  - intros w2 H1 H2. rewrite (decode_same_coding self row r) by done. auto.
  - congruence.
  - congruence.
Qed.

Lemma stored_object_same w w' row row' o :
  same_stored row row' → sf_hash_blake3 row' = sf_hash_blake3 row →
  db_keys (w_db w') = db_keys (w_db w) →
  (∀ d, fs_read (w_fs w) (sf_file_path row) = Ok d → fs_read (w_fs w') (sf_file_path row) = Ok d) →
  stored_object w row o → stored_object w' row' o.
Proof using Type.
  intros (Hcd & Hp & Hct & Hex) Hh Hk Hb [(raw & Hr & Hd) H2 H3 H4]. split; try congruence.
  exists raw. rewrite Hp. split; [by apply Hb|]. intros w2 Hf Hk2.
  rewrite (decode_same_coding self row row') by done. apply Hd; congruence.
Qed.

(** A read leaves the map as it is. *)
Lemma represents_after_read w s b k row r raw w' :
  represents w s → ordinary_bucket b = true → db_files (w_db w) !! (b, k) = Some row →
  same_stored row r → db_wf (w_db w') →
  after_read b k r raw w w' → represents w' s.
Proof using ExternalsLaws0.
  intros Hr Hb Hrow Hrr' Hwf' [Hfs Hnow Hf Hk (u & Hu & Hrows) Hcache].
  assert (∀ bk, db_files (w_db w') !! bk = u <$> db_files (w_db w) !! bk) as Hlk
    by (intros bk; by rewrite Hrows, lookup_fmap).
  assert (∀ bk row0, db_files (w_db w) !! bk = Some row0 →
    db_files (w_db w') !! bk = Some (u row0) ∧ same_stored row0 (u row0)
    ∧ sf_hash_blake3 (u row0) = sf_hash_blake3 row0) as Hup.
  { intros bk row0 H. rewrite Hlk, H. split; [done|]. by apply same_stored_accessed. }
  split; [done|done| | | |].
  - intros bk. pose proof (rp_rows _ _ Hr bk) as H. rewrite Hlk.
    destruct (s !! bk), (db_files (w_db w) !! bk) eqn:E; try done. simpl in *.
    destruct (Hup _ _ E) as (_ & H1 & H2). eapply stored_object_same; try done. by rewrite Hfs.
  - intros bk row' H. rewrite Hlk in H. apply fmap_Some in H as (row0 & H0 & ->).
    destruct (Hup _ _ H0) as (_ & (_ & -> & _ & _) & _). by eapply rp_paths.
  - intros b' k' ser Hb' [H|[(Heq & Hj & Hrr)|(Heq & _)]]%Hcache; [| |done].
    + destruct (rp_meta _ _ Hr _ _ _ Hb' H) as (r0 & row0 & Hj & H0 & Hs0).
      destruct (Hup _ _ H0) as (Hu0 & Hs1 & _).
      exists r0, (u row0). split_and!; [done|done|]. by rewrite <- Hs1.
    + apply cache_key_inj in Heq as [<- <-]; [|done..].
      destruct (Hup _ _ Hrr) as (Hu0 & Hs1 & _).
      exists r, (u r). split_and!; [by apply json_roundtrip|done|]. by symmetry.
  - intros b' k' raw' Hb' [H|[(Heq & _)|(Heq & -> & Hrd)]]%Hcache; [|done|].
    + destruct (rp_content _ _ Hr _ _ _ Hb' H) as (row0 & H0 & Hr0).
      destruct (Hup _ _ H0) as (Hu0 & (_ & Hp1 & _ & _) & _).
      exists (u row0). split; [done|]. by rewrite Hfs, Hp1.
    + apply cache_key_inj in Heq as [<- <-]; [|done..].
      destruct (Hup _ _ Hrow) as (Hu0 & (_ & Hp1 & _ & _) & _).
      exists (u row). split; [done|]. destruct Hrr' as (_ & Hp & _ & _).
      by rewrite Hfs, Hp1, <- Hp.
Qed.
(** ** Deletions *)

Lemma delete_refines w s b k :
  represents w s → ordinary_bucket b = true →
  match s !! (b, k) with
  | None => delete_file self b k w = (Err (NotFound b k), w)
  | Some _ =>
    (∃ w', delete_file self b k w = (Ok tt, w') ∧ w_now w' = w_now w ∧ represents w' (delete (b, k) s))
    ∨ (∃ msg, delete_file self b k w = (Err (Errors.Database msg), w))
  end.
Proof using All.
  intros Hr Hb. pose proof (rp_wf _ _ Hr) as Hwf. pose proof (rp_faults _ _ Hr) as Hf.
  pose proof (delete_file_ok self b k w Hwf Hf) as Hd.
  destruct (s !! (b, k)) as [o|] eqn:Es.
  2:{ by rewrite (represents_none _ _ _ _ Hr Es) in Hd. }
  destruct (represents_row _ _ _ _ _ Hr Es) as (row & Hrow & _). rewrite Hrow in Hd.
  destruct (delete_allowed b k (w_db w)); [left|by right; eexists].
  set (c' := remove_keys _ _) in Hd. set (fs' := unlinked _ _ _) in Hd.
  pose proof (delete_file_shrinks self b k w Hwf (represents_separate _ _ Hr)) as (Hwf' & Hsub & _ & Hby).
  rewrite Hd in Hwf', Hsub, Hby |- *. simpl in Hwf', Hby. eexists. split; [done|]. split; [done|].
  assert (∀ x, c' !! x = if decide (x = metadata_key b k ∨ x = content_key b k) then None
                         else w_cache w !! x) as Hc.
  { intros x. unfold c', remove_keys. simpl. case_decide as Hx.
    - destruct Hx as [->| ->].
      + destruct (decide (content_key b k = metadata_key b k)) as [|Hne]; [done|].
        rewrite ?lookup_delete_ne by done. by rewrite ?lookup_delete_eq.
      + rewrite ?lookup_delete_eq, ?lookup_delete_ne, ?lookup_delete_eq by done. done.
    - rewrite !lookup_delete_ne; [done|..]; intros <-; tauto. }
  assert (∀ bk r d, bk ≠ (b, k) → db_files (w_db w) !! bk = Some r →
    fs_read (w_fs w) (sf_file_path r) = Ok d → fs_read fs' (sf_file_path r) = Ok d) as Hby'.
  { intros bk r d Hne Hr0. apply (Hby bk). by rewrite lookup_delete_ne. }
  split; simpl; [done|done| | | |].
  - intros bk. destruct (decide (bk = (b, k))) as [->|Hne]; [by rewrite !lookup_delete_eq|].
    rewrite !lookup_delete_ne by done. pose proof (rp_rows _ _ Hr bk) as H.
    destruct (s !! bk), (db_files (w_db w) !! bk) eqn:E; try done.
    eapply (stored_object_same w); [reflexivity|done|done| |exact H]. intros d. by apply (Hby' bk).
  - intros bk r [_ H]%lookup_delete_Some. by apply (rp_paths _ _ Hr).
  - intros b' k' ser Hb'. rewrite Hc. case_decide as Hx; [done|]. intros H.
    destruct (rp_meta _ _ Hr _ _ _ Hb' H) as (r0 & row0 & Hj & H0 & Hs0).
    exists r0, row0. rewrite lookup_delete_ne; [done|]. intros [= <- <-]. tauto.
  - intros b' k' raw Hb'. rewrite Hc. case_decide as Hx; [done|]. intros H.
    destruct (rp_content _ _ Hr _ _ _ Hb' H) as (row0 & H0 & Hr0).
    assert ((b', k') ≠ (b, k)) by (intros [= -> ->]; tauto).
    exists row0. rewrite lookup_delete_ne by done. split; [done|]. by eapply Hby'.
Qed.

(** ** Downloads *)

Lemma expired_alive r o t : sf_expires_at r = ob_expires o → expired r t = negb (alive o t).
Proof using Type.
  unfold expired, alive. intros ->. destruct (ob_expires o) as [e|]; [|done]. simpl.
  destruct (Z.leb_spec e t), (Z.ltb_spec t e); done || lia.
Qed.

Lemma get_refines w s b k :
  represents w s → ordinary_bucket b = true →
  match s !! (b, k) with
  | None => ∃ w', get_file self b k w = (Err (NotFound b k), w') ∧ represents w' s
  | Some o =>
    if alive o (w_now w)
    then ∃ w', get_file self b k w = (Ok (ob_content o, Some (ob_type o)), w') ∧ represents w' s
    else ∃ w', get_file self b k w = (Err (NotFound b k), w')
               ∧ (represents w' s ∨ represents w' (delete (b, k) s))
  end.
Proof using All.
  intros Hr Hb. pose proof (rp_faults _ _ Hr) as Hf. destruct (s !! (b, k)) as [o|] eqn:Es.
  2:{ exists w. split; [|done]. pose proof (represents_none _ _ _ _ Hr Es) as Hn.
      apply get_file_absent; [done|done|].
      destruct (w_cache w !! metadata_key b k) as [ser|] eqn:E; [|done].
      destruct (rp_meta _ _ Hr _ _ _ Hb E) as (r & row & _ & H & _). congruence. }
  destruct (represents_sees _ _ _ _ _ Hr Hb Es)
    as (row & r & raw & Hrow & Hsame & Hsee & Hbytes & Hread & Hdec & Ht & Hex).
  pose proof (expired_alive r o (w_now w) Hex) as Hal. destruct (alive o (w_now w)); simpl in Hal.
  - destruct (get_file_ok self Hcw b k w r raw (ob_content o)) as (w' & Hget & Har); try done.
    { intros w2 H1 H2. apply Hdec; [done|by rewrite H2]. }
    exists w'. rewrite <- Ht. split; [done|]. eapply represents_after_read; try done.
    pose proof (storage_get_file_wf self b k w (rp_wf _ _ Hr)) as Hwf. by rewrite Hget in Hwf.
  - unfold get_file. rewrite run_bind.
    destruct (read_metadata_ok self Hcw b k w r Hf Hsee) as (c & -> & _ & Hc). cbn beta iota.
    rewrite run_bind, run_now. change (w_now (set_cache c w)) with (w_now w). rewrite Hal.
    assert (represents (set_cache c w) s) as Hr'.
    { eapply (represents_after_read w s b k row r []); try done; [apply (rp_wf _ _ Hr)|].
      split; try done.
      - exists (λ r, r). split; [by left|]. by rewrite map_fmap_id.
      - intros key v [H|(? & ? & ?)]%Hc; auto. }
    rewrite run_bind, run_attempt. cbn beta iota. pose proof (delete_refines _ _ b k Hr' Hb) as Hd.
    rewrite Es in Hd. eexists. split; [reflexivity|].
    destruct Hd as [(w' & -> & _ & Hrep)|(msg & ->)]; [by right|by left].
Qed.
(** ** Uploads *)

Lemma saved_row_same t f : same_stored f (saved_row t f) ∧ sf_hash_blake3 (saved_row t f) = sf_hash_blake3 f.
Proof using Type.
  destruct (saved_row_coding t f) as (H1 & H2 & H3 & H4). split; [by split_and!|].
  unfold saved_row. by destruct (t !! _), f.
Qed.

Lemma represents_same w s w' :
  represents w s → w_faults w' = [] → db_wf (w_db w') → db_files (w_db w') = db_files (w_db w) →
  db_keys (w_db w') = db_keys (w_db w) → w_cache w' = w_cache w →
  (∀ bk row d, db_files (w_db w) !! bk = Some row →
     fs_read (w_fs w) (sf_file_path row) = Ok d → fs_read (w_fs w') (sf_file_path row) = Ok d) →
  represents w' s.
Proof using Type.
  intros Hr Hf Hwf Hrows Hk Hc Hby. split; rewrite ?Hrows, ?Hc; try done.
  - intros bk. pose proof (rp_rows _ _ Hr bk) as H.
    destruct (s !! bk), (db_files (w_db w) !! bk) eqn:E; try done.
    eapply (stored_object_same w); [reflexivity|done|done| |exact H]. intros d. by apply (Hby bk).
  - apply (rp_paths _ _ Hr).
  - apply (rp_meta _ _ Hr).
  - intros b k raw Hb H. destruct (rp_content _ _ Hr _ _ _ Hb H) as (row & H1 & H2). eauto.
Qed.

(** A new row for a key, with its bytes on disk and its entries in the cache. *)
Lemma represents_insert w s b k o f w' :
  represents w s → ordinary_bucket b = true → ordinary_key k = true →
  w_faults w' = [] → db_wf (w_db w') → db_keys (w_db w') = db_keys (w_db w) →
  db_files (w_db w') = <[(b, k) := saved_row (db_files (w_db w)) f]> (db_files (w_db w)) →
  canonical_path (sf_file_path f) → stored_object w' f o →
  (∀ bk row d, bk ≠ (b, k) → db_files (w_db w) !! bk = Some row →
     fs_read (w_fs w) (sf_file_path row) = Ok d → fs_read (w_fs w') (sf_file_path row) = Ok d) →
  (∀ key v, w_cache w' !! key = Some v →
     (w_cache w !! key = Some v ∧ key ≠ metadata_key b k ∧ key ≠ content_key b k)
     ∨ key = metadata_key b k ∧ json_to_vec f = Ok v
     ∨ key = content_key b k ∧ fs_read (w_fs w') (sf_file_path f) = Ok v) →
  represents w' (<[(b, k) := o]> s).
Proof using ExternalsLaws0.
  intros Hr Hb Hk Hf Hwf Hkeys Hrows Hpath Hobj Hby Hcache.
  destruct (saved_row_same (db_files (w_db w)) f) as [Hsame Hhash].
  split; rewrite ?Hrows; [done|done| | | |].
  - intros bk. destruct (decide (bk = (b, k))) as [->|Hne].
    + rewrite !lookup_insert_eq. eapply (stored_object_same w'); [exact Hsame|done|done| |exact Hobj]. done.
    + rewrite !lookup_insert_ne by done. pose proof (rp_rows _ _ Hr bk) as H.
      destruct (s !! bk), (db_files (w_db w) !! bk) eqn:E; try done.
      eapply (stored_object_same w); [reflexivity|done|done| |exact H]. intros d. by apply (Hby bk).
  - intros bk row [[<- <-]|[_ H]]%lookup_insert_Some; [|by apply (rp_paths _ _ Hr)].
    destruct Hsame as (_ & -> & _ & _). by split_and!.
  - intros b' k' ser Hb' [(H & Hne & _)|[[Heq Hj]|[Heq _]]]%Hcache; [| |done].
    + destruct (rp_meta _ _ Hr _ _ _ Hb' H) as (r0 & row0 & Hj & H0 & Hs0).
      exists r0, row0. rewrite lookup_insert_ne; [done|]. by intros [= <- <-].
    + apply cache_key_inj in Heq as [-> ->]; [|done..]. eexists f, _. rewrite lookup_insert_eq.
      split_and!; [by apply json_roundtrip|done|by symmetry].
  - intros b' k' raw Hb' [(H & _ & Hne)|[[Heq _]|[Heq Hrd]]]%Hcache; [|done|].
    + destruct (rp_content _ _ Hr _ _ _ Hb' H) as (row0 & H0 & Hr0).
      assert ((b', k') ≠ (b, k)) as Hbk by (by intros [= -> ->]).
      exists row0. rewrite lookup_insert_ne by done. split; [done|]. by eapply Hby.
    + apply cache_key_inj in Heq as [-> ->]; [|done..]. eexists. rewrite lookup_insert_eq.
      split; [done|]. destruct Hsame as (_ & -> & _ & _). done.
Qed.

(** No other row keeps its bytes in the file of this key. *)
Definition path_unshared (w : World) (b k : string) : Prop :=
  ∀ bk row, bk ≠ (b, k) → db_files (w_db w) !! bk = Some row → sf_file_path row ≠ get_file_path self b k.

(** The file of another key keeps its bytes. *)
Lemma store_found_reads b k c ct opts e w p d :
  ordinary_bucket b = true → ordinary_key k = true →
  canonical_path p → p ≠ get_file_path self b k → fs_read (w_fs w) p = Ok d →
  fs_read (w_fs (store_found self b k c ct opts e w).2) p = Ok d.
Proof using Type.
  intros Hb Hk (b1 & k1 & Hb1 & Hk1 & ->) Hnp.
  apply (fs_read_in_frame _ _ _ _ _ (store_found_keeps_other_files self b k c ct opts e w)).
  intros [H|H].
  - apply file_place_inj in H as [-> ->]; done.
  - symmetry in H. revert H. by apply temp_not_file.
Qed.

(** An upload changes no row but the one of its key, whose path is its own or
    the one of the row it found. *)
Lemma store_found_rows b k c ct opts e w r w' :
  w_faults w = [] → store_found self b k c ct opts e w = (r, w') →
  db_keys (w_db w') = db_keys (w_db w) ∧
  (∀ bk, bk ≠ (b, k) → db_files (w_db w') !! bk = db_files (w_db w) !! bk) ∧
  ∀ row, db_files (w_db w') !! (b, k) = Some row →
    db_files (w_db w) !! (b, k) = Some row ∨ sf_file_path row = get_file_path self b k
    ∨ ∃ f, e = Some f ∧ sf_file_path row = sf_file_path f.
Proof using ExternalsLaws0 Hcw.
  intros Hf Hst.
  assert (∀ file, file_key file = (b, k) → w_db w' = after_save file (w_db w) →
    (sf_file_path file = get_file_path self b k ∨ ∃ f, e = Some f ∧ sf_file_path file = sf_file_path f) →
    db_keys (w_db w') = db_keys (w_db w) ∧
    (∀ bk, bk ≠ (b, k) → db_files (w_db w') !! bk = db_files (w_db w) !! bk) ∧
    ∀ row, db_files (w_db w') !! (b, k) = Some row →
      db_files (w_db w) !! (b, k) = Some row ∨ sf_file_path row = get_file_path self b k
      ∨ ∃ f, e = Some f ∧ sf_file_path row = sf_file_path f) as Hsave.
  { intros file Hkey -> Hp. unfold after_save. cbn [db_files set_files]. rewrite Hkey.
    split_and!; [done|intros bk Hne; by rewrite lookup_insert_ne|].
    intros row. rewrite lookup_insert_eq. intros [= <-]. right.
    destruct (saved_row_same (db_files (w_db w)) file) as [(_ & -> & _) _]. done. }
  destruct r as [file|err].
  2:{ pose proof (store_found_failed self _ _ _ _ _ _ _ _ _ Hf Hst Hf) as (Hdb & _). rewrite Hdb. auto. }
  destruct e as [f|].
  - destruct (decide (file_key f = (b, k))) as [Heq|Hne].
    + unfold store_found in Hst. injection Heq as Hkb Hkk. rewrite !bool_decide_eq_true_2 in Hst by done.
      injection Hst as _ <-. auto.
    + destruct (store_found_alias_inv self _ _ _ _ _ _ _ _ _ Hf Hne Hst) as (id & Hfile & Hdb & _).
      apply (Hsave file); [by rewrite Hfile|done|]. right. exists f. by rewrite Hfile.
  - destruct (store_new_inv self Hcw _ _ _ _ _ _ _ _ _ Hf Hst) as (cm & is_c & pr & id & ser & Hn).
    destruct Hn as [_ _ H3 _ _ H6 _ _ _].
    apply (Hsave file); [by rewrite H3|done|]. left. by rewrite H3.
Qed.

Lemma uncached w s b k :
  represents w s → ordinary_bucket b = true → s !! (b, k) = None →
  w_cache w !! metadata_key b k = None ∧ w_cache w !! content_key b k = None.
Proof using Type.
  intros Hr Hb Hs. pose proof (represents_none _ _ _ _ Hr Hs) as Hn. split.
  - destruct (w_cache w !! metadata_key b k) eqn:E; [|done].
    destruct (rp_meta _ _ Hr _ _ _ Hb E) as (? & ? & _ & H & _). congruence.
  - destruct (w_cache w !! content_key b k) eqn:E; [|done].
    destruct (rp_content _ _ Hr _ _ _ Hb E) as (? & H & _). congruence.
Qed.

(** No stored content has the hash of this one by accident. *)
Definition no_clash (s : ObjectMap) (content : bytes) : Prop :=
  ∀ bk o, s !! bk = Some o → blake3_hex (ob_content o) = blake3_hex content → ob_content o = content.

(** The row deduplication finds holds the content. *)
Lemma duplicate_object w s content existing :
  represents w s → no_clash s content → duplicate_of self content w existing →
  ∃ o, db_files (w_db w) !! file_key existing = Some existing ∧ s !! file_key existing = Some o ∧
    stored_object w existing o ∧ ob_content o = content.
Proof using ExternalsLaws0.
  intros Hr Hnc [_ Hhd]. assert (existing ∈ scan (λ f, bool_decide (sf_hash_blake3 f = blake3_hex content)) (w_db w)) as Hin.
  { destruct (scan _ _); [done|]. injection Hhd as ->. by left. }
  apply elem_of_scan in Hin as [Hh%bool_decide_eq_true [bk Hbk]].
  assert (file_key existing = bk) as -> by (by apply (wf_keyed _ (rp_wf _ _ Hr) bk)).
  pose proof (rp_rows _ _ Hr bk) as H. rewrite Hbk in H.
  destruct (s !! bk) as [o|] eqn:Es; [|done]. exists o. split_and!; try done.
  apply (Hnc _ _ Es). rewrite <- Hh. by rewrite (so_hash _ _ _ H).
Qed.

Lemma stored_object_bytes w w' row o :
  db_keys (w_db w') = db_keys (w_db w) →
  (∀ d, fs_read (w_fs w) (sf_file_path row) = Ok d → fs_read (w_fs w') (sf_file_path row) = Ok d) →
  stored_object w row o → stored_object w' row o.
Proof using Type. intros. by eapply (stored_object_same w w' row row). Qed.

(** What an upload may have made of the object of its key. *)
Definition stores (old : option Object) (content : bytes) (ct : option string)
    (expires : option DateTime) (o : Object) : Prop :=
  ob_content o = content ∧
  (old = Some o ∨ ob_expires o = expires ∧ ∀ t, ct = Some t → ob_type o = t).

(** The first phase of an upload leaves the map as it is. *)
Lemma find_stored_refines w s b content r w1 :
  represents w s → find_stored self b content w = (r, w1) →
  represents w1 s ∧ w_cache w1 = w_cache w ∧ db_files (w_db w1) = db_files (w_db w).
Proof using Type.
  intros Hr Hfind. destruct (find_stored_ok self _ _ _ _ _ (rp_faults _ _ Hr) Hfind)
    as (Hf & Hfiles & Hk & Hc & _ & Hfr & _).
  split; [|done]. apply (represents_same w); try done.
  - pose proof (find_stored_wf self b content w (rp_wf _ _ Hr)) as Hwf. by rewrite Hfind in Hwf.
  - intros bk row d _. by apply (fs_read_in_frame (λ _, False)); [|tauto].
Qed.

(** The upload is compressed only when the service would also decompress it. *)
Definition compresses_as_enabled (content : bytes) (opts : StoreOptions) : Prop :=
  (compress_step self opts content).2 = true → co_enabled (sm_compression self) = true.

(** The second phase, with the map as it is when it starts. *)
Section put.
Context (w : World) (s : ObjectMap) (b k : string) (content : bytes) (ct : option string)
  (opts : StoreOptions).
Context (Hr : represents w s) (Hb : ordinary_bucket b = true) (Hk : ordinary_key k = true).
Context (Hun : path_unshared w b k).

Lemma put_wf e : db_wf (w_db (store_found self b k content ct opts e w).2).
Proof using Hr. apply (store_found_wf self b k content ct opts e w (rp_wf _ _ Hr)). Qed.

Lemma put_reads e r w' bk row d :
  store_found self b k content ct opts e w = (r, w') →
  bk ≠ (b, k) → db_files (w_db w) !! bk = Some row →
  fs_read (w_fs w) (sf_file_path row) = Ok d → fs_read (w_fs w') (sf_file_path row) = Ok d.
Proof using Hr Hb Hk Hun.
  intros Hst Hne Hrow Hd. destruct (rp_paths _ _ Hr _ _ Hrow) as (_ & _ & Hcan).
  pose proof (store_found_reads b k content ct opts e w _ d Hb Hk Hcan (Hun _ _ Hne Hrow) Hd) as H.
  by rewrite Hst in H.
Qed.

Lemma put_new file w' :
  compresses_as_enabled content opts →
  store_found self b k content ct opts None w = (Ok file, w') →
  (w_cache w !! content_key b k = None ∨ sf_file_size file ≤ MAX_CACHE_SIZE) →
  ∃ o, represents w' (<[(b, k) := o]> s) ∧ stores (s !! (b, k)) content ct (so_expires_at opts) o
       ∧ sf_file_path file = get_file_path self b k.
Proof using All.
  intros Hcomp Hst Hold. pose proof (put_wf None) as Hwf. rewrite Hst in Hwf.
  destruct (store_new_inv self Hcw b k content ct opts _ w file w' (rp_faults _ _ Hr) Hst)
    as (compressed & is_c & processed & id & ser & [H1 [wE H2] H3 H4 H5 H6 H7 H8 H9]).
  assert (sf_file_path file = get_file_path self b k) as Hp by (by rewrite H3).
  assert (sf_file_size file = zlen processed) as Hsize by (by rewrite H3).
  exists (mkObject content (sf_content_type file) (sf_expires_at file)). split; [|split; [|done]].
  2:{ split; [done|]. right. rewrite H3. split; [done|]. by intros t ->. }
  apply (represents_insert w s b k _ file w'); try done.
  - by rewrite H6.
  - rewrite H6. unfold after_save. cbn [db_files set_files].
    by replace (file_key file) with (b, k) by (by rewrite H3).
  - rewrite Hp. by exists b, k.
  - split; [|done..|by rewrite H3]. exists processed. rewrite Hp. split; [done|].
    intros w2 Hf2 Hk2. rewrite H3.
    apply (decode_stored self Hcw opts content compressed is_c processed _ _ _ _ _ _ _ w wE); try done;
      [apply Hr|intros ->; apply Hcomp; by rewrite H1|by rewrite Hk2, H6].
  - intros bk row d. by eapply put_reads.
  - intros key v. rewrite H7, Hp. unfold cached_content. intros Hv. case_decide as Hbig.
    + apply lookup_insert_Some in Hv as [[<- <-]|[Hne Hv]]; [auto|]. left. split; [done|].
      split; [done|]. intros ->. destruct Hold as [Hold|]; [congruence|lia].
    + apply lookup_insert_Some in Hv as [[<- <-]|[Hne Hv]]; [auto|].
      apply lookup_insert_Some in Hv as [[<- <-]|[Hne' Hv]]; [auto|]. left. by split_and!.
Qed.

(** The row found may be out of date, as long as its bytes are in place. *)
Lemma put_alias existing o file w' :
  store_found self b k content ct opts (Some existing) w = (Ok file, w') →
  file_key existing ≠ (b, k) → canonical_path (sf_file_path existing) →
  stored_object w' existing o → ob_content o = content →
  w_cache w !! metadata_key b k = None → w_cache w !! content_key b k = None →
  ∃ o, represents w' (<[(b, k) := o]> s) ∧ stores (s !! (b, k)) content ct (so_expires_at opts) o
       ∧ sf_file_path file = sf_file_path existing.
Proof using All.
  intros Hst Hne Hcan [Hby _ _ Hh] Ho Hm Hc. pose proof (put_wf (Some existing)) as Hwf. rewrite Hst in Hwf.
  destruct (store_found_alias_inv self b k content ct opts existing w file w' (rp_faults _ _ Hr) Hne Hst)
    as (id & Hfile & Hdb & Hfs & Hcache & _ & Hf').
  assert (sf_file_path file = sf_file_path existing) as Hp by (by rewrite Hfile).
  exists (mkObject content (sf_content_type file) (sf_expires_at file)). split; [|split; [|done]].
  2:{ split; [done|]. right. rewrite Hfile. split; [done|]. by intros t ->. }
  apply (represents_insert w s b k _ file w'); try done.
  - by rewrite Hdb.
  - rewrite Hdb. unfold after_save. cbn [db_files set_files].
    by replace (file_key file) with (b, k) by (by rewrite Hfile).
  - by rewrite Hp.
  - split; [|done..|by rewrite Hfile]. rewrite Hp. destruct Hby as (raw & Hraw & Hdec).
    exists raw. split; [done|]. intros w2 Hf2 Hk2. rewrite (decode_same_coding self existing).
    + rewrite Hdec by done. by rewrite Ho.
    + rewrite Hfile. by split_and!.
  - intros bk row d. by eapply put_reads.
  - intros key v. rewrite Hcache. intros Hv. left. split; [done|]. split; intros ->; congruence.
Qed.

(** A failed upload of a key that holds nothing changes nothing. *)
Lemma put_failed existing e w' :
  store_found self b k content ct opts existing w = (Err e, w') → s !! (b, k) = None →
  represents w' s.
Proof using Hr Hb Hk Hun.
  intros Hst Hs. pose proof (put_wf existing) as Hwf. rewrite Hst in Hwf.
  pose proof (store_found_failed self _ _ _ _ _ _ _ _ _ (rp_faults _ _ Hr) Hst (rp_faults _ _ Hr)) as Hff.
  destruct Hff as (Hdb & Hc & _ & Hf). simpl in Hwf.
  apply (represents_same w); rewrite ?Hdb; try done; [by rewrite Hdb in Hwf|].
  intros bk row d Hrow. eapply put_reads; [done| |done].
  intros ->. by rewrite (represents_none _ _ _ _ Hr Hs) in Hrow.
Qed.
End put.

(** The cases in which the cache does not keep an older version of the key: it
    has none, or the upload writes and fits into the cache, or it is the same
    content again. *)
Definition cache_follows (w : World) (b k : string) (content : bytes) (file : StoredFile) : Prop :=
  (w_cache w !! metadata_key b k = None ∧ w_cache w !! content_key b k = None)
  ∨ (not_duplicate self content w ∧ sf_file_size file ≤ MAX_CACHE_SIZE)
  ∨ (∃ existing, duplicate_of self content w existing ∧ file_key existing = (b, k)).

(** A successful upload stores its content in the object map. *)
Lemma put_refines w s b k content ct opts file w' :
  compresses_as_enabled content opts → represents w s → ordinary_bucket b = true → ordinary_key k = true → path_unshared w b k →
  store_file self b k content ct opts w = (Ok file, w') →
  no_clash s content → cache_follows w b k content file →
  ∃ o, represents w' (<[(b, k) := o]> s) ∧ stores (s !! (b, k)) content ct (so_expires_at opts) o.
Proof using All.
  intros Hcomp Hr Hb Hk Hun Hst Hnc Hcf. rewrite store_file_phases, run_bind in Hst.
  destruct (find_stored self b content w) as [[existing|e] w1] eqn:Hfind; [|done].
  destruct (find_stored_ok self _ _ _ _ _ (rp_faults _ _ Hr) Hfind) as (_ & _ & _ & _ & _ & _ & Hfound).
  destruct (find_stored_refines _ _ _ _ _ _ Hr Hfind) as (Hr1 & Hc1 & Hfiles).
  assert (path_unshared w1 b k) as Hun1 by (unfold path_unshared; by rewrite Hfiles).
  destruct existing as [existing|].
  - destruct (duplicate_object _ _ _ _ Hr Hnc Hfound) as (o & Hrow & Hs & _ & Ho).
    destruct (decide (file_key existing = (b, k))) as [Heq|Hne].
    + rewrite Heq in Hs. exists o. rewrite Hs, insert_id by done. unfold store_found in Hst.
      injection Heq as Hkb Hkk. rewrite !bool_decide_eq_true_2 in Hst by done. injection Hst as _ <-.
      split; [done|]. split; [done|by left].
    + destruct Hcf as [[H1 H2]|[[Hnd _]|(e & [_ Hhd] & Hkey)]].
      * rewrite <- Hfiles in Hrow. pose proof (rp_rows _ _ Hr1 (file_key existing)) as Hobj.
        rewrite Hs, Hrow in Hobj. simpl in Hobj. destruct (rp_paths _ _ Hr1 _ _ Hrow) as (_ & _ & Hcan).
        destruct (store_found_alias_inv self _ _ _ _ _ _ _ _ _ (rp_faults _ _ Hr1) Hne Hst)
          as (id & _ & Hdb & Hfs & _).
        edestruct (put_alias w1 s b k content ct opts Hr1 Hb Hk Hun1 existing o file w')
          as (o' & Ho' & Hst' & _); rewrite ?Hc1; try done; [|by eauto].
        eapply stored_object_bytes; [| |exact Hobj]; [by rewrite Hdb|by rewrite Hfs].
      * destruct Hfound as [Hon Hhd]. specialize (Hnd Hon). by rewrite Hnd in Hhd.
      * destruct Hfound as [_ Hhd']. rewrite Hhd in Hhd'. injection Hhd' as ->. done.
  - destruct (put_new w1 s b k content ct opts Hr1 Hb Hk Hun1 file w' Hcomp) as (o & Ho & Hs & _);
      rewrite ?Hc1; [done| |by eauto].
    destruct Hcf as [[_ H]|[[_ H]|(e & [Hon Hhd] & _)]]; [auto..|].
    specialize (Hfound Hon). by rewrite Hfound in Hhd.
Qed.

Lemma put_failed_refines w s b k content ct opts e w' :
  represents w s → ordinary_bucket b = true → ordinary_key k = true → path_unshared w b k →
  store_file self b k content ct opts w = (Err e, w') → s !! (b, k) = None → represents w' s.
Proof using All.
  intros Hr Hb Hk Hun Hst Hs. rewrite store_file_phases, run_bind in Hst.
  destruct (find_stored self b content w) as [[existing|e1] w1] eqn:Hfind.
  - destruct (find_stored_refines _ _ _ _ _ _ Hr Hfind) as (Hr1 & Hc1 & Hfiles).
    apply (put_failed w1 s b k content ct opts Hr1 Hb Hk) with (existing := existing) (e := e); try done.
    unfold path_unshared. by rewrite Hfiles.
  - injection Hst as _ <-. by eapply find_stored_refines.
Qed.
End store.
