(* ===== verification/ObjectJobs.v ===== *)
(** * The background jobs and the object map

    The two jobs of the service are invisible to the map of ObjectMap: warming
    the cache leaves every object as it is, and the sweep removes expired
    objects only. *)

From S2P Require Import Prelude.
From S2P Require Import Errors.
From S2P Require Import Models.
From S2P Require Import FileSystem.
From S2P Require Import Config.
From S2P Require Import Externals.
From S2P Require Import World.
From S2P Require Import Compression.
From S2P Require Import Crypto.
From S2P Require Import Database.
From S2P Require Import Cache.
From S2P Require Import EncryptionKeys.
From S2P Require Import Performance.
From S2P Require Import Storage.
From S2P Require Import Paths.
From S2P Require Import StorageWf.
From S2P Require Import Deletion.
From S2P Require Import Upload.
From S2P Require Import Phases.
From S2P Require Import ObjectMap.

(** ** Warming *)

(** Entries appear only with the bytes the disk holds for a row; the rows keep
    all but their cache columns. *)
Record fills (w w' : World) : Prop := {
  fl_fs : w_fs w' = w_fs w;
  fl_now : w_now w' = w_now w;
  fl_keys : db_keys (w_db w') = db_keys (w_db w);
  fl_rows : rows_related same_but_cache (db_files (w_db w)) (db_files (w_db w'));
  fl_cache key v : w_cache w' !! key = Some v → w_cache w !! key = Some v
    ∨ ∃ b k row, db_files (w_db w) !! (b, k) = Some row ∧ key = content_key b k
                 ∧ fs_read (w_fs w) (sf_file_path row) = Ok v
}.

Lemma same_but_cache_path f f' : same_but_cache f f' → sf_file_path f' = sf_file_path f.
Proof. intros (s & u & h & ->). by destruct f. Qed.

Lemma same_but_cache_stored f f' :
  same_but_cache f f' → same_stored f f' ∧ sf_hash_blake3 f' = sf_hash_blake3 f.
Proof. intros (s & u & h & ->). by destruct f. Qed.

Lemma rows_related_some {R t t'} k r :
  rows_related R t t' → t !! k = Some r → ∃ r', t' !! k = Some r' ∧ R r r'.
Proof. intros H Hr. specialize (H k). rewrite Hr in H. destruct (t' !! k); [eauto|done]. Qed.

Lemma rows_related_back {R t t'} k r' :
  rows_related R t t' → t' !! k = Some r' → ∃ r, t !! k = Some r ∧ R r r'.
Proof. intros H Hr. specialize (H k). rewrite Hr in H. destruct (t !! k); [eauto|done]. Qed.

#[export] Instance fills_preorder : PreOrder fills.
Proof.
  split.
  - intros w. split; [done..| |by auto]. reflexivity.
  - intros x y z [F1 N1 K1 R1 C1] [F2 N2 K2 R2 C2]. split; try congruence; [by etrans|].
    intros key v [H|(b & k & row & Hrow & -> & Hv)]%C2; [by auto|]. right.
    destruct (rows_related_back _ _ R1 Hrow) as (row0 & H0 & Hs).
    exists b, k, row0. rewrite <- (same_but_cache_path _ _ Hs), <- F1. done.
Qed.

#[export] Instance fills_oblivious : Oblivious fills.
Proof. split; intros w ?; (split; [done..| |by auto]); reflexivity. Qed.

Section warming.
Context `{X : Externals, !ExternalsLaws X} (self : CacheManager).

Lemma fills_warming w w' :
  warming w w' → w_cache w' = w_cache w → fills w w'.
Proof using Type.
  intros (Hfs & Hn & Hdb & Hr) Hc. split; [done|done| |done|by rewrite Hc; auto].
  exact (f_equal db_keys Hdb).
Qed.

Lemma fills_set_status p s h : respects fills (run_sql (set_status p s h)).
Proof using Type.
  apply (respects_run_sql _). intros w [] d E. apply fills_warming; [|done].
  apply set_status_rows in E as [H1 H2]. by split_and!.
Qed.

Lemma calm_set_file_content b k c : respects calm (set_file_content self b k c).
Proof using Type.
  assert (∀ f, respects calm (memory_call (E:=StorageError) (A:=unit) f)) as Hm.
  { intros f w Hf. unfold memory_call, next_fault. rewrite Hf. by destruct (f _ _). }
  unfold set_file_content, backend_set, memory_insert, get_async_connection. solve_respects.
Qed.

(** Content cached for a row is what the disk holds for it. *)
Lemma set_file_content_cache b k c w key v :
  w_cache (set_file_content self b k c w).2 !! key = Some v →
  w_cache w !! key = Some v ∨ key = content_key b k ∧ v = c.
Proof using Type.
  assert (∀ w', w_cache w' = w_cache w ∨ w_cache w' = delete (content_key b k) (w_cache w)
            ∨ w_cache w' = <[content_key b k := c]> (w_cache w) →
          w_cache w' !! key = Some v → w_cache w !! key = Some v ∨ key = content_key b k ∧ v = c) as Hcases.
  { intros w' [->|[->| ->]]; [by auto|by intros [_ ?]%lookup_delete_Some; auto|].
    intros [[<- <-]|[_ ?]]%lookup_insert_Some; auto. }
  apply Hcases. unfold set_file_content. case_decide; [by left|]. unfold backend_set.
  destruct (cache_backend self).
  - unfold memory_insert, memory_call, next_fault. destruct (w_faults w) as [|[g|] fs]; simpl; auto.
  - rewrite run_bind, run_map_err. unfold get_async_connection, redis_call, next_fault.
    destruct (w_faults w) as [|[g|] fs] eqn:E; simpl; [|by auto|].
    + case_decide; simpl; rewrite ?run_map_err; unfold redis_call, next_fault; simpl; rewrite ?E; simpl; auto.
    + case_decide; simpl; [by auto|]. rewrite run_map_err. simpl.
      destruct fs as [|[g|] fs]; simpl; auto.
Qed.

Lemma fills_cache_file f w :
  (∃ row, db_files (w_db w) !! (sf_bucket f, sf_key f) = Some row ∧ sf_file_path row = sf_file_path f) →
  fills w (cache_file_from_disk self f w).2.
Proof using Type.
  intros (row & Hrow & Hpath). unfold cache_file_from_disk. rewrite run_bind, run_attempt.
  pose proof (respects_fs_reading fills (λ s, Ok (fs_exists s (sf_file_path f))) w) as H1.
  destruct (fs_call _ w) as [found w1]. cbn [fst snd] in *. destruct (negb _); [exact H1|].
  rewrite run_bind, run_map_err.
  assert (∀ v, (fs_call (fs_reading (λ s, fs_read s (sf_file_path f))) w1).1 = Ok v →
    fs_read (w_fs w1) (sf_file_path f) = Ok v) as Hv.
  { intros v. unfold fs_call, next_fault, fs_reading. by destruct (w_faults w1) as [|[g|] fs]. }
  pose proof (respects_fs_reading fills (λ s, fs_read s (sf_file_path f)) w1) as H2.
  destruct (fs_call _ w1) as [[content|e] w2]; cbn [fst snd map_result_err] in *; [|by etrans].
  rewrite run_bind. assert (fills w w2) as H by (by etrans).
  pose proof (set_file_content_cache (sf_bucket f) (sf_key f) content w2) as Hc.
  pose proof (cache_only_set_file_content self (sf_bucket f) (sf_key f) content w2) as (Hfs & Hdb & Hn).
  destruct (set_file_content _ _ _ _ w2) as [r w3]. cbn [fst snd] in *.
  assert (fills w w3) as H3; [|by destruct r].
  destruct H as [F N K R C]. split; rewrite ?Hfs, ?Hdb, ?Hn; try done.
  intros key v [Hk|[-> ->]]%Hc; [by apply C|]. right. exists (sf_bucket f), (sf_key f), row.
  split_and!; [done..|]. rewrite Hpath, <- (fl_fs _ _ H1). by apply Hv.
Qed.

(** A loop over rows of the table: each step fills, so the rows stay. *)
Lemma fills_for_each {B} (l : list StoredFile) (acc : B) (body : StoredFile → B → M B) w :
  (∀ f b w1, f ∈ l → fills w w1 → fills w1 (body f b w1).2) → fills w (for_each l acc body w).2.
Proof using Type.
  assert (∀ l' acc w1, l' ⊆ l → fills w w1 →
    (∀ f b w1, f ∈ l → fills w w1 → fills w1 (body f b w1).2) →
    fills w (for_each l' acc body w1).2) as H.
  { induction l' as [|f l' IH]; intros acc' w1 Hsub H1 Hb; [exact H1|].
    cbn [for_each]. rewrite run_bind.
    assert (fills w (body f acc' w1).2) as H2 by (etrans; [exact H1|apply Hb; [apply Hsub; by left|done]]).
    destruct (body f acc' w1) as [[b|e] w2]; [|exact H2].
    apply IH; [|done|done]. intros x Hx. apply Hsub. by right. }
  intros Hb. by apply H.
Qed.

Lemma preload_fills w : db_wf (w_db w) → fills w (preload_popular_files self w).2.
Proof using All.
  intros Hwf. unfold preload_popular_files. rewrite run_bind.
  pose proof (respects_get_cache_config fills w) as H0.
  destruct (get_cache_config w) as [[cfg|e] w0]; [|exact H0]. cbn [snd] in H0.
  destruct (negb _); [exact H0|]. cbv zeta. rewrite run_bind.
  set (popular := get_popular_uncached_files _ _).
  pose proof (respects_popular fills (default 5 (cc_min_access_count cfg)) 1000 w0) as H1.
  fold popular in H1.
  assert (∀ files, (popular w0).1 = Ok files → ∀ f, f ∈ files →
    ∃ k, db_files (w_db w0) !! k = Some f) as Hin.
  { intros files. unfold popular, get_popular_uncached_files, run_sql, map_err, db_call, next_fault.
    destruct (w_faults w0) as [|[g|] fs]; cbn; try done; intros [= <-] f Hf;
      apply subseteq_take, (sublist_subseteq _ _ (sublist_drop _ _)) in Hf;
      rewrite merge_sort_Permutation, scan_page_Permutation in Hf;
      exact (proj2 (proj1 (elem_of_scan _ _ _) Hf)). }
  destruct (popular w0) as [[files|e] w1]; [|by etrans]. cbn [fst snd] in *.
  rewrite run_bind. set (loop := for_each _ _ _). assert (fills w0 w1) as H01 by done.
  assert (fills w1 (loop w1).2) as H2.
  { apply fills_for_each. intros f b w2 Hf H12. case_decide; [reflexivity|]. rewrite run_bind, run_attempt.
    destruct (Hin files eq_refl f Hf) as ([b0 k0] & Hrow0).
    destruct (rows_related_back _ _ (fl_rows _ _ H0) Hrow0) as (r & Hr & Hsame).
    assert (file_key f = (b0, k0)) as Hkey.
    { pose proof (wf_keyed _ Hwf _ _ Hr) as Hk. simpl in Hk. rewrite <- Hk.
      destruct Hsame as (? & ? & ? & ->). by destruct r. }
    assert (fills w0 w2) as H02 by (by etrans).
    destruct (rows_related_some _ _ (fl_rows _ _ H02) Hrow0) as (row & Hrow & Hs).
    pose proof (fills_cache_file f w2) as H3. destruct (cache_file_from_disk self f w2) as [r2 w3].
    cbn [fst snd] in *. assert (fills w2 w3) as H23.
    { apply H3. exists row. unfold file_key in Hkey. rewrite Hkey. split; [done|].
      by apply same_but_cache_path. }
    unfold update_cache_status.
    destruct r2; rewrite run_bind;
      match goal with |- context [run_sql (set_status ?p ?s ?h) w3] =>
        pose proof (fills_set_status p s h w3); destruct (run_sql (set_status p s h) w3) as [[[]|] w4] end;
      by etrans. }
  assert (fills w (loop w1).2) as H3 by (etrans; [exact H0|etrans; [exact H01|exact H2]]).
  by destruct (loop w1) as [[n|e] w2].
Qed.

Lemma preload_calm : respects calm (preload_popular_files self).
Proof using Type.
  pose proof calm_set_file_content. pose proof @calm_run_sql. pose proof @calm_fs_call.
  unfold preload_popular_files, get_cache_config, get_popular_uncached_files, cache_file_from_disk,
    update_cache_status. solve_respects.
Qed.
End warming.

Section jobs.
Context `{X : Externals, !ExternalsLaws X} (self : StorageManager).
Context (Hcw : cache_writable (sm_cache self)).

Lemma represents_fills w s w' :
  represents self w s → fills w w' → w_faults w' = [] → db_wf (w_db w') → represents self w' s.
Proof using Type.
  intros Hr [Hfs Hn Hk Hrows Hc] Hf Hwf. split; [done|done| | | |].
  - intros bk. pose proof (rp_rows _ _ _ Hr bk) as H. pose proof (Hrows bk) as Hbk.
    destruct (s !! bk), (db_files (w_db w) !! bk), (db_files (w_db w') !! bk); try done.
    destruct (same_but_cache_stored _ _ Hbk) as [Hs Hh].
    eapply (stored_object_same self w); [exact Hs|done|done| |exact H]. by rewrite Hfs.
  - intros bk row' H. destruct (rows_related_back _ _ Hrows H) as (row & H0 & Hs).
    rewrite (same_but_cache_path _ _ Hs). by apply (rp_paths _ _ _ Hr).
  - intros b k ser Hb [H|(b' & k' & _ & _ & Heq & _)]%Hc; [|done].
    destruct (rp_meta _ _ _ Hr _ _ _ Hb H) as (r & row & Hj & H0 & Hs).
    destruct (rows_related_some _ _ Hrows H0) as (row' & H1 & Hs1).
    exists r, row'. split_and!; [done..|]. apply same_but_cache_stored in Hs1 as [Hs1 _]. by rewrite <- Hs1.
  - assert (∀ b k row raw, db_files (w_db w) !! (b, k) = Some row → fs_read (w_fs w) (sf_file_path row) = Ok raw →
      ∃ row', db_files (w_db w') !! (b, k) = Some row' ∧ fs_read (w_fs w') (sf_file_path row') = Ok raw) as Hkeep.
    { intros b k row raw H0 Hread. destruct (rows_related_some _ _ Hrows H0) as (row' & H1 & Hs1).
      exists row'. by rewrite (same_but_cache_path _ _ Hs1), Hfs. }
    intros b k raw Hb [H|(b' & k' & row & Hrow & Heq & Hread)]%Hc.
    + destruct (rp_content _ _ _ Hr _ _ _ Hb H) as (row & H0 & Hread). by eapply Hkeep.
    + destruct (rp_paths _ _ _ Hr _ _ Hrow) as (Hb' & _).
      apply (cache_key_inj b k b' k' Hb Hb') in Heq as [-> ->]. by eapply Hkeep.
Qed.

(** Warming leaves the map as it is. *)
Lemma warm_refines w s :
  represents self w s →
  let w' := (preload_popular_files (sm_cache self) w).2 in represents self w' s ∧ w_now w' = w_now w.
Proof using ExternalsLaws0.
  intros Hr. pose proof (rp_wf _ _ _ Hr) as Hwf. pose proof (preload_fills (sm_cache self) w Hwf) as H.
  split; [|apply (fl_now _ _ H)]. eapply represents_fills; [done|done| |].
  - apply preload_calm, (rp_faults _ _ _ Hr).
  - by apply (preload_wf (sm_cache self) w).
Qed.

(** ** The sweep *)

Lemma sweep_keys_refines keys removed w s :
  represents self w s → Forall (λ bk, ordinary_bucket bk.1 = true) keys →
  ∃ n w' s', for_each keys removed (sweep_body self) w = (Ok (removed + n), w') ∧
    represents self w' s' ∧ w_now w' = w_now w ∧ s' ⊆ s ∧ Z.of_nat (size s) = n + Z.of_nat (size s') ∧
    ∀ bk, bk ∉ keys → s' !! bk = s !! bk.
Proof using All.
  revert removed w s. induction keys as [|[b k] keys IH]; intros removed w s Hr Hord.
  - exists 0, w, s. rewrite Z.add_0_r. by split_and!.
  - apply Forall_cons in Hord as [Hb Hord]. cbn [fst] in Hb.
    assert (∃ n w1 s1, sweep_body self (b, k) removed w = (Ok (removed + n), w1) ∧ represents self w1 s1 ∧
      w_now w1 = w_now w ∧ s1 ⊆ s ∧ Z.of_nat (size s) = n + Z.of_nat (size s1) ∧
      ∀ bk, bk ≠ (b, k) → s1 !! bk = s !! bk) as (n1 & w1 & s1 & Hrun & Hr1 & Hn1 & Hs1 & Hz1 & Hl1).
    { unfold sweep_body. rewrite run_bind, run_attempt. cbn beta iota delta [fst snd].
      pose proof (delete_refines self Hcw w s b k Hr Hb) as H.
      destruct (s !! (b, k)) as [o|] eqn:Es.
      - destruct H as [(w1 & -> & Hn & Hr1)|(msg & ->)]; cbn [fst snd].
        + exists 1, w1, (delete (b, k) s). split_and!; try done.
          * apply delete_subseteq.
          * rewrite map_size_delete_Some by eauto.
            assert (size s ≠ 0%nat) by (apply map_size_ne_0_lookup; eauto). lia.
          * intros bk Hne. by rewrite lookup_delete_ne.
        + exists 0, w, s. rewrite Z.add_0_r. by split_and!.
      - rewrite H. exists 0, w, s. rewrite Z.add_0_r. by split_and!. }
    destruct (IH (removed + n1) w1 s1 Hr1 Hord) as (n & w' & s' & Hrun' & Hr' & Hn' & Hs' & Hz' & Hl').
    exists (n1 + n), w', s'. cbn [for_each]. rewrite run_bind, Hrun, Hrun'. split_and!; try done.
    + do 2 f_equal. lia.
    + congruence.
    + by etrans.
    + lia.
    + intros bk [Hne Hk]%not_elem_of_cons. by rewrite Hl', Hl1.
Qed.

(** The sweep removes expired objects only, and counts them. *)
Lemma sweep_refines w s :
  represents self w s →
  ∃ n w' s', sweep_expired_files self w = (Ok n, w') ∧ represents self w' s' ∧ w_now w' = w_now w ∧
    s' ⊆ s ∧ Z.of_nat (size s) = n + Z.of_nat (size s') ∧
    ∀ bk o, s !! bk = Some o → s' !! bk = None → alive o (w_now w) = false.
Proof using All.
  intros Hr. unfold sweep_expired_files, list_expired_files. rewrite run_bind.
  rewrite run_sql_ok, set_db_id by apply (rp_faults _ _ _ Hr).
  set (keys := file_key <$> _).
  assert (∀ bk, bk ∈ keys → ∃ row, db_files (w_db w) !! bk = Some row ∧ is_expired (w_now w) row = true) as Hkeys.
  { intros bk (row & -> & [He [k Hk]]%elem_of_scan)%list_elem_of_fmap. exists row.
    by rewrite (wf_keyed _ (rp_wf _ _ _ Hr) _ _ Hk). }
  destruct (sweep_keys_refines keys 0 w s Hr) as (n & w' & s' & Hrun & Hr' & Hn & Hs & Hz & Hl).
  { apply Forall_forall. intros bk (row & Hrow & _)%Hkeys. apply (rp_paths _ _ _ Hr _ _ Hrow). }
  exists n, w', s'. split; [exact Hrun|]. split_and!; try done. intros bk o Ho Hgone.
  destruct (decide (bk ∈ keys)) as [Hin|Hnot]; [|by rewrite (Hl bk Hnot), Ho in Hgone].
  destruct (Hkeys bk Hin) as (row & Hrow & He). destruct bk as [b k].
  destruct (represents_row self _ _ _ _ _ Hr Ho) as (row' & Hrow' & Hst). assert (row' = row) as -> by congruence.
  unfold is_expired in He. rewrite (so_expires _ _ _ _ Hst) in He. unfold alive.
  destruct (ob_expires o) as [e|]; [|done]. apply Z.ltb_lt in He. apply Z.ltb_ge. lia.
Qed.
End jobs.
