(* ===== verification/ObjectStore.v ===== *)
(** * The object store the service promises

    The requests of a client and the jobs of the service, answered by the map
    of ObjectMap and by [StorageManager]: every answer of the service is one
    the map may give. *)

From S2P Require Import Prelude.
From S2P Require Import Errors.
From S2P Require Import Models.
From S2P Require Import FileSystem.
From S2P Require Import Config.
From S2P Require Import Externals.
From S2P Require Import World.
From S2P Require Import Compression.
From S2P Require Import Crypto.
From S2P Require Import Database.
From S2P Require Import Cache.
From S2P Require Import EncryptionKeys.
From S2P Require Import Performance.
From S2P Require Import Storage.
From S2P Require Import Paths.
From S2P Require Import StorageWf.
From S2P Require Import Deletion.
From S2P Require Import Upload.
From S2P Require Import Phases.
From S2P Require Import ObjectMap.
From S2P Require Import ObjectJobs.

(** ** Requests against the map *)

Inductive Op :=
| Put (b k : string) (content : bytes) (content_type : option string) (opts : StoreOptions)
| Get (b k : string)
| Delete (b k : string)
| Sweep
| Warm
| Elapse (t : DateTime) (cache : gmap string bytes).

Inductive Answer :=
| Stored
| Content (content : bytes) (content_type : string)
| Deleted
| Swept (removed : Z)
| Warmed
| Elapsed
| Failed (e : StorageError).

(** What the map answers.  Time passes only between requests; an expired
    object is gone for readers, and may have been removed.  A sweep removes
    expired objects only, and says how many; warming the cache changes
    nothing. *)
Inductive spec_step : ObjectMap * DateTime → Op → Answer → ObjectMap * DateTime → Prop :=
| spec_put s t b k content ct opts o :
    stores (s !! (b, k)) content ct (so_expires_at opts) o →
    spec_step (s, t) (Put b k content ct opts) Stored (<[(b, k) := o]> s, t)
| spec_put_failed s t b k content ct opts e :
    s !! (b, k) = None → spec_step (s, t) (Put b k content ct opts) (Failed e) (s, t)
| spec_get s t b k o :
    s !! (b, k) = Some o → alive o t = true →
    spec_step (s, t) (Get b k) (Content (ob_content o) (ob_type o)) (s, t)
| spec_get_absent s t b k :
    s !! (b, k) = None → spec_step (s, t) (Get b k) (Failed (NotFound b k)) (s, t)
| spec_get_expired s t b k o s' :
    s !! (b, k) = Some o → alive o t = false → s' = s ∨ s' = delete (b, k) s →
    spec_step (s, t) (Get b k) (Failed (NotFound b k)) (s', t)
| spec_delete s t b k :
    is_Some (s !! (b, k)) → spec_step (s, t) (Delete b k) Deleted (delete (b, k) s, t)
| spec_delete_absent s t b k :
    s !! (b, k) = None → spec_step (s, t) (Delete b k) (Failed (NotFound b k)) (s, t)
| spec_delete_refused s t b k msg :
    is_Some (s !! (b, k)) → spec_step (s, t) (Delete b k) (Failed (Errors.Database msg)) (s, t)
| spec_sweep s t n s' :
    s' ⊆ s → Z.of_nat (size s) = n + Z.of_nat (size s') →
    (∀ bk o, s !! bk = Some o → s' !! bk = None → alive o t = false) →
    spec_step (s, t) Sweep (Swept n) (s', t)
| spec_warm s t : spec_step (s, t) Warm Warmed (s, t)
| spec_elapse s t t' c : t ≤ t' → spec_step (s, t) (Elapse t' c) Elapsed (s, t').

Inductive spec_runs : ObjectMap * DateTime → list (Op * Answer) → ObjectMap * DateTime → Prop :=
| spec_runs_nil st : spec_runs st [] st
| spec_runs_cons st o a st1 tr st2 :
    spec_step st o a st1 → spec_runs st1 tr st2 → spec_runs st ((o, a) :: tr) st2.

Section service.
Context `{X : Externals} (self : StorageManager).

(** What the service answers. *)
Definition run_op (o : Op) (w : World) : Answer * World :=
  match o with
  | Put b k content ct opts =>
    let '(r, w') := store_file self b k content ct opts w in
    (match r with Ok _ => Stored | Err e => Failed e end, w')
  | Get b k =>
    let '(r, w') := get_file self b k w in
    (match r with
     | Ok (content, ct) => Content content (default EmptyString ct)
     | Err e => Failed e
     end, w')
  | Delete b k =>
    let '(r, w') := delete_file self b k w in
    (match r with Ok _ => Deleted | Err e => Failed e end, w')
  | Sweep =>
    let '(r, w') := sweep_expired_files self w in
    (match r with Ok n => Swept n | Err e => Failed e end, w')
  | Warm => (Warmed, (preload_popular_files (sm_cache self) w).2)
  | Elapse t c => (Elapsed, set_now t (set_cache c w))
  end.

(** The requests the map describes: ordinary names; uploads that do not write
    over bytes another key uses, that do not ask for a compression the service
    does not undo, that the cache follows when they succeed, and whose key holds
    nothing when they fail. *)
Definition admissible (contents : bytes → Prop) (w : World) (o : Op) : Prop :=
  match o with
  | Put b k content ct opts =>
    ordinary_bucket b = true ∧ ordinary_key k = true ∧ path_unshared self w b k ∧ contents content ∧
    compresses_as_enabled self content opts ∧
    match (store_file self b k content ct opts w).1 with
    | Ok file => cache_follows self w b k content file
    | Err _ => db_files (w_db w) !! (b, k) = None
    end
  | Get b _ | Delete b _ => ordinary_bucket b = true
  | Sweep | Warm => True
  | Elapse t c => w_now w ≤ t ∧ c ⊆ w_cache w
  end.

Inductive runs (contents : bytes → Prop) : World → list (Op * Answer) → World → Prop :=
| runs_nil w : runs contents w [] w
| runs_cons w o a w1 tr w2 :
    admissible contents w o → run_op o w = (a, w1) → runs contents w1 tr w2 →
    runs contents w ((o, a) :: tr) w2.
End service.

Section refinement.
Context `{X : Externals, !ExternalsLaws X} (self : StorageManager).
Context (Hcw : cache_writable (sm_cache self)).

Lemma represents_elapse w s t c :
  represents self w s → c ⊆ w_cache w → represents self (set_now t (set_cache c w)) s.
Proof using Type.
  intros Hr Hc. split; simpl; try apply Hr.
  - intros bk. pose proof (rp_rows _ _ _ Hr bk) as H.
    destruct (s !! bk), (db_files (w_db w) !! bk) eqn:E; try done. by destruct H.
  - intros b k ser Hb H. eapply (rp_meta _ _ _ Hr); [done|]. by eapply lookup_weaken.
  - intros b k raw Hb H. eapply (rp_content _ _ _ Hr); [done|]. by eapply lookup_weaken.
Qed.

Lemma put_step contents w s b k c ct opts :
  (∀ x y, contents x → contents y → blake3_hex x = blake3_hex y → x = y) →
  (∀ bk o, s !! bk = Some o → contents (ob_content o)) →
  represents self w s → admissible self contents w (Put b k c ct opts) →
  ∃ s', spec_step (s, w_now w) (Put b k c ct opts) (run_op self (Put b k c ct opts) w).1
          (s', w_now (run_op self (Put b k c ct opts) w).2)
        ∧ represents self (run_op self (Put b k c ct opts) w).2 s'
        ∧ ∀ bk o, s' !! bk = Some o → contents (ob_content o).
Proof using All.
  intros Hinj Hin Hr (Hb & Hk & Hun & Hc & Hcomp & Had).
  pose proof (store_file_now self b k c ct opts w) as Hnow. unfold same_now in Hnow. simpl.
  destruct (store_file self b k c ct opts w) as [[file|e] w'] eqn:Hst; simpl in *; rewrite Hnow.
  - destruct (put_refines self Hcw w s b k c ct opts file w' Hcomp Hr Hb Hk Hun Hst) as (o & Hr' & Ho).
    + intros bk o Ho Hh. apply Hinj; eauto.
    + done.
    + exists (<[(b, k):=o]> s). split; [by constructor|]. split; [done|].
      intros bk o' [[_ <-]|[_ ?]]%lookup_insert_Some; [|by eauto]. by rewrite (proj1 Ho).
  - assert (s !! (b, k) = None) as Hs.
    { pose proof (rp_rows _ _ _ Hr (b, k)) as H. rewrite Had in H. by destruct (s !! (b, k)). }
    exists s. split; [by constructor|]. split; [|done]. by eapply put_failed_refines.
Qed.

Lemma op_step contents w s o :
  (∀ x y, contents x → contents y → blake3_hex x = blake3_hex y → x = y) →
  (∀ bk o, s !! bk = Some o → contents (ob_content o)) →
  represents self w s → admissible self contents w o →
  ∃ s', spec_step (s, w_now w) o (run_op self o w).1 (s', w_now (run_op self o w).2)
        ∧ represents self (run_op self o w).2 s'
        ∧ ∀ bk o, s' !! bk = Some o → contents (ob_content o).
Proof using All.
  intros Hinj Hin Hr Had. destruct o as [b k c ct opts|b k|b k| | |t c]; [by apply put_step|..]; simpl in *.
  - pose proof (get_file_now self b k w) as Hnow. unfold same_now in Hnow.
    pose proof (get_refines self Hcw w s b k Hr Had) as Hg.
    destruct (s !! (b, k)) as [o|] eqn:Es; [destruct (alive o (w_now w)) eqn:Ea|];
      destruct Hg as (w' & Hg & Hr'); rewrite Hg in Hnow |- *; simpl in *; rewrite Hnow.
    + exists s. split; [by econstructor|done].
    + destruct Hr' as [Hr'|Hr'].
      * exists s. split; [by eapply spec_get_expired; [..|left]|done].
      * exists (delete (b, k) s). split; [by eapply spec_get_expired; [..|right]|]. split; [done|].
        intros bk o' [_ ?]%lookup_delete_Some. eauto.
    + exists s. split; [by constructor|done].
  - pose proof (delete_refines self Hcw w s b k Hr Had) as Hd.
    destruct (s !! (b, k)) as [o|] eqn:Es.
    2:{ rewrite Hd. exists s. split; [by constructor|done]. }
    destruct Hd as [(w' & -> & Hnow & Hr')|(msg & ->)]; simpl.
    + rewrite Hnow. eexists. split; [by constructor|]. split; [done|].
      intros bk o' [_ ?]%lookup_delete_Some. eauto.
    + exists s. split; [by constructor|done].
  - destruct (sweep_refines self Hcw w s Hr) as (n & w' & s' & -> & Hr' & Hn & Hsub & Hz & Hex).
    exists s'. simpl. rewrite Hn. split; [by constructor|]. split; [done|].
    intros bk o' Ho. eapply Hin, lookup_weaken; done.
  - destruct (warm_refines self w s Hr) as [Hr' ->]. exists s. split; [by constructor|done].
  - destruct Had as [Ht Hc]. exists s. split; [by constructor|]. split; [|done].
    by apply represents_elapse.
Qed.

(** C1: The service implements an object store.  Against any state that
    represents a map from keys to objects, every sequence of admissible uploads,
    downloads, deletions, expiry sweeps, rounds of the cache preloader,
    passages of time and losses of cache entries is answered as the map
    answers it: an upload inserts its content, a download returns what the key
    holds with its type until it expires, a deletion removes that key and no
    other, a sweep removes expired objects only and counts them, preloading
    changes no object, and the state keeps representing the map.
    Assumed: no call fails, the hashes of the contents differ, and a Redis cache
    has a time to live that is not zero.  Admissible are
    all requests on ordinary names but these uploads: one whose path another row
    uses for its bytes; one that is compressed while compression is off (the
    default, where only a request that asks for it is); an overwrite of a cached
    key that does not reach the cache (content that another key holds, or more
    than the cache takes); and one that fails on a key that holds something.
    What the service does then is in the findings. *)
Theorem implements_object_store contents w s tr w' :
  (∀ x y, contents x → contents y → blake3_hex x = blake3_hex y → x = y) →
  (∀ bk o, s !! bk = Some o → contents (ob_content o)) →
  represents self w s → runs self contents w tr w' →
  ∃ s', spec_runs (s, w_now w) tr (s', w_now w') ∧ represents self w' s'.
Proof.
  intros Hinj Hin Hr Hruns. revert s Hin Hr.
  induction Hruns as [w|w o a w1 tr w2 Had Hrun _ IH]; intros s Hin Hr.
  - exists s. split; [constructor|done].
  - destruct (op_step contents w s o Hinj Hin Hr Had) as (s1 & Hs & Hr1 & Hin1).
    rewrite Hrun in Hs, Hr1. destruct (IH s1 Hin1 Hr1) as (s' & Hsr & Hr').
    exists s'. split; [by econstructor|done].
Qed.

(** An empty service represents the empty map. *)
Lemma represents_empty w :
  w_faults w = [] → db_wf (w_db w) → db_files (w_db w) = ∅ → w_cache w = ∅ → represents self w ∅.
Proof using Type.
  intros Hf Hwf Hd Hc. split; rewrite ?Hd, ?Hc; done.
Qed.
End refinement.

(** ** Checking a run *)

Section checking.
Context `{X : Externals} (self : StorageManager) (contents : list bytes).

Definition not_duplicate_b (content : bytes) (w : World) : bool :=
  negb (st_enable_deduplication (cfg_storage (sm_config self)))
  || bool_decide (scan (λ f, bool_decide (sf_hash_blake3 f = blake3_hex content)) (w_db w) = []).

Definition cache_follows_b (w : World) (b k : string) (content : bytes) (file : StoredFile) : bool :=
  bool_decide (w_cache w !! metadata_key b k = None ∧ w_cache w !! content_key b k = None)
  || not_duplicate_b content w && bool_decide (sf_file_size file ≤ MAX_CACHE_SIZE).

Definition admissible_b (w : World) (o : Op) : bool :=
  match o with
  | Put b k content ct opts =>
    ordinary_bucket b && ordinary_key k
    && bool_decide (map_Forall (λ bk row, bk ≠ (b, k) → sf_file_path row ≠ get_file_path self b k)
                      (db_files (w_db w)))
    && bool_decide (content ∈ contents)
    && (negb (compress_step self opts content).2 || co_enabled (sm_compression self))
    && match (store_file self b k content ct opts w).1 with
       | Ok file => cache_follows_b w b k content file
       | Err _ => bool_decide (db_files (w_db w) !! (b, k) = None)
       end
  | Get b _ | Delete b _ => ordinary_bucket b
  | Sweep | Warm => true
  | Elapse t c => bool_decide (w_now w ≤ t ∧ map_Forall (λ k v, w_cache w !! k = Some v) c)
  end.

Lemma admissible_b_sound w o : admissible_b w o = true → admissible self (.∈ contents) w o.
Proof using Type.
  destruct o as [b k c ct opts|b k|b k| | |t c]; simpl; [|done..|].
  - rewrite !andb_true_iff. intros [[[[[Hb Hk] Hp%bool_decide_eq_true] Hc%bool_decide_eq_true] Hco] Hf].
    split_and!; try done; [by intros bk row ? ?; eapply Hp|by intros Hz; rewrite Hz in Hco|].
    destruct (store_file self b k c ct opts w).1 as [file|]; [|by apply bool_decide_eq_true in Hf].
    apply orb_true_iff in Hf as [Hf%bool_decide_eq_true|[Hnd Hs]%andb_true_iff]; [by left|].
    right. left. apply bool_decide_eq_true in Hs. split; [|done]. intros Hon.
    unfold not_duplicate_b in Hnd. rewrite Hon in Hnd. by apply bool_decide_eq_true in Hnd.
  - intros [Ht Hc]%bool_decide_eq_true. split; [done|]. by apply map_subseteq_spec.
Qed.

(** The answers and the final state of a list of admissible requests. *)
Fixpoint run_ops (ops : list Op) (w : World) : option (list (Op * Answer) * World) :=
  match ops with
  | [] => Some ([], w)
  | o :: ops =>
    if admissible_b w o then
      let '(a, w1) := run_op self o w in
      '(tr, w2) ← run_ops ops w1;
      Some ((o, a) :: tr, w2)
    else None
  end.

Lemma run_ops_sound ops w tr w' :
  run_ops ops w = Some (tr, w') → runs self (.∈ contents) w tr w'.
Proof using Type.
  revert w tr. induction ops as [|o ops IH]; intros w tr; simpl.
  - intros [= <- <-]. constructor.
  - destruct (admissible_b w o) eqn:Ha; [|done]. destruct (run_op self o w) as [a w1] eqn:Ho.
    destruct (run_ops ops w1) as [[tr1 w2]|] eqn:Er; [|done]. intros [= <- <-].
    econstructor; [by apply admissible_b_sound|done|by apply IH].
Qed.
End checking.

Definition sample_contents : list bytes := [[Byte.x61; Byte.x62]; [Byte.x63]; []].

(** An upload, its alias, a read of the alias, another upload, the deletion
    of the first key, a round of the preloader, an hour and a lost cache, and
    reads of what is left; then an upload already expired, and the sweep. *)
Definition sample_ops : list Op := [
  Put "b" "k" [Byte.x61; Byte.x62] (Some "text/plain") (with_ttl 50);
  Put "c" "dir/copy" [Byte.x61; Byte.x62] None default_options;
  Get "c" "dir/copy";
  Put "b" "k2" [Byte.x63] None (with_ttl 50);
  Delete "b" "k";
  Warm;
  Elapse 3600 ∅;
  Get "c" "dir/copy";
  Get "b" "k2";
  Put "b" "k3" [] None (with_ttl 60);
  Sweep;
  Get "b" "k3";
  Get "b" "k"
].

Definition sample_run : option (list (Op * Answer) * World) :=
  run_ops (X:=Toy.ToyExternals) sample_storage sample_contents sample_ops start_world.

Lemma sample_contents_distinct x y :
  x ∈ sample_contents → y ∈ sample_contents →
  blake3_hex (Externals:=Toy.ToyExternals) x = blake3_hex (Externals:=Toy.ToyExternals) y → x = y.
Proof.
  assert (Forall (λ x, Forall (λ y, blake3_hex (Externals:=Toy.ToyExternals) x
      = blake3_hex (Externals:=Toy.ToyExternals) y → x = y) sample_contents) sample_contents) as H
    by (repeat constructor; intros H; try reflexivity; exfalso; vm_compute in H; discriminate H).
  rewrite Forall_forall in H. intros Hx Hy. specialize (H x Hx). rewrite Forall_forall in H. by apply H.
Qed.

Lemma implements_object_store_witness :
  match sample_run with
  | Some (tr, w') =>
    tr.*2 = [Stored; Stored; Content [Byte.x61; Byte.x62] "text/plain"; Stored; Deleted; Warmed; Elapsed;
             Content [Byte.x61; Byte.x62] "text/plain"; Failed (NotFound "b" "k2"); Stored; Swept 1;
             Failed (NotFound "b" "k3"); Failed (NotFound "b" "k")]
    ∧ ∃ s', spec_runs (∅, 10) tr (s', w_now w') ∧ represents (X:=Toy.ToyExternals) sample_storage w' s'
  | None => False
  end.
Proof.
  assert ((λ r, r.1.*2) <$> sample_run = Some [Stored; Stored; Content [Byte.x61; Byte.x62] "text/plain";
    Stored; Deleted; Warmed; Elapsed; Content [Byte.x61; Byte.x62] "text/plain"; Failed (NotFound "b" "k2");
    Stored; Swept 1; Failed (NotFound "b" "k3"); Failed (NotFound "b" "k")]) as Hans by (vm_compute; reflexivity).
  destruct sample_run as [[tr w']|] eqn:E; [|discriminate Hans].
  split; [injection Hans as Hans; exact Hans|].
  apply (implements_object_store (X:=Toy.ToyExternals) sample_storage ltac:(discriminate)
           (.∈ sample_contents) start_world ∅ tr w').
  - exact sample_contents_distinct.
  - intros bk o H. rewrite lookup_empty in H. discriminate H.
  - apply represents_empty; [reflexivity|exact empty_db_wf|reflexivity|reflexivity].
  - exact (run_ops_sound sample_storage sample_contents sample_ops start_world tr w' E).
Defined.
