(* ===== verification/Concurrency.v ===== *)
(** * Requests that interleave

    Requests run concurrently: the manager is shared behind a read lock and
    no operation holds the lock against another.  Here a request is a task
    that advances one phase at a time (see [Phases]) while other tasks advance
    in between, entries of the cache are lost and time passes.  The tables stay
    consistent in every interleaving, concurrent uploads of different new keys
    all take effect, and two races of an upload with a deletion lose bytes. *)

From S2P Require Import Prelude.
From S2P Require Import Errors.
From S2P Require Import Models.
From S2P Require Import FileSystem.
From S2P Require Import Config.
From S2P Require Import Externals.
From S2P Require Import World.
From S2P Require Import Database.
From S2P Require Import Cache.
From S2P Require Import Performance.
From S2P Require Import Storage.
From S2P Require Import Paths.
From S2P Require Import StorageWf.
From S2P Require Import Deletion.
From S2P Require Import Upload.
From S2P Require Import Phases.
From S2P Require Import ObjectMap.
From S2P Require Import ObjectStore.

(** ** Tasks *)

Inductive Request :=
| PutRequest (b k : string) (content : bytes) (content_type : option string) (opts : StoreOptions)
| DeleteRequest (b k : string).

(** How far a request is: what its first phase left for the second, or its
    result. *)
Inductive Progress :=
| Started
| Found (existing : option StoredFile)
| RowRemoved (file_path : string) (others : Z)
| Finished (r : result StorageError unit).

Definition outcome {A} (r : result StorageError A) : result StorageError unit :=
  match r with Ok _ => Ok tt | Err e => Err e end.

Section tasks.
Context `{X : Externals} (self : StorageManager).

Definition advance (q : Request) (p : Progress) (w : World) : Progress * World :=
  match q, p with
  | PutRequest b k content ct opts, Started =>
    let '(r, w') := find_stored self b content w in
    (match r with Ok existing => Found existing | Err e => Finished (Err e) end, w')
  | PutRequest b k content ct opts, Found existing =>
    let '(r, w') := store_found self b k content ct opts existing w in (Finished (outcome r), w')
  | DeleteRequest b k, Started =>
    let '(r, w') := delete_row b k w in
    (match r with Ok pr => RowRemoved pr.1 pr.2 | Err e => Finished (Err e) end, w')
  | DeleteRequest b k, RowRemoved file_path others =>
    let '(r, w') := unlink_and_invalidate self b k file_path others w in (Finished (outcome r), w')
  | _, p => (p, w)
  end.

Lemma advance_store b k content ct opts e w :
  advance (PutRequest b k content ct opts) (Found e) w
  = (Finished (outcome (store_found self b k content ct opts e w).1),
     (store_found self b k content ct opts e w).2).
Proof. unfold advance. by destruct (store_found _ _ _ _ _ _ _ w). Qed.

(** Some task advances, or the environment moves. *)
Inductive interleave (qs : list Request) : list Progress * World → list Progress * World → Prop :=
| interleave_task i q p ps w :
    qs !! i = Some q → ps !! i = Some p →
    interleave qs (ps, w) (<[i := (advance q p w).1]> ps, (advance q p w).2)
| interleave_environment ps w cache t :
    cache ⊆ w_cache w → w_now w ≤ t → interleave qs (ps, w) (ps, set_now t (set_cache cache w)).

(** A request without a break. *)
Definition whole (q : Request) (w : World) : Progress * World :=
  match q with
  | PutRequest b k content ct opts =>
    let '(r, w') := store_file self b k content ct opts w in (Finished (outcome r), w')
  | DeleteRequest b k =>
    let '(r, w') := delete_file self b k w in (Finished (outcome r), w')
  end.

(** Its two phases one after the other. *)
Lemma whole_phases q w :
  advance q (advance q Started w).1 (advance q Started w).2 = whole q w.
Proof.
  destruct q as [b k c ct o|b k]; simpl.
  - rewrite store_file_phases, run_bind. by destruct (find_stored self b c w) as [[e|e] w1].
  - rewrite delete_file_eq, run_bind. by destruct (delete_row b k w) as [[[p n]|e] w1].
Qed.

(** ** The tables *)

Lemma advance_wf q p w : world_wf w → world_wf (advance q p w).2.
Proof.
  destruct q as [b k c ct o|b k], p as [|e|path n|r]; simpl; try done; intros Hw.
  - pose proof (find_stored_wf self b c w Hw). by destruct (find_stored _ _ _ w).
  - pose proof (store_found_wf self b k c ct o e w Hw). by destruct (store_found _ _ _ _ _ _ _ w).
  - pose proof (delete_row_wf b k w Hw). by destruct (delete_row _ _ w).
  - pose proof (unlink_wf self b k path n w Hw). by destruct (unlink_and_invalidate _ _ _ _ _ w).
Qed.

(** The tables stay consistent in every interleaving of uploads and
    deletions, whatever calls fail: rows are stored under their own keys,
    satisfy the column constraints and the foreign keys, and the statistics
    of every bucket are representable. *)
Theorem interleaved_tables_consistent qs ps w ps' w' :
  rtc (interleave qs) (ps, w) (ps', w') → db_wf (w_db w) → db_wf (w_db w').
Proof.
  remember (ps, w) as st eqn:Hst. remember (ps', w') as st' eqn:Hst'. intros H. revert ps w Hst.
  induction H as [st|st st1 st2 Hs H IH]; intros ps w ->; simplify_eq; [done|].
  inversion Hs as [i q p ps1 w1 Hq Hp|ps1 w1 c t Hc Ht]; simplify_eq; intros Hwf; eapply IH; try done.
  by apply advance_wf.
Qed.
End tasks.

(** ** Concurrent uploads *)

Section uploads.
Context `{X : Externals, !ExternalsLaws X} (self : StorageManager).
Context (Hcw : cache_writable (sm_cache self)).
Context (contents : bytes → Prop).
Context (Hinj : ∀ x y, contents x → contents y → blake3_hex x = blake3_hex y → x = y).

Definition request_key (q : Request) : string * string :=
  match q with PutRequest b k _ _ _ | DeleteRequest b k => (b, k) end.

(** The key holds nothing, and no row keeps its bytes in its file. *)
Definition fresh (w : World) (s : ObjectMap) (bk : string * string) : Prop :=
  s !! bk = None ∧ map_Forall (λ _ row, sf_file_path row ≠ get_file_path self bk.1 bk.2) (db_files (w_db w)).

(** The row an upload found still has the bytes of its content. *)
Definition usable (w : World) (content : bytes) (f : StoredFile) : Prop :=
  (∃ o, stored_object self w f o ∧ ob_content o = content) ∧
  ∃ row, db_files (w_db w) !! file_key f = Some row ∧ sf_file_path row = sf_file_path f.

(** Where an upload is, against the map. *)
Definition upload_ok (w : World) (s : ObjectMap) (q : Request) (p : Progress) : Prop :=
  match q with
  | PutRequest b k content ct opts =>
    match p with
    | Started => fresh w s (b, k)
    | Found existing => fresh w s (b, k) ∧ ∀ f, existing = Some f → usable w content f
    | RowRemoved _ _ => False
    | Finished (Ok _) => ∃ o, s !! (b, k) = Some o ∧ stores None content ct (so_expires_at opts) o
    | Finished (Err _) => s !! (b, k) = None
    end
  | DeleteRequest _ _ => False
  end.

Definition upload_fits (q : Request) : Prop :=
  match q with
  | PutRequest b k content _ opts =>
    ordinary_bucket b = true ∧ ordinary_key k = true ∧ contents content ∧
    compresses_as_enabled self content opts
  | DeleteRequest _ _ => False
  end.

(** What a step for one key keeps of the uploads of the others. *)
Lemma upload_ok_other w s w' s' k0 q p :
  request_key q ≠ k0 → upload_fits q → db_files (w_db w) !! k0 = None →
  (∀ bk, bk ≠ k0 → s' !! bk = s !! bk) →
  (∀ bk, bk ≠ k0 → db_files (w_db w') !! bk = db_files (w_db w) !! bk) →
  (∀ row, db_files (w_db w') !! k0 = Some row → fresh w s (request_key q) →
     sf_file_path row ≠ get_file_path self (request_key q).1 (request_key q).2) →
  db_keys (w_db w') = db_keys (w_db w) →
  (∀ bk row d, db_files (w_db w) !! bk = Some row →
     fs_read (w_fs w) (sf_file_path row) = Ok d → fs_read (w_fs w') (sf_file_path row) = Ok d) →
  upload_ok w s q p → upload_ok w' s' q p.
Proof using Type.
  intros Hne Hfit Hk0 Hs Hrows Hnew Hkeys Hby. destruct q as [b k c ct o|]; [|done]. simpl in *.
  assert (fresh w s (b, k) → fresh w' s' (b, k)) as Hfresh.
  { intros Hfr. pose proof Hfr as [Hn Hp]. split; [by rewrite Hs|]. intros bk row Hrow.
    destruct (decide (bk = k0)) as [->|Hbk]; [by apply Hnew|]. rewrite Hrows in Hrow by done. by apply (Hp bk). }
  destruct p as [|e|path n|[[]|err]]; [done| |done|by rewrite Hs|by rewrite Hs].
  intros [Hfr Hus]. split; [by apply Hfresh|]. intros f Hf.
  destruct (Hus f Hf) as [(ob & Hob & Hc) (row & Hrow & Hp)]. split.
  - exists ob. split; [|done]. eapply stored_object_bytes; [done| |done].
    rewrite <- Hp. intros d. by eapply (Hby (file_key f)).
  - exists row. split; [|done]. rewrite Hrows; [done|]. intros Heq. by rewrite Heq, Hk0 in Hrow.
Qed.

(** The first phase of an upload. *)
Lemma find_step w s b k c ct opts r w1 :
  represents self w s → (∀ bk o, s !! bk = Some o → contents (ob_content o)) → contents c →
  fresh w s (b, k) → find_stored self b c w = (r, w1) →
  represents self w1 s ∧
  upload_ok w1 s (PutRequest b k c ct opts)
    (match r with Ok e => Found e | Err e => Finished (Err e) end) ∧
  ∀ q' p', request_key q' ≠ (b, k) → upload_fits q' → upload_ok w s q' p' → upload_ok w1 s q' p'.
Proof using Hinj ExternalsLaws0.
  intros Hr Hin Hc Hfr Hfind. pose proof Hfr as [Hn Hp].
  destruct (find_stored_ok self _ _ _ _ _ (rp_faults _ _ _ Hr) Hfind)
    as (Hf & Hfiles & Hk & Hcache & _ & Hframe & Hfound).
  destruct (find_stored_refines self _ _ _ _ _ _ Hr Hfind) as (Hr1 & _).
  assert (fresh w1 s (b, k)) as Hfr1 by (split; [done|by rewrite Hfiles]).
  split; [done|]. split.
  - destruct r as [[f|]|e]; simpl; [|by split|done]. split; [done|]. intros f' [= <-].
    destruct (duplicate_object self w s c f Hr) as (o & Hrow & Hs & _ & Ho); [|done|].
    { intros bk o Ho Hh. apply Hinj; eauto. }
    rewrite <- Hfiles in Hrow. pose proof (rp_rows _ _ _ Hr1 (file_key f)) as Hobj.
    rewrite Hs, Hrow in Hobj. split; eauto.
  - intros q' p' Hne Hfit. apply (upload_ok_other _ _ _ _ (b, k)); try done.
    + by eapply represents_none.
    + by rewrite Hfiles.
    + rewrite Hfiles. by rewrite (represents_none _ _ _ _ _ Hr Hn).
    + intros bk row d _. by apply (fs_read_in_frame (λ _, False)); [|tauto].
Qed.

(** The second. *)
Lemma store_step w s b k c ct opts e r w' :
  represents self w s → (∀ bk o, s !! bk = Some o → contents (ob_content o)) →
  upload_fits (PutRequest b k c ct opts) → fresh w s (b, k) → (∀ f, e = Some f → usable w c f) →
  store_found self b k c ct opts e w = (r, w') →
  ∃ s', represents self w' s' ∧ (∀ bk o, s' !! bk = Some o → contents (ob_content o)) ∧
    (∀ bk, bk ≠ (b, k) → s' !! bk = s !! bk) ∧
    upload_ok w' s' (PutRequest b k c ct opts) (Finished (outcome r)).
Proof using All.
  intros Hr Hin (Hb & Hk & Hc & Hcomp) [Hn Hp] Hus Hst.
  assert (path_unshared self w b k) as Hun by (intros bk row _ Hrow; by apply (Hp bk)).
  destruct (uncached self w s b k Hr Hb Hn) as [Hm Hct].
  destruct r as [file|err]; [|by exists s; split_and!; [eapply put_failed|..]].
  assert (∃ o, represents self w' (<[(b, k) := o]> s) ∧ stores (s !! (b, k)) c ct (so_expires_at opts) o)
    as (o & Hr' & Ho).
  { destruct e as [f|].
    - destruct (Hus f eq_refl) as [(ob & Hob & Hobc) (row & Hrow & Hpath)].
      destruct (rp_paths _ _ _ Hr _ _ Hrow) as (_ & _ & Hcan). rewrite Hpath in Hcan.
      assert (file_key f ≠ (b, k)) as Hne.
      { intros Heq. rewrite Heq in Hrow. by rewrite (represents_none _ _ _ _ _ Hr Hn) in Hrow. }
      destruct (store_found_alias_inv self _ _ _ _ _ _ _ _ _ (rp_faults _ _ _ Hr) Hne Hst)
        as (id & _ & Hdb & Hfs & _).
      edestruct (put_alias self Hcw w s b k c ct opts Hr Hb Hk Hun f ob file w') as (o & ? & ? & _);
        try done; [|by eauto].
      eapply stored_object_bytes; [| |exact Hob]; [by rewrite Hdb|by rewrite Hfs].
    - edestruct (put_new self Hcw w s b k c ct opts Hr Hb Hk Hun file w' Hcomp) as (o & ? & ? & _);
        [done|by left|by eauto]. }
  rewrite Hn in Ho. exists (<[(b, k) := o]> s). split_and!; [done|..].
  - intros bk o' [[_ <-]|[_ ?]]%lookup_insert_Some; [|by eauto]. by rewrite (proj1 Ho).
  - intros bk Hne. by rewrite lookup_insert_ne.
  - simpl. exists o. by rewrite lookup_insert_eq.
Qed.

Lemma get_file_path_inj b k b' k' :
  ordinary_bucket b = true → ordinary_key k = true →
  ordinary_bucket b' = true → ordinary_key k' = true →
  get_file_path self b k = get_file_path self b' k' → (b, k) = (b', k').
Proof using Type.
  intros Hb Hk Hb' Hk' H. pose proof (file_place_inj self b k b' k' (mkFS [] ∅) Hb Hk Hb' Hk') as Hi.
  rewrite H in Hi. by destruct Hi as [-> ->].
Qed.

Lemma store_step_others w s b k c ct opts e r w' q p :
  represents self w s → upload_fits (PutRequest b k c ct opts) → fresh w s (b, k) →
  (∀ f, e = Some f → usable w c f) → store_found self b k c ct opts e w = (r, w') →
  ∀ s', (∀ bk, bk ≠ (b, k) → s' !! bk = s !! bk) →
  request_key q ≠ (b, k) → upload_fits q → upload_ok w s q p → upload_ok w' s' q p.
Proof using ExternalsLaws0 Hcw.
  intros Hr (Hb & Hk & _) [Hn Hp] Hus Hst s' Hs' Hne Hfit.
  destruct (store_found_rows self Hcw _ _ _ _ _ _ _ _ _ (rp_faults _ _ _ Hr) Hst) as (Hkeys & Hrows & Hnew).
  pose proof (represents_none _ _ _ _ _ Hr Hn) as Hnone.
  apply (upload_ok_other _ _ _ _ (b, k)); try done.
  - intros row Hrow [_ Hfr]. destruct (Hnew row Hrow) as [H|[Hpath|(f & He & Hpath)]].
    + by rewrite Hnone in H.
    + rewrite Hpath. intros Heq. destruct q as [b' k' c' ct' o'|]; [|done].
      destruct Hfit as (Hb' & Hk' & _). apply get_file_path_inj in Heq; [|done..]. by apply Hne.
    + destruct (Hus f He) as [_ (row0 & Hrow0 & Hp0)]. rewrite Hpath, <- Hp0. by apply (Hfr _ _ Hrow0).
  - intros bk row d Hrow Hd. destruct (rp_paths _ _ _ Hr _ _ Hrow) as (_ & _ & Hcan).
    pose proof (store_found_reads self b k c ct opts e w _ d Hb Hk Hcan (Hp _ _ Hrow) Hd) as H.
    by rewrite Hst in H.
Qed.

(** A step of one upload keeps what holds of all of them. *)
Lemma upload_step w s q p :
  represents self w s → (∀ bk o, s !! bk = Some o → contents (ob_content o)) →
  upload_fits q → upload_ok w s q p →
  ∃ s', represents self (advance self q p w).2 s' ∧ (∀ bk o, s' !! bk = Some o → contents (ob_content o)) ∧
    (∀ bk, bk ≠ request_key q → s' !! bk = s !! bk) ∧
    upload_ok (advance self q p w).2 s' q (advance self q p w).1 ∧
    ∀ q' p', request_key q' ≠ request_key q → upload_fits q' → upload_ok w s q' p' →
      upload_ok (advance self q p w).2 s' q' p'.
Proof using All.
  intros Hr Hin Hfit Hok. destruct q as [b k c ct opts|]; [|done]. destruct p as [|e|path n|r]; simpl in Hok.
  - simpl. destruct (find_stored self b c w) as [r w1] eqn:Hfind. simpl.
    destruct (find_step w s b k c ct opts r w1 Hr Hin) as (Hr1 & Hok1 & Hothers); [apply Hfit|done..|].
    exists s. by split_and!.
  - destruct Hok as [Hfr Hus]. simpl. destruct (store_found self b k c ct opts e w) as [r w'] eqn:Hst. simpl.
    destruct (store_step w s b k c ct opts e r w' Hr Hin Hfit Hfr Hus Hst) as (s' & Hr' & Hin' & Hs' & Hok').
    exists s'. split_and!; try done. intros q' p' Hne Hfit'. by eapply store_step_others.
  - done.
  - exists s. by split_and!.
Qed.

Lemma upload_ok_environment w s q p c t :
  upload_ok w s q p → upload_ok (set_now t (set_cache c w)) s q p.
Proof using Type.
  destruct q as [b k c' ct o|], p as [|e|path n|r]; try done. simpl. intros [Hfr Hus]. split; [done|].
  intros f Hf. destruct (Hus f Hf) as [(ob & Hob & Hc) Hrow]. split; [|done]. exists ob. split; [|done].
  by destruct Hob.
Qed.

(** C37: Concurrent uploads of different new keys all take effect.  However
    their phases interleave, and whatever entries the cache loses meanwhile,
    the state ends up representing the old map with exactly the objects of the
    uploads that succeeded added, each with the uploaded content and the given
    type and time to live, also when uploads of the same content race for
    deduplication; a failed upload leaves its key empty.  (Assumed: no call
    fails, the hashes of the contents differ, the keys are ordinary, no row has
    their paths, and an upload is compressed only when compression is on.  A
    phase, the look for a duplicate or what follows it, runs as one piece; for
    single calls see [Publication] and [Durability].) *)
Theorem concurrent_uploads qs w s ps w' :
  represents self w s → (∀ bk o, s !! bk = Some o → contents (ob_content o)) →
  NoDup (request_key <$> qs) → Forall (λ q, upload_fits q ∧ fresh w s (request_key q)) qs →
  rtc (interleave self qs) (replicate (length qs) Started, w) (ps, w') →
  ∃ s', represents self w' s' ∧
    (∀ bk, bk ∉ request_key <$> qs → s' !! bk = s !! bk) ∧
    ∀ i b k content ct opts r,
      qs !! i = Some (PutRequest b k content ct opts) → ps !! i = Some (Finished r) →
      match r with
      | Ok _ => ∃ o, s' !! (b, k) = Some o ∧ stores None content ct (so_expires_at opts) o
      | Err _ => s' !! (b, k) = None
      end.
Proof.
  intros Hr Hin Hnd [Hfits Hfresh]%Forall_and Hsteps. rewrite Forall_lookup in Hfits, Hfresh.
  assert (∀ st, rtc (interleave self qs) st (ps, w') →
    ∀ s1, represents self st.2 s1 → (∀ bk o, s1 !! bk = Some o → contents (ob_content o)) →
    (∀ i q p, qs !! i = Some q → st.1 !! i = Some p → upload_ok st.2 s1 q p) →
    ∃ s', represents self w' s' ∧ (∀ bk, bk ∉ request_key <$> qs → s' !! bk = s1 !! bk) ∧
      ∀ i q p, qs !! i = Some q → ps !! i = Some p → upload_ok w' s' q p) as Hrun.
  { clear Hsteps Hr Hin Hfresh s. intros st Hst. remember (ps, w') as st' eqn:Hst'.
    induction Hst as [st|st st1 st2 Hs Hst IH]; intros s1 Hr1 Hin1 Hok1; simplify_eq/=.
    - by exists s1.
    - destruct Hs as [i q p ps1 w1 Hq Hp|ps1 w1 c t Hc Ht]; simpl in *.
      + destruct (upload_step w1 s1 q p Hr1 Hin1 (Hfits _ _ Hq) (Hok1 i q p Hq Hp)) as (s2 & Hr2 & Hin2 & Hs2 & Hok2 & Hoth).
        destruct (IH eq_refl s2 Hr2 Hin2) as (s' & Hr' & Hs' & Hok').
        { intros j q' p' Hq' [(<- & <- & _)|[Hne Hp']]%list_lookup_insert_Some.
          - by simplify_eq.
          - apply Hoth; [|by eapply Hfits|by eapply Hok1].
            intros Heq. apply Hne. eapply NoDup_lookup; [exact Hnd|by rewrite list_lookup_fmap, Hq|].
            by rewrite list_lookup_fmap, Hq', <- Heq. }
        exists s'. split_and!; [done| |done]. intros bk Hbk. rewrite Hs' by done. apply Hs2.
        intros ->. apply Hbk. apply list_elem_of_fmap. exists q. split; [done|]. by eapply list_elem_of_lookup_2.
      + apply (IH eq_refl s1); [by apply represents_elapse|done|].
        intros j q' p' Hq' Hp'. apply upload_ok_environment. by eapply Hok1. }
  destruct (Hrun _ Hsteps s Hr Hin) as (s' & Hr' & Hs' & Hok').
  { intros i q p Hq [-> _]%lookup_replicate. pose proof (Hfits _ _ Hq). pose proof (Hfresh _ _ Hq).
    by destruct q. }
  exists s'. split_and!; [done..|]. intros i b k c ct opts r Hq Hp. exact (Hok' i _ _ Hq Hp).
Qed.
End uploads.

(** ** Races of an upload with a deletion *)

(** A fixed order of the tasks. *)
Section schedules.
Context `{X : Externals} (self : StorageManager) (qs : list Request).

Fixpoint schedule (order : list nat) (st : list Progress * World) : list Progress * World :=
  match order with
  | [] => st
  | i :: order =>
    schedule order
      match qs !! i, st.1 !! i with
      | Some q, Some p => let '(p', w') := advance self q p st.2 in (<[i := p']> st.1, w')
      | _, _ => st
      end
  end.

Lemma schedule_step i order q p ps w :
  qs !! i = Some q → ps !! i = Some p →
  schedule (i :: order) (ps, w) = schedule order (<[i := (advance self q p w).1]> ps, (advance self q p w).2).
Proof. intros Hq Hp. simpl. rewrite Hq, Hp. by destruct (advance self q p w). Qed.

Lemma schedule_whole i order q ps w :
  qs !! i = Some q → ps !! i = Some Started →
  schedule (i :: i :: order) (ps, w) = schedule order (<[i := (whole self q w).1]> ps, (whole self q w).2).
Proof.
  intros Hq Hp. rewrite (schedule_step _ _ _ _ _ _ Hq Hp).
  rewrite (schedule_step _ _ q (advance self q Started w).1); [|done|].
  - rewrite list_insert_insert_eq. by rewrite whole_phases.
  - apply list_lookup_insert_eq. by eapply lookup_lt_Some.
Qed.

Lemma schedule_interleave order st : rtc (interleave self qs) st (schedule order st).
Proof.
  revert st. induction order as [|i order IH]; intros [ps w]; simpl; [done|].
  destruct (qs !! i) as [q|] eqn:Hq; [|apply IH]. destruct (ps !! i) as [p|] eqn:Hp; [|apply IH].
  destruct (advance self q p w) as [p' w'] eqn:Ha. eapply rtc_l; [|apply IH].
  pose proof (interleave_task self qs i q p ps w Hq Hp) as Hs. by rewrite Ha in Hs.
Qed.
End schedules.

Section races.
Context `{X : Externals, !ExternalsLaws X} (self : StorageManager).
Context (Hcw : cache_writable (sm_cache self)).

(** A row whose bytes are nowhere is never served. *)
Lemma unreadable_download b k w row :
  w_faults w = [] → sees_row b k w row → w_cache w !! content_key b k = None →
  (∀ d, fs_read (w_fs w) (sf_file_path row) ≠ Ok d) → is_ok (get_file self b k w).1 = false.
Proof using All.
  intros Hf Hsee Hc Hun. unfold get_file. rewrite run_bind.
  destruct (read_metadata_ok self Hcw b k w row Hf Hsee) as (c & -> & Hcc & _). cbn beta iota.
  rewrite run_bind, run_now. cbn beta iota. destruct (expired _ _); [by rewrite run_bind, run_attempt|].
  rewrite run_bind. unfold read_content, get_file_content.
  rewrite run_bind, run_attempt, backend_get_ok by done. cbn [fst snd w_cache set_cache].
  rewrite Hcc, Hc. cbn beta iota. rewrite run_bind, run_attempt, fs_reading_ok by done.
  cbn [fst snd w_fs set_cache]. destruct (fs_read (w_fs w) (sf_file_path row)) as [d|e] eqn:E; [by destruct (Hun d)|].
  destruct (is_missing_file _); [by rewrite run_bind, run_attempt|done].
Qed.

Lemma outcome_ok {A} (r : result StorageError A) : outcome r = Ok tt → ∃ a, r = Ok a.
Proof using Type. destruct r; [eauto|done]. Qed.

Lemma removed_absent b k (c : gmap string bytes) :
  remove_keys [metadata_key b k; content_key b k] c !! metadata_key b k = None ∧
  remove_keys [metadata_key b k; content_key b k] c !! content_key b k = None.
Proof using Type. simpl. rewrite !lookup_delete_None. tauto. Qed.

(** The row deduplication finds is in the table under its key. *)
Lemma duplicate_row content w f :
  db_wf (w_db w) → duplicate_of self content w f → db_files (w_db w) !! file_key f = Some f.
Proof using ExternalsLaws0.
  intros Hwf [_ Hhd]. assert (f ∈ scan (λ f, bool_decide (sf_hash_blake3 f = blake3_hex content)) (w_db w)) as Hin.
  { destruct (scan _ _); [done|]. injection Hhd as ->. by left. }
  apply elem_of_scan in Hin as [_ [bk Hbk]]. pose proof (wf_keyed _ Hwf _ _ Hbk) as Hk. simpl in Hk.
  by rewrite Hk.
Qed.

(** What the first upload phase of a duplicate finds. *)
Lemma find_duplicate b content w f r w1 :
  w_faults w = [] → duplicate_of self content w f → find_stored self b content w = (r, w1) →
  r = Ok (Some f) ∨ ∃ e, r = Err e.
Proof using Type.
  intros Hf [Hon Hhd] Hfind. destruct (find_stored_ok self _ _ _ _ _ Hf Hfind) as (_&_&_&_&_&_&Hfound).
  destruct r as [[f'|]|e]; [left|exfalso|by right; eexists].
  - destruct Hfound as [_ Hhd']. rewrite Hhd in Hhd'. by injection Hhd' as ->.
  - specialize (Hfound Hon). by rewrite Hfound in Hhd.
Qed.

(** C36: An upload that deduplication serves can lose its bytes to a deletion.
    When the only file with the content is deleted between the upload's look
    at the hash and its new row, the upload and the deletion both report
    success, and the uploaded key has a row without bytes: no download of it
    succeeds. *)
Theorem upload_races_delete b k content ct opts f w w' :
  w_faults w = [] → db_wf (w_db w) → duplicate_of self content w f → file_key f ≠ (b, k) →
  other_references (sf_file_path f) (sf_bucket f) (sf_key f) (w_db w) = 0 →
  w_cache w !! metadata_key b k = None → w_cache w !! content_key b k = None →
  schedule self [PutRequest b k content ct opts; DeleteRequest (sf_bucket f) (sf_key f)]
    [0; 1; 1; 0]%nat ([Started; Started], w) = ([Finished (Ok tt); Finished (Ok tt)], w') →
  (∃ row, db_files (w_db w') !! (b, k) = Some row ∧ ∀ d, fs_read (w_fs w') (sf_file_path row) ≠ Ok d) ∧
  is_ok (get_file self b k w').1 = false.
Proof.
  intros Hf Hwf Hdup Hne Hoth Hm Hc Hrun. pose proof (duplicate_row _ _ _ Hwf Hdup) as Hrow.
  erewrite schedule_step in Hrun by reflexivity. simpl advance in Hrun.
  destruct (find_stored self b content w) as [r0 w1] eqn:Hfind.
  destruct (find_stored_ok self _ _ _ _ _ Hf Hfind) as (Hf1 & Hfiles & _ & Hc1 & _ & _ & _).
  pose proof (find_stored_wf self b content w Hwf) as Hwf1. rewrite Hfind in Hwf1. simpl in Hwf1.
  cbn [fst snd] in Hrun. erewrite schedule_whole in Hrun by reflexivity. unfold whole in Hrun.
  rewrite delete_file_ok, Hfiles in Hrun by done. unfold file_key in Hrow. rewrite Hrow in Hrun.
  destruct (delete_allowed _ _ _); [|destruct (find_duplicate _ _ _ _ _ _ Hf Hdup Hfind) as [->|[e ->]];
    erewrite schedule_step in Hrun by reflexivity; discriminate Hrun].
  replace (other_references _ _ _ _) with 0 in Hrun
    by (rewrite <- Hoth; unfold other_references, scan; by rewrite Hfiles).
  set (w2 := set_cache _ _) in Hrun. erewrite schedule_step in Hrun by reflexivity.
  destruct (find_duplicate _ _ _ _ _ _ Hf Hdup Hfind) as [->|[e ->]]; [|discriminate Hrun].
  cbn [fst snd] in Hrun. rewrite advance_store in Hrun. cbn [fst snd] in Hrun.
  destruct (store_found self b k content ct opts (Some f) w2) as [r3 w3] eqn:Hst.
  injection Hrun as Hr3 <-. apply outcome_ok in Hr3 as [file ->].
  destruct (store_found_alias_inv self b k content ct opts f w2 file w3 Hf1 Hne Hst)
    as (id & Hfile & Hdb & Hfs & Hcache & _ & Hf3).
  set (row := saved_row (db_files (w_db w2)) file).
  assert (db_files (w_db w3) !! (b, k) = Some row) as Hrow3.
  { rewrite Hdb. unfold after_save. cbn [db_files set_files].
    replace (file_key file) with (b, k) by (by rewrite Hfile). by rewrite lookup_insert_eq. }
  assert (∀ d, fs_read (w_fs w3) (sf_file_path row) ≠ Ok d) as Hgone.
  { destruct (saved_row_coding (db_files (w_db w2)) file) as (_ & Hp & _). unfold row. rewrite Hp, Hfile, Hfs.
    cbn [sf_file_path aliased_row w_fs set_cache set_fs w2]. apply remove_file_unreadable. }
  split; [by exists row|]. apply (unreadable_download b k w3 row); try done.
  - right. split; [|done]. rewrite Hcache. simpl. rewrite Hc1, !lookup_delete_None. by right; right.
  - rewrite Hcache. simpl. rewrite Hc1, !lookup_delete_None. by right; right.
Qed.

Lemma scan_delete_nil p bk d :
  scan p d = [] → scan p (set_files (delete bk (db_files d)) d) = [].
Proof using ExternalsLaws0.
  intros H. destruct (scan p (set_files _ _)) as [|f l] eqn:E; [done|]. exfalso.
  assert (f ∈ scan p (set_files (delete bk (db_files d)) d)) as Hin by (rewrite E; by left).
  apply elem_of_scan in Hin as [Hp [k Hk]]. cbn [db_files set_files] in Hk.
  apply lookup_delete_Some in Hk as [_ Hk].
  assert (f ∈ scan p d) as Hin by (apply elem_of_scan; eauto). rewrite H in Hin. by apply not_elem_of_nil in Hin.
Qed.

(** What is left of a deletion that finds no other reference. *)
Lemma unlink_unreferenced b k path w :
  w_faults w = [] →
  unlink_and_invalidate self b k path 0 w =
  (Ok tt, set_cache (remove_keys [metadata_key b k; content_key b k] (w_cache w))
            (set_fs (unlinked path 0 (w_fs w)) w)).
Proof using Type.
  intros Hf. unfold unlink_and_invalidate, unlinked. rewrite !decide_True by done.
  rewrite run_bind, run_bind, run_attempt, fs_call_ok by done. unfold fs_changing. cbn [fst snd].
  destruct (fs_remove_file (w_fs w) path) as [s'|err]; simpl; rewrite run_bind, run_attempt;
    unfold invalidate_file; by rewrite backend_del_ok.
Qed.

(** An upload can lose its bytes to a deletion of the same key.  When the
    deletion has removed the old row (the only one with its bytes), the upload
    of new content for the key runs, and the deletion then unlinks the path,
    both report success, and the key has a row without bytes. *)
Theorem delete_races_upload b k content ct opts w w' old :
  w_faults w = [] → db_wf (w_db w) → db_files (w_db w) !! (b, k) = Some old →
  sf_file_path old = get_file_path self b k →
  other_references (sf_file_path old) b k (w_db w) = 0 → not_duplicate self content w →
  schedule self [DeleteRequest b k; PutRequest b k content ct opts]
    [0; 1; 1; 0]%nat ([Started; Started], w) = ([Finished (Ok tt); Finished (Ok tt)], w') →
  (∃ row, db_files (w_db w') !! (b, k) = Some row ∧ ∀ d, fs_read (w_fs w') (sf_file_path row) ≠ Ok d) ∧
  is_ok (get_file self b k w').1 = false.
Proof.
  intros Hf Hwf Hold Hpath Hoth Hnd Hrun.
  erewrite schedule_step in Hrun by reflexivity. unfold advance in Hrun at 1 2.
  rewrite delete_row_ok, Hold, Hoth, Hpath in Hrun by done.
  destruct (delete_allowed _ _ _).
  2:{ erewrite schedule_whole in Hrun by reflexivity. erewrite schedule_step in Hrun by reflexivity.
      discriminate Hrun. }
  cbn [fst snd] in Hrun. set (w1 := set_db _ w) in Hrun.
  erewrite schedule_whole in Hrun by reflexivity. unfold whole in Hrun.
  destruct (store_file self b k content ct opts w1) as [r2 w2] eqn:Hst. cbn [fst snd] in Hrun.
  erewrite schedule_step in Hrun by reflexivity. cbn [fst snd] in Hrun.
  destruct r2 as [file|e].
  2:{ unfold advance in Hrun. destruct (unlink_and_invalidate _ _ _ _ _ _). discriminate Hrun. }
  assert (not_duplicate self content w1) as Hnd1.
  { intros Hon. apply (scan_delete_nil _ (b, k)). by apply Hnd. }
  destruct (store_file_new_inv self Hcw b k content ct opts w1 file w2 Hf Hnd1 Hst)
    as (w0 & cm & is_c & pr & id & ser & He & [H1 H2 H3 H4 H5 H6 H7 H8 H9]).
  unfold advance in Hrun. rewrite unlink_unreferenced in Hrun by done. injection Hrun as <-.
  set (row := saved_row (db_files (w_db w0)) file). set (w3 := set_cache _ _).
  assert (db_files (w_db w3) !! (b, k) = Some row) as Hrow.
  { simpl. rewrite H6. unfold after_save. cbn [db_files set_files].
    replace (file_key file) with (b, k) by (by rewrite H3). by rewrite lookup_insert_eq. }
  assert (∀ d, fs_read (w_fs w3) (sf_file_path row) ≠ Ok d) as Hgone.
  { destruct (saved_row_coding (db_files (w_db w0)) file) as (_ & Hp & _). unfold row. rewrite Hp, H3.
    apply remove_file_unreadable. }
  split; [by exists row|]. apply (unreadable_download b k w3 row); try done.
  - right. split; [apply removed_absent|done].
  - apply removed_absent.
Qed.
End races.

(** ** Concrete runs *)

(** Three uploads, two of them of the same content, whose phases alternate. *)
Definition sample_requests : list Request := [
  PutRequest "b" "k" [Byte.x61; Byte.x62] (Some "text/plain") default_options;
  PutRequest "c" "dir/copy" [Byte.x61; Byte.x62] None default_options;
  PutRequest "b" "k2" [Byte.x63] None (with_ttl 50)
].

Definition sample_schedule : list Progress * World :=
  schedule (X:=Toy.ToyExternals) sample_storage sample_requests [0; 2; 0; 1; 2; 1]%nat
    (replicate 3 Started, start_world).

Lemma start_world_represents :
  represents (X:=Toy.ToyExternals) sample_storage start_world ∅.
Proof. apply represents_empty; [done|exact empty_db_wf|done|done]. Qed.

Lemma concurrent_uploads_witness :
  sample_schedule.1 = replicate 3 (Finished (Ok tt)) ∧
  ∃ s', represents (X:=Toy.ToyExternals) sample_storage sample_schedule.2 s' ∧
    (∀ bk, bk ∉ [("b", "k"); ("c", "dir/copy"); ("b", "k2")] → s' !! bk = None) ∧
    (∃ o, s' !! ("c", "dir/copy") = Some o ∧ ob_content o = [Byte.x61; Byte.x62]) ∧
    ∃ o, s' !! ("b", "k2") = Some o ∧ ob_content o = [Byte.x63] ∧ ob_expires o = Some 50.
Proof.
  assert (sample_schedule.1 = replicate 3 (Finished (Ok tt))) as Hps by (vm_compute; reflexivity).
  split; [exact Hps|]. 
  destruct (concurrent_uploads (X:=Toy.ToyExternals) sample_storage ltac:(discriminate)
    (.∈ sample_contents) sample_contents_distinct sample_requests start_world ∅
    sample_schedule.1 sample_schedule.2) as (s' & Hr & Hs & Hok).
  - exact start_world_represents.
  - intros bk o H. rewrite lookup_empty in H. discriminate H.
  - apply (bool_decide_unpack _). vm_compute. exact I.
  - repeat constructor; try reflexivity; try exact (map_Forall_empty _);
      apply (bool_decide_unpack _); vm_compute; exact I.
  - rewrite <- surjective_pairing. apply schedule_interleave.
  - exists s'. split; [exact Hr|]. split; [exact Hs|]. rewrite Hps in Hok. split.
    + destruct (Hok 1%nat _ _ _ _ _ _ eq_refl eq_refl) as (o & Ho & Hc & _). exists o. split; [exact Ho|exact Hc].
    + destruct (Hok 2%nat _ _ _ _ _ _ eq_refl eq_refl) as (o & Ho & Hc & [Hn|[He _]]); [discriminate Hn|].
      exists o. split; [exact Ho|]. split; [exact Hc|exact He].
Defined.

Lemma interleaved_tables_consistent_witness :
  rtc (interleave (X:=Toy.ToyExternals) sample_storage sample_requests)
    (replicate 3 Started, start_world) (sample_schedule.1, sample_schedule.2) ∧
  db_files (w_db sample_schedule.2) !! ("c", "dir/copy") ≠ None ∧ db_wf (w_db sample_schedule.2).
Proof.
  assert (rtc (interleave (X:=Toy.ToyExternals) sample_storage sample_requests)
    (replicate 3 Started, start_world) (sample_schedule.1, sample_schedule.2)) as H
    by (rewrite <- surjective_pairing; apply schedule_interleave).
  split; [exact H|]. split; [vm_compute; discriminate|].
  exact (interleaved_tables_consistent (X:=Toy.ToyExternals) sample_storage sample_requests _ _ _ _ H empty_db_wf).
Defined.

Definition race (qs : list Request) : list Progress * World :=
  schedule (X:=Toy.ToyExternals) sample_storage qs [0; 1; 1; 0]%nat ([Started; Started], first_world).

Definition upload_race : list Progress * World :=
  race [PutRequest "c" "copy" [Byte.x61; Byte.x62] None default_options; DeleteRequest "b" "k"].

Definition delete_race : list Progress * World :=
  race [DeleteRequest "b" "k"; PutRequest "b" "k" [Byte.x63] None default_options].

Lemma first_world_wf : db_wf (w_db first_world).
Proof.
  exact (store_file_wf (X:=Toy.ToyExternals) sample_storage "b" "k" [Byte.x61; Byte.x62] None (with_ttl 50)
           start_world empty_db_wf).
Qed.

Lemma upload_races_delete_witness :
  upload_race.1 = [Finished (Ok tt); Finished (Ok tt)] ∧
  is_ok (get_file (X:=Toy.ToyExternals) sample_storage "c" "copy" upload_race.2).1 = false.
Proof.
  assert (upload_race.1 = [Finished (Ok tt); Finished (Ok tt)]) as Hps by (vm_compute; reflexivity).
  split; [exact Hps|].
  assert (match head (scan (X:=Toy.ToyExternals) (λ f, bool_decide (sf_hash_blake3 f =
             blake3_hex (Externals:=Toy.ToyExternals) [Byte.x61; Byte.x62])) (w_db first_world)) with
          | Some f => bool_decide (file_key f = ("b", "k") ∧
              other_references (X:=Toy.ToyExternals) (sf_file_path f) (sf_bucket f) (sf_key f) (w_db first_world) = 0)
          | None => false
          end = true) as Hex by (vm_compute; reflexivity).
  destruct (head _) as [f|] eqn:Hhd; [|discriminate Hex]. apply bool_decide_eq_true in Hex as [Hkey Hoth].
  assert (sf_bucket f = "b" ∧ sf_key f = "k") as [Hkb Hkk] by (injection Hkey; auto).
  apply (upload_races_delete (X:=Toy.ToyExternals) sample_storage ltac:(discriminate) "c" "copy"
           [Byte.x61; Byte.x62] None default_options f first_world upload_race.2).
  - vm_compute. reflexivity.
  - exact first_world_wf.
  - split; [reflexivity|exact Hhd].
  - rewrite Hkey. discriminate.
  - exact Hoth.
  - vm_compute. reflexivity.
  - vm_compute. reflexivity.
  - rewrite Hkb, Hkk, <- Hps. exact (surjective_pairing upload_race).
Defined.

Lemma delete_races_upload_witness :
  delete_race.1 = [Finished (Ok tt); Finished (Ok tt)] ∧
  is_ok (get_file (X:=Toy.ToyExternals) sample_storage "b" "k" delete_race.2).1 = false.
Proof.
  assert (delete_race.1 = [Finished (Ok tt); Finished (Ok tt)]) as Hps by (vm_compute; reflexivity).
  split; [exact Hps|].
  assert (match db_files (w_db first_world) !! ("b", "k") with
          | Some old => bool_decide (sf_file_path old = get_file_path sample_storage "b" "k" ∧
              other_references (X:=Toy.ToyExternals) (sf_file_path old) "b" "k" (w_db first_world) = 0)
          | None => false
          end = true) as Hex by (vm_compute; reflexivity).
  destruct (db_files (w_db first_world) !! ("b", "k")) as [old|] eqn:Hold; [|discriminate Hex].
  apply bool_decide_eq_true in Hex as [Hpath Hoth].
  apply (delete_races_upload (X:=Toy.ToyExternals) sample_storage ltac:(discriminate) "b" "k"
           [Byte.x63] None default_options first_world delete_race.2 old).
  - vm_compute. reflexivity.
  - exact first_world_wf.
  - exact Hold.
  - exact Hpath.
  - exact Hoth.
  - intros _. vm_compute. reflexivity.
  - rewrite <- Hps. exact (surjective_pairing delete_race).
Defined.
