(* ===== verification/Hazards.v ===== *)
(** * Where uploads hurt other data

    Behaviours of [store_file] and [get_file_path] that the code does not
    guard against: an overwrite that reaches the aliases deduplication made, an
    upload whose row is refused after its bytes replaced the old ones, content
    that is marked encrypted and is not, and keys that leave their bucket. *)

From S2P Require Import Prelude.
From S2P Require Import Errors.
From S2P Require Import Models.
From S2P Require Import FileSystem.
From S2P Require Import Config.
From S2P Require Import Externals.
From S2P Require Import World.
From S2P Require Import Compression.
From S2P Require Import Crypto.
From S2P Require Import Database.
From S2P Require Import Cache.
From S2P Require Import Performance.
From S2P Require Import Storage.
From S2P Require Import Paths.
From S2P Require Import StorageWf.
From S2P Require Import Deletion.
From S2P Require Import Upload.

Section hazards.
Context `{X : Externals, !ExternalsLaws X} (self : StorageManager).
Context (Hcw : cache_writable (sm_cache self)).

(** What an upload that is neither compressed nor encrypted writes. *)
Lemma stored_plain b k content ct opts hashes w compressed is_c processed id ser file w' :
  stored_new self b k content ct opts hashes w compressed is_c processed id ser file w' →
  sf_is_compressed file = Some false → sf_is_encrypted file = Some false → processed = content.
Proof using All.
  intros [H1 [wE H2] H3 _ _ _ _ _ _] Hc He. rewrite H3 in Hc, He. cbn in Hc, He.
  injection Hc as ->. injection He as He. rewrite encrypt_step_off in H2 by done. injection H2 as <- _.
  by apply compress_step_inv in H1.
Qed.

(** Overwriting a key changes the files that share its bytes.  When
    deduplication has made another key an alias of this one, a plain upload of
    new content for this key writes it to the shared path, and the other key,
    whose row is as it was, serves the new content from then on. *)
Theorem overwrite_reaches_alias b k content ct opts w file w' b2 k2 row2 :
  w_faults w = [] → not_duplicate self content w → (b2, k2) ≠ (b, k) →
  db_files (w_db w) !! (b2, k2) = Some row2 → sf_file_path row2 = get_file_path self b k →
  flag (sf_is_compressed row2) = false → flag (sf_is_encrypted row2) = false →
  store_file self b k content ct opts w = (Ok file, w') →
  sf_is_compressed file = Some false → sf_is_encrypted file = Some false →
  expired row2 (w_now w') = false →
  db_files (w_db w') !! (b2, k2) = Some row2 ∧
  ∃ w'', get_file self b2 k2 (set_cache ∅ w') = (Ok (content, Some (sf_content_type row2)), w'').
Proof.
  intros Hf Hnd Hne Hrow2 Hpath Hc2 He2 Hst Hc He Hexp.
  destruct (store_file_new_inv self Hcw _ _ _ _ _ _ _ _ Hf Hnd Hst)
    as (w1 & compressed & is_c & processed & id & ser & Hb & Hn).
  pose proof (stored_plain _ _ _ _ _ _ _ _ _ _ _ _ _ _ Hn Hc He) as ->.
  destruct (ensure_bucket_ok self _ _ _ _ Hf Hb) as (_ & Hfiles & _).
  destruct Hn as [_ _ H3 _ H5 H6 _ _ H9].
  assert (db_files (w_db w') !! (b2, k2) = Some row2) as Hrow'.
  { rewrite H6. unfold after_save. cbn [db_files set_files].
    replace (file_key file) with (b, k) by (by rewrite H3). by rewrite lookup_insert_ne, Hfiles. }
  split; [done|]. destruct (get_file_ok self Hcw b2 k2 (set_cache ∅ w') row2 content content) as (w'' & Hg & _).
  - done.
  - by right.
  - done.
  - right. split; [done|]. simpl. by rewrite Hpath.
  - intros w2 _ _. unfold decode_content, decrypt_content. by rewrite Hc2, He2.
  - eauto.
Qed.

(** An upload whose row the database refuses destroys what the key held.
    The bytes are written before the row, and when the row is refused (a name
    that is too long, an unknown encryption key) the file is removed again: the
    old row stays and the bytes it points at are gone. *)
Theorem refused_row_loses_bytes b k content ct opts hashes w msg w' :
  w_faults w = [] → should_encrypt self opts = false →
  store_new self b k content ct opts hashes w = (Err (Errors.Database msg), w') →
  w_db w' = w_db w ∧ ∀ d, fs_read (w_fs w') (get_file_path self b k) ≠ Ok d.
Proof.
  intros Hf Henc. unfold store_new. destruct (compress_step self opts content) as [compressed is_c].
  rewrite run_bind, encrypt_step_off by done. cbn beta iota. rewrite run_bind.
  set (mkdirs := match parent_components _ with Some _ => _ | None => _ end).
  assert (∃ s, (mkdirs w).2 = set_fs s w ∧ ∀ e, (mkdirs w).1 = Err e → ∀ m, e ≠ Errors.Database m) as (s & Hs & Hme).
  { subst mkdirs. destruct (parent_components _).
    - rewrite run_map_err, fs_call_ok by done. eexists. split; [done|]. cbn [fst].
      unfold fs_changing. destruct (fs_make_dirs _ _ _); [done|]. by intros e0 [= <-].
    - eexists. split; [by rewrite set_fs_id|done]. }
  destruct (mkdirs w) as [[[]|e1] w1]; simpl in Hs, Hme.
  2:{ intros [= -> _]. by destruct (Hme _ eq_refl msg). }
  subst w1. rewrite run_bind, run_map_err.
  pose proof (fs_only_write_file (get_file_path self b k) compressed (set_fs s w)) as (Hd2 & _ & _).
  destruct (write_file_atomic_optimized _ _ (set_fs s w)) as [[[]|e2] w2] eqn:Ew; [|done].
  pose proof (write_atomic_quiet _ _ _ _ _ Ew Hf) as Hf2. simpl in Hd2. cbn [map_result_err fst snd].
  unfold new_v4. rewrite !run_bind, run_fill_bytes, run_ret, run_bind, run_now, run_bind, run_attempt.
  set (file := stored_row _ _ _ _ _ _ _ _ _ _ _ _). set (w3 := set_entropy_pos _ w2).
  destruct (save_file_run file w3) as [[e ->]| ->]; cbn [fst snd].
  2:{ by rewrite run_bind, run_attempt, run_bind, run_attempt, run_ret. }
  assert (set_faults (tail (w_faults w3)) w3 = w3) as -> by (unfold w3; destruct w2; simpl in *; by subst).
  rewrite run_bind, run_attempt, fs_call_ok by done. rewrite run_throw. intros [= _ <-].
  split; [done|]. intros d. pose proof (remove_file_unreadable (w_fs w2) (get_file_path self b k) d) as H.
  unfold unlinked in H. rewrite decide_True in H by done. unfold fs_changing. simpl.
  by destruct (fs_remove_file (w_fs w2) _).
Qed.

(** With encryption disabled in the configuration an upload that asks for
    it is stored as it is, under a row that says it is encrypted. *)
Theorem disabled_encryption_stores_plain b k content ct opts w file w' :
  w_faults w = [] → not_duplicate self content w → cr_enabled (cm_config (sm_crypto self)) = false →
  so_encrypt opts = Some true → so_encryption_key_id opts = None →
  store_file self b k content ct opts w = (Ok file, w') → sf_is_compressed file = Some false →
  sf_is_encrypted file = Some true ∧ fs_read (w_fs w') (sf_file_path file) = Ok content.
Proof.
  intros Hf Hnd Hoff Henc Hkid Hst Hc.
  destruct (store_file_new_inv self Hcw _ _ _ _ _ _ _ _ Hf Hnd Hst)
    as (w1 & compressed & is_c & processed & id & ser & _ & [H1 [wE H2] H3 _ H5 _ _ _ _]).
  assert (should_encrypt self opts = true) as Hs by (unfold should_encrypt; by rewrite Henc).
  rewrite H3 in Hc |- *. cbn [stored_row sf_is_compressed sf_is_encrypted sf_file_path] in Hc |- *.
  rewrite Hs. split; [done|]. rewrite H5. f_equal.
  injection Hc as ->. apply compress_step_inv in H1. subst compressed.
  unfold encrypt_step in H2. rewrite Hs, Hkid, run_bind, run_lift in H2.
  destruct (from_str _) as [a|]; [|done]. unfold encrypt in H2. rewrite Hoff in H2. by injection H2.
Qed.

(** A key can leave its bucket.  A key that begins with ".." and the name
    of another bucket has the path of that bucket's file. *)
Theorem dotdot_key_reaches_other_bucket b b2 k2 s :
  ordinary_bucket b = true → ordinary_bucket b2 = true → ordinary_key k2 = true →
  place_of s (get_file_path self b (".." +:+ "/" +:+ b2 +:+ "/" +:+ k2))
  = place_of s (get_file_path self b2 k2).
Proof.
  intros Hb Hb2 Hk2. rewrite (file_place self b2 k2) by done.
  apply ordinary_bucket_segments in Hb as (Hsb & Hbs & _).
  apply ordinary_bucket_segments in Hb2 as (Hsb2 & Hbs2 & _).
  pose proof Hk2 as (Hks & _)%ordinary_key_segments.
  assert (starts_with b "/" = false) as H1 by (apply no_leading_slash; by rewrite Hsb).
  set (key := ".." +:+ "/" +:+ b2 +:+ "/" +:+ k2).
  assert (starts_with key "/" = false) as H2 by done.
  assert (components key = ".." :: b2 :: split "/" k2) as Hkey.
  { unfold key. change (".." +:+ "/" +:+ b2 +:+ "/" +:+ k2) with (".." +:+ String "/" (b2 +:+ String "/" k2)).
    rewrite !components_sep. unfold components. rewrite Hsb2.
    rewrite (filter_all _ [b2]) by (by apply ordinary_segments).
    by rewrite (filter_all _ (split "/" k2)) by (by apply ordinary_segments). }
  unfold place_of, get_file_path. rewrite !components_join, !start_place_join by done. rewrite Hkey.
  assert (components b = [b]) as ->.
  { unfold components. rewrite Hsb. apply filter_all. by apply ordinary_segments. }
  rewrite !lexical_app. cbn [lexical]. apply ordinary_segments in Hbs as [_ Hbs].
  apply ordinary_segments in Hbs2 as [_ Hbs2]. apply Forall_inv in Hbs, Hbs2.
  rewrite (decide_True (P := ".." = ".."%string)) by done. rewrite !decide_False by done. cbn [tail].
  rewrite lexical_plain by (by apply ordinary_segments). done.
Qed.

(** The preloader counts a file of more than 1 MB as cached (and marks its row
    so) although the cache takes nothing of it. *)
Theorem preloader_skips_large_files f content w :
  w_faults w = [] → fs_read (w_fs w) (sf_file_path f) = Ok content → MAX_CACHE_SIZE < zlen content →
  cache_file_from_disk (sm_cache self) f w = (Ok (zlen content), w).
Proof using Type.
  intros Hf Hr Hl. assert (fs_exists (w_fs w) (sf_file_path f) = true) as He.
  { unfold fs_read, fs_exists in *. destruct (resolve _ _) as [l|]; [simpl in Hr|done].
    destruct (node_at _ _) as [[d|]|]; [|done..]. by destruct (wants_dir _). }
  unfold cache_file_from_disk. rewrite run_bind, run_attempt, fs_reading_ok, He by done. cbn [fst snd negb].
  rewrite run_bind, run_map_err, fs_reading_ok, Hr by done. cbn [fst snd map_result_err].
  rewrite run_bind. unfold set_file_content. rewrite decide_True by lia. done.
Qed.
End hazards.

(** ** Concrete runs *)

Definition overwrite : result StorageError StoredFile * World :=
  store_file (X:=Toy.ToyExternals) sample_storage "b" "k" [Byte.x63] None default_options second_world.

Lemma overwrite_reaches_alias_witness :
  is_ok overwrite.1 = true ∧
  ∃ ct w'', get_file (X:=Toy.ToyExternals) sample_storage "b" "k2" (set_cache ∅ overwrite.2)
            = (Ok ([Byte.x63], Some ct), w'').
Proof.
  assert (match overwrite.1, db_files (w_db second_world) !! ("b", "k2") with
          | Ok f, Some r => bool_decide (sf_is_compressed f = Some false ∧ sf_is_encrypted f = Some false
              ∧ sf_file_path r = get_file_path sample_storage "b" "k"
              ∧ flag (sf_is_compressed r) = false ∧ flag (sf_is_encrypted r) = false
              ∧ expired r (w_now overwrite.2) = false)
          | _, _ => false
          end = true) as Hfacts by (vm_compute; reflexivity).
  destruct overwrite as [[f|e] w'] eqn:E; simpl in Hfacts; [|discriminate Hfacts].
  destruct (db_files (w_db second_world) !! ("b", "k2")) as [r|] eqn:Er; [|discriminate Hfacts].
  apply bool_decide_eq_true in Hfacts as (Hc & He & Hp & Hc2 & He2 & Hx). split; [reflexivity|].
  exists (sf_content_type r).
  apply (overwrite_reaches_alias (X:=Toy.ToyExternals) sample_storage ltac:(discriminate) "b" "k" [Byte.x63]
           None default_options second_world f w' "b" "k2" r).
  - vm_compute. reflexivity.
  - intros _. vm_compute. reflexivity.
  - discriminate.
  - exact Er.
  - exact Hp.
  - exact Hc2.
  - exact He2.
  - exact E.
  - exact Hc.
  - exact He.
  - exact Hx.
Defined.

(** An overwrite with a content type of 300 characters. *)
Definition long_type : string := String.string_of_list_ascii (replicate 300 "x"%char).

Definition refused_overwrite : result StorageError StoredFile * World :=
  store_new (X:=Toy.ToyExternals) sample_storage "b" "k" [Byte.x63] (Some long_type) default_options
    (compute_hashes_parallel (X:=Toy.ToyExternals) [Byte.x63]) first_world.

Lemma refused_row_loses_bytes_witness :
  fs_read (w_fs first_world) "/data/b/k" = Ok [Byte.x61; Byte.x62] ∧
  db_files (w_db refused_overwrite.2) !! ("b", "k") ≠ None ∧
  ∀ d, fs_read (w_fs refused_overwrite.2) "/data/b/k" ≠ Ok d.
Proof.
  split; [vm_compute; reflexivity|].
  assert (match refused_overwrite.1 with Err (Errors.Database _) => true | _ => false end = true) as Hr
    by (vm_compute; reflexivity).
  destruct refused_overwrite as [[f|[]] w'] eqn:E; simpl in Hr; try discriminate Hr.
  pose proof (refused_row_loses_bytes (X:=Toy.ToyExternals) sample_storage "b" "k" [Byte.x63]
    (Some long_type) default_options (compute_hashes_parallel (X:=Toy.ToyExternals) [Byte.x63])
    first_world _ w' ltac:(vm_compute; reflexivity) eq_refl E) as [Hdb Hgone].
  split; [cbn [snd]; rewrite Hdb; vm_compute; discriminate|]. exact Hgone.
Defined.
