(* ===== verification/Tasks.v ===== *)
(** * Operations as sequences of calls

    An operation of the service is a [prog], which runs in one piece.  In the
    code it is a future that may be suspended at every call it makes, while
    other futures run, and that may be dropped there.  Here the same operation
    is a tree of its external calls ([task]); class [Tasked] gives the tree of
    a program and says that running it in one piece is the program.  The trees
    are derived from the programs by instance resolution, so that there is one
    definition of each operation.  [safe] is the logic of what every call of a
    tree keeps while others run in between. *)

From S2P Require Import Prelude.
From S2P Require Import Errors.
From S2P Require Import Models.
From S2P Require Import FileSystem.
From S2P Require Import Config.
From S2P Require Import Externals.
From S2P Require Import World.
From S2P Require Import Database.
From S2P Require Import Cache.

(** ** Calls *)

(** What an operation may do in one step: one statement, one transaction, one
    call of the file system, one command to the cache, a look at the clock. *)
Inductive call : Type → Type → Type :=
| DbCall {A} (q : Stmt A) : call SqlxError A
| Transaction {A} (body : M A) : call StorageError A
| FsCall {A} (f : FS → result IoError A * FS) : call IoError A
| FsWrite (l : place) (d : bytes) : call IoError unit
| RedisCall {A} (f : gmap string bytes → A * gmap string bytes) : call RedisError A
| MemoryCall {E A} (f : bool → gmap string bytes → A * gmap string bytes) : call E A
| MemoryUpdate {E A} (f : gmap string bytes → A * gmap string bytes) : call E A
| Now {E} : call E DateTime
| FillBytes {E} (n : nat) : call E bytes
| Pause {E} (ms : Z) : call E unit.

Definition perform {E A} (c : call E A) : IO E A :=
  match c with
  | DbCall q => db_call q
  | Transaction body => transaction body
  | FsCall f => fs_call f
  | FsWrite l d => fs_write_call l d
  | RedisCall f => redis_call f
  | MemoryCall f => memory_call f
  | MemoryUpdate f => memory_update f
  | Now => now
  | FillBytes n => fill_bytes n
  | Pause ms => pause ms
  end.

(** ** Trees of calls *)

Inductive task (E A : Type) : Type :=
| Return (r : result E A)
| Await {F B} (c : call F B) (k : result F B → task E A).
Arguments Return {E A} r.
Arguments Await {E A F B} c k.

(** The calls one after the other. *)
Fixpoint run_task {E A} (t : task E A) : IO E A := λ w,
  match t with
  | Return r => (r, w)
  | Await c k => let '(r, w') := perform c w in run_task (k r) w'
  end.

(** What follows the calls of a task, its error included. *)
Fixpoint continue {E F A B} (t : task E A) (k : result E A → task F B) : task F B :=
  match t with
  | Return r => k r
  | Await c k' => Await c (λ r, continue (k' r) k)
  end.

Definition on_ok {E A B} (k : A → task E B) (r : result E A) : task E B :=
  match r with Ok a => k a | Err e => Return (Err e) end.

Fixpoint for_each_task {E A B} (l : list A) (acc : B) (body : A → B → task E B) : task E B :=
  match l with
  | [] => Return (Ok acc)
  | x :: rest => continue (body x acc) (on_ok (λ acc', for_each_task rest acc' body))
  end.

Lemma run_continue {E F A B} (t : task E A) (k : result E A → task F B) w :
  run_task (continue t k) w = let '(r, w') := run_task t w in run_task (k r) w'.
Proof. revert w. induction t as [r|F' B' c k' IH]; intros w; simpl; [done|]. by destruct (perform c w). Qed.

(** ** The tree of a program *)

Class Tasked {E A} (m : IO E A) := {
  task_of : task E A;
  run_task_of w : run_task task_of w = m w
}.
Arguments task_of {E A} m {_}.
Arguments run_task_of {E A} m {_} w.

Section tasked.
Context {E F A B : Type}.

#[export] Instance call_tasked (c : call E A) : Tasked (perform c).
Proof. refine {| task_of := Await c Return |}. intros w. simpl. by destruct (perform c w). Defined.

#[export] Instance ret_tasked (a : A) : Tasked (mret a : IO E A).
Proof. by refine {| task_of := Return (Ok a) |}. Defined.

#[export] Instance throw_tasked (e : E) : Tasked (throw e : IO E A).
Proof. by refine {| task_of := Return (Err e) |}. Defined.

#[export] Instance lift_tasked (r : result E A) : Tasked (lift r : IO E A).
Proof. by refine {| task_of := Return r |}. Defined.

#[export] Instance bind_tasked (m : IO E A) (k : A → IO E B) `{!Tasked m, !∀ a, Tasked (k a)} :
  Tasked (m ≫= k).
Proof.
  refine {| task_of := continue (task_of m) (on_ok (λ a, task_of (k a))) |}.
  intros w. rewrite run_continue, (run_task_of m), run_bind.
  destruct (m w) as [[a|e] w']; [|done]. apply run_task_of.
Defined.

#[export] Instance attempt_tasked (m : IO E A) `{!Tasked m} : Tasked (attempt m : IO F _).
Proof.
  refine {| task_of := continue (task_of m) (λ r, Return (Ok r)) |}.
  intros w. rewrite run_continue, (run_task_of m), run_attempt. by destruct (m w).
Defined.

#[export] Instance map_err_tasked (g : E → F) (m : IO E A) `{!Tasked m} : Tasked (map_err g m).
Proof.
  refine {| task_of := continue (task_of m) (λ r, Return (map_result_err g r)) |}.
  intros w. rewrite run_continue, (run_task_of m), run_map_err. by destruct (m w).
Defined.

#[export] Instance for_each_tasked (l : list A) (acc : B) (body : A → B → IO E B)
  `{!∀ x b, Tasked (body x b)} : Tasked (for_each l acc body).
Proof.
  refine {| task_of := for_each_task l acc (λ x b, task_of (body x b)) |}.
  intros w. revert acc w. induction l as [|x l IH]; intros acc w; [done|].
  simpl. rewrite run_continue, (run_task_of (body x acc)), run_bind.
  destruct (body x acc w) as [[a|e] w']; [|done]. apply IH.
Defined.
End tasked.

#[export] Instance db_call_tasked {A} (q : Stmt A) : Tasked (db_call q) := call_tasked (DbCall q).
#[export] Instance run_sql_tasked {A} (q : Stmt A) : Tasked (run_sql q) := map_err_tasked _ (db_call q).
#[export] Instance transaction_tasked {A} (body : M A) : Tasked (transaction body) :=
  call_tasked (Transaction body).
#[export] Instance fs_call_tasked {A} (f : FS → result IoError A * FS) : Tasked (fs_call f) :=
  call_tasked (FsCall f).
#[export] Instance fs_write_tasked l d : Tasked (fs_write_call l d) := call_tasked (FsWrite l d).
#[export] Instance redis_tasked {A} (f : gmap string bytes → A * gmap string bytes) :
  Tasked (redis_call f) := call_tasked (RedisCall f).
#[export] Instance memory_call_tasked {E A} (f : bool → gmap string bytes → A * gmap string bytes) :
  Tasked (memory_call (E:=E) f) := call_tasked (MemoryCall f).
#[export] Instance memory_update_tasked {E A} (f : gmap string bytes → A * gmap string bytes) :
  Tasked (memory_update (E:=E) f) := call_tasked (MemoryUpdate f).
#[export] Instance now_tasked {E} : Tasked (now (E:=E)) := call_tasked Now.
#[export] Instance fill_bytes_tasked {E} n : Tasked (fill_bytes (E:=E) n) := call_tasked (FillBytes n).
#[export] Instance pause_tasked {E} ms : Tasked (pause (E:=E) ms) := call_tasked (Pause ms).

(** A branch is a task when its arms are. *)
#[export] Hint Extern 2 (Tasked (match ?x with _ => _ end)) => case x; intros : typeclass_instances.

(** ** What every call keeps *)

(** What others rely on may go through stages: [I s] is what holds in stage [s].
    The task keeps [I s] at each of its calls, in whatever stage the call finds
    the state, and ends with a result in [Q]; between the calls the stage may
    change. *)
Fixpoint safe {Stage E A} (I : Stage → World → Prop) (Q : result E A → Prop) (t : task E A) : Prop :=
  match t with
  | Return r => Q r
  | Await c k => ∀ s w, I s w → I s (perform c w).2 ∧ safe I Q (k (perform c w).1)
  end.

Definition safe_of {Stage E A} (I : Stage → World → Prop) (Q : result E A → Prop) (m : IO E A) `{!Tasked m} :
    Prop := safe I Q (task_of m).

(** An invariant without stages. *)
Definition always (I : World → Prop) : unit → World → Prop := λ _, I.

(** Any result. *)
Definition any {E A} (r : result E A) : Prop := True.

Section safe.
Context {Stage : Type} (I : Stage → World → Prop).

Lemma safe_mono {E A} (Q Q' : result E A → Prop) (t : task E A) :
  (∀ r, Q r → Q' r) → safe I Q t → safe I Q' t.
Proof.
  intros HQ. induction t as [r|F B c k IH]; simpl; [apply HQ|].
  intros H s w Hw. destruct (H s w Hw). split; [done|]. by apply IH.
Qed.

Lemma safe_continue {E F A B} (Q : result F B → Prop) (t : task E A) (k : result E A → task F B) :
  safe I (λ r, safe I Q (k r)) t → safe I Q (continue t k).
Proof.
  induction t as [r|F' B' c k' IH]; simpl; [done|].
  intros H s w Hw. destruct (H s w Hw). split; [done|]. by apply IH.
Qed.

Section rules.
Context {E A : Type}.
Implicit Types (Q P : result E A → Prop).

Lemma safe_weaken P Q (m : IO E A) `{!Tasked m} :
  safe_of I P m → (∀ r, P r → Q r) → safe_of I Q m.
Proof. intros H HQ. by eapply safe_mono. Qed.

Lemma safe_call Q (c : call E A) :
  (∀ s w, I s w → I s (perform c w).2 ∧ Q (perform c w).1) → safe_of I Q (perform c).
Proof. intros H s w Hw. by apply H. Qed.

Lemma safe_ret Q (a : A) : Q (Ok a) → safe_of I Q (mret a : IO E A).
Proof. done. Qed.

Lemma safe_throw Q (e : E) : Q (Err e) → safe_of I Q (throw e : IO E A).
Proof. done. Qed.

Lemma safe_lift Q (r : result E A) : Q r → safe_of I Q (lift r : IO E A).
Proof. done. Qed.

Lemma safe_bind {B} P (Q : result E B → Prop) (m : IO E A) (k : A → IO E B)
    `{!Tasked m, Tk : !∀ a, Tasked (k a)} :
  safe_of I P m → (∀ a, P (Ok a) → safe_of I Q (k a)) → (∀ e, P (Err e) → Q (Err e)) →
  safe_of I Q (m ≫= k).
Proof.
  intros Hm Hk He. apply safe_continue. eapply safe_mono; [|exact Hm].
  intros [a|e] Hr; simpl; [by apply Hk|by apply He].
Qed.

(** A step that is a value. *)
Lemma safe_bind_lift {B} (Q : result E B → Prop) (a : A) (k : A → IO E B) `{Tk : !∀ a, Tasked (k a)} :
  safe_of I Q (k a) → safe_of I Q (lift (Ok a) ≫= k).
Proof. done. Qed.

Lemma safe_attempt {F} (Q : result F (result E A) → Prop) (m : IO E A) `{!Tasked m} :
  safe_of I (λ r, Q (Ok r)) m → safe_of I Q (attempt m : IO F _).
Proof. intros Hm. by apply safe_continue. Qed.

Lemma safe_map_err {F} (Q : result F A → Prop) (g : E → F) (m : IO E A) `{!Tasked m} :
  safe_of I (λ r, Q (map_result_err g r)) m → safe_of I Q (map_err g m).
Proof. intros Hm. by apply safe_continue. Qed.

Lemma safe_for_each {B} (J : B → Prop) (Q : result E B → Prop) (l : list A) (acc : B)
    (body : A → B → IO E B) `{Tb : !∀ x b, Tasked (body x b)} :
  J acc → (∀ b, J b → Q (Ok b)) →
  (∀ x b, x ∈ l → J b → safe_of I (λ r, match r with Ok b' => J b' | Err e => Q (Err e) end) (body x b)) →
  safe_of I Q (for_each l acc body).
Proof.
  intros Hacc Hend Hb. revert acc Hacc. unfold safe_of. cbn [task_of for_each_tasked].
  induction l as [|x l IH]; intros acc Hacc; simpl; [by apply Hend|].
  apply safe_continue. eapply safe_mono; [|apply Hb; [left|exact Hacc]].
  intros [b|e] Hr; simpl; [|done]. apply IH; [|done]. intros y b' Hy. apply Hb. by right.
Qed.
End rules.

(** The rules for operations whose result does not matter. *)
Lemma safe_any {E A} (Q : result E A → Prop) (m : IO E A) `{!Tasked m} :
  safe_of I Q m → safe_of I any m.
Proof. intros H. by eapply safe_weaken. Qed.

Lemma safe_bind_any {E A B} (Q : result E B → Prop) (m : IO E A) (k : A → IO E B)
    `{!Tasked m, Tk : !∀ a, Tasked (k a)} :
  safe_of I any m → (∀ a, safe_of I Q (k a)) → (∀ e, Q (Err e)) → safe_of I Q (m ≫= k).
Proof. intros Hm Hk He. by eapply safe_bind; [exact Hm|..]. Qed.

Lemma safe_attempt_any {E F A} (m : IO E A) `{!Tasked m} :
  safe_of I any m → safe_of I any (attempt m : IO F _).
Proof. exact (safe_attempt any m). Qed.

(** An attempt has no error to pass on. *)
Lemma safe_bind_attempt {E F A B} (P : result E A → Prop) (Q : result F B → Prop) (m : IO E A)
    (k : result E A → IO F B) `{!Tasked m, Tk : !∀ a, Tasked (k a)} :
  safe_of I P m → (∀ r, P r → safe_of I Q (k r)) → safe_of I Q (attempt m ≫= k).
Proof.
  intros Hm Hk. apply (safe_bind (λ r, ∃ a, r = Ok a ∧ P a)).
  - apply safe_attempt. eapply safe_weaken; [exact Hm|]. eauto.
  - intros a (a' & [= <-] & Ha). by apply Hk.
  - by intros e (a & [=] & _).
Qed.

(** Steps whose results are known. *)
Lemma safe_bind_eq {E A B} (x : result E A) (y : A → result E B) (m : IO E A) (k : A → IO E B)
    `{!Tasked m, Tk : !∀ a, Tasked (k a)} :
  safe_of I (λ r, r = x) m → (∀ a, safe_of I (λ r, r = y a) (k a)) → safe_of I (λ r, r = x ≫= y) (m ≫= k).
Proof.
  intros Hm Hk. apply (safe_bind (λ r, r = x)); [exact Hm|intros a <-; apply Hk|by intros e <-].
Qed.

Lemma safe_map_err_any {E F A} (g : E → F) (m : IO E A) `{!Tasked m} :
  safe_of I any m → safe_of I any (map_err g m).
Proof. exact (safe_map_err any g m). Qed.

Lemma safe_for_each_any {E A B} (l : list A) (acc : B) (body : A → B → IO E B)
    `{Tb : !∀ x b, Tasked (body x b)} :
  (∀ x b, x ∈ l → safe_of I any (body x b)) → safe_of I any (for_each l acc body).
Proof.
  intros H. apply (safe_for_each (λ _, True)); [done|done|]. intros x b Hx _.
  eapply safe_weaken; [by apply H|]. by intros [|].
Qed.

(** An operation that is safe keeps [I] in one piece. *)
Lemma safe_run {E A} (Q : result E A → Prop) (m : IO E A) `{!Tasked m} s w :
  safe_of I Q m → I s w → I s (m w).2 ∧ Q (m w).1.
Proof.
  rewrite <- (run_task_of m). unfold safe_of. generalize (task_of m). intros t. revert w.
  induction t as [r|F B c k IH]; intros w; simpl; [done|]. intros H Hw. destruct (H s w Hw) as [Hw' Hk].
  destruct (perform c w) as [r w']. by apply IH.
Qed.

(** A call that keeps [I] in one piece. *)
Lemma safe_respects {E A} (c : call E A) : (∀ s, respects (keeps (I s)) (perform c)) → safe_of I any (perform c).
Proof. intros H. apply safe_call. intros s w Hw. split; [|done]. by apply (H s). Qed.
End safe.

(** ** Calls one by one *)

Create HintDb safe discriminated.
#[export] Hint Constants Opaque : safe.

Section safe_calls.
Context {Stage : Type} (I : Stage → World → Prop).

Lemma safe_db_call {A} (q : Stmt A) : (∀ s, respects (keeps (I s)) (db_call q)) → safe_of I any (db_call q).
Proof. exact (safe_respects I (DbCall q)). Qed.

Lemma safe_run_sql {A} (q : Stmt A) : (∀ s, respects (keeps (I s)) (run_sql q)) → safe_of I any (run_sql q).
Proof.
  intros H. apply (safe_map_err_any I _ (db_call q)), safe_db_call. intros s w Hw. specialize (H s w Hw).
  unfold run_sql in H. by rewrite run_map_err in H.
Qed.

Lemma safe_transaction {A} (body : M A) :
  (∀ s, respects (keeps (I s)) (transaction body)) → safe_of I any (transaction body).
Proof. exact (safe_respects I (Transaction body)). Qed.

Lemma safe_fs_call {A} (f : FS → result IoError A * FS) :
  (∀ s, respects (keeps (I s)) (fs_call f)) → safe_of I any (fs_call f).
Proof. exact (safe_respects I (FsCall f)). Qed.

Lemma safe_fs_write l d : (∀ s, respects (keeps (I s)) (fs_write_call l d)) → safe_of I any (fs_write_call l d).
Proof. exact (safe_respects I (FsWrite l d)). Qed.

Lemma safe_redis {A} (f : gmap string bytes → A * gmap string bytes) :
  (∀ s, respects (keeps (I s)) (redis_call f)) → safe_of I any (redis_call f).
Proof. exact (safe_respects I (RedisCall f)). Qed.

Lemma safe_memory_call {E A} (f : bool → gmap string bytes → A * gmap string bytes) :
  (∀ s, respects (keeps (I s)) (memory_call (E:=E) f)) → safe_of I any (memory_call (E:=E) f).
Proof. exact (safe_respects I (MemoryCall f)). Qed.

Lemma safe_memory_update {E A} (f : gmap string bytes → A * gmap string bytes) :
  (∀ s, respects (keeps (I s)) (memory_update (E:=E) f)) → safe_of I any (memory_update (E:=E) f).
Proof. exact (safe_respects I (MemoryUpdate f)). Qed.

Lemma safe_now {E} : safe_of I any (now (E:=E)).
Proof. apply (safe_respects I Now). by intros s w Hw. Qed.

Lemma safe_fill_bytes {E} n : (∀ s, respects (keeps (I s)) (fill_bytes (E:=E) n)) → safe_of I any (fill_bytes (E:=E) n).
Proof. exact (safe_respects I (FillBytes n)). Qed.
End safe_calls.

#[export] Hint Resolve safe_now : safe.

(** Walks through an operation whose result does not matter, down to its
    calls, which the hints of [safe] and [respects] close. *)
Ltac solve_safe :=
  repeat first
    [ progress intros
    | progress cbv beta zeta
    | match goal with |- any _ => exact Logic.I end
    | solve [eauto 2 with safe nocore]
    | simple apply safe_ret | simple apply safe_throw | simple apply safe_lift
    | simple apply safe_bind_any
    | simple apply safe_attempt_any | simple apply safe_map_err_any | simple apply safe_for_each_any
    | match goal with |- @safe_of _ _ _ _ _ (match ?x with _ => _ end) _ => destruct x end
    | first [simple apply safe_run_sql | simple apply safe_db_call | simple apply safe_fs_call
            | simple apply safe_fs_write | simple apply safe_redis | simple apply safe_memory_call
            | simple apply safe_memory_update | simple apply safe_fill_bytes | simple apply safe_transaction];
      solve [eauto with respects] ].
