(* ===== verification/Jobs.v ===== *)
(** * Requests and background jobs in flight

    The operations of the managers as trees of calls, and the pool in which
    they run: one task makes one call at a time, in any order; a job may arrive
    at any moment; a task may be dropped wherever it waits, as the time-out
    layer (app.rs, REQUEST_TIMEOUT) and a client that hangs up do; and between
    calls time passes and cache entries are lost.

    A transaction is one call: the pool has no interleaving inside it.  A
    request that calls the manager several times is one job for each call. *)

From S2P Require Import Prelude.
From S2P Require Import Errors.
From S2P Require Import Models.
From S2P Require Import FileSystem.
From S2P Require Import Config.
From S2P Require Import Externals.
From S2P Require Import World.
From S2P Require Import Compression.
From S2P Require Import Crypto.
From S2P Require Import Database.
From S2P Require Import Cache.
From S2P Require Import EncryptionKeys.
From S2P Require Import Performance.
From S2P Require Import Storage.
From S2P Require Import StorageWf.
From S2P Require Import Deletion.
From S2P Require Import Tasks.

(** ** The trees of the operations *)

Section cache_tasks.
Context `{X : Externals} (self : CacheManager).

#[export] Instance backend_get_tasked key : Tasked (backend_get self key).
Proof. unfold backend_get, memory_get, get_async_connection. apply _. Defined.

#[export] Instance backend_set_tasked key value : Tasked (backend_set self key value).
Proof. unfold backend_set, memory_insert, get_async_connection. apply _. Defined.

#[export] Instance backend_del_tasked keys : Tasked (backend_del self keys).
Proof. unfold backend_del, get_async_connection. apply _. Defined.

#[export] Instance get_file_metadata_tasked b k : Tasked (get_file_metadata self b k).
Proof. unfold get_file_metadata. apply _. Defined.

#[export] Instance set_file_metadata_tasked b k f : Tasked (set_file_metadata self b k f).
Proof. unfold set_file_metadata. apply _. Defined.

#[export] Instance get_file_content_tasked b k : Tasked (get_file_content self b k).
Proof. unfold get_file_content. apply _. Defined.

#[export] Instance set_file_content_tasked b k c : Tasked (set_file_content self b k c).
Proof. unfold set_file_content. apply _. Defined.

#[export] Instance invalidate_file_tasked b k : Tasked (invalidate_file self b k).
Proof. unfold invalidate_file. apply _. Defined.

#[export] Instance get_cache_config_tasked : Tasked get_cache_config.
Proof. unfold get_cache_config. apply _. Defined.

#[export] Instance update_cache_status_tasked id st h : Tasked (update_cache_status id st h).
Proof. unfold update_cache_status. apply _. Defined.

#[export] Instance popular_tasked n l : Tasked (get_popular_uncached_files n l).
Proof. unfold get_popular_uncached_files. apply _. Defined.

#[export] Instance cache_file_from_disk_tasked f : Tasked (cache_file_from_disk self f).
Proof. unfold cache_file_from_disk. apply _. Defined.

#[export] Instance preload_tasked : Tasked (preload_popular_files self).
Proof. unfold preload_popular_files. apply _. Defined.
End cache_tasks.

Section storage_tasks.
Context `{X : Externals} (self : StorageManager).

#[export] Instance save_file_tasked f : Tasked (Database.save_file f).
Proof. unfold Database.save_file. apply _. Defined.

#[export] Instance db_get_file_tasked b k : Tasked (Database.get_file b k).
Proof. unfold Database.get_file. apply _. Defined.

#[export] Instance get_file_by_hash_tasked h : Tasked (get_file_by_hash h).
Proof. unfold get_file_by_hash. apply _. Defined.

#[export] Instance list_expired_files_tasked : Tasked list_expired_files.
Proof. unfold list_expired_files. apply _. Defined.

#[export] Instance update_access_tasked id : Tasked (update_access id).
Proof. unfold update_access. apply _. Defined.

#[export] Instance get_key_tasked kid : Tasked (get_key kid).
Proof. unfold get_key. apply _. Defined.

#[export] Instance create_key_tasked kid d a s : Tasked (create_key kid d a s).
Proof. unfold create_key. apply _. Defined.

#[export] Instance generate_key_id_tasked : Tasked generate_key_id.
Proof. unfold generate_key_id. apply _. Defined.

#[export] Instance create_encryption_key_tasked a d : Tasked (create_encryption_key a d).
Proof. unfold create_encryption_key. apply _. Defined.

#[export] Instance deactivate_key_tasked kid : Tasked (deactivate_encryption_key kid).
Proof. unfold deactivate_encryption_key, deactivate_key. apply _. Defined.

#[export] Instance write_file_tasked p c : Tasked (write_file_optimized p c).
Proof. unfold write_file_optimized. apply _. Defined.

#[export] Instance write_atomic_tasked p c : Tasked (write_file_atomic_optimized p c).
Proof. unfold write_file_atomic_optimized. apply _. Defined.

#[export] Instance create_bucket_tasked b : Tasked (create_bucket self b).
Proof. unfold create_bucket. apply _. Defined.

#[export] Instance ensure_bucket_tasked b : Tasked (ensure_bucket_exists self b).
Proof. unfold ensure_bucket_exists. apply _. Defined.

#[export] Instance encrypt_tasked m c a : Tasked (encrypt m c a).
Proof. unfold encrypt, encrypt_aes, encrypt_chacha. apply _. Defined.

#[export] Instance encrypt_with_key_tasked c a key : Tasked (encrypt_with_key c a key).
Proof. unfold encrypt_with_key. apply _. Defined.

#[export] Instance encrypt_step_tasked o c : Tasked (encrypt_step self o c).
Proof. unfold encrypt_step. apply _. Defined.

#[export] Instance new_v4_tasked : Tasked new_v4.
Proof. unfold new_v4. apply _. Defined.

#[export] Instance store_new_tasked b k c ct o h : Tasked (store_new self b k c ct o h).
Proof. unfold store_new. apply _. Defined.

#[export] Instance store_file_tasked b k c ct o : Tasked (store_file self b k c ct o).
Proof. unfold store_file. apply _. Defined.

#[export] Instance delete_row_tasked b k : Tasked (delete_row b k).
Proof. unfold delete_row. apply _. Defined.

#[export] Instance unlink_tasked b k p n : Tasked (unlink_and_invalidate self b k p n).
Proof. unfold unlink_and_invalidate. apply _. Defined.

#[export] Instance delete_file_tasked b k : Tasked (delete_file self b k).
Proof.
  change (Tasked (pr ← delete_row b k; let '(path, n) := pr in unlink_and_invalidate self b k path n)).
  apply _.
Defined.

#[export] Instance read_metadata_tasked b k : Tasked (read_metadata self b k).
Proof. unfold read_metadata. apply _. Defined.

#[export] Instance read_content_tasked b k f : Tasked (read_content self b k f).
Proof. unfold read_content. apply _. Defined.

#[export] Instance decrypt_content_tasked f c : Tasked (decrypt_content self f c).
Proof. unfold decrypt_content. apply _. Defined.

#[export] Instance decode_content_tasked f c : Tasked (decode_content self f c).
Proof. unfold decode_content. apply _. Defined.

#[export] Instance touch_tasked f : Tasked (touch f).
Proof. unfold touch. apply _. Defined.

#[export] Instance get_file_tasked b k : Tasked (get_file self b k).
Proof. unfold get_file. apply _. Defined.

#[export] Instance plain_range_tasked b k s e : Tasked (get_file_range_if_plain self b k s e).
Proof. unfold get_file_range_if_plain. apply _. Defined.

#[export] Instance compressed_range_tasked b k s e : Tasked (get_compressed_file_range self b k s e).
Proof. unfold get_compressed_file_range. apply _. Defined.

#[export] Instance get_file_info_tasked b k : Tasked (get_file_info self b k).
Proof. unfold get_file_info. apply _. Defined.

#[export] Instance sweep_tasked : Tasked (sweep_expired_files self).
Proof. unfold sweep_expired_files. apply _. Defined.

#[export] Instance clean_file_tasked b f : Tasked (clean_file self b f).
Proof. unfold clean_file. apply _. Defined.

#[export] Instance delete_bucket_tasked b : Tasked (delete_bucket self b).
Proof. unfold delete_bucket. apply _. Defined.
End storage_tasks.

(** ** Jobs *)

(** What a job replies. *)
Inductive reply :=
| Nothing
| StoredRow (f : StoredFile)
| Content (content : bytes) (content_type : option string)
| Span (span : option (bytes * string * Z))
| InfoOf (i : FileInfo)
| Swept (n : Z)
| KeyMade (k : EncryptionKey).

(** A job on its way, and the jobs on their way with the state they share. *)
Record thread := mkThread { th_event : event; th_task : task StorageError reply }.

Abbreviation pool := (list thread * World)%type.

Section jobs.
Context `{X : Externals} (self : StorageManager).

(** The operation of an event of [StorageWf]. *)
Definition job (e : event) : M reply :=
  match e with
  | Upload b k c ct o => f ← store_file self b k c ct o; mret (StoredRow f)
  | Download b k => r ← get_file self b k; mret (Content r.1 r.2)
  | DownloadRange b k s e => r ← get_file_range_if_plain self b k s e; mret (Span r)
  | DownloadCompressedRange b k s e => r ← get_compressed_file_range self b k s e; mret (Span r)
  | Info b k => i ← get_file_info self b k; mret (InfoOf i)
  | Remove b k => _ ← delete_file self b k; mret Nothing
  | Sweep => n ← sweep_expired_files self; mret (Swept n)
  | MakeBucket b => _ ← create_bucket self b; mret Nothing
  | DropBucket b => _ ← delete_bucket self b; mret Nothing
  | Preload => _ ← preload_popular_files (sm_cache self); mret Nothing
  | MakeKey a d => k ← create_encryption_key a d; mret (KeyMade k)
  | DropKey kid => _ ← deactivate_encryption_key kid; mret Nothing
  end.

#[export] Instance job_tasked e : Tasked (job e).
Proof. unfold job. apply _. Defined.

Lemma job_state e w : (job e w).2 = run_event self e w.
Proof.
  destruct e; simpl; unfold mbind, prog_bind;
    match goal with |- context [match ?m w with _ => _ end] => by destruct (m w) as [[]] end.
Qed.

(** ** The pool *)

(** A job that has just arrived. *)
Definition started (e : event) : thread := mkThread e (task_of (job e)).

Section turns.
Context (admits : event → Prop) (environment : relation World).

Inductive turn : relation pool :=
| turn_call i e F B (c : call F B) k ps w :
    ps !! i = Some (mkThread e (Await c k)) →
    turn (ps, w) (<[i := mkThread e (k (perform c w).1)]> ps, (perform c w).2)
| turn_arrive e ps w : admits e → turn (ps, w) (ps ++ [started e], w)
| turn_drop i ps w : turn (ps, w) (delete i ps, w)
| turn_environment ps w w' : environment w w' → turn (ps, w) (ps, w').

(** What every call of every job keeps holds in every interleaving. *)
Lemma pool_safe {Stage} (I : Stage → World → Prop) (Q : event → result StorageError reply → Prop)
    s ps w ps' w' :
  (∀ s v v', environment v v' → I s v → I s v') →
  (∀ e, admits e → safe_of I (Q e) (job e)) →
  rtc turn (ps, w) (ps', w') → I s w →
  Forall (λ t, safe I (Q (th_event t)) (th_task t)) ps →
  I s w' ∧ Forall (λ t, safe I (Q (th_event t)) (th_task t)) ps'.
Proof.
  intros Henv Hjobs. remember (ps, w) as x eqn:Hx. remember (ps', w') as y eqn:Hy. intros H.
  revert ps w Hx. induction H as [x|x x1 y Hs _ IH]; intros ps w ->; simplify_eq; [done|].
  inversion Hs as [i e F B c k ps1 w1 Hi|e ps1 w1 He|i ps1 w1|ps1 w1 w2 He]; simplify_eq;
    intros Hw Hps; eapply IH; try done.
  - pose proof (Forall_lookup_1 _ _ _ _ Hps Hi) as Hc. simpl in Hc. by apply Hc.
  - pose proof (Forall_lookup_1 _ _ _ _ Hps Hi) as Hc. apply Forall_insert; [done|]. by eapply Hc.
  - apply Forall_app. split; [done|]. apply Forall_singleton. by apply Hjobs.
  - by apply Forall_delete.
  - by eapply Henv.
Qed.

(** The same for a pool that starts empty, with the results of the jobs. *)
Lemma pool_safe_empty {Stage} (I : Stage → World → Prop) (Q : event → result StorageError reply → Prop)
    s w ps' w' :
  (∀ s v v', environment v v' → I s v → I s v') →
  (∀ e, admits e → safe_of I (Q e) (job e)) →
  rtc turn ([], w) (ps', w') → I s w →
  I s w' ∧ ∀ e r, mkThread e (Return r) ∈ ps' → Q e r.
Proof.
  intros Henv Hjobs Hturns Hw.
  destruct (pool_safe I Q s [] w ps' w' Henv Hjobs Hturns Hw) as [Hw' Hps]; [done|].
  split; [done|]. intros e r Hin. by apply (proj1 (Forall_forall _ _) Hps _ Hin).
Qed.

(** A task that is left alone makes its calls one after the other. *)
Lemma run_alone i e (t : task StorageError reply) ps w :
  ps !! i = Some (mkThread e t) →
  rtc turn (ps, w) (<[i := mkThread e (Return (run_task t w).1)]> ps, (run_task t w).2).
Proof.
  revert ps w. induction t as [r|F B c k IH]; intros ps w Hi; simpl.
  - by rewrite list_insert_id.
  - eapply rtc_l; [by apply turn_call|]. destruct (perform c w) as [r w']. simpl.
    specialize (IH r (<[i := mkThread e (k r)]> ps) w'). rewrite list_insert_insert_eq in IH.
    apply IH, list_lookup_insert_eq. by eapply lookup_lt_Some.
Qed.
(** ** Schedules *)

(** One move of an executable scheduler; a task that has finished stays as it
    is. *)
Inductive move := Arrive (e : event) | Advance (i : nat) | Finish (i : nat) | Drop (i : nat).

Definition advance_thread (i : nat) (p : pool) : pool :=
  match p.1 !! i with
  | Some (mkThread e (Await c k)) =>
    let '(r, w) := perform c p.2 in (<[i := mkThread e (k r)]> p.1, w)
  | _ => p
  end.

Definition finish_thread (i : nat) (p : pool) : pool :=
  match p.1 !! i with
  | Some (mkThread e t) => let '(r, w) := run_task t p.2 in (<[i := mkThread e (Return r)]> p.1, w)
  | None => p
  end.

Definition make_move (p : pool) (m : move) : pool :=
  match m with
  | Arrive e => (p.1 ++ [started e], p.2)
  | Advance i => advance_thread i p
  | Finish i => finish_thread i p
  | Drop i => (delete i p.1, p.2)
  end.

Definition schedule (ms : list move) (p : pool) : pool := foldl make_move p ms.

Lemma make_move_turns p m :
  match m with Arrive e => admits e | _ => True end → rtc turn p (make_move p m).
Proof.
  destruct p as [ps w], m as [e|i|i|i]; simpl; intros He.
  - by apply rtc_once, turn_arrive.
  - unfold advance_thread. simpl. destruct (ps !! i) as [[e [r|F B c k]]|] eqn:E; [done| |done].
    pose proof (turn_call i e F B c k ps w E) as H. destruct (perform c w) as [r w']. by apply rtc_once.
  - unfold finish_thread. simpl. destruct (ps !! i) as [[e t]|] eqn:E; [|done].
    pose proof (run_alone i e t ps w E) as H. by destruct (run_task t w).
  - apply rtc_once, turn_drop.
Qed.

(** What the scheduler does are turns of the pool. *)
Lemma schedule_turns ms p :
  Forall (λ m, match m with Arrive e => admits e | _ => True end) ms → rtc turn p (schedule ms p).
Proof.
  intros Hms. revert p. induction Hms as [|m ms Hm _ IH]; intros p; simpl; [done|].
  etrans; [by apply make_move_turns|apply IH].
Qed.

(** The result of a thread that has finished. *)
Definition finished (i : nat) (p : pool) : option (event * result StorageError reply) :=
  match p.1 !! i with Some (mkThread e (Return r)) => Some (e, r) | _ => None end.

Lemma finished_elem i p e r : finished i p = Some (e, r) → mkThread e (Return r) ∈ p.1.
Proof.
  unfold finished. destruct (p.1 !! i) as [[e' [r'|F B c k]]|] eqn:E; [|done|done].
  intros [= <- <-]. by eapply list_elem_of_lookup_2.
Qed.
End turns.

(** More jobs may be admitted. *)
Lemma turns_mono (P Q : event → Prop) environment p p' :
  (∀ e, P e → Q e) → rtc (turn P environment) p p' → rtc (turn Q environment) p p'.
Proof.
  intros H. apply rtc_subrel. intros x y []; [by apply turn_call|by apply turn_arrive, H|apply turn_drop|by apply turn_environment].
Qed.
End jobs.
