(* ===== verification/Guarantee.v ===== *)
(** * What a job guarantees to the others

    An invariant of the state survives every interleaving when every single
    call of every job keeps it.  Class [Kept] lists what has to be shown for
    that, one law for each kind of call the jobs make, and [job_kept] that the
    laws are enough.  The predicates of [Rules] say what jobs may do and what a
    job knows of the values it carries from one call to the next. *)

From S2P Require Import Prelude.
From S2P Require Import Errors.
From S2P Require Import Models.
From S2P Require Import FileSystem.
From S2P Require Import Config.
From S2P Require Import Externals.
From S2P Require Import World.
From S2P Require Import Compression.
From S2P Require Import Crypto.
From S2P Require Import Database.
From S2P Require Import Cache.
From S2P Require Import EncryptionKeys.
From S2P Require Import Performance.
From S2P Require Import Storage.
From S2P Require Import StorageWf.
From S2P Require Import Deletion.
From S2P Require Import Tasks.
From S2P Require Import Jobs.

(** ** Calls that only look, fail, or lose cache entries *)

Class Robust {Stage} (I : Stage → World → Prop) : Prop := {
  robust_faults s w : I s w → I s (set_faults (tail (w_faults w)) w);
  robust_entropy s w n : I s w → I s (set_entropy_pos n w);
  robust_cache s w c : c ⊆ w_cache w → I s w → I s (set_cache c w)
}.

(** What a statement or a change of the files must keep. *)
Definition closed {Stage A} (I : Stage → World → Prop) (q : Stmt A) : Prop :=
  ∀ s w a d, I s w → q (w_now w) (w_db w) = Ok (a, d) → I s (set_db d w).

Definition closed_fs {Stage} (I : Stage → World → Prop) (f : FS → result IoError FS) : Prop :=
  ∀ s w fs, I s w → f (w_fs w) = Ok fs → I s (set_fs fs w).

Lemma remove_keys_sub keys c : remove_keys keys c ⊆ c.
Proof.
  induction keys as [|k keys IH]; simpl; [done|]. etrans; [apply delete_subseteq|exact IH].
Qed.

Section robust.
Context {Stage : Type} (I : Stage → World → Prop) `{!Robust I}.

Lemma next_fault_kept {E} s w : I s w → I s (next_fault (E:=E) w).2.
Proof.
  intros Hw. unfold next_fault. pose proof (robust_faults s w Hw) as H.
  by destruct (w_faults w) as [|f fs].
Qed.

Lemma safe_sql_val {A} (Q : result StorageError A → Prop) (q : Stmt A) :
  (∀ s w a d, I s w → q (w_now w) (w_db w) = Ok (a, d) → I s (set_db d w) ∧ Q (Ok a)) →
  (∀ e, Q (Err e)) → safe_of I Q (run_sql q).
Proof.
  intros Hq He. apply (safe_map_err I _ _ (db_call q)), (safe_call I _ (DbCall q)). intros s w Hw.
  simpl. unfold db_call. pose proof (next_fault_kept (E:=SqlxError) s w Hw) as Hf.
  destruct (next_fault w) as [[[f|]|e] w1]; simpl in *; [by split| |];
    (destruct (q _ _) as [[a d]|e'] eqn:Eq; simpl; [by eapply Hq|by split]).
Qed.

Lemma safe_sql {A} (q : Stmt A) : closed I q → safe_of I any (run_sql q).
Proof. intros H. apply safe_sql_val; [|done]. intros s w a d Hw Hq. split; [by eapply H|done]. Qed.

(** A statement that reads tells what holds of the tables. *)
Lemma safe_read_val {A} (Q : result StorageError A → Prop) (q : Stmt A) :
  (∀ now d a d', q now d = Ok (a, d') → d' = d) →
  (∀ s w a, I s w → q (w_now w) (w_db w) = Ok (a, w_db w) → Q (Ok a)) →
  (∀ e, Q (Err e)) → safe_of I Q (run_sql q).
Proof.
  intros Hr HQ He. apply safe_sql_val; [|done]. intros s w a d Hw Hq. pose proof (Hr _ _ _ _ Hq) as ->.
  rewrite set_db_id. split; [done|]. by eapply HQ.
Qed.

Lemma safe_select_val {A} (Q : result StorageError A → Prop) (q : Db → A) :
  (∀ s w, I s w → Q (Ok (q (w_db w)))) → (∀ e, Q (Err e)) → safe_of I Q (run_sql (select q)).
Proof.
  intros HQ. apply safe_read_val; [by intros now d a d' [= _ <-]|].
  intros s w a Hw [= <-]. by eapply HQ.
Qed.

Lemma safe_select {A} (q : Db → A) : safe_of I any (run_sql (select q)).
Proof. by apply safe_select_val. Qed.

Lemma safe_fs_val {A} (Q : result IoError A → Prop) (f : FS → result IoError A * FS) :
  (∀ s w, I s w → I s (set_fs (f (w_fs w)).2 w) ∧ Q (f (w_fs w)).1) → (∀ e, Q (Err e)) →
  safe_of I Q (fs_call f).
Proof.
  intros Hq He. apply (safe_call I _ (FsCall f)). intros s w Hw.
  simpl. unfold fs_call. pose proof (next_fault_kept (E:=IoError) s w Hw) as Hf.
  destruct (next_fault w) as [[[g|]|e] w1]; simpl in *; [by split| |];
    (destruct (Hq s w1 Hf); by destruct (f (w_fs w1))).
Qed.

Lemma safe_fs_changing (f : FS → result IoError FS) : closed_fs I f → safe_of I any (fs_call (fs_changing f)).
Proof.
  intros H. apply safe_fs_val; [|done]. intros s w Hw. split; [|done]. unfold fs_changing.
  destruct (f (w_fs w)) as [fs|e] eqn:E; simpl; [by eapply H|by rewrite set_fs_id].
Qed.

Lemma safe_fs_reading {A} (f : FS → result IoError A) : safe_of I any (fs_call (fs_reading f)).
Proof. apply safe_fs_val; [|done]. intros s w Hw. simpl. by rewrite set_fs_id. Qed.

Lemma safe_fs_write_kept l d :
  (∀ s w d', I s w → I s (set_fs (fs_write_handle (w_fs w) l d') w)) → safe_of I any (fs_write_call l d).
Proof.
  intros H. apply safe_fs_write. intros s w Hw. unfold fs_write_call.
  pose proof (next_fault_kept (E:=IoError) s w Hw) as Hf.
  destruct (next_fault w) as [[[g|]|e] w1]; simpl in *; by apply H.
Qed.

Lemma safe_fill {E} n : safe_of I any (fill_bytes (E:=E) n).
Proof. apply safe_fill_bytes. intros s w Hw. by apply robust_entropy. Qed.

(** A program that draws random bytes and makes no other call. *)
Lemma safe_draw {E A} (Q : result E A → Prop) n (k : bytes → IO E A) `{Tk : !∀ x, Tasked (k x)} :
  (∀ w, Q ((x ← fill_bytes n; k x) w).1) → (∀ x, ∃ r, task_of (k x) = Return r) →
  safe_of I Q (x ← fill_bytes n; k x).
Proof.
  intros HQ Hk s w Hw. split; [by apply robust_entropy|]. simpl.
  specialize (HQ w). rewrite run_bind in HQ. simpl in HQ.
  set (x := map _ _) in *. destruct (Hk x) as [r Hr].
  rewrite Hr. simpl. rewrite <- (run_task_of (k x)), Hr in HQ. exact HQ.
Qed.

Lemma sealed_once {E A B} (r : result E A) (f : A → B) :
  ∃ r', task_of (lift r ≫= λ a, mret (f a) : IO E B) = Return r'.
Proof. destruct r; by eexists. Qed.

(** What was encrypted can be decrypted. *)
Lemma encrypt_with_key_val `{X : Externals, !ExternalsLaws X} data a key :
  safe_of I (λ r, ∀ c, r = Ok c → decrypt_with_key c a key = Ok data) (encrypt_with_key data a key).
Proof.
  pose proof (decrypt_encrypt_with_key data a key) as H. unfold encrypt_with_key, encrypt_with_key_tasked in *.
  case_decide; [by apply safe_throw|]. apply safe_draw; [|intros x; apply (sealed_once _ (λ ct, x ++ ct))].
  intros w c Hc. eapply (H w). rewrite <- Hc. apply surjective_pairing.
Qed.

Lemma encrypt_val `{X : Externals, !ExternalsLaws X} m data a :
  safe_of I (λ r, ∀ c, r = Ok c → decrypt m c a = Ok data) (encrypt m data a).
Proof.
  pose proof (λ w c w', decrypt_encrypt m data a w c w') as H. unfold encrypt, encrypt_tasked in *.
  destruct (negb _) eqn:En; [apply safe_ret; intros c [= <-]; unfold decrypt; by rewrite En|].
  unfold encrypt_aes, encrypt_chacha in *.
  destruct a; [destruct (cm_aes_key m)|destruct (cm_chacha_key m)]; simpl ok_or in *; try by apply safe_throw.
  all: apply safe_bind_lift, safe_draw; [|intros x; apply (sealed_once _ (λ ct, x ++ ct))].
  all: intros w c Hc; eapply (H w); rewrite <- Hc; apply surjective_pairing.
Qed.

Lemma safe_memory_val {E A} (Q : result E A → Prop) (f : bool → gmap string bytes → A * gmap string bytes) :
  (∀ s b w, I s w → I s (set_cache (f b (w_cache w)).2 w) ∧ Q (Ok (f b (w_cache w)).1)) →
  safe_of I Q (memory_call f).
Proof.
  intros H. apply (safe_call I _ (MemoryCall f)). intros s w Hw. simpl. unfold memory_call, next_fault.
  pose proof (robust_faults s w Hw) as Hf. destruct (w_faults w) as [|g fs] eqn:Eg; simpl in *.
  - destruct (H s (bool_decide (is_Some (@None Fault))) w Hw). by destruct (f _ _).
  - destruct (H s (bool_decide (is_Some g)) (set_faults fs w) Hf). by destruct (f _ _).
Qed.

Lemma safe_redis_val {A} (Q : result RedisError A → Prop) (f : gmap string bytes → A * gmap string bytes) :
  (∀ s w, I s w → I s (set_cache (f (w_cache w)).2 w) ∧ Q (Ok (f (w_cache w)).1)) → (∀ e, Q (Err e)) →
  safe_of I Q (redis_call f).
Proof.
  intros H He. apply (safe_call I _ (RedisCall f)). intros s w Hw. simpl. unfold redis_call.
  pose proof (next_fault_kept (E:=RedisError) s w Hw) as Hf.
  destruct (next_fault w) as [[[g|]|e] w1]; simpl in *; [by split| |];
    (destruct (H s w1 Hf); by destruct (f (w_cache w1))).
Qed.
End robust.

#[export] Hint Resolve safe_select safe_fs_reading safe_fill : safe.
#[export] Hint Extern 1 (Robust _) => typeclasses eauto : safe.

(** ** The cache *)

Section cache.
Context {Stage : Type} (I : Stage → World → Prop) `{!Robust I} `{X : Externals} (cm : CacheManager).

Lemma connection_kept : safe_of I any (redis_call (λ c, (tt, c))).
Proof. apply (safe_redis_val I); [|done]. intros s w Hw. split; [by apply robust_cache|done]. Qed.
#[local] Hint Resolve connection_kept : safe.

Lemma backend_get_val (Q : result StorageError (option bytes) → Prop) key :
  (∀ s w v, I s w → w_cache w !! key = Some v → Q (Ok (Some v))) → Q (Ok None) → (∀ e, Q (Err e)) →
  safe_of I Q (backend_get cm key).
Proof.
  intros Hv Hn He. unfold backend_get, backend_get_tasked, memory_get.
  assert (∀ s w, I s w → Q (Ok (w_cache w !! key))) as Hq.
  { intros s w Hw. destruct (w_cache w !! key) as [v|] eqn:E; [by eapply (Hv s)|done]. }
  destruct (cache_backend cm).
  - apply (safe_memory_val I). intros s [] w Hw; simpl.
    + split; [|done]. apply robust_cache; [apply delete_subseteq|done].
    + split; [by apply robust_cache|by apply (Hq s)].
  - apply safe_bind_any; [solve_safe|intros []|done]. apply safe_map_err, (safe_redis_val I); [|intros e; apply He].
    intros s w Hw. split; [by apply robust_cache|by apply (Hq s)].
Qed.

Lemma backend_set_kept key v :
  (∀ s w, I s w → I s (set_cache (<[key := v]> (w_cache w)) w)) → safe_of I any (backend_set cm key v).
Proof.
  intros Hv. unfold backend_set, backend_set_tasked, memory_insert. destruct (cache_backend cm).
  - apply (safe_memory_val I). intros s [] w Hw; simpl; (split; [|done]).
    + apply robust_cache; [apply delete_subseteq|done].
    + by apply Hv.
  - apply safe_bind_any; [solve_safe|intros []|done]. destruct (decide _); [done|].
    apply safe_map_err_any, (safe_redis_val I); [|done]. intros s w Hw. split; [by apply Hv|done].
Qed.

Lemma backend_del_kept keys : safe_of I any (backend_del cm keys).
Proof.
  assert (∀ s w, I s w → I s (set_cache (remove_keys keys (w_cache w)) w)) as H.
  { intros s w Hw. apply robust_cache; [apply remove_keys_sub|done]. }
  unfold backend_del, backend_del_tasked. destruct (cache_backend cm).
  - apply safe_memory_update. intros s w Hw. by apply H.
  - apply safe_bind_any; [solve_safe|intros []|done].
    apply safe_map_err_any, (safe_redis_val I); [|done]. intros s w Hw. split; [by apply H|done].
Qed.

Lemma invalidate_kept b k : safe_of I any (invalidate_file cm b k).
Proof. apply backend_del_kept. Qed.

Lemma get_file_metadata_val (Q : result StorageError (option StoredFile) → Prop) b k :
  (∀ s w v f, I s w → w_cache w !! metadata_key b k = Some v → json_from_slice v = Ok f → Q (Ok (Some f))) →
  Q (Ok None) → (∀ e, Q (Err e)) → safe_of I Q (get_file_metadata cm b k).
Proof.
  intros Hf Hn He. unfold get_file_metadata, get_file_metadata_tasked. cbv zeta.
  eapply (safe_bind I (λ r, match r with
    | Ok (Ok (Some v)) => ∀ f, json_from_slice v = Ok f → Q (Ok (Some f)) | _ => True end)); [| |done].
  - apply safe_attempt, backend_get_val; [|done..]. intros s w v Hw Hv f. by apply (Hf s w v).
  - intros [[v|]|e] Hr; [|by apply safe_ret|by apply safe_throw].
    destruct (json_from_slice v) as [f|e]; [by apply safe_ret, Hr|].
    apply safe_bind_any; [apply safe_attempt_any, backend_del_kept|by intros ?; apply safe_ret|done].
Qed.

Lemma set_file_metadata_kept b k f :
  (∀ s w v, json_to_vec f = Ok v → I s w → I s (set_cache (<[metadata_key b k := v]> (w_cache w)) w)) →
  safe_of I any (set_file_metadata cm b k f).
Proof.
  intros H. unfold set_file_metadata, set_file_metadata_tasked.
  eapply (safe_bind I (λ r, ∀ v, r = Ok v → json_to_vec f = Ok v)); [| |done].
  - apply safe_lift. intros v. by destruct (json_to_vec f) as [v'|e]; intros [= <-].
  - intros v Hv. apply backend_set_kept. intros s w. apply H. by apply Hv.
Qed.

Lemma set_file_content_kept b k c :
  (∀ s w, I s w → I s (set_cache (<[content_key b k := c]> (w_cache w)) w)) →
  safe_of I any (set_file_content cm b k c).
Proof.
  intros H. unfold set_file_content, set_file_content_tasked. destruct (decide _); [done|].
  by apply backend_set_kept.
Qed.

Lemma get_file_content_kept b k : safe_of I any (get_file_content cm b k).
Proof. by apply backend_get_val. Qed.
End cache.

#[export] Hint Resolve invalidate_kept get_file_content_kept : safe.

(** ** What jobs may do and know *)

(** The first group says which names a job may delete, upload to, create or
    drop as a bucket, and read, what it may upload, which keys it may
    deactivate, the rows of which names it may look up (and put into the cache),
    and which contents it may cache; the second what is known of the key of a row of the tables, of
    such a row, of a row shown for a key (by the table or the cache), of bytes
    shown for a key, of a path that may be unlinked and of the handle of a
    temporary file. *)
Record Rules := mkRules {
  touches : string → string → Prop;
  writes : string → string → Prop;
  offers : string → string → bytes → option string → StoreOptions → Prop;
  makes : string → Prop;
  drops : string → Prop;
  reads : string → string → Prop;
  revokes : string → Prop;
  lists : string → string → Prop;
  fills : string → string → Prop;
  known : StoredFile → Prop;
  shown : string → string → StoredFile → Prop;
  content_of : string → string → bytes → Prop;
  unlinkable : string → Prop;
  handle : place → Prop
}.

Definition admitted (R : Rules) (e : event) : Prop :=
  match e with
  | Upload b k c ct o => writes R b k ∧ offers R b k c ct o
  | Remove b k => touches R b k
  | Download b k => reads R b k
  | DownloadRange b k _ _ | DownloadCompressedRange b k _ _ => lists R b k
  | Info b k => fills R b k
  | MakeBucket b => makes R b
  | DropBucket b => drops R b
  | DropKey kid => revokes R kid
  | Sweep | Preload | MakeKey _ _ => True
  end.

(** The transaction of [delete_bucket]. *)
Definition drop_row (bucket : string) : M unit :=
  transaction (
    deleted_count ← run_sql (delete_bucket_row bucket);
    if decide (deleted_count = 0) then
      _ ← run_sql (select (λ _, tt));
      throw (InvalidBucket bucket)
    else mret tt).

Lemma drop_row_cases b w :
  db_only w (drop_row b w).2 ∧
  (w_db (drop_row b w).2 = w_db w ∨
   ∃ now n, delete_bucket_row b now (w_db w) = Ok (n, w_db (drop_row b w).2)).
Proof.
  split.
  { apply db_only_transaction. pose proof @db_only_run_sql. solve_respects. }
  unfold drop_row. match goal with |- context [transaction ?m w] =>
    pose proof (transaction_cases m w) as H; destruct (transaction m w) as [[u|e] w'] end; [|by left].
  destruct H as (w1 & w2 & Hdb & Hnow & Hbody & Hd). right. exists (w_now w1).
  rewrite run_bind in Hbody. pose proof (run_sql_cases (delete_bucket_row b) w1) as H1.
  destruct (run_sql _ w1) as [[n|] w3]; [|done]. rewrite Hdb in H1. exists n. simpl. rewrite Hd.
  destruct (decide (n = 0)) as [Hn|Hn]; [|by injection Hbody as _ <-].
  rewrite run_bind in Hbody. by destruct (run_sql _ w3) as [[|] ?].
Qed.

Lemma calm_transaction {A} (body : M A) : respects calm body → respects calm (transaction body).
Proof.
  intros Hb w Hf. specialize (Hb w Hf). rewrite transaction_ok; [|done|intros a w2 E; by rewrite E in Hb].
  by destruct (body w) as [[a|e] w2].
Qed.

Lemma drop_row_calm b : respects calm (drop_row b).
Proof. apply calm_transaction. solve_respects. Qed.

Lemma delete_row_calm `{X : Externals} b k : respects calm (delete_row b k).
Proof. apply calm_transaction. solve_respects. Qed.

Section kept.
Context `{X : Externals} (self : StorageManager).

(** The temporary file of a key. *)
Definition temp_path (b k : string) : string := with_extension (get_file_path self b k) "tmp".

(** The call after the count of references: [Err] counts as none. *)
Definition no_references (r : result StorageError Z) : Prop :=
  match r with Ok n => n = 0 | Err _ => True end.

(** The path of a row that is saved: the key's own, or that of a row found by
    the hash of the content. *)
Definition saves (R : Rules) (f : StoredFile) : Prop :=
  sf_file_path f = get_file_path self (sf_bucket f) (sf_key f) ∨
  (st_enable_deduplication (cfg_storage (sm_config self)) = true ∧
   ∃ e, known R e ∧ sf_file_path f = sf_file_path e ∧ sf_hash_blake3 f = sf_hash_blake3 e).

(** What the row that is saved says of the upload. *)
Definition records (R : Rules) (f : StoredFile) (c : bytes) (ct : option string) (o : StoreOptions) : Prop :=
  sf_hash_blake3 f = (compute_hashes_parallel c).1 ∧ sf_hash_md5 f = (compute_hashes_parallel c).2 ∧
  sf_filename f = last_segment (sf_key f) ∧ sf_expires_at f = so_expires_at o ∧
  sf_metadata f = so_metadata o ∧
  (sf_file_path f = get_file_path self (sf_bucket f) (sf_key f) ∧ sf_original_size f = zlen c ∧
     sf_content_type f = default "application/octet-stream" ct
   ∨ ∃ e, known R e ∧ sf_hash_blake3 e = sf_hash_blake3 f ∧ sf_file_path f = sf_file_path e ∧
       sf_original_size f = sf_original_size e ∧ sf_content_type f = default (sf_content_type e) ct).

Class Kept {Stage} (R : Rules) (I : Stage → World → Prop) : Prop := {
  kept_robust :: Robust I;
  (** the tables *)
  kept_row s w b k row : I s w → db_files (w_db w) !! (b, k) = Some row →
    file_key row = (b, k) ∧ known R row ∧ shown R b k row ∧ fills R b k;
  kept_lists b k : reads R b k → lists R b k;
  kept_fills b k : lists R b k → fills R b k;
  kept_writes b k : writes R b k → touches R b k ∧ makes R b;
  kept_save f c ct o : writes R (sf_bucket f) (sf_key f) → offers R (sf_bucket f) (sf_key f) c ct o →
    records R f c ct o → saves R f → closed I (upsert_file f);
  kept_access id : closed I (touch_row id);
  kept_status id st h : closed I (set_status (λ r, bool_decide (sf_id r = id)) st h);
  kept_insert_bucket b : makes R b → closed I (insert_bucket b);
  kept_insert_key kid d a s : closed I (insert_key kid d a s);
  kept_revoke kid : revokes R kid → closed I (deactivate_stmt kid);
  kept_delete b k s w : touches R b k → I s w →
    I s (delete_row b k w).2 ∧ ∀ p, (delete_row b k w).1 = Ok (p, 0) → unlinkable R p;
  kept_drop b s w : drops R b → I s w → I s (drop_row b w).2;
  kept_count b f s w : drops R b → known R f → sf_bucket f = b → I s w →
    no_references (run_sql (select (path_references (sf_file_path f))) w).1 → unlinkable R (sf_file_path f);
  (** the files *)
  kept_bucket_dir b : makes R b → closed_fs I (λ s, fs_create_dir_all s (path_join (sm_base_path self) b));
  kept_parents b k cs : writes R b k → parent_components (get_file_path self b k) = Some cs →
    closed_fs I (λ s, fs_make_dirs s (start_place s (get_file_path self b k)) cs);
  kept_create b k s w l fs : writes R b k → I s w → fs_create (w_fs w) (temp_path b k) = Ok (l, fs) →
    I s (set_fs fs w) ∧ handle R l;
  kept_write l d s w : handle R l → I s w → I s (set_fs (fs_write_handle (w_fs w) l d) w);
  kept_rename b k : writes R b k → closed_fs I (λ s, fs_rename s (temp_path b k) (get_file_path self b k));
  kept_own b k : writes R b k → unlinkable R (get_file_path self b k);
  kept_unlink p : unlinkable R p → closed_fs I (λ s, fs_remove_file s p);
  kept_remove_dir b s w : drops R b → I s w →
    I s (set_fs (fs_remove_dir_all (w_fs w) (path_join (sm_base_path self) b)).2 w);
  (** the cache *)
  kept_meta b k f v s w : lists R b k → shown R b k f → json_to_vec f = Ok v → I s w →
    I s (set_cache (<[metadata_key b k := v]> (w_cache w)) w);
  kept_content b k c s w : fills R b k → content_of R b k c → I s w →
    I s (set_cache (<[content_key b k := c]> (w_cache w)) w);
  kept_written b k f c : writes R b k → lists R b k ∧ shown R b k f ∧ content_of R b k c;
  kept_cached b k v f s w : lists R b k → I s w → w_cache w !! metadata_key b k = Some v →
    json_from_slice v = Ok f → shown R b k f;
  kept_read b k f c s w : fills R b k → shown R b k f → I s w → fs_read (w_fs w) (sf_file_path f) = Ok c →
    content_of R b k c;
  (** a reader deletes only what it may *)
  kept_missing b k f s w : reads R b k → shown R b k f → I s w →
    is_ok (fs_call (fs_reading (λ s, fs_read s (sf_file_path f))) w).1 = false → touches R b k;
  kept_expired b k f t : fills R b k → shown R b k f → expired f t = true → touches R b k
}.
End kept.

Section jobs.
Context `{X : Externals, !ExternalsLaws X} (self : StorageManager).
Context {Stage : Type} (R : Rules) (I : Stage → World → Prop) `{K : !Kept self R I}.

#[local] Hint Resolve safe_now : safe.

(** *** The tables *)

Lemma save_kept f c ct o :
  writes R (sf_bucket f) (sf_key f) → offers R (sf_bucket f) (sf_key f) c ct o →
  records self R f c ct o → saves self R f →
  safe_of I any (Database.save_file f).
Proof.
  intros Ht Ho Hh Hp. apply safe_map_err_any, safe_db_call.
  pose proof (kept_save self f c ct o Ht Ho Hh Hp) as Hs.
  intros s w Hw. unfold db_call. pose proof (next_fault_kept I (E:=SqlxError) s w Hw) as Hf.
  destruct (next_fault w) as [[[g|]|e] w1]; simpl in *; [done| |];
    (destruct (upsert_file _ _ _) as [[a d]|e'] eqn:Eq; simpl; [by eapply Hs|done]).
Qed.

Lemma touch_kept f : safe_of I any (touch f).
Proof.
  unfold touch, touch_tasked. apply safe_bind_any; [|solve_safe|done].
  by apply safe_attempt_any, (safe_sql I), (kept_access self).
Qed.

Lemma get_key_kept kid : safe_of I any (get_key kid).
Proof. unfold get_key, get_key_tasked. solve_safe. Qed.
#[local] Hint Resolve touch_kept get_key_kept : safe.

Lemma create_bucket_kept b : makes R b → safe_of I any (create_bucket self b).
Proof.
  intros Hb. unfold create_bucket, create_bucket_tasked. cbv zeta. apply safe_bind_any; [|intros _|done].
  - by apply safe_map_err_any, (safe_fs_changing I), (kept_bucket_dir self).
  - by apply (safe_sql I), (kept_insert_bucket self).
Qed.

Lemma ensure_bucket_kept b : makes R b → safe_of I any (ensure_bucket_exists self b).
Proof.
  intros Hb. unfold ensure_bucket_exists, ensure_bucket_tasked. pose proof (create_bucket_kept b Hb). solve_safe.
Qed.

Lemma db_get_file_val b k (Q : result StorageError StoredFile → Prop) :
  (∀ s w row, I s w → db_files (w_db w) !! (b, k) = Some row → Q (Ok row)) → (∀ e, Q (Err e)) →
  safe_of I Q (Database.get_file b k).
Proof.
  intros Hr He. unfold Database.get_file, db_get_file_tasked.
  eapply (safe_bind I (λ r, match r with Ok (Some row) => Q (Ok row) | _ => True end)); [| |done].
  - apply safe_select_val; [apply _| |done]. intros s w Hw.
    destruct (db_files (w_db w) !! (b, k)) as [row|] eqn:E; [by eapply Hr|done].
  - intros [row|] Hrow; apply safe_lift; [exact Hrow|apply He].
Qed.

(** The row a reader has is one that was shown. *)
Lemma read_metadata_kept b k :
  lists R b k → safe_of I (λ r, ∀ f, r = Ok f → shown R b k f) (read_metadata self b k).
Proof.
  intros Hk. unfold read_metadata, read_metadata_tasked.
  eapply (safe_bind I (λ r, ∀ f, r = Ok (Ok (Some f)) → shown R b k f)); [| |done].
  - apply safe_attempt, get_file_metadata_val; [apply _| |done|done].
    intros s w v f Hw Hv Hj f' [= <-]. by eapply (kept_cached self).
  - intros [[f|]|e] Hf; [apply safe_ret; intros f' [= <-]; by apply Hf|..].
    all: eapply (safe_bind I (λ r, ∀ f, r = Ok f → shown R b k f)); [| |done];
      [apply db_get_file_val; [|done]; intros s w row Hw Hrow f' [= <-]; by eapply kept_row|].
    all: intros f Hs; apply safe_bind_any; [|intros _; apply safe_ret; intros f' [= <-]; by apply Hs|done].
    all: apply safe_attempt_any, set_file_metadata_kept; [apply _|]; intros s w v Hv Hw;
      eapply (kept_meta self); [done|by apply Hs|done|done].
Qed.

(** *** Writing *)

Lemma write_kept b k c :
  writes R b k → safe_of I any (write_file_atomic_optimized (get_file_path self b k) c).
Proof.
  intros Ht. unfold write_file_atomic_optimized, write_atomic_tasked. cbv zeta. apply safe_bind_any; [|intros _|done].
  - unfold write_file_optimized, write_file_tasked.
    eapply (safe_bind I (λ r, ∀ l, r = Ok l → handle R l)); [| |done].
    + apply safe_fs_val; [apply _| |done]. intros s w Hw. simpl.
      destruct (fs_create _ _) as [[l fs]|e] eqn:E; simpl.
      * destruct (kept_create self b k s w l fs Ht Hw E). split; [done|]. by intros l' [= <-].
      * by rewrite set_fs_id.
    + intros l Hl. apply safe_bind_any; [|solve_safe|done]. apply (safe_fs_write_kept I).
      intros s w d Hw. apply (kept_write self); [by apply Hl|done].
  - apply (safe_fs_changing I). by apply (kept_rename self).
Qed.

Lemma encrypt_step_kept o c : safe_of I any (encrypt_step self o c).
Proof.
  unfold encrypt_step, encrypt_step_tasked.
  pose proof (λ a key, safe_any I _ _ (encrypt_with_key_val I c a key)).
  pose proof (λ m a, safe_any I _ _ (encrypt_val I m c a)). solve_safe.
Qed.
#[local] Hint Resolve encrypt_step_kept : safe.

Lemma new_v4_kept : safe_of I any new_v4.
Proof. unfold new_v4, new_v4_tasked. solve_safe. Qed.
#[local] Hint Resolve new_v4_kept : safe.

Lemma store_new_kept b k c ct o :
  writes R b k → offers R b k c ct o → safe_of I any (store_new self b k c ct o (compute_hashes_parallel c)).
Proof.
  intros Ht Ho. set (h := compute_hashes_parallel c). unfold store_new, store_new_tasked.
  destruct (compress_step self o c) as [compressed is_c].
  apply safe_bind_any; [apply encrypt_step_kept|intros processed|done]. cbv zeta.
  apply safe_bind_any; [|intros _|done].
  { destruct (parent_components _) as [cs|] eqn:Ecs; [|done].
    by apply safe_map_err_any, (safe_fs_changing I), (kept_parents self). }
  apply safe_bind_any; [by apply safe_map_err_any, write_kept|intros _|done].
  apply safe_bind_any; [apply new_v4_kept|intros id|done].
  apply safe_bind_any; [apply safe_now|intros t|done].
  apply safe_bind_any; [apply safe_attempt_any, (save_kept _ c ct o); [done|done| |by left]|intros saved|done].
  { split_and!; try done. by left. }
  destruct saved as [[]|e].
  - destruct (kept_written self b k (stored_row self id b k ct o h (zlen c) compressed processed is_c t)
      processed Ht) as (Hr & Hs & Hp). pose proof (kept_fills self b k Hr) as Hfl.
    apply safe_bind_any; [|intros _|done].
    + apply safe_attempt_any, set_file_metadata_kept; [apply _|]. intros s w v Hv Hw. by eapply (kept_meta self).
    + apply safe_bind_any; [|intros _; by apply safe_ret|done].
      apply safe_attempt_any, set_file_content_kept; [apply _|]. intros s w Hw. by apply (kept_content self).
  - apply safe_bind_any; [|intros _; by apply safe_throw|done].
    apply safe_attempt_any, (safe_fs_changing I), (kept_unlink self). by apply (kept_own self).
Qed.

Lemma scan_known s w p f : I s w → f ∈ scan p (w_db w) → known R f.
Proof.
  intros Hw [_ [[b k] Hr]]%elem_of_scan. by apply (kept_row self) with (s := s) in Hr as (_ & ? & _).
Qed.

Lemma get_file_by_hash_val h :
  safe_of I (λ r, ∀ f, r = Ok (Some f) → known R f ∧ sf_hash_blake3 f = h) (get_file_by_hash h).
Proof.
  apply safe_select_val; [apply _| |done]. intros s w Hw f [= Hf].
  assert (f ∈ scan (λ f, bool_decide (sf_hash_blake3 f = h)) (w_db w)) as Hin.
  { destruct (scan _ (w_db w)) as [|f' l] eqn:E; [done|]. injection Hf as ->. by left. }
  split; [by eapply scan_known|]. apply elem_of_scan in Hin as [Hin _]. by apply bool_decide_eq_true in Hin.
Qed.

Lemma store_file_kept b k c ct o :
  writes R b k → offers R b k c ct o → safe_of I any (store_file self b k c ct o).
Proof.
  intros Ht Ho. unfold store_file, store_file_tasked.
  apply safe_bind_any; [by eapply ensure_bucket_kept, (kept_writes self)|intros _|done]. cbv zeta.
  set (h := compute_hashes_parallel c).
  eapply (safe_bind I (λ r, ∀ f, r = Ok (Some f) → known R f ∧ sf_hash_blake3 f = h.1 ∧
    st_enable_deduplication (cfg_storage (sm_config self)) = true)); [| |done].
  - destruct (st_enable_deduplication _); [|by apply safe_ret].
    eapply safe_weaken; [apply get_file_by_hash_val|]. intros r H f Hf. by destruct (H f Hf).
  - intros [f|] Hf; [|by apply store_new_kept]. destruct (Hf f eq_refl) as (Hk & Hh & Hd).
    destruct (bool_decide _ && bool_decide _); [by apply safe_ret|].
    apply safe_bind_any; [apply new_v4_kept|intros id|done].
    apply safe_bind_any; [apply safe_now|intros t|done]. cbv zeta.
    apply safe_bind_any; [|intros _; by apply safe_ret|done].
    apply (save_kept _ c ct o); [done|done|split_and!; try done|right; split; [done|]];
      [right; exists f; by split_and!|exists f; by split_and!].
Qed.

(** *** Deleting *)

Lemma unlink_kept b k p n : (n = 0 → unlinkable R p) → safe_of I any (unlink_and_invalidate self b k p n).
Proof.
  intros Hp. unfold unlink_and_invalidate, unlink_tasked.
  apply safe_bind_any; [|intros []; apply safe_bind_any; [|by intros ?; apply safe_ret|done]|done].
  - destruct (decide (n = 0)) as [Hn|]; [|done].
    apply safe_bind_any; [|by intros ?; apply safe_ret|done].
    apply safe_attempt_any, (safe_fs_changing I), (kept_unlink self). by apply Hp.
  - apply safe_attempt_any, invalidate_kept. apply _.
Qed.

Lemma delete_file_kept b k : touches R b k → safe_of I any (delete_file self b k).
Proof.
  intros Ht. change (safe_of I any (pr ← delete_row b k;
    let '(path, n) := pr in unlink_and_invalidate self b k path n)).
  apply (safe_bind I (λ r, ∀ p, r = Ok (p, 0) → unlinkable R p)); [| |done].
  - apply (safe_call I _ (Transaction _)). intros s w Hw. by apply (kept_delete self).
  - intros [p n] Hp. apply unlink_kept. intros ->. by apply Hp.
Qed.

Lemma clean_file_kept b f : drops R b → known R f → sf_bucket f = b → safe_of I any (clean_file self b f).
Proof.
  intros Hb Hk Hf. unfold clean_file, clean_file_tasked.
  eapply (safe_bind I (λ r, ∀ c, r = Ok c → no_references c → unlinkable R (sf_file_path f))); [| |done].
  - apply safe_attempt. pose proof (kept_count self b f) as Hc.
    apply (safe_map_err I _ _ (db_call _)), (safe_call I _ (DbCall _)). intros s w Hw.
    assert (I s (run_sql (select (path_references (sf_file_path f))) w).2) as Hw'.
    { pose proof (next_fault_kept I (E:=SqlxError) s w Hw) as H. unfold run_sql, map_err, db_call.
      destruct (next_fault w) as [[[g|]|e] w1]; simpl in *; by rewrite ?set_db_id. }
    unfold run_sql in Hc, Hw'. rewrite run_map_err in Hw'. split; [exact Hw'|].
    intros c [= <-]. specialize (Hc s w Hb Hk Hf Hw). by rewrite run_map_err in Hc.
  - intros c Hc. cbv zeta. apply safe_bind_any; [|intros []|done].
    + set (n := match c with Ok n => n | Err _ => 0 end). destruct (decide (n = 0)) as [Hn|]; [|done].
      apply safe_bind_any; [|by intros ?; apply safe_ret|done].
      apply safe_attempt_any, (safe_fs_changing I), (kept_unlink self), (Hc c eq_refl). by destruct c.
    + apply safe_bind_any; [|by intros ?; apply safe_ret|done].
      apply safe_attempt_any, invalidate_kept. apply _.
Qed.

Lemma delete_bucket_kept b : drops R b → safe_of I any (delete_bucket self b).
Proof.
  intros Hb. unfold delete_bucket, delete_bucket_tasked.
  eapply (safe_bind I (λ r, ∀ fs, r = Ok fs → Forall (λ f, known R f ∧ sf_bucket f = b) fs)); [| |done].
  - apply safe_select_val; [apply _| |done]. intros s w Hw fs [= <-]. apply Forall_forall. intros f Hf.
    split; [by eapply scan_known|]. apply elem_of_scan in Hf as [Hf _]. by apply bool_decide_eq_true in Hf.
  - intros fs Hfs. specialize (Hfs fs eq_refl). rewrite Forall_forall in Hfs.
    apply safe_bind_any; [|intros []|done].
    { apply safe_transaction. intros s w Hw. by apply (kept_drop self). }
    apply safe_bind_any; [|intros []|done].
    { apply safe_for_each_any. intros f [] Hf. destruct (Hfs f Hf). by apply clean_file_kept. }
    cbv zeta. apply safe_bind_any; [|by intros ?; apply safe_ret|done].
    apply safe_attempt_any, (safe_fs_val I); [|done]. intros s w Hw. split; [|done].
    by apply (kept_remove_dir self).
Qed.

(** *** Reading *)

Lemma missing_kept b k f :
  reads R b k → shown R b k f →
  safe_of I (λ r, match r with
    | Ok (Ok c) => content_of R b k c
    | Ok (Err _) => touches R b k
    | Err _ => True end) (attempt (F:=StorageError) (fs_call (fs_reading (λ s, fs_read s (sf_file_path f))))).
Proof.
  intros Hr Hs. pose proof (kept_lists self b k Hr) as Hl. pose proof (kept_fills self b k Hl) as Hfl.
  apply safe_attempt, (safe_call I _ (FsCall _)). intros s w Hw.
  pose proof (kept_missing self b k f s w Hr Hs Hw) as Hm.
  pose proof (fs_call_cases (fs_reading (λ s, fs_read s (sf_file_path f))) w) as Hc.
  simpl. unfold fs_call in *. pose proof (next_fault_kept I (E:=IoError) s w Hw) as Hf.
  destruct (next_fault w) as [[[g|]|e] w1]; simpl in *; [by split; [|apply Hm]|..].
  all: rewrite set_fs_id in *; split; [done|].
  all: destruct (fs_read (w_fs w1) (sf_file_path f)) as [c|e'] eqn:E; [|by apply Hm].
  all: by eapply (kept_read self).
Qed.

Lemma read_content_kept b k f : reads R b k → shown R b k f → safe_of I any (read_content self b k f).
Proof.
  intros Hr Hs. pose proof (kept_lists self b k Hr) as Hl. pose proof (kept_fills self b k Hl) as Hfl. unfold read_content, read_content_tasked.
  apply safe_bind_any; [apply safe_attempt_any, get_file_content_kept, _| |done].
  intros [[c|]|e]; [by apply safe_ret|..].
  all: eapply (safe_bind I); [by apply (missing_kept b k f)| |done].
  all: intros [c|e'] Hc.
  1, 3: apply safe_bind_any; [|by intros ?; apply safe_ret|done];
    apply safe_attempt_any, set_file_content_kept; [apply _|]; intros s w Hw; by apply (kept_content self).
  all: destruct (is_missing_file _); [|by apply safe_throw].
  all: apply safe_bind_any; [|by intros ?; apply safe_throw|done].
  all: by apply safe_attempt_any, delete_file_kept.
Qed.

Lemma decode_content_kept f c : safe_of I any (decode_content self f c).
Proof.
  assert (safe_of I any (decrypt_content self f c)) as H
    by (unfold decrypt_content, decrypt_content_tasked; solve_safe).
  unfold decode_content, decode_content_tasked. solve_safe.
Qed.

Lemma get_file_kept b k : reads R b k → safe_of I any (get_file self b k).
Proof.
  intros Hr. pose proof (kept_lists self b k Hr) as Hl. pose proof (kept_fills self b k Hl) as Hfl. unfold get_file, get_file_tasked.
  eapply (safe_bind I); [by apply read_metadata_kept| |done]. intros f Hf. specialize (Hf f eq_refl).
  apply safe_bind_any; [apply safe_now|intros t|done].
  destruct (expired f t) eqn:Ex.
  - apply safe_bind_any; [|by intros ?; apply safe_throw|done].
    by eapply safe_attempt_any, delete_file_kept, (kept_expired self).
  - apply safe_bind_any; [by apply read_content_kept|intros raw|done].
    apply safe_bind_any; [apply decode_content_kept|intros c|done].
    apply safe_bind_any; [apply touch_kept|intros []; by apply safe_ret|done].
Qed.

Lemma ranges_kept b k s e :
  lists R b k → safe_of I any (get_file_range_if_plain self b k s e)
                ∧ safe_of I any (get_compressed_file_range self b k s e).
Proof.
  intros Hr. unfold get_file_range_if_plain, plain_range_tasked, get_compressed_file_range, compressed_range_tasked.
  split; (eapply (safe_bind I); [by apply read_metadata_kept| |done]); intros f Hf;
    pose proof (touch_kept f); solve_safe.
Qed.

Lemma get_file_info_kept b k : fills R b k → safe_of I any (get_file_info self b k).
Proof.
  intros Hfl. unfold get_file_info, get_file_info_tasked.
  eapply (safe_bind I (λ r, ∀ f, r = Ok f → shown R b k f)); [| |done].
  { apply db_get_file_val; [|done]. intros s w row Hw Hrow f [= <-].
    by destruct (kept_row self s w b k row Hw Hrow) as (_ & _ & ? & _). }
  intros f Hf. apply safe_bind_any; [apply safe_now|intros t|done].
  destruct (expired f t) eqn:Ex; [|by apply safe_ret].
  apply safe_bind_any; [|by intros ?; apply safe_throw|done].
  eapply safe_attempt_any, delete_file_kept, (kept_expired self); [done|by apply Hf|done].
Qed.

(** *** Background jobs *)

Lemma expired_rows_kept :
  safe_of I (λ r, ∀ l, r = Ok l → Forall (λ bk, touches R bk.1 bk.2) l) list_expired_files.
Proof.
  apply safe_read_val; [apply _|by intros now d a d' [= _ <-]| |done].
  intros s w l Hw [= <-] l' [= <-]. apply Forall_fmap, Forall_forall.
  intros f [Hx [[b k] Hf]]%elem_of_scan. simpl.
  destruct (kept_row self s w b k f Hw Hf) as ([= <- <-] & _ & Hs & Hr).
  apply (kept_expired self _ _ f (w_now w) Hr Hs).
  unfold is_expired, expired in *. destruct (sf_expires_at f); [|done]. lia.
Qed.

Lemma sweep_kept : safe_of I any (sweep_expired_files self).
Proof.
  unfold sweep_expired_files, sweep_tasked. eapply (safe_bind I); [apply expired_rows_kept| |done].
  intros l Hl. specialize (Hl l eq_refl). rewrite Forall_forall in Hl.
  apply safe_for_each_any. intros bk n Hbk.
  apply safe_bind_any; [|by intros ?; apply safe_ret|done]. by apply safe_attempt_any, delete_file_kept, Hl.
Qed.

Lemma cache_file_kept f :
  fills R (sf_bucket f) (sf_key f) → shown R (sf_bucket f) (sf_key f) f →
  safe_of I any (cache_file_from_disk (sm_cache self) f).
Proof.
  intros Hr Hs. unfold cache_file_from_disk, cache_file_from_disk_tasked.
  apply safe_bind_any; [apply safe_attempt_any, safe_fs_reading, _|intros found|done].
  destruct (negb _); [by apply safe_throw|].
  eapply (safe_bind I (λ r, ∀ c, r = Ok c → content_of R (sf_bucket f) (sf_key f) c)); [| |done].
  - apply safe_map_err, safe_fs_val; [apply _| |done]. intros s w Hw. simpl. rewrite set_fs_id. split; [done|].
    destruct (fs_read (w_fs w) (sf_file_path f)) as [c|] eqn:E; [|done]. intros c' [= <-].
    by eapply (kept_read self).
  - intros c Hc. apply safe_bind_any; [|by intros ?; apply safe_ret|done].
    apply set_file_content_kept; [apply _|]. intros s w Hw. apply (kept_content self); [done|by apply Hc|done].
Qed.

Lemma popular_kept n l :
  safe_of I (λ r, ∀ fs, r = Ok fs → Forall (λ f, fills R (sf_bucket f) (sf_key f)
                                                 ∧ shown R (sf_bucket f) (sf_key f) f) fs)
    (get_popular_uncached_files n l).
Proof.
  apply safe_read_val; [apply _| | |done].
  - intros now d a d'. destruct (limit_offset _ _ _); [|done]. by intros [= _ <-].
  - intros s w fs Hw. unfold limit_offset. destruct (l <? 0); [done|]. intros [= <-] fs' [= <-].
    apply Forall_take, Forall_drop, Forall_forall. intros f Hf.
    rewrite merge_sort_Permutation, scan_page_Permutation in Hf. apply elem_of_scan in Hf as [_ [[b k] Hf]].
    by destruct (kept_row self s w b k f Hw Hf) as ([= <- <-] & _ & ? & ?).
Qed.

Lemma preload_kept : safe_of I any (preload_popular_files (sm_cache self)).
Proof.
  unfold preload_popular_files, preload_tasked. apply safe_bind_any; [|intros cfg|done].
  { apply safe_read_val; [apply _| |done|done]. intros now d a d'. destruct (db_cache_config d); [|done].
    by intros [= _ <-]. }
  destruct (negb _); [by apply safe_ret|]. cbv zeta.
  eapply (safe_bind I); [apply popular_kept| |done]. intros fs Hfs. specialize (Hfs fs eq_refl).
  rewrite Forall_forall in Hfs. apply safe_bind_any; [|by intros ?; apply safe_ret|done].
  apply safe_for_each_any. intros f n Hf. destruct (Hfs f Hf) as [Hr Hs].
  destruct (decide _); [by apply safe_ret|].
  apply safe_bind_any; [by apply safe_attempt_any, cache_file_kept|intros r|done].
  destruct r; (apply safe_bind_any; [|by intros ?; apply safe_ret|done]);
    by apply (safe_sql I), (kept_status self).
Qed.

(** *** Every job *)

Lemma job_kept e : admitted R e → safe_of I any (job self e).
Proof.
  destruct e as [b k c ct o|b k|b k s e|b k s e|b k|b k| |b|b| |a d|kid]; simpl; intros He;
    unfold job, job_tasked; (apply safe_bind_any; [|by intros ?; apply safe_ret|done]).
  - destruct He. by apply store_file_kept.
  - by apply get_file_kept.
  - by apply ranges_kept.
  - by apply ranges_kept.
  - by apply get_file_info_kept.
  - by apply delete_file_kept.
  - apply sweep_kept.
  - by apply create_bucket_kept.
  - by apply delete_bucket_kept.
  - apply preload_kept.
  - unfold create_encryption_key, create_encryption_key_tasked, generate_key_id, generate_key_id_tasked,
      create_key, create_key_tasked. pose proof (λ kid d a s, safe_sql I _ (kept_insert_key self kid d a s)).
    solve_safe.
  - by apply (safe_sql I (deactivate_stmt kid)), (kept_revoke self).
Qed.
End jobs.
