(* ===== verification/Interleaving.v ===== *)
(** * Interleaved jobs

    Jobs of every kind run call by call in one pool (see [Jobs]).  What may
    happen between two calls, what statements that keep the tables consistent
    do to an invariant of the pool, and a job that is left alone: it does what
    its operation does. *)

From S2P Require Import Prelude.
From S2P Require Import Errors.
From S2P Require Import Models.
From S2P Require Import FileSystem.
From S2P Require Import Config.
From S2P Require Import Externals.
From S2P Require Import World.
From S2P Require Import Compression.
From S2P Require Import Crypto.
From S2P Require Import Database.
From S2P Require Import Cache.
From S2P Require Import EncryptionKeys.
From S2P Require Import Performance.
From S2P Require Import Storage.
From S2P Require Import StorageWf.
From S2P Require Import Deletion.
From S2P Require Import Phases.
From S2P Require Import Tasks.
From S2P Require Import Jobs.
From S2P Require Import Guarantee.

(** What happens between calls: cache entries are lost, time passes, random
    bytes come up, and failures lie ahead. *)
Inductive surroundings : relation World :=
| surroundings_move w cache t entropy pos faults :
    cache ⊆ w_cache w → w_now w ≤ t →
    surroundings w (mkWorld (w_fs w) (w_db w) cache t entropy pos faults).

(** The same without failures. *)
Definition calm_surroundings (w w' : World) : Prop := surroundings w w' ∧ w_faults w' = [].

#[export] Instance world_wf_robust : Robust (always world_wf).
Proof. by split. Qed.

Lemma closed_wf {A} (q : Stmt A) : stmt_keeps q → closed (always world_wf) q.
Proof. intros Hq [] w a d Hw E. by eapply Hq. Qed.

Section drop.
Context `{X : Externals}.

Lemma drop_row_wf b : respects (keeps world_wf) (drop_row b).
Proof.
  apply transaction_wf. pose proof (respects_wf_sql _ (delete_bucket_row_keeps b)). solve_respects.
Qed.
End drop.

Section theorems.
Context `{X : Externals, !ExternalsLaws X} (self : StorageManager).

(** A job that is left alone is its operation.  The calls it makes one
    after the other lead to the state and the result that the operation gives
    in one piece. *)
Theorem job_left_alone (admits : event → Prop) environment e w :
  admits e →
  rtc (turn self admits environment) ([], w) ([mkThread e (Return (job self e w).1)], run_event self e w).
Proof.
  intros He. eapply rtc_l; [by apply turn_arrive|]. simpl.
  pose proof (run_alone self admits environment 0 e (task_of (job self e)) [started self e] w eq_refl) as H.
  rewrite run_task_of, job_state in H. exact H.
Qed.
End theorems.

(** ** A concrete run *)

Lemma job_left_alone_witness :
  let X := Toy.ToyExternals in
  let e := Upload "b" "k" [Byte.x61] None default_options in
  let w' := run_event (X:=X) sample_storage e (db_world empty_db) in
  db_files (w_db w') !! ("b", "k") ≠ None ∧
  ∃ r, rtc (turn (X:=X) sample_storage (λ _, True) surroundings) ([], db_world empty_db) ([mkThread e (Return r)], w').
Proof.
  cbv zeta. split; [vm_compute; discriminate|]. eexists.
  exact (job_left_alone (X:=Toy.ToyExternals) sample_storage (λ _, True) surroundings
    (Upload "b" "k" [Byte.x61] None default_options) (db_world empty_db) Logic.I).
Defined.
