(* ===== verification/Confinement.v ===== *)
(** * Nothing outside the storage directory

    For ordinary names of buckets and keys, no job creates, changes or removes
    a file outside the storage directory, in any interleaving and whatever
    fails or is dropped on the way. *)

From S2P Require Import Prelude.
From S2P Require Import Errors.
From S2P Require Import Models.
From S2P Require Import FileSystem.
From S2P Require Import Config.
From S2P Require Import Externals.
From S2P Require Import World.
From S2P Require Import Compression.
From S2P Require Import Crypto.
From S2P Require Import Database.
From S2P Require Import Cache.
From S2P Require Import EncryptionKeys.
From S2P Require Import Performance.
From S2P Require Import Storage.
From S2P Require Import Paths.
From S2P Require Import StorageWf.
From S2P Require Import Deletion.
From S2P Require Import Phases.
From S2P Require Import ObjectMap.
From S2P Require Import Tasks.
From S2P Require Import Jobs.
From S2P Require Import Guarantee.
From S2P Require Import Interleaving.

(** ** Rows under ordinary names *)

(** What an upload says of its file. *)
Definition upload_columns (f : StoredFile) :=
  (file_key f, sf_filename f, sf_file_path f, sf_original_size f, sf_content_type f,
   (sf_hash_blake3 f, sf_hash_md5 f), sf_metadata f, sf_expires_at f).

(** Every row of the new table was there before, with the same path and hash
    (and whatever else an upload says). *)
Definition rows_from (d d' : Db) : Prop :=
  ∀ bk row', db_files d' !! bk = Some row' →
    ∃ row, db_files d !! bk = Some row ∧ sf_file_path row' = sf_file_path row ∧
      sf_hash_blake3 row' = sf_hash_blake3 row ∧ upload_columns row' = upload_columns row.

Lemma rows_from_same d d' : db_files d' = db_files d → rows_from d d'.
Proof. intros H bk row. rewrite H. eauto. Qed.

Lemma update_rows_from p u now d d' :
  (∀ r, sf_file_path (u r) = sf_file_path r ∧ sf_hash_blake3 (u r) = sf_hash_blake3 r
        ∧ upload_columns (u r) = upload_columns r) →
  update_rows p u now d = Ok (tt, d') → rows_from d d'.
Proof.
  intros Hu. unfold update_rows. case_bool_decide; [|done]. intros [= <-] bk row'. simpl.
  rewrite lookup_fmap_Some. intros (row & <- & Hr). exists row. split; [done|]. by destruct (p row).
Qed.

Lemma touch_row_from id now d d' : touch_row id now d = Ok (tt, d') → rows_from d d'.
Proof. unfold touch_row. case_bool_decide; [done|]. by apply update_rows_from; intros []. Qed.

Lemma set_status_from p st h now d d' : set_status p st h now d = Ok (tt, d') → rows_from d d'.
Proof. unfold set_status. destruct (_ || _); [|done]. by apply update_rows_from; intros []. Qed.

Lemma delete_bucket_row_from b now d n d' : delete_bucket_row b now d = Ok (n, d') → rows_from d d'.
Proof.
  unfold delete_bucket_row. destruct (db_buckets d !! b); intros [= _ <-]; [|by apply rows_from_same].
  intros bk row'. simpl. intros [Hr _]%map_lookup_filter_Some. eauto.
Qed.

Lemma insert_bucket_files b now d d' : insert_bucket b now d = Ok (tt, d') → db_files d' = db_files d.
Proof. unfold insert_bucket. destruct (negb _); [done|]. by destruct (db_buckets d !! b); intros [= <-]. Qed.

Lemma insert_key_files kid data a s now d k d' :
  insert_key kid data a s now d = Ok (k, d') → db_files d' = db_files d.
Proof.
  unfold insert_key. do 2 (destruct (negb _); [done|]). by destruct (db_keys d !! kid); [|intros [= _ <-]].
Qed.

Lemma upsert_file_rows f now d d' :
  upsert_file f now d = Ok (tt, d') →
  ∃ row, d' = set_files (<[file_key f := row]> (db_files d)) d ∧ sf_file_path row = sf_file_path f ∧
    sf_hash_blake3 row = sf_hash_blake3 f ∧ upload_columns row = upload_columns f.
Proof.
  unfold upsert_file. destruct (first_error _); [done|]. destruct (db_files d !! _) as [old|]; simpl.
  - destruct (stats_ok _ _); [|done]. intros [= <-]. eexists. split; [reflexivity|]. by destruct f.
  - destruct (id_taken _ _); [done|]. simpl. destruct (stats_ok _ _); [|done]. intros [= <-].
    eexists. split; [reflexivity|]. by destruct f.
Qed.

Section layout.
Context `{X : Externals} (self : StorageManager).

(** Consistent tables whose rows have ordinary keys and paths of ordinary keys. *)
Record laid_out (d : Db) : Prop := {
  lo_wf : db_wf d;
  lo_rows b k row : db_files d !! (b, k) = Some row →
    ordinary_bucket b = true ∧ ordinary_key k = true ∧ canonical_path self (sf_file_path row)
}.

Lemma laid_out_from d d' : laid_out d → db_wf d' → rows_from d d' → laid_out d'.
Proof.
  intros [_ Hr] Hwf Hf. split; [done|]. intros b k row' (row & Hrow & -> & _)%Hf. by apply Hr.
Qed.

Definition ordinary (b k : string) : Prop := ordinary_bucket b = true ∧ ordinary_key k = true.

Lemma laid_out_upsert f now d d' :
  laid_out d → ordinary (sf_bucket f) (sf_key f) → canonical_path self (sf_file_path f) →
  upsert_file f now d = Ok (tt, d') → laid_out d'.
Proof.
  intros [Hwf Hr] [Hb Hk] Hp Hu. split; [by eapply upsert_file_keeps|]. intros b k row'.
  destruct (upsert_file_rows f now d d' Hu) as (row & -> & Hpath & _). simpl.
  intros [[[= <- <-] <-]|[_ Hrow]]%lookup_insert_Some; [|by apply Hr]. by rewrite Hpath.
Qed.

Lemma laid_out_delete b k d :
  laid_out d → db_wf (set_files (delete (b, k) (db_files d)) d) →
  laid_out (set_files (delete (b, k) (db_files d)) d).
Proof.
  intros Hd Hwf. eapply laid_out_from; [done|done|]. intros bk row'. simpl.
  intros [_ Hr]%lookup_delete_Some. eauto.
Qed.
End layout.

(** ** Files outside a directory *)

(** No file that is not below the place changes, comes or goes, and no
    directory goes.  (Missing directories above the place may be made.) *)
Definition outside_kept (base : place) (s s' : FS) : Prop :=
  fs_cwd s' = fs_cwd s ∧ ∀ x, ¬ base `suffix_of` x →
    (∀ d, node_at s' x = Some (NFile d) ↔ node_at s x = Some (NFile d)) ∧
    (node_at s x = Some NDir → node_at s' x = Some NDir).

#[export] Instance outside_kept_preorder base : PreOrder (outside_kept base).
Proof.
  split; unfold outside_kept.
  - intros s. by split.
  - intros x y z [Hc Hxy] [Hc' Hyz]. split; [congruence|]. intros p Hp.
    destruct (Hxy p Hp) as [H1 H2], (Hyz p Hp) as [H3 H4]. split; [|by auto].
    intros d. by rewrite H3, H1.
Qed.

Lemma outside_kept_nodes base s s' :
  fs_cwd s' = fs_cwd s → (∀ x, ¬ base `suffix_of` x → node_at s' x = node_at s x) → outside_kept base s s'.
Proof. intros Hc Hn. split; [done|]. intros x Hx. by rewrite Hn. Qed.

Lemma outside_kept_insert base s l n : base `suffix_of` l → outside_kept base s (set_nodes <[l := n]> s).
Proof.
  intros Hl. apply outside_kept_nodes; [done|]. intros [|a x] Hx; [done|]. simpl.
  rewrite lookup_insert_ne; [done|]. by intros ->.
Qed.

Lemma outside_kept_delete base s l : base `suffix_of` l → outside_kept base s (set_nodes (delete l) s).
Proof.
  intros Hl. apply outside_kept_nodes; [done|]. intros [|a x] Hx; [done|]. simpl.
  rewrite lookup_delete_ne; [done|]. by intros ->.
Qed.

Lemma make_dirs_files ns cur cs ns' x d :
  make_dirs ns cur cs = Ok ns' → ns' !! x = Some (NFile d) → ns !! x = Some (NFile d).
Proof.
  revert ns cur. induction cs as [|c rest IH]; intros ns cur; simpl; [by intros [= <-]|].
  case_decide; [by apply IH|]. destruct (ns !! (c :: cur)) as [[]|] eqn:E; [done|by apply IH|].
  intros Hm Hx. pose proof (IH _ _ Hm Hx) as H1. by apply lookup_insert_Some in H1 as [[_ [=]]|[_ ?]].
Qed.

Lemma outside_kept_make_dirs base s start cs s' :
  fs_make_dirs s start cs = Ok s' → outside_kept base s s'.
Proof.
  intros H. destruct (fs_make_dirs_kept _ _ _ _ H) as [Hc Hk]. split; [done|]. intros x _. split; [|by apply Hk].
  intros d. split; [|by apply Hk]. unfold fs_make_dirs in H.
  destruct (make_dirs _ _ _) as [ns|] eqn:E; simpl in H; [|done]. injection H as <-.
  destruct x as [|a x]; simpl; [done|]. by eapply make_dirs_files.
Qed.

Lemma outside_kept_rename base s p q s' :
  base `suffix_of` place_of s p → base `suffix_of` place_of s q → fs_rename s p q = Ok s' →
  outside_kept base s s'.
Proof.
  intros Hp Hq H. apply outside_kept_nodes.
  - by apply fs_rename_dirs_kept in H as [? _].
  - intros x Hx. eapply fs_rename_other; [done|..]; intros ->%resolve_place; done.
Qed.

Lemma outside_kept_remove_file base s p s' :
  base `suffix_of` place_of s p → fs_remove_file s p = Ok s' → outside_kept base s s'.
Proof.
  intros Hp H. apply outside_kept_nodes.
  - by apply fs_remove_file_dirs_kept in H as [? _].
  - intros x Hx. eapply fs_remove_file_other; [done|]. by intros ->%resolve_place.
Qed.

(** What is not below the directory is as it was. *)
Lemma fs_remove_dir_all_other s p x :
  fs_cwd (fs_remove_dir_all s p).2 = fs_cwd s ∧
  (¬ place_of s p `suffix_of` x → node_at (fs_remove_dir_all s p).2 x = node_at s x).
Proof.
  unfold fs_remove_dir_all. destruct (resolve s p) as [l|e] eqn:Er; [|done].
  pose proof (resolve_place _ _ _ Er) as ->. set (l := place_of s p).
  destruct (node_at s l) as [[d|]|]; [done| |done].
  assert (¬ l `suffix_of` x → fs_nodes (set_nodes (filter (λ kv, is_below l kv.1 = false)) s) !! x = fs_nodes s !! x) as H.
  { intros Hx. simpl. apply option_eq. intros n. rewrite map_lookup_filter_Some. simpl. unfold is_below.
    rewrite bool_decide_eq_false. split; [by intros [? _]|]. intros Hn. split; [done|]. by intros [? _]. }
  destruct (decide (l = [])) as [El|El]; simpl.
  - split; [done|]. intros Hx. exfalso. apply Hx. rewrite El. apply suffix_nil.
  - assert (¬ l `suffix_of` x → l ≠ x) as Hne by (by intros Hx ->).
    destruct x as [|a x].
    + split; [by repeat case_match|]. intros _. by destruct (filter _ _) as [|? ?]; repeat case_match.
    + split; [by repeat case_match|]. intros Hx. specialize (H Hx). simpl in H.
      repeat case_match; simpl; try exact H; rewrite lookup_delete_ne by (by apply Hne); exact H.
Qed.

(** What is below it is gone. *)
Lemma fs_remove_dir_all_below s p x n :
  resolve s p = Ok (place_of s p) → node_at s (place_of s p) = Some NDir →
  is_below (place_of s p) x = true → node_at (fs_remove_dir_all s p).2 x ≠ Some n.
Proof.
  intros Hr Hd Hx. unfold fs_remove_dir_all. rewrite Hr, Hd. set (l := place_of s p) in *.
  assert (x ≠ []) as Hne.
  { intros ->. apply bool_decide_eq_true in Hx as [Hs Hne]. by apply suffix_nil_inv in Hs. }
  assert (filter (λ kv, is_below l kv.1 = false) (fs_nodes s) !! x = None) as Hf.
  { apply map_lookup_filter_None. right. intros m _. simpl. by rewrite Hx. }
  assert (l ≠ x) as Hlx by (by apply bool_decide_eq_true in Hx as [_ ?]).
  destruct x as [|a x]; [done|]. repeat case_match; simpl; rewrite ?lookup_delete_ne by done; by rewrite Hf.
Qed.

(** ** The invariant *)

Section confinement.
Context `{X : Externals, !ExternalsLaws X} (self : StorageManager) (s0 : FS).

Definition confined (w : World) : Prop :=
  laid_out self (w_db w) ∧ outside_kept (base_place self s0) s0 (w_fs w).

Definition ordinary_rules : Rules :=
  mkRules ordinary ordinary (λ _ _ _ _ _, True) (λ b, ordinary_bucket b = true) (λ b, ordinary_bucket b = true)
    ordinary (λ _, True) ordinary ordinary (λ f, canonical_path self (sf_file_path f)) (λ _ _ _, True) (λ _ _ _, True)
    (canonical_path self) (λ l, base_place self s0 `suffix_of` l).

Lemma file_below b k : ordinary b k → base_place self s0 `suffix_of` place_of s0 (get_file_path self b k).
Proof using Type.
  intros [Hb Hk]. rewrite file_place by done. by apply suffix_app_r, suffix_cons_r.
Qed.

Lemma temp_below b k : ordinary b k → base_place self s0 `suffix_of` place_of s0 (temp_path self b k).
Proof using Type.
  intros [Hb Hk]. destruct (temp_place self b k s0 Hb Hk) as [stem Hp]. unfold temp_path. rewrite Hp.
  apply suffix_cons_r. rewrite file_place by done.
  destruct (rev (split "/" k)) as [|c l] eqn:E.
  - apply (f_equal (@rev string)) in E. rewrite rev_involutive in E. by destruct (split_not_nil "/" k).
  - simpl. by apply suffix_app_r, suffix_cons_r.
Qed.

Lemma confined_fs w s : confined w → outside_kept (base_place self s0) (w_fs w) s → confined (set_fs s w).
Proof using Type. intros [Hl Ho] H. split; [done|]. by etrans. Qed.

Lemma confined_place w p : confined w → place_of (w_fs w) p = place_of s0 p.
Proof using Type. intros [_ [Hc _]]. by apply place_of_cwd. Qed.

Lemma confined_sql {A} (q : Stmt A) :
  stmt_keeps q → (∀ now d a d', q now d = Ok (a, d') → rows_from d d') → closed (always confined) q.
Proof using Type.
  intros Hq Hr [] w a d [Hl Ho] E. split; [|done]. eapply laid_out_from; [exact Hl|by eapply Hq, E; apply Hl|].
  by eapply Hr.
Qed.

Lemma delete_row_confined b k w :
  confined w → confined (delete_row b k w).2 ∧
  ∀ p, (delete_row b k w).1 = Ok (p, 0) → canonical_path self p.
Proof using Type.
  intros [Hl Ho]. pose proof (delete_row_wf b k w (lo_wf _ _ Hl)) as Hwf.
  destruct (delete_row_cases b k w (lo_wf _ _ Hl)) as [(Hfs & _ & _) Hc].
  destruct (delete_row b k w) as [[[p n]|e] w1]; simpl in *; unfold world_wf in Hwf.
  - destruct Hc as (r & Hr & -> & _ & Hd). split.
    + unfold confined. rewrite Hfs, Hd in *. split; [|done]. by apply laid_out_delete.
    + intros p [= <- _]. by apply (lo_rows _ _ Hl) in Hr as (_ & _ & ?).
  - split; [|done]. unfold confined. by rewrite Hfs, Hc.
Qed.

Lemma drop_row_confined b w : confined w → confined (drop_row b w).2.
Proof using Type.
  intros [Hl Ho]. destruct (drop_row_cases b w) as [(Hfs & _ & _) Hd]. unfold confined. rewrite Hfs.
  split; [|done]. destruct Hd as [->|(now & n & Hd)]; [done|].
  eapply laid_out_from; [exact Hl|by eapply delete_bucket_row_keeps, Hd; apply Hl|].
  by eapply delete_bucket_row_from.
Qed.

#[export] Instance confined_robust : Robust (always confined).
Proof using Type. by split. Qed.

#[export] Instance confined_kept : Kept self ordinary_rules (always confined).
Proof using All.
  split; try done.
  - intros [] w b k row [Hl _] Hr. destruct (lo_rows _ _ Hl _ _ _ Hr) as (? & ? & ?).
    split_and!; try done. by apply (wf_keyed _ (lo_wf _ _ Hl)).
  - by intros b k [? ?].
  - intros f c ct o Ht _ _ Hp [] w [] d [Hl Ho] E. split; [|done]. eapply laid_out_upsert; [exact Hl|exact Ht| |exact E].
    destruct Hp as [->|(_ & e & He & -> & _)]; [|done]. destruct Ht. by do 2 eexists.
  - intros id. apply confined_sql; [apply touch_row_keeps|]. intros now d []. apply touch_row_from.
  - intros id st h. apply confined_sql; [apply set_status_wf|]. intros now d []. apply set_status_from.
  - intros b _. apply confined_sql; [apply insert_bucket_keeps|].
    intros now d [] d' E. by eapply rows_from_same, insert_bucket_files.
  - intros kid d a s. apply confined_sql; [apply insert_key_keeps|].
    intros now d0 k d' E. by eapply rows_from_same, insert_key_files.
  - intros kid _. apply confined_sql; [apply deactivate_keeps|]. intros now d [] d' [= <-]. by apply rows_from_same.
  - intros b k [] w _. apply delete_row_confined.
  - intros b [] w _. apply drop_row_confined.
  - intros b _ [] w s Hw H. eapply confined_fs; [done|]. by eapply outside_kept_make_dirs.
  - intros b k cs _ _ [] w s Hw H. eapply confined_fs; [done|]. by eapply outside_kept_make_dirs.
  - intros b k [] w l s Ht Hw (Hl & _ & _ & _ & ->)%fs_create_Ok. apply resolve_place in Hl as ->.
    pose proof (temp_below b k Ht) as Hb. rewrite (confined_place w) by done. split; [|done].
    apply confined_fs; [done|]. by apply outside_kept_insert.
  - intros l d [] w Hl Hw. apply confined_fs; [done|]. by apply outside_kept_insert.
  - intros b k Ht [] w s Hw H. eapply confined_fs; [done|].
    eapply outside_kept_rename; [..|exact H]; rewrite (confined_place w) by done; [by apply temp_below|by apply file_below].
  - intros b k [? ?]. by do 2 eexists.
  - intros p (b & k & Hb & Hk & ->) [] w s Hw H. eapply confined_fs; [done|].
    eapply outside_kept_remove_file; [|exact H]. rewrite (confined_place w) by done. by apply file_below.
  - intros b [] w Hb Hw. apply confined_fs; [done|]. pose proof (λ x, fs_remove_dir_all_other
      (w_fs w) (path_join (sm_base_path self) b) x) as H.
    apply outside_kept_nodes; [apply (H [])|]. intros x Hx. apply H. intros Hs. apply Hx.
    rewrite (confined_place w), bucket_place in Hs by done. etrans; [|exact Hs]. by apply suffix_cons_r.
Qed.

End confinement.

(** ** The theorem *)

(** A job on ordinary names. *)
Definition ordinary_job (e : event) : Prop :=
  match e with
  | Upload b k _ _ _ | Remove b k | Download b k | DownloadRange b k _ _
  | DownloadCompressedRange b k _ _ | Info b k => ordinary b k
  | MakeBucket b | DropBucket b => ordinary_bucket b = true
  | Sweep | Preload | MakeKey _ _ | DropKey _ => True
  end.

Section theorem.
Context `{X : Externals, !ExternalsLaws X} (self : StorageManager).

(** C10: Jobs stay inside the storage directory.  With ordinary names of
    buckets and keys (no empty, "." or ".." segment, no colon in a bucket, no
    key that ends in ".tmp"), and tables whose rows
    have the paths of such names, no job creates, changes or removes a file
    outside the storage directory, or removes a directory there: whatever jobs
    run at the same time, however their calls interleave, whatever calls fail
    and wherever a job is dropped. *)
Theorem nothing_outside_storage w ps w' :
  rtc (turn self ordinary_job surroundings) ([], w) (ps, w') →
  laid_out self (w_db w) →
  ∀ x, ¬ base_place self (w_fs w) `suffix_of` x →
    (∀ d, node_at (w_fs w') x = Some (NFile d) ↔ node_at (w_fs w) x = Some (NFile d)) ∧
    (node_at (w_fs w) x = Some NDir → node_at (w_fs w') x = Some NDir).
Proof.
  intros H Hl.
  destruct (pool_safe_empty self ordinary_job surroundings (always (confined self (w_fs w))) (λ _, any) tt w ps w')
    as [[_ [_ Ho]] _]; [| |exact H| |exact Ho].
  - intros [] v v' Hv. by destruct Hv.
  - intros e He. apply (job_kept self (ordinary_rules self (w_fs w)) (always (confined self (w_fs w)))). by destruct e.
  - split; [done|reflexivity].
Qed.
End theorem.

(** A deletion of a whole bucket while an upload into it is under way, and a
    file beside the storage directory. *)
Definition beside : World :=
  set_fs (mkFS [] (<[["data"] := NDir]> {[ ["notes"] := NFile [Byte.x61] ]})) (db_world empty_db).

Lemma nothing_outside_storage_witness :
  let X := Toy.ToyExternals in
  ∃ ps w', rtc (turn (X:=X) sample_storage ordinary_job surroundings) ([], beside) (ps, w')
    ∧ length ps = 2%nat ∧ db_buckets (w_db w') !! "b" = None
    ∧ node_at (w_fs w') ["notes"] = Some (NFile [Byte.x61]).
Proof.
  cbv zeta.
  set (e1 := Upload "b" "k" [Byte.x61] None default_options). set (e2 := DropBucket "b").
  assert (∃ ps w', rtc (turn (X:=Toy.ToyExternals) sample_storage ordinary_job surroundings) ([], beside) (ps, w')
    ∧ length ps = 2%nat ∧ db_buckets (w_db w') !! "b" = None) as (ps & w' & H & Hl & Hb).
  { do 2 eexists. split; [|split].
    - eapply rtc_l; [apply (turn_arrive _ _ _ e1); by vm_compute|].
      eapply rtc_l; [apply (turn_arrive _ _ _ e2); by vm_compute|].
      do 4 (eapply rtc_l; [apply (turn_call _ _ _ 0); reflexivity|]).
      apply (run_alone _ _ _ 1 e2). reflexivity.
    - reflexivity.
    - rewrite run_task_of. vm_compute. reflexivity. }
  exists ps, w'. split_and!; [exact H|exact Hl|exact Hb|].
  assert (laid_out sample_storage (w_db beside)) as Hlo.
  { split; [exact empty_db_wf|]. intros b k row. discriminate. }
  apply (nothing_outside_storage (X:=Toy.ToyExternals) sample_storage beside ps w' H Hlo ["notes"]).
  - intros [l Hs]. vm_compute in Hs. by destruct l as [|? [|]].
  - reflexivity.
Defined.
