(* ===== verification/Provenance.v ===== *)
(** * Where rows come from

    However jobs interleave, fail and are dropped, every row of the table says
    what some upload of its key said: the hashes, size, name, time to live and
    metadata of that upload's content, and a path at which an upload of the same
    content was put. *)

From S2P Require Import Prelude.
From S2P Require Import Errors.
From S2P Require Import Models.
From S2P Require Import FileSystem.
From S2P Require Import Config.
From S2P Require Import Externals.
From S2P Require Import World.
From S2P Require Import Compression.
From S2P Require Import Crypto.
From S2P Require Import Database.
From S2P Require Import Cache.
From S2P Require Import EncryptionKeys.
From S2P Require Import Performance.
From S2P Require Import Storage.
From S2P Require Import StorageWf.
From S2P Require Import Deletion.
From S2P Require Import Phases.
From S2P Require Import Tasks.
From S2P Require Import Jobs.
From S2P Require Import Guarantee.
From S2P Require Import Interleaving.
From S2P Require Import Confinement.

Section provenance.
Context `{X : Externals, !ExternalsLaws X} (self : StorageManager) (admits : event → Prop).

(** Some upload of this content was put under this path. *)
Definition placed (c : bytes) (path : string) : Prop :=
  ∃ b k ct o, admits (Upload b k c ct o) ∧ path = get_file_path self b k.

(** Some upload of this content gave it this type. *)
Definition typed (c : bytes) (type : string) : Prop :=
  ∃ b k ct o, admits (Upload b k c ct o) ∧ type = default "application/octet-stream" ct.

(** The row says what an upload of its key said. *)
Definition accounted (row : StoredFile) : Prop :=
  ∃ c ct o, admits (Upload (sf_bucket row) (sf_key row) c ct o) ∧
    sf_hash_blake3 row = blake3_hex c ∧ sf_hash_md5 row = md5_hex c ∧ sf_original_size row = zlen c ∧
    sf_filename row = last_segment (sf_key row) ∧ sf_expires_at row = so_expires_at o ∧
    sf_metadata row = so_metadata o ∧
    placed c (sf_file_path row) ∧
    (st_enable_deduplication (cfg_storage (sm_config self)) = false →
     sf_file_path row = get_file_path self (sf_bucket row) (sf_key row)) ∧
    match ct with Some t => sf_content_type row = t | None => typed c (sf_content_type row) end.

(** Consistent tables with such rows only. *)
Definition all_accounted (w : World) : Prop :=
  db_wf (w_db w) ∧ ∀ bk row, db_files (w_db w) !! bk = Some row → accounted row.

(** Jobs may do anything, and upload what arrives. *)
Definition provenance_rules : Rules :=
  mkRules (λ _ _, True) (λ _ _, True) (λ b k c ct o, admits (Upload b k c ct o)) (λ _, True) (λ _, True)
    (λ _ _, True) (λ _, True) (λ _ _, True) (λ _ _, True) accounted (λ _ _ _, True) (λ _ _ _, True)
    (λ _, True) (λ _, True).

Lemma accounted_columns f f' : upload_columns f' = upload_columns f → accounted f → accounted f'.
Proof using Type.
  unfold upload_columns, file_key, accounted. intros [= -> -> -> -> -> -> -> -> -> ->]. done.
Qed.

(** No two contents that arrive have the same hash. *)
Definition hashes_apart : Prop :=
  ∀ b k c ct o b' k' c' ct' o', admits (Upload b k c ct o) → admits (Upload b' k' c' ct' o') →
    blake3_hex c = blake3_hex c' → c = c'.

Lemma accounted_saved f c ct o :
  hashes_apart → admits (Upload (sf_bucket f) (sf_key f) c ct o) → records self provenance_rules f c ct o →
  saves self provenance_rules f → accounted f.
Proof using Type.
  intros Hapart Ha (H3 & H5 & Hn & He & Hm & Hfrom) Hs. exists c, ct, o.
  assert (st_enable_deduplication (cfg_storage (sm_config self)) = false →
    sf_file_path f = get_file_path self (sf_bucket f) (sf_key f)) as Hown.
  { intros Hd. by destruct Hs as [|[Hd' _]]; [|congruence]. }
  destruct Hfrom as [(Hp & Hz & Ht)|(e & (c' & ct' & o' & Ha' & H3' & _ & Hz' & _ & _ & _ & Hp' & _ & Ht') & Hh & Hp & Hz & Ht)].
  - split_and!; try done; [by do 4 eexists|]. destruct ct; [done|]. by do 4 eexists.
  - unfold compute_hashes_parallel in *. simpl in *. assert (c' = c) as -> by (eapply Hapart; [done..|]; congruence).
    rewrite Hp, Hz. split_and!; try done; first by (intros Hd; rewrite <- Hp; apply Hown).
    destruct ct as [t|]; [done|]. simpl in Ht. rewrite Ht.
    destruct ct' as [t'|]; [|done]. rewrite Ht'. by exists (sf_bucket e), (sf_key e), (Some t'), o'.
Qed.

#[export] Instance all_accounted_robust : Robust (always all_accounted).
Proof using Type. by split. Qed.

Lemma accounted_from w d : all_accounted w → db_wf d → rows_from (w_db w) d → all_accounted (set_db d w).
Proof using Type.
  intros [_ Hr] Hwf Hf. split; [done|]. intros bk row' (row & Hrow & _ & _ & Hc)%Hf.
  by eapply accounted_columns, Hr.
Qed.

Lemma accounted_sql {A} (q : Stmt A) :
  stmt_keeps q → (∀ now d a d', q now d = Ok (a, d') → rows_from d d') → closed (always all_accounted) q.
Proof using Type.
  intros Hq Hf [] w a d Hw E. apply accounted_from; [done|eapply Hq, E; apply Hw|by eapply Hf].
Qed.

Lemma all_accounted_kept : hashes_apart → Kept self provenance_rules (always all_accounted).
Proof using ExternalsLaws0.
  intros Hapart. split; try done; try (by intros; intros [] w fs Hw _).
  - intros [] w b k row [Hwf Hr] Hrow. split_and!; try done; [by apply (wf_keyed _ Hwf)|by eapply Hr].
  - intros f c ct o _ Ho Hrec Hs [] w [] d [Hwf Hr] E. split; [by eapply upsert_file_keeps|]. intros bk row.
    destruct (upsert_file_rows f _ _ _ E) as (row0 & -> & _ & _ & Hc). simpl.
    intros [[_ <-]|[_ Hrow]]%lookup_insert_Some; [|by eapply Hr].
    eapply accounted_columns; [exact Hc|]. exact (accounted_saved f c ct o Hapart Ho Hrec Hs).
  - intros id. apply accounted_sql; [apply touch_row_keeps|]. intros now d []. apply touch_row_from.
  - intros id st h. apply accounted_sql; [apply set_status_wf|]. intros now d []. apply set_status_from.
  - intros b _. apply accounted_sql; [apply insert_bucket_keeps|].
    intros now d [] d' E. by eapply rows_from_same, insert_bucket_files.
  - intros kid d a s. apply accounted_sql; [apply insert_key_keeps|].
    intros now d0 k d' E. by eapply rows_from_same, insert_key_files.
  - intros kid _. apply accounted_sql; [apply deactivate_keeps|]. intros now d [] d' [= <-]. by apply rows_from_same.
  - intros b k [] w _ Hw. split; [|done]. pose proof (delete_row_wf b k w (proj1 Hw)) as Hwf.
    destruct (delete_row_cases b k w (proj1 Hw)) as [_ Hc]. split; [exact Hwf|].
    destruct (delete_row b k w) as [[[p n]|e] w1]; simpl in *; [|rewrite Hc; apply Hw].
    destruct Hc as (r & _ & _ & _ & ->). simpl. intros bk row [_ Hrow]%lookup_delete_Some. by eapply Hw.
  - intros b [] w _ Hw. pose proof (drop_row_wf b w (proj1 Hw)) as Hwf. split; [exact Hwf|].
    destruct (drop_row_cases b w) as [_ [->|(now & n & Hd)]]; [apply Hw|].
    apply (accounted_from w); [done|exact Hwf|by eapply delete_bucket_row_from].
Qed.

(** C15: Every row is accounted for.  Any jobs arrive at any moments and run call
    by call in any order; any call may fail; any job may be dropped wherever it
    waits.  Then the tables are consistent and every row was described by an
    upload of its own key that arrived: it has the BLAKE3 and MD5 hashes and
    the length of that upload's content, its time to live and metadata, the
    file name of the key, and its content type if one was given.  Its path is
    one where an upload of the same content was to be put: without deduplication
    the key's own.  (Assumed: no two contents that arrive have the same BLAKE3
    hash; rows that are there at first are accounted for.  Whether the bytes at
    the path are those of the row is another matter, see [Durability],
    [Publication] and [Races].) *)
Theorem rows_accounted_for w ps w' :
  rtc (turn self admits surroundings) ([], w) (ps, w') →
  hashes_apart → db_wf (w_db w) → (∀ bk row, db_files (w_db w) !! bk = Some row → accounted row) →
  db_wf (w_db w') ∧ ∀ b k row, db_files (w_db w') !! (b, k) = Some row → file_key row = (b, k) ∧ accounted row.
Proof.
  intros H Hapart Hwf Hrows. pose proof (all_accounted_kept Hapart) as HK.
  destruct (pool_safe_empty self admits surroundings (always all_accounted) (λ _, any) tt w ps w') as [[Hwf' Hr] _];
    [| |exact H|by split|].
  - intros [] v v' Hv. by destruct Hv.
  - intros e He. apply (job_kept self provenance_rules (always all_accounted)). by destruct e.
  - split; [done|]. intros b k row Hrow. split; [by apply (wf_keyed _ Hwf')|by eapply Hr].
Qed.
End provenance.

(** ** A concrete run *)

(** Two uploads of one key and one of another, with the content of the first. *)
Definition three_uploads (e : event) : Prop :=
  e = Upload "b" "k" [Byte.x61] None default_options ∨ e = Upload "b" "k" [Byte.x62] (Some "text/plain") default_options
  ∨ e = Upload "b" "l" [Byte.x61] (Some "text/html") default_options.

Lemma rows_accounted_for_witness :
  let X := Toy.ToyExternals in
  ∃ ps w' row, rtc (turn (X:=X) sample_storage three_uploads surroundings) ([], start_world) (ps, w')
    ∧ db_files (w_db w') !! ("b", "l") = Some row ∧ sf_file_path row = "/data/b/k"
    ∧ accounted (X:=X) sample_storage three_uploads row.
Proof.
  cbv zeta.
  set (e1 := Upload "b" "k" [Byte.x61] None default_options).
  set (e2 := Upload "b" "k" [Byte.x62] (Some "text/plain") default_options).
  set (e3 := Upload "b" "l" [Byte.x61] (Some "text/html") default_options).
  assert (∃ ps w' row, rtc (turn (X:=Toy.ToyExternals) sample_storage three_uploads surroundings)
    ([], start_world) (ps, w') ∧ db_files (w_db w') !! ("b", "l") = Some row ∧ sf_file_path row = "/data/b/k")
    as (ps & w' & row & H & Hrow & Hp).
  { do 3 eexists. split; [|split].
    - eapply rtc_l; [apply (turn_arrive _ _ _ e2); right; by left|].
      do 3 (eapply rtc_l; [apply (turn_call _ _ _ 0); reflexivity|]).
      eapply rtc_l; [apply (turn_arrive _ _ _ e1); by left|].
      etrans; [apply (run_alone _ _ _ 1 e1); reflexivity|].
      eapply rtc_l; [apply (turn_arrive _ _ _ e3); right; by right|].
      apply (run_alone _ _ _ 2 e3). reflexivity.
    - rewrite !run_task_of. vm_compute. reflexivity.
    - vm_compute. reflexivity. }
  exists ps, w', row. split_and!; [exact H|exact Hrow|exact Hp|].
  destruct (rows_accounted_for (X:=Toy.ToyExternals) sample_storage three_uploads _ _ _ H) as [_ Hr].
  - intros b k c ct o b' k' c' ct' o' [[= -> -> -> -> ->]|[[= -> -> -> -> ->]|[= -> -> -> -> ->]]]
      [[= -> -> -> -> ->]|[[= -> -> -> -> ->]|[= -> -> -> -> ->]]] Heq;
      try reflexivity; vm_compute in Heq; discriminate Heq.
  - exact empty_db_wf.
  - intros bk r. discriminate.
  - exact (proj2 (Hr _ _ _ Hrow)).
Defined.
