(* ===== verification/Durability.v ===== *)
(** * A file that nobody touches is kept

    While jobs of every kind run, call by call and in any order, on other keys
    (uploads, with their deduplication, deletions, sweeps, preloading, other
    buckets dropped), a stored file that has a path of its own keeps its row,
    its bytes and its cache entries, and a download of it that is in flight at
    the same time returns its content.  Without the two jobs that trust a failed
    call it is kept whatever calls fail. *)

From S2P Require Import Prelude.
From S2P Require Import Errors.
From S2P Require Import Models.
From S2P Require Import FileSystem.
From S2P Require Import Config.
From S2P Require Import Externals.
From S2P Require Import World.
From S2P Require Import Compression.
From S2P Require Import Crypto.
From S2P Require Import Database.
From S2P Require Import Cache.
From S2P Require Import EncryptionKeys.
From S2P Require Import Performance.
From S2P Require Import Storage.
From S2P Require Import Paths.
From S2P Require Import StorageWf.
From S2P Require Import Deletion.
From S2P Require Import Upload.
From S2P Require Import Phases.
From S2P Require Import ObjectMap.
From S2P Require Import Tasks.
From S2P Require Import Jobs.
From S2P Require Import Guarantee.
From S2P Require Import Interleaving.
From S2P Require Import Confinement.

(** ** Paths without ".." *)

Lemma walk_suffix ns ns' cur cs l :
  Forall (λ c, c ≠ "..") cs → walk ns cur cs = Ok l →
  (∀ x, x `suffix_of` l → (length cur < length x < length l)%nat → ns !! x = Some NDir → ns' !! x = Some NDir) →
  walk ns' cur cs = Ok l ∧
  ∀ x, x `suffix_of` l → (length cur < length x < length l)%nat → ns !! x = Some NDir.
Proof.
  intros Hcs. revert cur. induction Hcs as [|c rest Hc Hrest IH]; intros cur Hw Hns; simpl in *.
  { injection Hw as <-. split; [done|lia]. }
  rewrite decide_False in Hw by done. rewrite decide_False by done.
  destruct rest as [|c' rest]; [injection Hw as <-; split; [done|simpl; lia]|].
  destruct (ns !! (c :: cur)) as [[]|] eqn:E; try done.
  pose proof (walk_lexical _ _ _ _ Hw) as Hl. rewrite lexical_plain in Hl by done.
  assert (c :: cur `suffix_of` l) as Hs by (rewrite Hl; by apply suffix_app_r).
  assert (length cur < length (c :: cur) < length l)%nat as Hlen.
  { rewrite Hl, length_app, length_rev. simpl. lia. }
  rewrite (Hns _ Hs Hlen E).
  destruct (IH (c :: cur) Hw) as [H1 H2].
  { intros x Hx Hxl. apply Hns; [done|]. simpl in Hxl. lia. }
  split; [done|]. intros x Hx [Hx1 Hx2].
  destruct (decide (length x = S (length cur))) as [Hxl|Hxl]; [|apply H2; [done|simpl; lia]].
  assert (x = c :: cur) as ->; [|done].
  destruct (suffix_weak_total _ _ _ Hx Hs) as [Hy|Hy];
    apply suffix_length_eq in Hy; simpl in *; (done || lia).
Qed.

(** A path without ".." is read through the places on it alone. *)
Lemma fs_read_suffix s s' p d :
  Forall (λ c, c ≠ "..") (components p) → fs_cwd s' = fs_cwd s →
  (∀ x n, x `suffix_of` place_of s p → node_at s x = Some n → node_at s' x = Some n) →
  fs_read s p = Ok d → fs_read s' p = Ok d.
Proof.
  intros Hp Hc Hn. rewrite !fs_read_Ok. intros (l & Hr & Hl & Hw).
  pose proof (resolve_place _ _ _ Hr) as ->. exists (place_of s p). split_and!; [|by apply Hn|done].
  unfold resolve in *. replace (start_place s' p) with (start_place s p) by (unfold start_place; by rewrite Hc).
  eapply walk_suffix; [done|exact Hr|]. intros [|a x] Hx Hlen; [simpl in Hlen; lia|]. by apply (Hn (a :: x)).
Qed.

(** The directories on it exist. *)
Lemma fs_read_dirs s p d x :
  Forall (λ c, c ≠ "..") (components p) → fs_read s p = Ok d →
  x `suffix_of` place_of s p → x ≠ place_of s p → (length (start_place s p) < length x)%nat →
  node_at s x = Some NDir.
Proof.
  intros Hp (l & Hr & _ & _)%fs_read_Ok Hx Hne Hlen. pose proof (resolve_place _ _ _ Hr) as ->.
  destruct (walk_suffix _ (fs_nodes s) _ _ _ Hp Hr) as [_ H]; [done|].
  assert (node_at s x = fs_nodes s !! x) as ->.
  { destruct x; [simpl in Hlen; lia|done]. }
  apply H; [done|]. split; [done|]. pose proof (suffix_length _ _ Hx).
  destruct (decide (length x = length (place_of s p))) as [E|]; [|lia].
  exfalso. apply Hne. by apply suffix_length_eq; [|lia].
Qed.

(** ** A file beside the changes of others *)

Section beside.
Context (p : string) (Hp : Forall (λ c, c ≠ "..") (components p)).

Lemma read_away s s' d :
  fs_cwd s' = fs_cwd s → (∀ x, x `suffix_of` place_of s p → node_at s' x = node_at s x) →
  fs_read s p = Ok d → fs_read s' p = Ok d.
Proof using Hp.
  intros Hc Hn. apply fs_read_suffix; [done|done|]. intros x n Hx. by rewrite Hn.
Qed.

Lemma read_insert s l n d :
  ¬ l `suffix_of` place_of s p → fs_read s p = Ok d → fs_read (set_nodes <[l := n]> s) p = Ok d.
Proof using Hp.
  intros Hl. apply read_away; [done|]. intros [|a x] Hx; [done|]. simpl.
  rewrite lookup_insert_ne; [done|]. by intros ->.
Qed.

Lemma read_make_dirs s start cs s' d :
  fs_make_dirs s start cs = Ok s' → fs_read s p = Ok d → fs_read s' p = Ok d.
Proof using Type. intros H. apply (fs_read_in_frame (λ _, False)); [by eapply fs_make_dirs_frame|tauto]. Qed.

Lemma read_rename s q q' s' d :
  place_of s q ≠ place_of s p → place_of s q' ≠ place_of s p → fs_rename s q q' = Ok s' →
  fs_read s p = Ok d → fs_read s' p = Ok d.
Proof using Type.
  intros Hq Hq' H. apply fs_read_frame; [by eapply fs_rename_dirs_kept|].
  intros l Hl%resolve_place. subst l. eapply fs_rename_other; [exact H|..]; intros Hx%resolve_place; by symmetry in Hx.
Qed.

Lemma read_unlink s q s' d :
  place_of s q ≠ place_of s p → fs_remove_file s q = Ok s' → fs_read s p = Ok d → fs_read s' p = Ok d.
Proof using Type.
  intros Hq H. apply (fs_read_in_frame (λ x, x = place_of s q)); [by eapply fs_remove_file_frame|].
  intros Heq. by apply Hq.
Qed.

Lemma read_remove_dir s q d :
  (∀ x, x `suffix_of` place_of s p → ¬ place_of s q `suffix_of` x) →
  fs_read s p = Ok d → fs_read (fs_remove_dir_all s q).2 p = Ok d.
Proof using Hp.
  intros Hq. apply read_away; [apply (fs_remove_dir_all_other s q [])|]. intros x Hx.
  apply fs_remove_dir_all_other. by apply Hq.
Qed.
End beside.

(** ** Rows that keep the columns of a file *)

Lemma agrees_trans f r r' : agrees f r → agrees r r' → agrees f r'.
Proof.
  intros ((?&?&?&?)&?&?&?&?&?&?) ((?&?&?&?)&?&?&?&?&?&?). repeat split; congruence.
Qed.

Lemma update_rows_agrees p u now d d' bk f :
  (∀ r, agrees r (u r)) → update_rows p u now d = Ok (tt, d') →
  (∃ row, db_files d !! bk = Some row ∧ agrees f row) → ∃ row, db_files d' !! bk = Some row ∧ agrees f row.
Proof.
  intros Hu. unfold update_rows. case_bool_decide; [|done]. intros [= <-] (row & Hr & Ha).
  exists (if p row then u row else row). split; [simpl; by rewrite lookup_fmap, Hr|].
  destruct (p row); [|done]. by eapply agrees_trans.
Qed.

Lemma touch_row_agrees id now d d' bk f :
  touch_row id now d = Ok (tt, d') →
  (∃ row, db_files d !! bk = Some row ∧ agrees f row) → ∃ row, db_files d' !! bk = Some row ∧ agrees f row.
Proof. unfold touch_row. case_bool_decide; [done|]. apply update_rows_agrees. by intros []. Qed.

Lemma set_status_agrees p st h now d d' bk f :
  set_status p st h now d = Ok (tt, d') →
  (∃ row, db_files d !! bk = Some row ∧ agrees f row) → ∃ row, db_files d' !! bk = Some row ∧ agrees f row.
Proof. unfold set_status. destruct (_ || _); [|done]. apply update_rows_agrees. by intros []. Qed.

(** ** The invariant *)

Section durability.
Context `{X : Externals, !ExternalsLaws X} (self : StorageManager).
Context (Hbase : Forall (λ c, c ≠ "..") (components (sm_base_path self))).

(** The key, what its rows and its bytes look like, its encryption key, and
    whether no call fails. *)
Context (b0 k0 : string) (row_ok : StoredFile → Prop) (raw_ok : bytes → Prop) (kid0 : option string).
Context (quiet : bool) (cwd : place) (keys0 : gmap string EncryptionKey).
Context (Hname : ordinary b0 k0) (Hagrees : ∀ r r', agrees r r' → row_ok r → row_ok r').
Context (Hpath : ∀ r, row_ok r → sf_file_path r = get_file_path self b0 k0).
Context (Hlives : ∀ r, row_ok r → sf_expires_at r = None).

(** What holds of the state whether the file is there or not. *)
Record based (w : World) : Prop := {
  ba_calm : quiet = true → w_faults w = [];
  ba_laid : laid_out self (w_db w);
  ba_cwd : fs_cwd (w_fs w) = cwd;
  ba_meta v : w_cache w !! metadata_key b0 k0 = Some v → ∃ r, json_from_slice v = Ok r ∧ row_ok r;
  ba_content c : w_cache w !! content_key b0 k0 = Some c → raw_ok c;
  ba_keys kid : kid0 = Some kid → is_Some (keys0 !! kid) ∧ db_keys (w_db w) !! kid = keys0 !! kid
}.

Record survives (w : World) : Prop := {
  su_based :> based w;
  su_row : ∃ row, db_files (w_db w) !! (b0, k0) = Some row ∧ row_ok row;
  su_bytes : ∃ raw, fs_read (w_fs w) (get_file_path self b0 k0) = Ok raw ∧ raw_ok raw
}.

Definition other (b k : string) : Prop := (b, k) ≠ (b0, k0).

Definition place0 : place := place_of (mkFS cwd ∅) (get_file_path self b0 k0).

Definition sparing_rules : Rules :=
  mkRules (λ b k, ordinary b k ∧ other b k) (λ b k, ordinary b k ∧ other b k) (λ _ _ _ _ _, True)
    (λ b, ordinary_bucket b = true) (λ b, quiet = true ∧ ordinary_bucket b = true ∧ b ≠ b0)
    (λ b k, ordinary b k ∧ (quiet = true ∨ other b k)) (λ kid, kid0 ≠ Some kid) ordinary ordinary
    (λ f, canonical_path self (sf_file_path f)) (λ b k f, (b, k) = (b0, k0) → row_ok f)
    (λ b k c, (b, k) = (b0, k0) → raw_ok c)
    (λ p, canonical_path self p ∧ p ≠ get_file_path self b0 k0) (λ l, ¬ l `suffix_of` place0).

Lemma based_place w p : based w → place_of (w_fs w) p = place_of (mkFS cwd ∅) p.
Proof using Type. intros Hw. apply place_of_cwd. simpl. apply (ba_cwd _ Hw). Qed.

Lemma path0_plain : Forall (λ c, c ≠ "..") (components (get_file_path self b0 k0)).
Proof using Hbase Hname. destruct Hname. by apply file_path_plain. Qed.

(** *** The files *)

Lemma based_fs w s : based w → fs_cwd s = fs_cwd (w_fs w) → based (set_fs s w).
Proof using Type. intros [? ? Hc ? ? ?] Hs. split; try done. simpl. congruence. Qed.

Lemma survives_fs w s :
  survives w → fs_cwd s = fs_cwd (w_fs w) →
  (∀ d, fs_read (w_fs w) (get_file_path self b0 k0) = Ok d → fs_read s (get_file_path self b0 k0) = Ok d) →
  survives (set_fs s w).
Proof using Type.
  intros [Hb Hr (raw & Hraw & Hok)] Hc Hs. split; [by apply based_fs|done|]. exists raw. split; [by apply Hs|done].
Qed.

Lemma other_place b k : ordinary b k → other b k → place_of (mkFS cwd ∅) (get_file_path self b k) ≠ place0.
Proof using Hname.
  intros [Hb Hk] Hne Heq. destruct Hname. unfold place0 in Heq.
  apply file_place_inj in Heq as [-> ->]; [|done..]. by apply Hne.
Qed.

(** The temporary file of another key is not on the path: it would have to be
    one of its directories. *)
Lemma temp_away b k w l s :
  ordinary b k → other b k → survives w → fs_create (w_fs w) (temp_path self b k) = Ok (l, s) →
  ¬ l `suffix_of` place0.
Proof using Hbase Hname.
  intros [Hb Hk] Hne Hw (Hl & Hnd & _)%fs_create_Ok Hs. apply resolve_place in Hl as ->. apply Hnd.
  destruct (su_bytes _ Hw) as (raw & Hraw & _).
  unfold place0 in Hs. rewrite <- (based_place w) in Hs by apply Hw.
  eapply (fs_read_dirs _ (get_file_path self b0 k0)); [apply path0_plain|exact Hraw|done|..].
  - destruct Hname. by apply temp_not_file.
  - unfold temp_path. destruct (temp_place self b k (w_fs w) Hb Hk) as [stem ->].
    destruct Hname as [Hb0 Hk0].
    rewrite start_place_file by done.
    rewrite (file_place self b k) by done. unfold base_place, place_of. rewrite (lexical_plain _ _ Hbase).
    destruct (rev (split "/" k)) as [|c r]; simpl; rewrite ?length_app; simpl; rewrite ?length_app; lia.
Qed.

Lemma bucket_away b x :
  ordinary_bucket b = true → b ≠ b0 → x `suffix_of` place0 →
  ¬ place_of (mkFS cwd ∅) (path_join (sm_base_path self) b) `suffix_of` x.
Proof using Hname.
  intros Hb Hne Hx Hs. apply Hne. destruct Hname as [Hb0 Hk0]. rewrite bucket_place in Hs by done.
  unfold place0 in Hx. rewrite file_place in Hx by done.
  assert (b :: base_place self (mkFS cwd ∅) `suffix_of` rev (split "/" k0) ++ b0 :: base_place self (mkFS cwd ∅))
    as H1 by (by etrans).
  assert (b0 :: base_place self (mkFS cwd ∅) `suffix_of` rev (split "/" k0) ++ b0 :: base_place self (mkFS cwd ∅))
    as H2 by (by apply suffix_app_r).
  destruct (suffix_weak_total _ _ _ H1 H2) as [H|H]; apply suffix_length_eq in H;
    simpl; (lia || by injection H).
Qed.

(** *** The tables *)

Lemma based_db w d :
  based w → laid_out self d →
  (∀ kid, kid0 = Some kid → is_Some (db_keys (w_db w) !! kid) → db_keys d !! kid = db_keys (w_db w) !! kid) →
  based (set_db d w).
Proof using Type.
  intros [? ? ? ? ? Hk] Hl Hkeys. split; try done. intros kid Hkid. simpl.
  destruct (Hk kid Hkid) as [Hs He]. split; [done|]. rewrite Hkeys; [done|done|by rewrite He].
Qed.

Lemma survives_db w d :
  survives w → based (set_db d w) → (∃ row, db_files d !! (b0, k0) = Some row ∧ row_ok row) → survives (set_db d w).
Proof using Type. by intros [? ? ?] ? ?. Qed.

(** Statements that add no rows and keep the encryption key. *)
Definition tame {A} (q : Stmt A) : Prop :=
  stmt_keeps q ∧ (∀ now d a d', q now d = Ok (a, d') → rows_from d d') ∧
  ∀ now d a d' kid, q now d = Ok (a, d') → kid0 = Some kid → is_Some (db_keys d !! kid) →
    db_keys d' !! kid = db_keys d !! kid.

Lemma based_sql {A} (q : Stmt A) w a d :
  tame q → based w → q (w_now w) (w_db w) = Ok (a, d) → based (set_db d w).
Proof using Type.
  intros (Hq & Hf & Hk) Hw E. pose proof (ba_laid _ Hw) as Hl. apply based_db; [done|..].
  - eapply laid_out_from; [exact Hl|by eapply Hq, E; apply Hl|by eapply Hf].
  - intros kid. by eapply Hk.
Qed.

(** The rows the invariant allows stay so. *)
Definition keeps_row {A} (q : Stmt A) : Prop :=
  ∀ now d a d', q now d = Ok (a, d') → (∃ row, db_files d !! (b0, k0) = Some row ∧ row_ok row) →
    ∃ row, db_files d' !! (b0, k0) = Some row ∧ row_ok row.

Lemma survives_sql {A} (q : Stmt A) : tame q → keeps_row q → closed (always survives) q.
Proof using Type.
  intros Ht Hr [] w a d Hw E. apply survives_db; [done|by eapply based_sql; [|apply Hw|]|].
  eapply Hr; [exact E|apply (su_row _ Hw)].
Qed.

Lemma update_rows_keys p u now d d' : update_rows p u now d = Ok (tt, d') → db_keys d' = db_keys d.
Proof using Type. unfold update_rows. case_bool_decide; [|done]. by intros [= <-]. Qed.

Lemma update_keeps_row p u : (∀ r, agrees r (u r)) → keeps_row (update_rows p u).
Proof using Hagrees.
  intros Hu now d [] d' E (row & Hrow & Hok).
  destruct (update_rows_agrees p u now d d' (b0, k0) row Hu E) as (row' & Hrow' & Ha).
  - exists row. split; [done|apply agrees_refl].
  - exists row'. split; [done|]. by eapply Hagrees.
Qed.

Lemma based_save f w d :
  ordinary (sf_bucket f) (sf_key f) → canonical_path self (sf_file_path f) → based w →
  upsert_file f (w_now w) (w_db w) = Ok (tt, d) → based (set_db d w).
Proof using Type.
  intros Ho Hp Hw E. destruct (upsert_file_rows _ _ _ _ E) as (row & Hd & _).
  apply based_db; [done| |by rewrite Hd]. by eapply laid_out_upsert; [apply (ba_laid _ Hw)|..].
Qed.

Lemma survives_save f :
  ordinary (sf_bucket f) (sf_key f) → other (sf_bucket f) (sf_key f) → canonical_path self (sf_file_path f) →
  closed (always survives) (upsert_file f).
Proof using Type.
  intros Ho Hne Hp [] w [] d Hw E. apply survives_db; [done|by eapply based_save; [..|apply Hw|]|].
  destruct (upsert_file_rows _ _ _ _ E) as (row & Hd & _).
  destruct (su_row _ Hw) as (r & Hr & Ha). exists r. split; [|done]. rewrite Hd. simpl.
  by rewrite lookup_insert_ne.
Qed.

Lemma access_tame id : tame (touch_row id).
Proof using Type.
  split_and!; [apply touch_row_keeps|..]; intros now d [] d'; [apply touch_row_from|].
  intros kid. unfold touch_row. case_bool_decide; [done|]. by intros ->%update_rows_keys.
Qed.

Lemma status_tame p st h : tame (set_status p st h).
Proof using Type.
  split_and!; [apply set_status_wf|..]; intros now d [] d'; [apply set_status_from|].
  intros kid. unfold set_status. destruct (_ || _); [|done]. by intros ->%update_rows_keys.
Qed.

Lemma insert_bucket_tame b : tame (insert_bucket b).
Proof using Type.
  split_and!; [apply insert_bucket_keeps|..]; intros now d [] d'.
  - intros E. by eapply rows_from_same, insert_bucket_files.
  - intros kid. unfold insert_bucket. destruct (negb _); [done|]. by destruct (db_buckets d !! b); intros [= <-].
Qed.

Lemma insert_key_tame kid dt a s : tame (insert_key kid dt a s).
Proof using Type.
  split_and!; [apply insert_key_keeps|..]; intros now d k d'.
  - intros E. by eapply rows_from_same, insert_key_files.
  - intros kid'. unfold insert_key. do 2 (destruct (negb _); [done|]).
    destruct (db_keys d !! kid) eqn:E; [done|]. intros [= _ <-] _ [key Hkey]. simpl.
    rewrite lookup_insert_ne; [done|]. congruence.
Qed.

Lemma revoke_tame kid : kid0 ≠ Some kid → tame (deactivate_stmt kid).
Proof using Type.
  intros Hne. split_and!; [apply deactivate_keeps|..]; intros now d [] d'.
  - intros [= <-]. by apply rows_from_same.
  - intros kid' [= <-] Hk _. simpl. rewrite lookup_alter_ne; [done|]. by intros ->.
Qed.

Lemma access_keeps_row id : keeps_row (touch_row id).
Proof using Hagrees.
  unfold touch_row. intros now d a d'. case_bool_decide; [done|]. by apply update_keeps_row; intros [].
Qed.

Lemma status_keeps_row p st h : keeps_row (set_status p st h).
Proof using Hagrees.
  unfold set_status. intros now d a d'. destruct (_ || _); [|done]. by apply update_keeps_row; intros [].
Qed.

Lemma same_keeps_row {A} (q : Stmt A) :
  (∀ now d a d', q now d = Ok (a, d') → db_files d' = db_files d) → keeps_row q.
Proof using Type. intros Hq now d a d' E. by rewrite (Hq _ _ _ _ E). Qed.

Lemma based_delete_row b k w : based w → based (delete_row b k w).2.
Proof using Type.
  intros Hw. pose proof (ba_laid _ Hw) as Hl. pose proof (lo_wf _ _ Hl) as Hwf.
  pose proof (delete_row_wf b k w Hwf) as Hwf'. unfold world_wf in Hwf'.
  assert (quiet = true → w_faults (delete_row b k w).2 = []) as Hcalm.
  { intros Hq. apply delete_row_calm, (ba_calm _ Hw Hq). }
  destruct (delete_row_cases b k w Hwf) as [(Hfs & Hca & _) Hc].
  assert (based (set_db (w_db (delete_row b k w).2) w)) as [? ? ? ? ? ?].
  { destruct (delete_row b k w) as [[[p n]|e] w1]; cbn [snd] in *; [|by rewrite Hc, set_db_id].
    destruct Hc as (r & _ & _ & _ & Hd). rewrite Hd in *. apply based_db; [done|by apply laid_out_delete|done]. }
  split; rewrite ?Hfs, ?Hca; done.
Qed.

Lemma delete_row_survives b k w :
  other b k → survives w → survives (delete_row b k w).2 ∧
  ∀ p, (delete_row b k w).1 = Ok (p, 0) → canonical_path self p ∧ p ≠ get_file_path self b0 k0.
Proof using All.
  intros Hne Hw. pose proof (ba_laid _ Hw) as Hl. pose proof (lo_wf _ _ Hl) as Hwf.
  pose proof (based_delete_row b k w Hw) as Hb.
  destruct (delete_row_cases b k w Hwf) as [(Hfs & _ & _) Hc].
  destruct (su_row _ Hw) as (r0 & Hr0 & Ha). pose proof (su_bytes _ Hw) as Hbytes.
  destruct (delete_row b k w) as [[[p n]|e] w1]; cbn [fst snd] in *.
  2:{ split; [|done]. split; [done|rewrite Hc; by exists r0|by rewrite Hfs]. }
  destruct Hc as (r & Hr & -> & -> & Hd).
  assert (delete (b, k) (db_files (w_db w)) !! (b0, k0) = Some r0) as Hr0' by (by rewrite lookup_delete_ne).
  split.
  - split; [done| |by rewrite Hfs]. exists r0. by rewrite Hd.
  - intros p [= <- Hn]. split; [by apply (lo_rows _ _ Hl) in Hr as (_ & _ & ?)|].
    intros Hp. apply (other_references_zero _ _ _ _ _ _ Hwf Hn Hr0'). rewrite (Hpath _ Ha). congruence.
Qed.

Lemma based_drop_row b w : based w → based (drop_row b w).2.
Proof using Type.
  intros Hw. destruct (drop_row_cases b w) as [(Hfs & Hca & _) Hd]. pose proof (ba_laid _ Hw) as Hl.
  assert (quiet = true → w_faults (drop_row b w).2 = []) as Hcalm.
  { intros Hq. apply drop_row_calm, (ba_calm _ Hw Hq). }
  assert (based (set_db (w_db (drop_row b w).2) w)) as [? ? ? ? ? ?].
  { destruct Hd as [->|(now & n & E)]; [by rewrite set_db_id|]. apply based_db; [done|..].
    - eapply laid_out_from; [exact Hl|by eapply delete_bucket_row_keeps, E; apply Hl|].
      by eapply delete_bucket_row_from.
    - intros kid _ _. unfold delete_bucket_row in E. by destruct (db_buckets (w_db w) !! b); injection E as _ <-. }
  split; rewrite ?Hfs, ?Hca; done.
Qed.

Lemma drop_row_survives b w : b ≠ b0 → survives w → survives (drop_row b w).2.
Proof using Type.
  intros Hne Hw. pose proof (ba_laid _ Hw) as Hl. pose proof (based_drop_row b w Hw) as Hb.
  destruct (drop_row_cases b w) as [(Hfs & _ & _) Hd].
  split; [done| |rewrite Hfs; apply (su_bytes _ Hw)]. destruct (su_row _ Hw) as (r & Hr & Ha).
  destruct Hd as [->|(now & n & E)]; [by exists r|]. exists r. split; [|done]. unfold delete_bucket_row in E.
  destruct (db_buckets (w_db w) !! b); injection E as _ <-; [|done]. simpl.
  apply map_lookup_filter_Some. split; [done|]. simpl.
  pose proof (wf_keyed _ (lo_wf _ _ Hl) _ _ Hr) as Hk. injection Hk as Hk _. congruence.
Qed.

(** *** The cache *)

Lemma based_cache w c :
  based w →
  (∀ v, c !! metadata_key b0 k0 = Some v → ∃ r, json_from_slice v = Ok r ∧ row_ok r) →
  (∀ v, c !! content_key b0 k0 = Some v → raw_ok v) → based (set_cache c w).
Proof using Type. by intros [? ? ? ? ? ?]. Qed.

Lemma based_robust : Robust (always based).
Proof using Type.
  split; intros [].
  - intros w [Hf ? ? ? ? ?]. split; try done. simpl. intros Hq. by rewrite (Hf Hq).
  - by intros w n [? ? ? ? ? ?].
  - intros w c Hc Hw. apply based_cache; [done|..]; intros v Hv.
    + by eapply (ba_meta _ Hw), lookup_weaken.
    + by eapply (ba_content _ Hw), lookup_weaken.
Qed.

Lemma based_meta b k f v w :
  ordinary b k → ((b, k) = (b0, k0) → row_ok f) → json_to_vec f = Ok v → based w →
  based (set_cache (<[metadata_key b k := v]> (w_cache w)) w).
Proof using Hname ExternalsLaws0.
  intros [Hb _] Ha Hj Hw. destruct Hname as [Hb0 _]. apply based_cache; [done|..]; intros u.
  - intros [[He <-]|[_ Hu]]%lookup_insert_Some; [|by apply (ba_meta _ Hw)].
    apply (cache_key_inj b k b0 k0 Hb Hb0) in He as [-> ->]. exists f. split; [by apply json_roundtrip|by apply Ha].
  - rewrite lookup_insert_ne by done. apply (ba_content _ Hw).
Qed.

Lemma based_content b k c w :
  ordinary b k → ((b, k) = (b0, k0) → raw_ok c) → based w →
  based (set_cache (<[content_key b k := c]> (w_cache w)) w).
Proof using Hname.
  intros [Hb _] Ha Hw. destruct Hname as [Hb0 _]. apply based_cache; [done|..]; intros u.
  - rewrite lookup_insert_ne by done. apply (ba_meta _ Hw).
  - intros [[He <-]|[_ Hu]]%lookup_insert_Some; [|by apply (ba_content _ Hw)].
    apply (cache_key_inj b k b0 k0 Hb Hb0) in He as [-> ->]. by apply Ha.
Qed.

Lemma survives_set_cache w c : survives w → based (set_cache c w) → survives (set_cache c w).
Proof using Type. by intros [? ? ?] ?. Qed.

#[local] Instance survives_robust : Robust (always survives).
Proof using Type.
  destruct based_robust as [H1 H2 H3]. split; intros [].
  - intros w [Hb ? ?]. split; [by apply (H1 tt)|done..].
  - intros w n [Hb ? ?]. split; [by apply (H2 tt)|done..].
  - intros w c Hc [Hb ? ?]. split; [by apply (H3 tt)|done..].
Qed.

Lemma cached_row_ok b k v f w :
  based w → w_cache w !! metadata_key b k = Some v → json_from_slice v = Ok f →
  (b, k) = (b0, k0) → row_ok f.
Proof using Type.
  intros Hw Hv Hj [= -> ->]. destruct (ba_meta _ Hw v Hv) as (r & Hr & Ha).
  by assert (f = r) as -> by congruence.
Qed.

(** Reading the file itself cannot fail. *)
Lemma survives_reading w f :
  quiet = true → survives w → row_ok f →
  ∃ raw, fs_call (fs_reading (λ s, fs_read s (sf_file_path f))) w = (Ok raw, w) ∧ raw_ok raw.
Proof using Hpath.
  intros Hq Hw Hf. destruct (su_bytes _ Hw) as (raw & Hraw & Hok). exists raw. split; [|done].
  rewrite fs_reading_ok by (by apply (ba_calm _ Hw)). by rewrite (Hpath _ Hf), Hraw.
Qed.

(** *** The laws *)

Lemma count_survives f w :
  quiet = true → canonical_path self (sf_file_path f) → survives w →
  no_references (run_sql (select (path_references (sf_file_path f))) w).1 →
  canonical_path self (sf_file_path f) ∧ sf_file_path f ≠ get_file_path self b0 k0.
Proof using All.
  intros Hq Hc Hw Hn. split; [done|]. intros Hp. rewrite select_ok in Hn by (by apply (ba_calm _ Hw)).
  simpl in Hn. destruct (su_row _ Hw) as (r & Hr & Hok). unfold path_references, zlen in Hn.
  assert (r ∈ scan (λ f0, bool_decide (sf_file_path f0 = sf_file_path f)) (w_db w)) as Hin.
  { rewrite elem_of_scan. split; [|eauto]. apply bool_decide_eq_true. rewrite (Hpath _ Hok). congruence. }
  destruct (scan _ _); [by inversion Hin|]. simpl in Hn. lia.
Qed.

Lemma rename_survives b k w s :
  ordinary b k → other b k → survives w →
  fs_rename (w_fs w) (temp_path self b k) (get_file_path self b k) = Ok s → survives (set_fs s w).
Proof using All.
  intros Ho Hne Hw H. apply survives_fs; [done|by apply fs_rename_dirs_kept in H as [? _]|].
  intros d. apply (read_rename _ _ (temp_path self b k) (get_file_path self b k)); [..|done].
  - destruct Ho, Hname. by apply temp_not_file.
  - rewrite !(based_place w) by apply Hw. by apply other_place.
Qed.

Lemma unlink_away p :
  canonical_path self p → p ≠ get_file_path self b0 k0 → place_of (mkFS cwd ∅) p ≠ place0.
Proof using Hname.
  intros (b & k & Hb & Hk & ->) Hne. apply other_place; [done|]. intros [= -> ->]. by apply Hne.
Qed.

Lemma unlink_own b k :
  ordinary b k → other b k →
  canonical_path self (get_file_path self b k) ∧ get_file_path self b k ≠ get_file_path self b0 k0.
Proof using Hname cwd.
  intros Ho Hne. split; [destruct Ho; by do 2 eexists|]. intros Heq.
  apply (other_place b k Ho Hne). unfold place0. by rewrite Heq.
Qed.

Lemma unlink_survives p w s :
  canonical_path self p → p ≠ get_file_path self b0 k0 → survives w →
  fs_remove_file (w_fs w) p = Ok s → survives (set_fs s w).
Proof using All.
  intros Hc Hne Hw H. apply survives_fs; [done|by apply fs_remove_file_dirs_kept in H as [? _]|].
  intros d. apply (read_unlink _ _ p); [|done]. rewrite !(based_place w) by apply Hw. by apply unlink_away.
Qed.

Lemma remove_dir_survives b w :
  ordinary_bucket b = true → b ≠ b0 → survives w →
  survives (set_fs (fs_remove_dir_all (w_fs w) (path_join (sm_base_path self) b)).2 w).
Proof using All.
  intros Hb Hne Hw. apply survives_fs; [done|apply (fs_remove_dir_all_other _ _ [])|].
  intros d. apply read_remove_dir; [apply path0_plain|]. intros x.
  rewrite !(based_place w) by apply Hw. by apply bucket_away.
Qed.

Lemma mkdirs_survives start cs w s : survives w → fs_make_dirs (w_fs w) start cs = Ok s → survives (set_fs s w).
Proof using All.
  intros Hw H. apply survives_fs; [done|by apply fs_make_dirs_dirs_kept in H as [? _]|].
  intros d. by eapply read_make_dirs.
Qed.

Lemma insert_survives l n w : ¬ l `suffix_of` place0 → survives w → survives (set_fs (set_nodes <[l := n]> (w_fs w)) w).
Proof using All.
  intros Hl Hw. apply survives_fs; [done|done|]. intros d. apply read_insert; [apply path0_plain|].
  by rewrite (based_place w) by apply Hw.
Qed.

#[local] Instance survives_kept : Kept self sparing_rules (always survives).
Proof using All.
  split.
  - apply _.
  - intros [] w b k row Hw Hr. destruct (lo_rows _ _ (ba_laid _ Hw) _ _ _ Hr) as (? & ? & ?).
    split_and!; [by apply (wf_keyed _ (lo_wf _ _ (ba_laid _ Hw)))|done| |done].
    intros [= -> ->]. destruct (su_row _ Hw) as (r & Hr0 & Ha). by assert (row = r) as -> by congruence.
  - by intros b k [? _].
  - done.
  - by intros b k [[? ?] ?].
  - intros f c ct o [Ho Hne] _ _ Hp. apply survives_save; [done..|].
    destruct Hp as [->|(_ & e & He & -> & _)]; [|done]. destruct Ho. by do 2 eexists.
  - intros id. apply survives_sql; [apply access_tame|apply access_keeps_row].
  - intros id st h. apply survives_sql; [apply status_tame|apply status_keeps_row].
  - intros b _. apply survives_sql; [apply insert_bucket_tame|].
    apply same_keeps_row. intros ? ? []. apply insert_bucket_files.
  - intros kid d a s. apply survives_sql; [apply insert_key_tame|apply same_keeps_row, insert_key_files].
  - intros kid Hkid. apply survives_sql; [by apply revoke_tame|]. apply same_keeps_row. by intros now d [] d' [= <-].
  - intros b k [] w [_ Hne]. by apply delete_row_survives.
  - intros b [] w (_ & _ & Hne). by apply drop_row_survives.
  - intros b f [] w (Hq & _ & Hne) Hf _. by apply count_survives.
  - intros b _ [] w s. by apply mkdirs_survives.
  - intros b k cs _ _ [] w s. by apply mkdirs_survives.
  - intros b k [] w l s [Ho Hne] Hw E. pose proof (temp_away _ _ _ _ _ Ho Hne Hw E) as Hl. split; [|done].
    apply fs_create_Ok in E as (_ & _ & _ & _ & ->). by apply insert_survives.
  - intros l d [] w. by apply insert_survives.
  - intros b k [Ho Hne] [] w s. by apply rename_survives.
  - intros b k [Ho Hne]. by apply unlink_own.
  - intros p [Hc Hne] [] w s. by apply unlink_survives.
  - intros b [] w (_ & Hb & Hne). by apply remove_dir_survives.
  - intros b k f v [] w Ho Hs Hv Hw. apply survives_set_cache; [done|]. by apply (based_meta _ _ f); [..|apply Hw].
  - intros b k c [] w Ho Hs Hw. apply survives_set_cache; [done|]. by apply based_content; [..|apply Hw].
  - intros b k f c [Ho Hne]. split; [exact Ho|]. by split; intros He; destruct (Hne He).
  - intros b k v f [] w _ Hw Hv Hj. exact (cached_row_ok b k v f w (su_based _ Hw) Hv Hj).
  - intros b k f c [] w _ Hs Hw Hr He. destruct (su_bytes _ Hw) as (raw & Hraw & Hok).
    rewrite (Hpath _ (Hs He)), Hraw in Hr. by injection Hr as <-.
  - intros b k f [] w [Ho Hq] Hs Hw H. split; [done|]. intros He. destruct Hq as [Hq|Hq]; [|by destruct (Hq He)].
    destruct (survives_reading w f Hq Hw (Hs He)) as (raw & Hr & _). by rewrite Hr in H.
  - intros b k f t Ho Hs He. split; [done|]. intros Heq.
    unfold expired in He. by rewrite (Hlives _ (Hs Heq)) in He.
Qed.

(** ** A download in flight *)

Context (file : StoredFile) (Hcoding : ∀ r, row_ok r → same_coding file r).
Context (Htype : ∀ r, row_ok r → sf_content_type r = sf_content_type file).
Context (Hkid0 : sf_encryption_key_id file = kid0).

(** What decoding gives depends on the key of the file alone. *)
Definition active_key (kid : string) : option EncryptionKey :=
  k ← keys0 !! kid; if key_active k then Some k else None.

Definition key_result (kid : string) : result StorageError EncryptionKey :=
  ok_or (UNKNOWN_KEY kid) (active_key kid).

Definition decrypt_result (content : bytes) : result StorageError bytes :=
  if flag (sf_is_encrypted file) then
    algorithm ← row_algorithm file;
    match sf_encryption_key_id file with
    | Some kid => key ← key_result kid; decrypt_with_key content algorithm (ek_key_data key)
    | None => decrypt (sm_crypto self) content algorithm
    end
  else Ok content.

Definition decode_result (content : bytes) : result StorageError bytes :=
  content ← decrypt_result content;
  if flag (sf_is_compressed file) then decompress (sm_compression self) content else Ok content.

(** In one piece. *)
Lemma decode_content_result w c :
  w_faults w = [] →
  (∀ kid, sf_encryption_key_id file = Some kid → db_keys (w_db w) !! kid = keys0 !! kid) →
  decode_content self file c w = (decode_result c, w).
Proof using Type.
  clear Hkid0. intros Hf Hk. unfold decode_content, decode_result, decrypt_content, decrypt_result.
  assert (∀ kid, sf_encryption_key_id file = Some kid → get_key kid w = (key_result kid, w)) as Hkey.
  { intros kid Hkid. by rewrite get_key_ok, Hk by done. }
  rewrite run_bind. destruct (flag (sf_is_encrypted file)).
  - rewrite run_bind, run_lift. destruct (row_algorithm file) as [a|e]; [|done]. simpl.
    destruct (sf_encryption_key_id file) as [kid|].
    + rewrite run_bind, Hkey by done. destruct (key_result kid) as [key|e]; [|done].
      rewrite run_lift. simpl. destruct (decrypt_with_key _ _ _); [|done]. simpl. by destruct (flag _).
    + rewrite run_lift. destruct (decrypt _ _ _); [|done]. simpl. by destruct (flag _).
  - rewrite run_ret. simpl. by destruct (flag _).
Qed.

(** Between the calls of the others. *)
Section quiet_download.
Context (Hquiet : quiet = true).

(** A statement that only reads has the value the invariant gives it. *)
Lemma select_survives {A} (Q : result StorageError A → Prop) (q : Db → A) :
  (∀ w, survives w → Q (Ok (q (w_db w)))) → safe_of (always survives) Q (run_sql (select q)).
Proof using Hquiet.
  intros HQ. apply (safe_map_err _ _ _ (db_call _)), (safe_call _ _ (DbCall _)). intros [] w Hw.
  simpl. rewrite db_call_ok by (by apply (ba_calm _ Hw)). simpl. rewrite set_db_id. split; [done|]. by apply HQ.
Qed.

Lemma read_metadata_survives :
  safe_of (always survives) (λ r, ∃ f, r = Ok f ∧ row_ok f) (read_metadata self b0 k0).
Proof using All.
  unfold read_metadata, read_metadata_tasked.
  eapply (safe_bind_attempt _ (λ r, ∀ f, r = Ok (Some f) → row_ok f)).
  { apply get_file_metadata_val; [apply _| |done|done].
    intros [] w v f Hw Hv Hj f' [= <-]. by apply (cached_row_ok b0 k0 v f w (su_based _ Hw) Hv Hj). }
  intros [[f|]|e] Hf; [apply safe_ret; eauto|..].
  all: eapply (safe_bind _ (λ r, ∃ f, r = Ok f ∧ row_ok f));
    [|intros f (f' & [= <-] & Ha)|by intros e' (c & [=] & _)].
  1, 3: unfold Database.get_file, db_get_file_tasked;
    eapply (safe_bind _ (λ r, ∃ f, r = Ok (Some f) ∧ row_ok f));
    [apply select_survives; intros w Hw; destruct (su_row _ Hw) as (f & -> & Ha); eauto
    |intros row (f & [= ->] & Ha); apply safe_lift; eauto|by intros e' (c & [=] & _)].
  all: eapply (safe_bind_attempt _ any); [|intros _ _; apply safe_ret; eauto].
  all: apply set_file_metadata_kept; [apply _|]; intros [] w v Hv Hw; apply survives_set_cache; [done|].
  all: by apply (based_meta _ _ f); [..|apply Hw].
Qed.

Lemma read_content_survives f :
  row_ok f → safe_of (always survives) (λ r, ∃ c, r = Ok c ∧ raw_ok c) (read_content self b0 k0 f).
Proof using All.
  intros Ha. unfold read_content, read_content_tasked.
  eapply (safe_bind_attempt _ (λ r, ∀ c, r = Ok (Some c) → raw_ok c)).
  { unfold get_file_content, get_file_content_tasked. apply backend_get_val; [apply _| |done|done].
    intros [] w v Hw Hv c [= <-]. by apply (ba_content _ Hw). }
  intros [[c|]|e] Hc; [apply safe_ret; exists c; by split; [|apply Hc]|..].
  all: eapply (safe_bind_attempt _ (λ r, ∃ raw, r = Ok raw ∧ raw_ok raw)).
  1, 3: apply (safe_call _ _ (FsCall _)); intros [] w Hw; simpl;
    destruct (survives_reading w f Hquiet Hw Ha) as (raw & -> & Hok); split; [done|by exists raw].
  all: intros r (raw & -> & Hok); eapply (safe_bind_attempt _ any); [|intros _ _; apply safe_ret; by exists raw].
  all: apply set_file_content_kept; [apply _|]; intros [] w Hw; apply survives_set_cache; [done|].
  all: by apply based_content; [..|apply Hw].
Qed.

Lemma get_key_survives kid :
  kid0 = Some kid → safe_of (always survives) (λ r, r = key_result kid) (get_key kid).
Proof using Hquiet.
  intros Hkid. unfold get_key, get_key_tasked, key_result.
  eapply (safe_bind _ (λ r, r = Ok (active_key kid))); [|intros a [= ->]; by apply safe_lift|done].
  apply select_survives. intros w Hw. unfold active_key. by destruct (ba_keys _ Hw kid Hkid) as [_ ->].
Qed.

Lemma decode_survives f c :
  row_ok f → safe_of (always survives) (λ r, r = decode_result c) (decode_content self f c).
Proof using All.
  intros (Hc & He & Hal & Hkid)%Hcoding. unfold decode_content, decode_content_tasked, decode_result.
  apply safe_bind_eq; [|intros a; rewrite Hc; destruct (flag _); by apply safe_lift || by apply safe_ret].
  unfold decrypt_content, decrypt_content_tasked, decrypt_result, row_algorithm. rewrite He, Hal, Hkid.
  destruct (flag (sf_is_encrypted file)); [|by apply safe_ret].
  apply safe_bind_eq; [by apply safe_lift|intros a].
  destruct (sf_encryption_key_id file) as [kid|] eqn:Ekid; [|by apply safe_lift].
  apply safe_bind_eq; [apply get_key_survives; congruence|intros key; by apply safe_lift].
Qed.

Lemma get_file_survives content :
  (∀ raw, raw_ok raw → decode_result raw = Ok content) →
  safe_of (always survives) (λ r, r = Ok (content, Some (sf_content_type file))) (get_file self b0 k0).
Proof using All.
  intros Hd. unfold Storage.get_file, get_file_tasked.
  eapply (safe_bind _ (λ r, ∃ f, r = Ok f ∧ row_ok f));
    [apply read_metadata_survives|intros f (f' & [= <-] & Ha)|by intros e (f & [=] & _)].
  eapply (safe_bind _ (λ r, ∃ t, r = Ok t)); [by apply (safe_call _ _ Now); eauto| |by intros e [? [=]]].
  intros t _. unfold expired. rewrite (Hlives _ Ha).
  eapply (safe_bind _ (λ r, ∃ raw, r = Ok raw ∧ raw_ok raw));
    [by apply read_content_survives|intros a (raw & [= ->] & Hok)|by intros e (f' & [=] & _)].
  eapply (safe_bind _ (λ r, r = Ok content));
    [rewrite <- (Hd raw Hok); by apply decode_survives|intros a [= ->]|done].
  eapply (safe_bind _ (λ r, r = Ok tt)); [|intros _ _; apply safe_ret; by rewrite (Htype _ Ha)|done].
  unfold touch, touch_tasked. eapply (safe_bind_attempt _ any); [|by intros _ _; apply safe_ret].
  apply (safe_sql (always survives)), survives_sql; [apply access_tame|apply access_keeps_row].
Qed.
End quiet_download.
End durability.

(** ** The theorem *)

(** A job on ordinary names that does not upload to the key, delete it, drop its
    bucket or deactivate the encryption key of its file. *)
Definition sparing (b k : string) (file : StoredFile) (e : event) : Prop :=
  ordinary_job e ∧
  match e with
  | Upload b' k' _ _ _ | Remove b' k' => (b', k') ≠ (b, k)
  | DropBucket b' => b' ≠ b
  | DropKey kid => sf_encryption_key_id file ≠ Some kid
  | _ => True
  end.

Section theorem.
Context `{X : Externals, !ExternalsLaws X} (self : StorageManager).

Lemma is_download b k e : {e = Download b k} + {e ≠ Download b k}.
Proof.
  destruct e as [|b' k'| | | | | | | | | |]; try by right.
  destruct (decide (b' = b)) as [->|]; [|right; congruence].
  destruct (decide (k' = k)) as [->|]; [by left|right; congruence].
Qed.

(** The rows and bytes of a given file. *)
Definition kept_file (quiet : bool) (b k : string) (file : StoredFile) (raw : bytes) (w0 : World) : World → Prop :=
  survives self b k (agrees file) (λ c, c = raw) (sf_encryption_key_id file) quiet
    (fs_cwd (w_fs w0)) (db_keys (w_db w0)).

Abbreviation file_rules quiet b k file raw w0 :=
  (sparing_rules self b k (agrees file) (λ c, c = raw) (sf_encryption_key_id file) quiet (fs_cwd (w_fs w0))).

(** A job that is sparing when calls fail as well: a deletion of a bucket
    unlinks what it failed to count, and a download takes some failed reads for
    missing bytes. *)
Definition careful (b k : string) (file : StoredFile) (e : event) : Prop :=
  sparing b k file e ∧ e ≠ Download b k ∧ match e with DropBucket _ => False | _ => True end.

Lemma sparing_admitted b k file raw w0 e :
  sparing b k file e → admitted (file_rules true b k file raw w0) e.
Proof. intros [Ho Hs]. destruct e; simpl in *; naive_solver. Qed.

Lemma careful_admitted b k file raw w0 e :
  careful b k file e → admitted (file_rules false b k file raw w0) e.
Proof.
  intros ([Ho Hs] & Hne & Hd). destruct e; simpl in *; try naive_solver. split; [done|]. right.
  intros [= -> ->]. by apply Hne.
Qed.

Lemma file_kept quiet b k file raw w0 :
  Forall (λ c, c ≠ "..") (components (sm_base_path self)) → ordinary b k →
  sf_file_path file = get_file_path self b k → sf_expires_at file = None →
  Kept self (file_rules quiet b k file raw w0) (always (kept_file quiet b k file raw w0)).
Proof.
  intros Hbase Hn Hp Hx. apply survives_kept; [done|done|intros r r' H1 H2; by eapply agrees_trans|..].
  - intros r (_ & Hpr & _). congruence.
  - intros r (_ & _ & _ & Hxr & _). congruence.
Qed.

Lemma kept_file_environment quiet b k file raw w0 v v' :
  surroundings v v' → (quiet = true → w_faults v' = []) →
  kept_file quiet b k file raw w0 v → kept_file quiet b k file raw w0 v'.
Proof.
  intros [w c t en pos f Hc Ht] Hf [[? ? ? Hm Hct ?] ? ?]. split; [|done..]. split; try done.
  - intros u Hu. by eapply Hm, lookup_weaken.
  - intros u Hu. by eapply Hct, lookup_weaken.
Qed.

Lemma serves_survives quiet b k file raw content w :
  serves self b k file raw content w → laid_out self (w_db w) → sf_file_path file = get_file_path self b k →
  kept_file quiet b k file raw w w.
Proof.
  intros [Hf Hr Hm Hb Hc _ _ _] Hl Hp. split; [|done|exists raw; split; [by rewrite <- Hp|done]].
  split; try done. intros kid Hkid. split; [|done]. destruct Hr as (row & Hrow & ((_ & _ & _ & Hk) & _)).
  pose proof (wf_rows _ (lo_wf _ _ Hl) _ _ Hrow
    : first_error (row_checks row ++ fk_checks (w_db w) row) = None) as Hw.
  rewrite first_error_None, Forall_app in Hw. destruct Hw as [_ Hw]. unfold fk_checks in Hw.
  rewrite Hk, Hkid in Hw. apply Forall_inv_tail, Forall_inv in Hw. by apply bool_decide_eq_true in Hw.
Qed.

Lemma serves_decodes b k file raw content w :
  serves self b k file raw content w → decode_result self (db_keys (w_db w)) file raw = Ok content.
Proof.
  intros Hs. pose proof (sv_faults _ _ _ _ _ _ _ Hs) as Hf.
  pose proof (sv_decode _ _ _ _ _ _ _ Hs w Hf eq_refl) as Hd.
  rewrite (decode_content_result self (db_keys (w_db w)) file) in Hd by done. by injection Hd.
Qed.

Lemma survives_serves quiet b k file raw content w w' :
  serves self b k file raw content w → sf_file_path file = get_file_path self b k →
  kept_file quiet b k file raw w w' → serves self b k file raw content (set_faults [] w').
Proof.
  intros Hs Hp [[_ Hl _ Hm Hc Hk] Hr (raw' & Hb & ->)]. split; try done.
  - by rewrite Hp.
  - intros w2 Hf2 Hk2. rewrite (decode_content_result self (db_keys (w_db w)) file); [|done|].
    + by rewrite (serves_decodes _ _ _ _ _ _ Hs).
    + intros kid Hkid. rewrite Hk2. by destruct (Hk kid Hkid).
  - apply (sv_compressed _ _ _ _ _ _ _ Hs).
  - apply (sv_sizes _ _ _ _ _ _ _ Hs).
Qed.

Lemma set_no_faults w : w_faults w = [] → set_faults [] w = w.
Proof. by destruct w; simpl; intros ->. Qed.

Lemma quiet_serves b k file raw content w w' :
  serves self b k file raw content w → sf_file_path file = get_file_path self b k →
  kept_file true b k file raw w w' → serves self b k file raw content w'.
Proof.
  intros Hs Hp Hw'.
  rewrite <- (set_no_faults w') by (by apply (ba_calm _ _ _ _ _ _ _ _ _ _ (su_based _ _ _ _ _ _ _ _ _ _ Hw'))).
  by eapply survives_serves.
Qed.

Lemma download_safe b k file raw content w0 :
  Forall (λ c, c ≠ "..") (components (sm_base_path self)) → ordinary b k →
  sf_file_path file = get_file_path self b k → sf_expires_at file = None →
  decode_result self (db_keys (w_db w0)) file raw = Ok content →
  safe_of (always (kept_file true b k file raw w0)) (λ r, r = Ok (content, Some (sf_content_type file)))
    (get_file self b k).
Proof.
  intros Hbase Hn Hp Hx Hd. apply (get_file_survives self Hbase b k (agrees file)); try done.
  - intros r r' H1 H2. by eapply agrees_trans.
  - intros r (_ & Hpr & _). congruence.
  - intros r (_ & _ & _ & Hxr & _). congruence.
  - by intros r (? & _).
  - by intros r (_ & _ & ? & _).
  - by intros raw' ->.
Qed.

Lemma file_survives b k file raw content w ps w' :
  rtc (turn self (sparing b k file) calm_surroundings) ([], w) (ps, w') →
  serves self b k file raw content w → laid_out self (w_db w) →
  Forall (λ c, c ≠ "..") (components (sm_base_path self)) →
  ordinary b k → sf_file_path file = get_file_path self b k → sf_expires_at file = None →
  serves self b k file raw content w' ∧ laid_out self (w_db w') ∧
  ∀ r, mkThread (Download b k) (Return r) ∈ ps → r = Ok (Content content (Some (sf_content_type file))).
Proof.
  intros H Hs Hl Hbase Hn Hp Hx.
  set (Q := λ e (r : result StorageError reply), e = Download b k →
    r = Ok (Content content (Some (sf_content_type file)))).
  destruct (pool_safe_empty self (sparing b k file) calm_surroundings (always (kept_file true b k file raw w)) Q tt w ps w')
    as [Hw' Hps]; [| |exact H|by eapply serves_survives|].
  - intros [] v v' [Hv Hf]. by apply kept_file_environment.
  - intros e He. destruct (is_download b k e) as [->|Hne].
    + eapply safe_weaken; [|intros r Hr _; exact Hr]. unfold job, job_tasked.
      eapply (safe_bind _ (λ r, r = Ok (content, Some (sf_content_type file))));
        [|intros a [= ->]; by apply safe_ret|done].
      apply download_safe; try done. by eapply serves_decodes.
    + eapply safe_weaken; [|by intros r _ ?].
      apply (job_kept self _ _ (K:=file_kept true b k file raw w Hbase Hn Hp Hx)). by apply sparing_admitted.
  - split; [by eapply quiet_serves|]. split; [apply Hw'|]. intros r Hin. by apply (Hps (Download b k) r Hin).
Qed.

(** A download in one piece leaves the file as it is. *)
Lemma download_survives b k file raw content w :
  serves self b k file raw content w → laid_out self (w_db w) →
  Forall (λ c, c ≠ "..") (components (sm_base_path self)) →
  ordinary b k → sf_file_path file = get_file_path self b k → sf_expires_at file = None →
  ∃ w', get_file self b k w = (Ok (content, Some (sf_content_type file)), w') ∧ serves self b k file raw content w'.
Proof.
  intros Hs Hl Hbase Hn Hp Hx. pose proof (serves_survives true _ _ _ _ _ _ Hs Hl Hp) as Hw.
  destruct (safe_run _ _ _ tt w (download_safe b k file raw content w Hbase Hn Hp Hx
    (serves_decodes _ _ _ _ _ _ Hs)) Hw) as [Hw' Hr].
  destruct (get_file self b k w) as [r w'] eqn:E. simpl in *. subst r. exists w'. split; [done|].
  by eapply quiet_serves.
Qed.

(** What an upload of new content starts. *)
Lemma upload_starts b k content ct opts w file w1 :
  cache_writable (sm_cache self) → w_faults w = [] → laid_out self (w_db w) →
  ordinary b k → not_duplicate self content w →
  store_file self b k content ct opts w = (Ok file, w1) →
  (sf_is_compressed file = Some true → co_enabled (sm_compression self) = true) →
  (w_cache w !! content_key b k = None ∨ sf_file_size file ≤ MAX_CACHE_SIZE) →
  (∃ raw, serves self b k file raw content w1) ∧ laid_out self (w_db w1) ∧
  sf_file_path file = get_file_path self b k ∧ sf_expires_at file = so_expires_at opts ∧
  sf_content_type file = default "application/octet-stream" ct ∧
  sf_hash_md5 file = md5_hex content ∧ sf_encryption_key_id file = so_encryption_key_id opts.
Proof.
  intros Hcw Hf Hl Hn Hnd Hst Hcomp Hold.
  destruct (upload_serves self Hcw b k content ct opts w file w1 (w_cache w1) (w_now w1))
    as (raw & Hs & Hct); try done.
  replace (set_now (w_now w1) (set_cache (w_cache w1) w1)) with w1 in Hs by (by destruct w1).
  destruct (store_file_new_inv self Hcw _ _ _ _ _ _ _ _ Hf Hnd Hst)
    as (w0 & compressed & is_c & processed & id & ser & _ & [_ _ Hfile _ _ _ _ _ _]).
  split; [by exists raw|]. split; [|rewrite Hct, Hfile; by split_and!].
  destruct (safe_run (always (confined self (w_fs w))) any (store_file self b k content ct opts) tt w) as [[H _] _].
  - by apply (store_file_kept self (ordinary_rules self (w_fs w)) (always (confined self (w_fs w)))).
  - split; [done|reflexivity].
  - by rewrite Hst in H.
Qed.

(** C2: A file that nobody touches is kept and served.  A file with a path of
    its own and no expiry stays exactly as it is while any jobs on ordinary
    names run at the same time without failing calls, call by call in any
    order, being dropped anywhere: uploads of other
    keys (with their deduplication, temporary files and renames), deletions of
    other keys, aliases included, other buckets dropped, sweeps, preloading,
    reads, keys made and deactivated.  Its row, its bytes and its cache entries
    keep serving its content, and every download of it that has finished
    returned exactly its content and type. *)
Theorem untouched_file_survives b k file raw content w ps w' :
  rtc (turn self (sparing b k file) calm_surroundings) ([], w) (ps, w') →
  serves self b k file raw content w → laid_out self (w_db w) →
  Forall (λ c, c ≠ "..") (components (sm_base_path self)) →
  ordinary b k → sf_file_path file = get_file_path self b k → sf_expires_at file = None →
  serves self b k file raw content w' ∧
  ∀ r, mkThread (Download b k) (Return r) ∈ ps → r = Ok (Content content (Some (sf_content_type file))).
Proof. intros. edestruct file_survives as (? & _ & ?); done. Qed.

(** C3: What was uploaded stays, whatever else happens.  After a successful
    upload of new content under an ordinary name and without expiry, jobs of
    every kind on other keys may run at the same time without failing calls,
    call by call in any order and dropped anywhere: every download of the key that finishes meanwhile, and
    one made at the end, returns the uploaded bytes with their content type. *)
Theorem uploaded_file_survives b k content ct opts w file w1 ps w' :
  cache_writable (sm_cache self) → w_faults w = [] → laid_out self (w_db w) →
  Forall (λ c, c ≠ "..") (components (sm_base_path self)) →
  ordinary b k → so_expires_at opts = None → not_duplicate self content w →
  store_file self b k content ct opts w = (Ok file, w1) →
  (sf_is_compressed file = Some true → co_enabled (sm_compression self) = true) →
  (w_cache w !! content_key b k = None ∨ sf_file_size file ≤ MAX_CACHE_SIZE) →
  rtc (turn self (sparing b k file) calm_surroundings) ([], w1) (ps, w') →
  let reply := (content, Some (default "application/octet-stream" ct)) in
  (∀ r, mkThread (Download b k) (Return r) ∈ ps → r = Ok (Content reply.1 reply.2)) ∧
  (get_file self b k w').1 = Ok reply.
Proof.
  intros Hcw Hf Hl Hbase Hn Hx Hnd Hst Hcomp Hold Hturns reply.
  destruct (upload_starts b k content ct opts w file w1) as ((raw & Hs) & Hl1 & Hp & Hxf & Hct & _ & _); try done.
  rewrite Hx in Hxf. destruct (file_survives b k file raw content w1 ps w') as (Hs' & Hl' & Hps); try done.
  rewrite Hct in Hps. split; [done|].
  destruct (download_survives b k file raw content w' Hs') as (w2 & -> & _); try done. simpl. by rewrite Hct.
Qed.

(** C7: Failing calls do not take a file either.  Whatever calls fail, a file
    with a path of its own and no expiry keeps its row, its bytes and usable
    cache entries while jobs on other keys run call by call and are dropped
    anywhere, apart from two kinds of job that trust a failed call: the deletion
    of a bucket, and a download of the file itself.  Once calls succeed again, a
    download returns its content. *)
Theorem file_survives_failures b k file raw content w ps w' :
  rtc (turn self (careful b k file) surroundings) ([], w) (ps, w') →
  serves self b k file raw content w → laid_out self (w_db w) →
  Forall (λ c, c ≠ "..") (components (sm_base_path self)) →
  ordinary b k → sf_file_path file = get_file_path self b k → sf_expires_at file = None →
  serves self b k file raw content (set_faults [] w') ∧
  (get_file self b k (set_faults [] w')).1 = Ok (content, Some (sf_content_type file)).
Proof.
  intros H Hs Hl Hbase Hn Hp Hx.
  destruct (pool_safe_empty self (careful b k file) surroundings (always (kept_file false b k file raw w))
    (λ _, any) tt w ps w') as [Hw' _]; [| |exact H|by eapply serves_survives|].
  - intros [] v v' Hv. by apply kept_file_environment.
  - intros e He. apply (job_kept self _ _ (K:=file_kept false b k file raw w Hbase Hn Hp Hx)).
    by apply careful_admitted.
  - assert (serves self b k file raw content (set_faults [] w')) as Hs' by (by eapply survives_serves).
    split; [done|]. destruct (download_survives b k file raw content _ Hs') as (w2 & -> & _); try done. apply Hw'.
Qed.
End theorem.

(** ** A concrete run *)

Definition uploaded : result StorageError StoredFile * World :=
  store_file (X:=Toy.ToyExternals) sample_storage "b" "k" [Byte.x61; Byte.x62] None default_options start_world.

(** A download makes two calls; an upload makes an alias of the file, a deletion
    removes it again, and the download goes on. *)
Definition alias : event := Upload "b" "l" [Byte.x61; Byte.x62] None default_options.

Definition busy_moves : list move :=
  [Arrive (Download "b" "k"); Advance 0; Advance 0; Arrive alias; Finish 1; Arrive (Remove "b" "l"); Finish 2; Finish 0].

Definition busy : pool := schedule (X:=Toy.ToyExternals) sample_storage busy_moves ([], uploaded.2).

Lemma busy_turns file :
  rtc (turn (X:=Toy.ToyExternals) sample_storage (sparing "b" "k" file) calm_surroundings) ([], uploaded.2) busy.
Proof.
  apply schedule_turns.
  assert (∀ k, ordinary_key k = true → ordinary "b" k) as Ho.
  { intros k Hk. split; [vm_compute; reflexivity|exact Hk]. }
  repeat constructor; try apply Ho; try (vm_compute; reflexivity); discriminate.
Qed.

Lemma busy_finished :
  option_map fst (finished 0 busy) = Some (Download "b" "k").
Proof. vm_compute. reflexivity. Qed.

Lemma sample_base_plain : Forall (λ c, c ≠ "..") (components (sm_base_path sample_storage)).
Proof. vm_compute. by repeat constructor. Qed.

Lemma start_laid_out : laid_out sample_storage (w_db start_world).
Proof. split; [exact empty_db_wf|]. intros b k row. discriminate. Qed.

Lemma ordinary_b_k : ordinary "b" "k".
Proof. split; vm_compute; reflexivity. Qed.

Lemma busy_reply r :
  (∀ r', mkThread (Download "b" "k") (Return r') ∈ busy.1 → r' = r) →
  finished 0 busy = Some (Download "b" "k", r).
Proof.
  intros H. pose proof busy_finished as Hf. destruct (finished 0 busy) as [[e r']|] eqn:E; [|discriminate Hf].
  injection Hf as ->. f_equal. f_equal. by apply H, (finished_elem _ busy _ _ E).
Qed.

Lemma uploaded_decompresses file w1 :
  uploaded = (Ok file, w1) → sf_is_compressed file = Some true → co_enabled (sm_compression sample_storage) = true.
Proof.
  intros Hst. apply (upload_decompresses (X:=Toy.ToyExternals) sample_storage ltac:(discriminate) "b" "k"
    [Byte.x61; Byte.x62] None default_options start_world file w1); [reflexivity|reflexivity| |exact Hst|done].
  intros _. vm_compute. reflexivity.
Qed.

Lemma uploaded_file_survives_witness :
  finished 0 busy = Some (Download "b" "k", Ok (Content [Byte.x61; Byte.x62] (Some "application/octet-stream"))) ∧
  (get_file (X:=Toy.ToyExternals) sample_storage "b" "k" busy.2).1
  = Ok ([Byte.x61; Byte.x62], Some "application/octet-stream").
Proof.
  pose proof busy_turns as Ht. pose proof busy_reply as Hr.
  assert (is_ok uploaded.1 = true) as Hok by (vm_compute; reflexivity).
  unfold uploaded in *. destruct (store_file _ _ _ _ _ _ _) as [[file|e] w1] eqn:Hst; [|discriminate Hok].
  destruct (uploaded_file_survives (X:=Toy.ToyExternals) sample_storage "b" "k" [Byte.x61; Byte.x62] None
    default_options start_world file w1 busy.1 busy.2) as [H1 H2].
  - discriminate.
  - reflexivity.
  - exact start_laid_out.
  - exact sample_base_plain.
  - exact ordinary_b_k.
  - reflexivity.
  - intros _. vm_compute. reflexivity.
  - exact Hst.
  - exact (uploaded_decompresses file w1 Hst).
  - left. vm_compute. reflexivity.
  - rewrite <- surjective_pairing. apply Ht.
  - split; [by apply Hr|exact H2].
Defined.

Lemma uploaded_serves :
  ∃ file raw, serves (X:=Toy.ToyExternals) sample_storage "b" "k" file raw [Byte.x61; Byte.x62] uploaded.2 ∧
    laid_out sample_storage (w_db uploaded.2) ∧ sf_file_path file = get_file_path sample_storage "b" "k" ∧
    sf_expires_at file = None ∧ sf_content_type file = "application/octet-stream".
Proof.
  assert (is_ok uploaded.1 = true) as Hok by (vm_compute; reflexivity).
  assert (db_wf (w_db uploaded.2)) as Hwf by exact (store_file_wf (X:=Toy.ToyExternals) sample_storage _ _ _ _ _
    start_world empty_db_wf).
  assert (map_Forall (λ bk row, sf_file_path row = "/data/b/k" ∧ bk = ("b", "k")) (db_files (w_db uploaded.2))) as Hrows
    by (apply (bool_decide_eq_true_1 _); vm_compute; reflexivity).
  assert (match uploaded.1 with
          | Ok f => bool_decide (sf_file_path f = "/data/b/k" ∧ sf_expires_at f = None
                                 ∧ sf_content_type f = "application/octet-stream")
          | Err _ => false end = true) as Hfacts by (vm_compute; reflexivity).
  unfold uploaded in *. destruct (store_file _ _ _ _ _ _ _) as [[file|e] w1] eqn:Hst; [|discriminate Hok].
  apply bool_decide_eq_true in Hfacts as (Hp & Hx & Hct).
  destruct (upload_serves (X:=Toy.ToyExternals) sample_storage ltac:(discriminate) "b" "k" [Byte.x61; Byte.x62] None
    default_options start_world file w1 (w_cache w1) (w_now w1)) as (raw & Hs & _);
    [reflexivity|intros _; vm_compute; reflexivity|exact Hst|exact (uploaded_decompresses file w1 Hst)|left; vm_compute; reflexivity|reflexivity|].
  replace (set_now (w_now w1) (set_cache (w_cache w1) w1)) with w1 in Hs by (by destruct w1).
  exists file, raw. split_and!; [exact Hs| |exact Hp|exact Hx|exact Hct].
  split; [exact Hwf|]. intros b k row Hrow. destruct (Hrows _ _ Hrow) as [-> [= -> ->]].
  destruct ordinary_b_k as [Hb Hk]. split_and!; [exact Hb|exact Hk|]. exists "b", "k".
  split_and!; [exact Hb|exact Hk|]. vm_compute. reflexivity.
Qed.

Lemma untouched_file_survives_witness :
  finished 0 busy = Some (Download "b" "k", Ok (Content [Byte.x61; Byte.x62] (Some "application/octet-stream"))).
Proof.
  destruct uploaded_serves as (file & raw & Hs & Hl & Hp & Hx & Hct).
  apply busy_reply. rewrite <- Hct.
  apply (untouched_file_survives (X:=Toy.ToyExternals) sample_storage "b" "k" file raw [Byte.x61; Byte.x62]
    uploaded.2 busy.1 busy.2).
  - rewrite <- surjective_pairing. apply busy_turns.
  - exact Hs.
  - exact Hl.
  - exact sample_base_plain.
  - exact ordinary_b_k.
  - exact Hp.
  - exact Hx.
Defined.

(** An upload under another key while every second call fails. *)
Definition flaky : list (option Fault) := concat (replicate 10 [None; Some (mkFault "input/output error" 1)]).

Definition troubled : pool :=
  schedule (X:=Toy.ToyExternals) sample_storage
    [Arrive (Upload "b" "l" [Byte.x63] None default_options); Finish 0; Arrive (Remove "b" "l"); Finish 1]
    ([], set_faults flaky uploaded.2).

Lemma troubled_turns file :
  rtc (turn (X:=Toy.ToyExternals) sample_storage (careful "b" "k" file) surroundings) ([], uploaded.2) troubled.
Proof.
  eapply rtc_l.
  - apply turn_environment. pose proof (surroundings_move uploaded.2 (w_cache uploaded.2) (w_now uploaded.2)
      (w_entropy uploaded.2) (w_entropy_pos uploaded.2) flaky ltac:(reflexivity) ltac:(reflexivity)) as H. exact H.
  - apply schedule_turns.
    assert (∀ k, ordinary_key k = true → ordinary "b" k) as Ho.
    { intros k Hk. split; [vm_compute; reflexivity|exact Hk]. }
    repeat constructor; try apply Ho; try (vm_compute; reflexivity); discriminate.
Qed.

Lemma file_survives_failures_witness :
  option_map (is_ok ∘ snd) (finished 0 troubled) = Some false ∧
  (get_file (X:=Toy.ToyExternals) sample_storage "b" "k" (set_faults [] troubled.2)).1
  = Ok ([Byte.x61; Byte.x62], Some "application/octet-stream").
Proof.
  split; [vm_compute; reflexivity|].
  destruct uploaded_serves as (file & raw & Hs & Hl & Hp & Hx & <-).
  apply (file_survives_failures (X:=Toy.ToyExternals) sample_storage "b" "k" file raw [Byte.x61; Byte.x62]
    uploaded.2 troubled.1 troubled.2).
  - rewrite <- surjective_pairing. apply troubled_turns.
  - exact Hs.
  - exact Hl.
  - exact sample_base_plain.
  - exact ordinary_b_k.
  - exact Hp.
  - exact Hx.
Defined.
