(* ===== verification/Stages.v ===== *)
(** * A job that takes the state through stages

    [safe] says that a task keeps what holds in every stage; here one task of
    the pool is the one that changes the stage.  [follows] is the logic of its
    calls: each finds the state in the stage the last one left it in, since the
    other tasks keep every stage, and chooses the next.  [pool_follows] puts it
    among the others. *)

From S2P Require Import Prelude.
From S2P Require Import Errors.
From S2P Require Import Models.
From S2P Require Import FileSystem.
From S2P Require Import Externals.
From S2P Require Import World.
From S2P Require Import Storage.
From S2P Require Import StorageWf.
From S2P Require Import Tasks.
From S2P Require Import Jobs.
From S2P Require Import Guarantee.

(** ** The calls of one task *)

Section follows.
Context {Stage : Type} (I : Stage → World → Prop).

(** From stage [s] the task takes the state through stages of its choice and
    ends in one that [Q] relates to its result. *)
Fixpoint follows {E A} (Q : Stage → result E A → Prop) (s : Stage) (t : task E A) : Prop :=
  match t with
  | Return r => Q s r
  | Await c k => ∀ w, I s w → ∃ s', I s' (perform c w).2 ∧ follows Q s' (k (perform c w).1)
  end.

Definition follows_of {E A} (Q : Stage → result E A → Prop) (s : Stage) (m : IO E A) `{!Tasked m} : Prop :=
  follows Q s (task_of m).

Lemma follows_mono {E A} (Q Q' : Stage → result E A → Prop) s (t : task E A) :
  (∀ s r, Q s r → Q' s r) → follows Q s t → follows Q' s t.
Proof.
  intros HQ. revert s. induction t as [r|F B c k IH]; intros s; simpl; [apply HQ|].
  intros H w Hw. destruct (H w Hw) as (s' & Hw' & Hk). exists s'. split; [done|by apply IH].
Qed.

Lemma follows_continue {E F A B} (Q : Stage → result F B → Prop) s (t : task E A) (k : result E A → task F B) :
  follows (λ s' r, follows Q s' (k r)) s t → follows Q s (continue t k).
Proof.
  revert s. induction t as [r|F' B' c k' IH]; intros s; simpl; [done|].
  intros H w Hw. destruct (H w Hw) as (s' & Hw' & Hk). exists s'. split; [done|by apply IH].
Qed.

(** A task that is safe leaves the stage as it is. *)
Lemma safe_follows {E A} (Q : result E A → Prop) s (t : task E A) :
  safe I Q t → follows (λ s' r, s' = s ∧ Q r) s t.
Proof.
  induction t as [r|F B c k IH]; simpl; [done|]. intros H w Hw. destruct (H s w Hw) as [Hw' Hk].
  exists s. split; [done|by apply IH].
Qed.

Section rules.
Context {E A : Type}.
Implicit Types (Q P : Stage → result E A → Prop).

Lemma follows_call Q s (c : call E A) :
  (∀ w, I s w → ∃ s', I s' (perform c w).2 ∧ Q s' (perform c w).1) → follows_of Q s (perform c).
Proof. done. Qed.

Lemma follows_ret Q s (a : A) : Q s (Ok a) → follows_of Q s (mret a : IO E A).
Proof. done. Qed.

Lemma follows_throw Q s (e : E) : Q s (Err e) → follows_of Q s (throw e : IO E A).
Proof. done. Qed.

Lemma follows_bind {B} P (Q : Stage → result E B → Prop) s (m : IO E A) (k : A → IO E B)
    `{!Tasked m, Tk : !∀ a, Tasked (k a)} :
  follows_of P s m → (∀ s' a, P s' (Ok a) → follows_of Q s' (k a)) → (∀ s' e, P s' (Err e) → Q s' (Err e)) →
  follows_of Q s (m ≫= k).
Proof.
  intros Hm Hk He. apply follows_continue. eapply follows_mono; [|exact Hm].
  intros s' [a|e] Hr; simpl; [by apply Hk|by apply He].
Qed.

(** A step that leaves the stage as it is. *)
Lemma follows_bind_safe {B} (P : result E A → Prop) (Q : Stage → result E B → Prop) s (m : IO E A) (k : A → IO E B)
    `{!Tasked m, Tk : !∀ a, Tasked (k a)} :
  safe_of I P m → (∀ a, P (Ok a) → follows_of Q s (k a)) → (∀ e, Q s (Err e)) → follows_of Q s (m ≫= k).
Proof.
  intros Hm Hk He. eapply follows_bind; [by apply safe_follows|by intros s' a [-> Ha]; apply Hk|].
  by intros s' e [-> _].
Qed.

Lemma follows_bind_attempt {F B} P (Q : Stage → result F B → Prop) s (m : IO E A) (k : result E A → IO F B)
    `{!Tasked m, Tk : !∀ a, Tasked (k a)} :
  follows_of P s m → (∀ s' r, P s' r → follows_of Q s' (k r)) → follows_of Q s (attempt m ≫= k).
Proof.
  intros Hm Hk. apply follows_continue, follows_continue. eapply follows_mono; [|exact Hm].
  intros s' r Hr. by apply Hk.
Qed.

Lemma follows_map_err {F} (Q : Stage → result F A → Prop) s (g : E → F) (m : IO E A) `{!Tasked m} :
  follows_of (λ s' r, Q s' (map_result_err g r)) s m → follows_of Q s (map_err g m).
Proof. intros Hm. by apply follows_continue. Qed.
End rules.

(** One call of the database or of the file system, which may fail. *)
Section follows_calls.
Context `{!Robust I}.

Lemma follows_db_call {A} (Q : Stage → result SqlxError A → Prop) s (q : Stmt A) :
  (∀ w a d, I s w → q (w_now w) (w_db w) = Ok (a, d) → ∃ s', I s' (set_db d w) ∧ Q s' (Ok a)) →
  (∀ e, Q s (Err e)) → follows_of Q s (db_call q).
Proof using All.
  intros Hq He. apply (follows_call Q s (DbCall q)). intros w Hw. simpl. unfold db_call.
  pose proof (next_fault_kept I (E:=SqlxError) s w Hw) as Hf.
  destruct (next_fault w) as [[[f|]|e] w1]; simpl in *; [by exists s| |];
    (destruct (q _ _) as [[a d]|e'] eqn:Eq; simpl; [by eapply Hq|by exists s]).
Qed.

Lemma follows_fs_call {A} (Q : Stage → result IoError A → Prop) s (f : FS → result IoError A * FS) :
  (∀ w, I s w → ∃ s', I s' (set_fs (f (w_fs w)).2 w) ∧ Q s' (f (w_fs w)).1) →
  (∀ e, Q s (Err e)) → follows_of Q s (fs_call f).
Proof using All.
  intros Hq He. apply (follows_call Q s (FsCall f)). intros w Hw. simpl. unfold fs_call.
  pose proof (next_fault_kept I (E:=IoError) s w Hw) as Hf.
  destruct (next_fault w) as [[[g|]|e] w1]; simpl in *; [by exists s| |];
    (destruct (Hq w1 Hf) as (s' & ? & ?); exists s'; by destruct (f (w_fs w1))).
Qed.

Lemma follows_fs_changing (Q : Stage → result IoError unit → Prop) s (f : FS → result IoError FS) :
  (∀ w fs, I s w → f (w_fs w) = Ok fs → ∃ s', I s' (set_fs fs w) ∧ Q s' (Ok tt)) →
  (∀ e, Q s (Err e)) → follows_of Q s (fs_call (fs_changing f)).
Proof using All.
  intros Hq He. apply follows_fs_call; [|done]. intros w Hw. unfold fs_changing.
  destruct (f (w_fs w)) as [fs|e] eqn:E; simpl; [by eapply Hq|]. exists s. by rewrite set_fs_id.
Qed.

Lemma follows_fs_write (Q : Stage → result IoError unit → Prop) s l d :
  (∀ w d', I s w → ∃ s', I s' (set_fs (fs_write_handle (w_fs w) l d') w) ∧
    (d' = d → Q s' (Ok tt)) ∧ ∀ e, Q s' (Err e)) → follows_of Q s (fs_write_call l d).
Proof using All.
  intros Hq. apply (follows_call Q s (FsWrite l d)). intros w Hw. simpl. unfold fs_write_call.
  pose proof (next_fault_kept I (E:=IoError) s w Hw) as Hf.
  destruct (next_fault w) as [[[g|]|e] w1]; simpl in *;
    [destruct (Hq w1 (take (fault_partial g) d) Hf) as (s' & ? & ? & ?)|
     destruct (Hq w1 d Hf) as (s' & ? & ? & ?)..]; exists s'; (split; [done|auto]).
Qed.
End follows_calls.
End follows.

(** ** Its place among the others *)

Section pool.
Context `{X : Externals} (self : StorageManager) {Stage : Type} (I : Stage → World → Prop).
Context (own : event) (Q : Stage → result StorageError reply → Prop).
Context (P : event → result StorageError reply → Prop).

Definition other_thread (t : thread) : Prop := th_event t ≠ own ∧ safe I (P (th_event t)) (th_task t).

Definition own_thread (s : Stage) (t : thread) : Prop := th_event t = own ∧ follows I Q s (th_task t).

(** At most one thread of the pool is the one that changes the stage. *)
Fixpoint watched (s : Stage) (ps : list thread) : Prop :=
  match ps with
  | [] => True
  | t :: ps => (other_thread t ∧ watched s ps) ∨ (own_thread s t ∧ Forall other_thread ps)
  end.

Lemma watched_others s ps : Forall other_thread ps → watched s ps.
Proof. induction 1; [done|by left]. Qed.

Lemma watched_snoc s ps t : watched s ps → other_thread t → watched s (ps ++ [t]).
Proof.
  induction ps as [|t' ps IH]; simpl; intros Hps Ht; [by left|].
  destruct Hps as [[? Hps]|[? Hps]]; [left; by split; [|apply IH]|right].
  split; [done|]. apply Forall_app. split; [done|by apply Forall_singleton].
Qed.

Lemma watched_own s ps t : Forall other_thread ps → own_thread s t → watched s (ps ++ [t]).
Proof. intros Hps Ht. induction Hps as [|t' ps ? _ IH]; simpl; [by right|by left]. Qed.

Lemma watched_delete s i ps : watched s ps → watched s (delete i ps).
Proof.
  revert i. induction ps as [|t ps IH]; intros [|i]; simpl; [done|done|..].
  - intros [[_ H]|[_ H]]; [done|by apply watched_others].
  - intros [[? H]|[? H]]; [left; by split; [|apply IH]|right]. split; [done|by apply Forall_delete].
Qed.

(** A thread that moves is one of the others, or the one that changes the stage. *)
Lemma watched_lookup s i ps t :
  watched s ps → ps !! i = Some t →
  (other_thread t ∧ ∀ t', other_thread t' → watched s (<[i:=t']> ps)) ∨
  (own_thread s t ∧ ∀ s' t', own_thread s' t' → watched s' (<[i:=t']> ps)).
Proof.
  revert i. induction ps as [|t0 ps IH]; intros [|i]; simpl; [done|done|..].
  - intros [[H1 H2]|[H1 H2]] [= <-]; [left|right]; (split; [done|]); intros; [by left|by right].
  - intros [[H1 H2]|[H1 H2]] Hi.
    + destruct (IH i H2 Hi) as [[Ht Hu]|[Ht Hu]]; [left|right]; (split; [done|]); intros; left;
        (split; [done|by apply Hu]).
    + left. split; [by eapply Forall_lookup_1|]. intros t' Ht'. right. split; [done|by apply Forall_insert].
Qed.

Lemma watched_result s ps r : watched s ps → mkThread own (Return r) ∈ ps → Q s r.
Proof.
  induction ps as [|t ps IH]; [by intros _ ?%not_elem_of_nil|]. intros Hps [Ht|Hin]%elem_of_cons.
  - destruct Hps as [[[Hne _] _]|[[_ Hf] _]]; [by rewrite <- Ht in Hne|by rewrite <- Ht in Hf].
  - destruct Hps as [[_ Hps]|[_ Hps]]; [by apply IH|].
    destruct (proj1 (Forall_forall _ _) Hps _ Hin) as [Hne _]. by destruct Hne.
Qed.

Lemma watched_other_result s ps e r : watched s ps → mkThread e (Return r) ∈ ps → e ≠ own → P e r.
Proof.
  induction ps as [|t ps IH]; [by intros _ ?%not_elem_of_nil|]. intros Hps [Ht|Hin]%elem_of_cons Hne.
  - destruct Hps as [[[_ H] _]|[[He _] _]]; [by rewrite <- Ht in H|by rewrite <- Ht in He].
  - destruct Hps as [[_ Hps]|[_ Hps]]; [by apply IH|].
    destruct (proj1 (Forall_forall _ _) Hps _ Hin) as [_ H]. done.
Qed.

(** The jobs on their way are jobs that were admitted. *)
Lemma pool_events admits environment (A : event → Prop) p p' :
  (∀ e, admits e → A e) → rtc (turn self admits environment) p p' →
  Forall (λ t, A (th_event t)) p.1 → Forall (λ t, A (th_event t)) p'.1.
Proof.
  intros HA. induction 1 as [|p1 p2 p3 Hs _ IH]; [done|]. intros Hps. apply IH.
  destruct Hs as [i e F B c k ps w Hi|e ps w He|i ps w|ps w w' He]; simpl in *; [..|done].
  - apply Forall_insert; [done|]. exact (Forall_lookup_1 _ _ _ _ Hps Hi).
  - apply Forall_app. split; [done|]. apply Forall_singleton. by apply HA.
  - by apply Forall_delete.
Qed.

(** Before the one that changes it arrives, the stage stays. *)
Lemma pool_before admits environment s w ps' w' :
  (∀ s v v', environment v v' → I s v → I s v') →
  (∀ e, admits e → e ≠ own ∧ safe_of I (P e) (job self e)) →
  rtc (turn self admits environment) ([], w) (ps', w') → I s w →
  I s w' ∧ Forall other_thread ps'.
Proof.
  intros Henv Hjobs H Hw.
  destruct (pool_safe self admits environment I P s [] w ps' w') as [Hw' Hsafe]; [done| |done..|].
  { intros e He. by apply Hjobs. }
  split; [done|]. apply Forall_and. split; [|done].
  by apply (pool_events admits environment (λ e, e ≠ own) _ _ (λ e He, proj1 (Hjobs e He)) H).
Qed.

(** While jobs that keep every stage come and go, the state is always in some
    stage, and when the job has finished in one that [Q] relates to its result;
    the results of the others are as they promise. *)
Lemma pool_follows admits environment s ps w ps' w' :
  (∀ s v v', environment v v' → I s v → I s v') →
  (∀ e, admits e → e ≠ own ∧ safe_of I (P e) (job self e)) →
  rtc (turn self admits environment) (ps, w) (ps', w') → I s w → watched s ps →
  ∃ s', I s' w' ∧ (∀ r, mkThread own (Return r) ∈ ps' → Q s' r) ∧
    ∀ e r, mkThread e (Return r) ∈ ps' → e ≠ own → P e r.
Proof.
  intros Henv Hjobs. remember (ps, w) as x eqn:Hx. remember (ps', w') as y eqn:Hy. intros H.
  revert s ps w Hx. induction H as [x|x x1 y Hs _ IH]; intros s ps w ->; simplify_eq.
  { intros Hw Hps. exists s. split; [done|].
    split; [intros r; by apply watched_result|intros e r; by apply (watched_other_result s)]. }
  inversion Hs as [i e F B c k ps1 w1 Hi|e ps1 w1 He|i ps1 w1|ps1 w1 w2 He]; simplify_eq;
    intros Hw Hps.
  - destruct (watched_lookup s i ps _ Hps Hi) as [[[Hne Hc] Hu]|[[He Hc] Hu]]; simpl in *.
    + destruct (Hc s w Hw). eapply (IH eq_refl s); [done|done|]. by apply Hu.
    + destruct (Hc w Hw) as (s' & Hw' & Hk). by eapply (IH eq_refl s'); [| |apply Hu].
  - eapply (IH eq_refl s); [done|done|]. destruct (Hjobs e He). by apply watched_snoc.
  - eapply (IH eq_refl s); [done|done|]. by apply watched_delete.
  - eapply (IH eq_refl s); [done|by eapply Henv|done].
Qed.
End pool.
