(* ===== verification/InFlight.v ===== *)
(** * The row and the bytes of an upload

    What an upload of given content will save, whenever its calls are made: the
    columns of its row that say how it is read, and bytes that decode to the
    content.  The two developments of an upload in flight share it. *)

From S2P Require Import Prelude.
From S2P Require Import Errors.
From S2P Require Import Models.
From S2P Require Import FileSystem.
From S2P Require Import Config.
From S2P Require Import Externals.
From S2P Require Import World.
From S2P Require Import Compression.
From S2P Require Import Crypto.
From S2P Require Import Database.
From S2P Require Import Cache.
From S2P Require Import EncryptionKeys.
From S2P Require Import Performance.
From S2P Require Import Storage.
From S2P Require Import Paths.
From S2P Require Import StorageWf.
From S2P Require Import Deletion.
From S2P Require Import Upload.
From S2P Require Import Phases.
From S2P Require Import ObjectMap.
From S2P Require Import Tasks.
From S2P Require Import Jobs.
From S2P Require Import Guarantee.
From S2P Require Import Interleaving.
From S2P Require Import Confinement.
From S2P Require Import Durability.

Section inflight.
Context `{X : Externals, !ExternalsLaws X} (self : StorageManager).
Context (b0 k0 : string) (content : bytes) (ct : option string) (opts : StoreOptions).
Context (keys0 : gmap string EncryptionKey).

Definition compressed0 : bytes := (compress_step self opts content).1.

(** The row the upload saves, but for its id, its time and the size of its
    bytes. *)
Definition row0 : StoredFile :=
  stored_row self [] b0 k0 ct opts (compute_hashes_parallel content) (zlen content)
    compressed0 [] (compress_step self opts content).2 0.

Definition row_of_upload (r : StoredFile) : Prop :=
  same_coding row0 r ∧ sf_file_path r = get_file_path self b0 k0 ∧
  sf_content_type r = sf_content_type row0 ∧ sf_expires_at r = so_expires_at opts.

(** Bytes that decode to the content of the upload. *)
Definition bytes_of_upload (d : bytes) : Prop := decode_result self keys0 row0 d = Ok content.

Lemma row_of_upload_agrees r r' : agrees r r' → row_of_upload r → row_of_upload r'.
Proof using Type.
  intros ((?&?&?&?)&?&?&?&_) ((?&?&?&?)&?&?&?). repeat split; congruence.
Qed.

Lemma row_of_upload_path r : row_of_upload r → sf_file_path r = get_file_path self b0 k0.
Proof using Type. by intros (_ & ? & _). Qed.

Lemma row_of_upload_lives r : so_expires_at opts = None → row_of_upload r → sf_expires_at r = None.
Proof using Type. by intros <- (_ & _ & _ & ?). Qed.

Lemma decrypted_bytes d :
  ((compress_step self opts content).2 = true → co_enabled (sm_compression self) = true) →
  decrypt_result self keys0 row0 d = Ok compressed0 → bytes_of_upload d.
Proof using ExternalsLaws0.
  intros Hcomp Hd. unfold bytes_of_upload, decode_result. rewrite Hd. simpl.
  pose proof (compress_step_inv self opts content _ _ (surjective_pairing _)) as Hc. fold compressed0 in Hc.
  destruct (compress_step self opts content).2; simpl; [|by rewrite Hc].
  destruct Hc as [_ Hc]. by apply Hc, Hcomp.
Qed.

(** The row saved by the upload. *)
Lemma stored_row_of_upload id h n processed t :
  row_of_upload (stored_row self id b0 k0 ct opts h n compressed0 processed (compress_step self opts content).2 t).
Proof using Type. by repeat split. Qed.

(** *** Between the calls of others *)

Section family.
Context {Stage : Type} (I : Stage → World → Prop) `{!Robust I} (quiet : bool) (cwd : place).
Abbreviation based0 :=
  (based self b0 k0 row_of_upload bytes_of_upload (so_encryption_key_id opts) quiet cwd keys0).
Context (HI : ∀ g w, I g w → based0 w).
Context (HC : ∀ g w c, I g w → based0 (set_cache c w) → I g (set_cache c w)).

Lemma get_key_between kid :
  so_encryption_key_id opts = Some kid →
  safe_of I (λ r, ∀ key, r = Ok key → key_result keys0 kid = Ok key) (get_key kid).
Proof using HI Robust0.
  intros Hkid. unfold get_key, get_key_tasked.
  eapply (safe_bind _ (λ r, ∀ a, r = Ok a → a = active_key keys0 kid)); [| |done].
  - apply safe_select_val; [apply _| |done]. intros g w Hw a [= <-]. unfold active_key.
    by destruct (ba_keys _ _ _ _ _ _ _ _ _ _ (HI _ _ Hw) kid Hkid) as [_ ->].
  - intros a Ha. apply safe_lift. rewrite (Ha a eq_refl). by intros key.
Qed.

Lemma encrypt_between :
  ((compress_step self opts content).2 = true → co_enabled (sm_compression self) = true) →
  safe_of I (λ r, ∀ d, r = Ok d → bytes_of_upload d) (encrypt_step self opts compressed0).
Proof using All.
  intros Hcomp. pose proof get_key_between as Hgk.
  eapply (safe_weaken _ (λ r, ∀ d, r = Ok d → decrypt_result self keys0 row0 d = Ok compressed0));
    [|intros r H d Hd; by apply decrypted_bytes, H].
  unfold encrypt_step, encrypt_step_tasked, decrypt_result, row_algorithm, row0, flag. simpl.
  destruct (should_encrypt self opts); [|by apply safe_ret; intros d [= <-]].
  simpl. destruct (from_str _) as [a|e]; [|by apply safe_throw]. apply safe_bind_lift.
  destruct (so_encryption_key_id opts) as [kid|] eqn:Ek; simpl; [|apply encrypt_val; apply _].
  eapply (safe_bind _ _ _ _ _ (Hgk kid eq_refl)); [|done]. intros key Hkey.
  rewrite (Hkey key eq_refl). apply encrypt_with_key_val; apply _.
Qed.

Lemma set_metadata_between b k f :
  ordinary b0 k0 → ordinary b k → ((b, k) = (b0, k0) → row_of_upload f) →
  ∀ g w v, json_to_vec f = Ok v → I g w → I g (set_cache (<[metadata_key b k := v]> (w_cache w)) w).
Proof using HI HC ExternalsLaws0.
  intros Hn Ho Hf g w v Hv Hw. apply HC; [done|]. by apply (based_meta self _ _ _ _ _ _ _ _ Hn b k f); [..|apply (HI g)].
Qed.

Lemma set_content_between b k c :
  ordinary b0 k0 → ordinary b k → ((b, k) = (b0, k0) → bytes_of_upload c) →
  ∀ g w, I g w → I g (set_cache (<[content_key b k := c]> (w_cache w)) w).
Proof using HI HC.
  intros Hn Ho Hc g w Hw. apply HC; [done|]. by apply (based_content self _ _ _ _ _ _ _ _ Hn b k); [..|apply (HI g)].
Qed.
End family.
End inflight.

(** ** What is there before *)

Section before.
Context `{X : Externals} (self : StorageManager).

(** Nothing of the key is there: no row has its key, its path or, when
    duplicates are looked for, its content; no file is at its path; nothing of it
    is cached; and the encryption key it names exists. *)
Record unclaimed (b k : string) (content : bytes) (opts : StoreOptions) (w : World) : Prop := {
  un_laid : laid_out self (w_db w);
  un_rows bk row : db_files (w_db w) !! bk = Some row →
    bk ≠ (b, k) ∧ sf_file_path row ≠ get_file_path self b k ∧
    (st_enable_deduplication (cfg_storage (sm_config self)) = true → sf_hash_blake3 row ≠ blake3_hex content);
  un_file d : node_at (w_fs w) (place_of (w_fs w) (get_file_path self b k)) ≠ Some (NFile d);
  un_meta : w_cache w !! metadata_key b k = None;
  un_content : w_cache w !! content_key b k = None;
  un_key kid : so_encryption_key_id opts = Some kid → is_Some (db_keys (w_db w) !! kid)
}.

(** The temporary file of a key is neither that of another nor a directory on
    its path. *)
Definition temp_apart (s : FS) (b k b' k' : string) : Prop :=
  let l := place_of s (temp_path self b' k') in
  ¬ l `suffix_of` place_of s (get_file_path self b k) ∧ l ≠ place_of s (temp_path self b k).

Lemma temp_not_path b k b' k' s :
  ordinary b k → ordinary b' k' → place_of s (temp_path self b k) ≠ place_of s (get_file_path self b' k').
Proof. intros [] []. by apply temp_not_file. Qed.
End before.

(** ** A concrete upload *)

(** Another upload begins; one call will fail.  Then the upload of the key
    arrives. *)
Definition upload_k : event := Upload "b" "k" [Byte.x61; Byte.x62] None default_options.

Definition upload_l : event := Upload "b" "l" [Byte.x63] None default_options.

Definition failing_world : World :=
  set_faults (replicate 14 None ++ [Some (mkFault "input/output error" 1)]) start_world.

Definition arriving : pool :=
  schedule (X:=Toy.ToyExternals) sample_storage [Arrive upload_l; Advance 0; Advance 0] ([], failing_world).

Definition in_flight (ms : list move) : pool :=
  schedule (X:=Toy.ToyExternals) sample_storage ms
    (arriving.1 ++ [started (X:=Toy.ToyExternals) sample_storage upload_k], arriving.2).

Lemma start_unclaimed :
  unclaimed (X:=Toy.ToyExternals) sample_storage "b" "k" [Byte.x61; Byte.x62] default_options failing_world.
Proof.
  split; [exact start_laid_out|intros bk row; discriminate|discriminate|reflexivity|reflexivity|discriminate].
Qed.

