(* ===== verification/Publication.v ===== *)
(** * An upload in flight

    An upload makes its calls among those of other jobs, any of which may fail.
    Its key goes through four stages (nothing there, the temporary file being
    written, the file in place, the row stored): every call of every other job
    keeps each of them, and the calls of the upload go from one to the next.  So
    the key has no row until it has a complete file, and when the upload has
    succeeded a download returns what was uploaded. *)

From S2P Require Import Prelude.
From S2P Require Import Errors.
From S2P Require Import Models.
From S2P Require Import FileSystem.
From S2P Require Import Config.
From S2P Require Import Externals.
From S2P Require Import World.
From S2P Require Import Compression.
From S2P Require Import Crypto.
From S2P Require Import Database.
From S2P Require Import Cache.
From S2P Require Import EncryptionKeys.
From S2P Require Import Performance.
From S2P Require Import Storage.
From S2P Require Import Paths.
From S2P Require Import StorageWf.
From S2P Require Import Deletion.
From S2P Require Import Upload.
From S2P Require Import Phases.
From S2P Require Import ObjectMap.
From S2P Require Import Tasks.
From S2P Require Import Jobs.
From S2P Require Import Guarantee.
From S2P Require Import Interleaving.
From S2P Require Import Confinement.
From S2P Require Import Durability.
From S2P Require Import Stages.
From S2P Require Import InFlight.

(** ** Stages *)

Inductive stage := Free | Written (d : bytes) | Placed | Stored.

Section publication.
Context `{X : Externals, !ExternalsLaws X} (self : StorageManager).
Context (Hbase : Forall (λ c, c ≠ "..") (components (sm_base_path self))).

(** The upload, the working directory and the encryption keys. *)
Context (b0 k0 : string) (content : bytes) (ct : option string) (opts : StoreOptions).
Context (cwd : place) (keys0 : gmap string EncryptionKey).
Context (Hname : ordinary b0 k0) (Hlives : so_expires_at opts = None).

Abbreviation row_of_upload := (row_of_upload self b0 k0 content ct opts).
Abbreviation bytes_of_upload := (bytes_of_upload self b0 k0 content ct opts keys0).
Abbreviation path0 := (get_file_path self b0 k0).
Abbreviation temp0 := (temp_path self b0 k0).
Abbreviation hash0 := (compute_hashes_parallel content).1.
Abbreviation deduplicates := (st_enable_deduplication (cfg_storage (sm_config self)) = true).
Abbreviation based0 :=
  (based self b0 k0 row_of_upload bytes_of_upload (so_encryption_key_id opts) false cwd keys0).

(** Only the key's own row has its path or, when duplicates are looked for, its
    hash. *)
Definition sole (d : Db) : Prop :=
  ∀ bk row, db_files d !! bk = Some row →
    (sf_file_path row = path0 → bk = (b0, k0) ∧ sf_hash_blake3 row = hash0) ∧
    (deduplicates → sf_hash_blake3 row = hash0 → bk = (b0, k0)).

Definition rows_at (s : stage) (d : Db) : Prop :=
  match s with
  | Stored => ∃ row, db_files d !! (b0, k0) = Some row ∧ row_of_upload row
  | _ => db_files d !! (b0, k0) = None
  end.

Definition no_file (s : FS) : Prop := ∀ d, node_at s (place0 self b0 k0 cwd) ≠ Some (NFile d).

Definition files_at (s : stage) (fs : FS) : Prop :=
  match s with
  | Free => no_file fs
  | Written d => no_file fs ∧ fs_read fs temp0 = Ok d
  | Placed | Stored => ∃ d, fs_read fs path0 = Ok d ∧ bytes_of_upload d
  end.

Record at_stage (s : stage) (w : World) : Prop := {
  at_based :> based0 w;
  at_sole : sole (w_db w);
  at_rows : rows_at s (w_db w);
  at_files : files_at s (w_fs w)
}.

(** Not on the path of the key, nor its temporary file. *)
Definition away (l : place) : Prop :=
  ¬ l `suffix_of` place0 self b0 k0 cwd ∧ l ≠ place_of (mkFS cwd ∅) temp0.

(** What other jobs may do: all but read, write or delete the key, drop its
    bucket, write a temporary file on its path, and upload the same content when
    duplicates are looked for. *)
Definition publication_rules : Rules :=
  let other_key b k := ordinary b k ∧ other b0 k0 b k in
  mkRules other_key (λ b k, other_key b k ∧ away (place_of (mkFS cwd ∅) (temp_path self b k)))
    (λ _ _ c _ _, deduplicates → (compute_hashes_parallel c).1 ≠ hash0)
    (λ b, ordinary_bucket b = true) (λ b, ordinary_bucket b = true ∧ b ≠ b0)
    other_key (λ kid, so_encryption_key_id opts ≠ Some kid) ordinary ordinary
    (λ f, canonical_path self (sf_file_path f) ∧
          (sf_file_path f = path0 → sf_bucket f = b0 ∧ sf_hash_blake3 f = hash0))
    (λ b k f, (b, k) = (b0, k0) → row_of_upload f)
    (λ b k c, (b, k) = (b0, k0) → bytes_of_upload c)
    (λ p, canonical_path self p ∧ p ≠ path0) away.

Lemma lives r : row_of_upload r → sf_expires_at r = None.
Proof using Hlives. by apply row_of_upload_lives. Qed.

Abbreviation temp_place0 := (place_of (mkFS cwd ∅) temp0).

Lemma temp0_plain : Forall (λ c, c ≠ "..") (components temp0).
Proof using Hbase Hname. destruct Hname. apply temp_components; [done..|]. by apply file_path_plain. Qed.

(** The temporary file is in the directory of the file. *)
Lemma temp_suffix l s :
  l `suffix_of` place_of s temp0 → l ≠ place_of s temp0 → l `suffix_of` place_of s path0.
Proof using Hname.
  destruct Hname as [Hb Hk]. unfold temp_path. destruct (temp_place self b0 k0 s Hb Hk) as [stem ->].
  destruct l as [|a l]; [intros; apply suffix_nil|]. intros [|Hl]%suffix_cons_inv Hne; [done|].
  rewrite (file_place self b0 k0) in * by done.
  destruct (rev (split "/" k0)) as [|c r]; simpl in *; by apply suffix_cons_r.
Qed.

Lemma temp_not_bucket b s :
  ordinary_bucket b = true → place_of s (path_join (sm_base_path self) b) ≠ place_of s temp0.
Proof using Hname.
  intros Hb. destruct Hname as [Hb0 Hk0]. rewrite bucket_place by done. unfold temp_path.
  destruct (temp_place self b0 k0 s Hb0 Hk0) as [stem ->]. rewrite (file_place self b0 k0) by done.
  intros Heq%(f_equal length). destruct (rev (split "/" k0)) as [|c r] eqn:E.
  - apply (f_equal (@rev string)) in E. rewrite rev_involutive in E. by apply split_not_nil in E.
  - simpl in Heq. rewrite length_app in Heq. simpl in Heq. lia.
Qed.

(** ** Changes of the files that leave the upload's alone *)

Definition gentle (s s' : FS) : Prop :=
  fs_cwd s' = fs_cwd s ∧
  (∀ p d, p = path0 ∨ p = temp0 → fs_read s p = Ok d → fs_read s' p = Ok d) ∧
  ∀ d, node_at s' (place0 self b0 k0 cwd) = Some (NFile d) → node_at s (place0 self b0 k0 cwd) = Some (NFile d).

Lemma files_at_gentle g s s' : gentle s s' → files_at g s → files_at g s'.
Proof using Type.
  intros (_ & Hr & Hn). assert (no_file s → no_file s') as Hf by (intros Hf d Hd; by eapply Hf, Hn).
  destruct g; simpl; [done|naive_solver|..]; intros (d & Hd & ?); exists d; (split; [|done]); apply Hr; auto.
Qed.

Section gentle.
Context (s : FS) (Hcwd : fs_cwd s = cwd).

Lemma place_cwd p : place_of s p = place_of (mkFS cwd ∅) p.
Proof using Hcwd. by apply place_of_cwd. Qed.

Lemma plain0 p : p = path0 ∨ p = temp0 → Forall (λ c, c ≠ "..") (components p).
Proof using Hbase Hname. intros [->| ->]; [by apply path0_plain|apply temp0_plain]. Qed.

Lemma gentle_insert l n : away l → gentle s (set_nodes <[l := n]> s).
Proof using Hbase Hname Hcwd.
  intros [Hp Ht]. split; [done|]. split.
  - intros p d Hd. apply read_insert; [by apply plain0|]. rewrite place_cwd. destruct Hd as [->| ->]; [done|].
    intros Hs. by apply Hp, temp_suffix.
  - intros d. assert (l ≠ place0 self b0 k0 cwd) as Hne by (by intros ->).
    destruct (place0 self b0 k0 cwd) as [|a x]; [done|]. simpl. by rewrite lookup_insert_ne.
Qed.

Lemma gentle_make_dirs start cs s' : fs_make_dirs s start cs = Ok s' → gentle s s'.
Proof using Type.
  intros H. split; [by eapply fs_make_dirs_kept|]. split; [intros p d _; by eapply read_make_dirs|].
  intros d. destruct (place0 self b0 k0 cwd) as [|a x]; [done|]. unfold fs_make_dirs in H.
  destruct (make_dirs _ _ _) as [ns|] eqn:E; [|done]. injection H as <-. simpl. by eapply make_dirs_files.
Qed.

Lemma gentle_rename b k s' :
  ordinary b k → other b0 k0 b k → away (place_of (mkFS cwd ∅) (temp_path self b k)) →
  fs_rename s (temp_path self b k) (get_file_path self b k) = Ok s' → gentle s s'.
Proof using Hname Hcwd.
  intros Ho Hne [_ Ht] H. split; [by apply fs_rename_dirs_kept in H as [? _]|].
  pose proof (other_place self b0 k0 cwd Hname b k Ho Hne) as Hp. split.
  - intros p d Hd. eapply read_rename; [..|exact H]; rewrite !place_cwd; destruct Hd as [->| ->].
    + by apply temp_not_path.
    + exact Ht.
    + exact Hp.
    + by apply not_eq_sym, temp_not_path.
  - intros d. rewrite (fs_rename_other _ _ _ _ _ H); [done|..]; intros Hr%resolve_place; rewrite place_cwd in Hr.
    + by apply (temp_not_path self b k b0 k0 (mkFS cwd ∅)).
    + by apply Hp.
Qed.

Lemma gentle_unlink p s' : canonical_path self p → p ≠ path0 → fs_remove_file s p = Ok s' → gentle s s'.
Proof using Hname Hcwd.
  intros Hc Hne H. split; [by apply fs_remove_file_dirs_kept in H as [? _]|].
  pose proof (unlink_away self b0 k0 cwd Hname p Hc Hne) as Hp. split.
  - intros q d Hd. eapply read_unlink; [|exact H]. rewrite !place_cwd. destruct Hd as [->| ->]; [exact Hp|].
    destruct Hc as (b & k & Hb & Hk & ->). by apply not_eq_sym, temp_not_path.
  - intros d. rewrite (fs_remove_file_other _ _ _ _ H); [done|]. intros Hr%resolve_place.
    rewrite place_cwd in Hr. by apply Hp.
Qed.

Lemma gentle_remove_dir b :
  ordinary_bucket b = true → b ≠ b0 → gentle s (fs_remove_dir_all s (path_join (sm_base_path self) b)).2.
Proof using Hbase Hname Hcwd.
  intros Hb Hne. split; [apply (fs_remove_dir_all_other s _ [])|]. split.
  - intros p d Hd. apply read_remove_dir; [by apply plain0|]. intros x. rewrite !place_cwd.
    destruct Hd as [->| ->]; [by apply bucket_away|]. intros Hx Hs.
    eapply (bucket_away self b0 k0 cwd Hname b); [done|done| |reflexivity].
    apply temp_suffix; [by etrans|by apply temp_not_bucket].
  - intros d. rewrite (proj2 (fs_remove_dir_all_other _ _ _)); [done|]. rewrite place_cwd.
    by apply (bucket_away self b0 k0 cwd Hname b).
Qed.
End gentle.

(** ** What the others do *)

Lemma at_stage_fs g w s : gentle (w_fs w) s → at_stage g w → at_stage g (set_fs s w).
Proof using Type.
  intros Hs [Hb Hso Hr Hf]. split; [apply based_fs; [done|apply Hs]|done|done|by eapply files_at_gentle].
Qed.

Lemma at_stage_rows g w w' :
  at_stage g w → based0 w' → w_fs w' = w_fs w → rows_from (w_db w) (w_db w') →
  (g = Stored → rows_at g (w_db w')) → at_stage g w'.
Proof using Type.
  intros [Hb Hso Hr Hf] Hb' Hfs Hd Hg. split; [done| | |by rewrite Hfs].
  - intros bk row' (row & Hrow & -> & -> & _)%Hd. by eapply Hso.
  - destruct g; [..|by apply Hg]; simpl in *.
    all: destruct (db_files (w_db w') !! (b0, k0)) as [row'|] eqn:E; [|done].
    all: apply Hd in E as (row & E & _); by rewrite E in Hr.
Qed.

Lemma at_stage_sql {A} (q : Stmt A) :
  tame (so_encryption_key_id opts) q → keeps_row b0 k0 row_of_upload q → closed at_stage q.
Proof using Type.
  intros Ht Hk g w a d Hw E.
  apply (at_stage_rows g w); [done|by eapply based_sql; [..|exact E]; [|apply Hw]|done|by eapply Ht|].
  intros ->. eapply Hk; [exact E|]. exact (at_rows _ _ Hw).
Qed.

Lemma at_stage_cache g w c : at_stage g w → based0 (set_cache c w) → at_stage g (set_cache c w).
Proof using Type. by intros [_ ? ? ?] ?. Qed.

#[local] Instance at_stage_robust : Robust at_stage.
Proof using Type.
  destruct (based_robust self b0 k0 row_of_upload bytes_of_upload (so_encryption_key_id opts) false cwd keys0)
    as [H1 H2 H3]. split; intros g.
  - intros w [Hb ? ? ?]. split; [by apply (H1 tt)|done..].
  - intros w n [Hb ? ? ?]. split; [by apply (H2 tt)|done..].
  - intros w c Hc [Hb ? ? ?]. split; [by apply (H3 tt)|done..].
Qed.

Lemma sole_row g w b k row :
  at_stage g w → db_files (w_db w) !! (b, k) = Some row →
  canonical_path self (sf_file_path row) ∧
  (sf_file_path row = path0 → sf_bucket row = b0 ∧ sf_hash_blake3 row = hash0).
Proof using Type.
  intros Hw Hr. pose proof (ba_laid _ _ _ _ _ _ _ _ _ _ (at_based _ _ Hw)) as Hl.
  split; [by apply (lo_rows _ _ Hl) in Hr as (_ & _ & ?)|]. intros Hp.
  destruct (at_sole _ _ Hw _ _ Hr) as [H _]. destruct (H Hp) as [[= -> ->] Hh].
  pose proof (wf_keyed _ (lo_wf _ _ Hl) _ _ Hr) as Hk. by injection Hk.
Qed.

Lemma delete_row_at_stage b k g w :
  other b0 k0 b k → at_stage g w →
  at_stage g (delete_row b k w).2 ∧
  ∀ p, (delete_row b k w).1 = Ok (p, 0) → canonical_path self p ∧ p ≠ path0.
Proof using Type.
  intros Hne Hw. pose proof (lo_wf _ _ (ba_laid _ _ _ _ _ _ _ _ _ _ (at_based _ _ Hw))) as Hwf.
  pose proof (based_delete_row _ _ _ _ _ _ _ _ _ b k w (at_based _ _ Hw)) as Hb.
  destruct (delete_row_cases b k w Hwf) as [(Hfs & _ & _) Hc].
  destruct (delete_row b k w) as [[[p n]|e] w1]; cbn [fst snd] in *.
  - destruct Hc as (r & Hr & -> & -> & Hd). split.
    + apply (at_stage_rows g w); [done..| |].
      * intros bk row'. rewrite Hd. simpl. intros [_ Hrow]%lookup_delete_Some. eauto.
      * intros ->. rewrite Hd. simpl. rewrite lookup_delete_ne by done. exact (at_rows _ _ Hw).
    + intros p [= <- _]. destruct (sole_row g w b k r Hw Hr) as [Hcan _]. split; [done|]. intros Hp.
      apply Hne. by destruct (proj1 (at_sole _ _ Hw _ _ Hr) Hp).
  - split; [|done]. apply (at_stage_rows g w); [done..| |]; rewrite Hc; [by apply rows_from_same|].
    intros ->. exact (at_rows _ _ Hw).
Qed.

Lemma drop_row_at_stage b g w : b ≠ b0 → at_stage g w → at_stage g (drop_row b w).2.
Proof using Type.
  intros Hne Hw. pose proof (lo_wf _ _ (ba_laid _ _ _ _ _ _ _ _ _ _ (at_based _ _ Hw))) as Hwf.
  pose proof (based_drop_row _ _ _ _ _ _ _ _ _ b w (at_based _ _ Hw)) as Hb.
  destruct (drop_row_cases b w) as [(Hfs & _ & _) Hd].
  apply (at_stage_rows g w); [done..| |].
  - destruct Hd as [->|(now & n & E)]; [by apply rows_from_same|by eapply delete_bucket_row_from].
  - intros ->. destruct (at_rows _ _ Hw) as (r & Hr & Hok).
    destruct Hd as [->|(now & n & E)]; [by exists r|]. exists r. split; [|done].
    unfold delete_bucket_row in E. destruct (db_buckets (w_db w) !! b); injection E as _ <-; [|done].
    simpl. apply map_lookup_filter_Some. split; [done|]. simpl.
    pose proof (wf_keyed _ Hwf _ _ Hr) as Hk. injection Hk as Hk _. congruence.
Qed.

Lemma save_at_stage f :
  ordinary (sf_bucket f) (sf_key f) → other b0 k0 (sf_bucket f) (sf_key f) →
  (deduplicates → sf_hash_blake3 f ≠ hash0) → canonical_path self (sf_file_path f) → sf_file_path f ≠ path0 →
  closed at_stage (upsert_file f).
Proof using Type.
  intros Ho Hne Hh Hcan Hp g w [] d Hw E.
  assert (based0 (set_db d w)) as Hb by (by eapply based_save; [..|apply Hw|]).
  destruct (upsert_file_rows _ _ _ _ E) as (row & -> & Hrp & Hrh & _).
  destruct Hw as [_ Hso Hr Hf]. split; [done| | |done].
  - intros bk r. simpl. intros [[<- <-]|[_ Hrow]]%lookup_insert_Some; [|by apply Hso].
    rewrite Hrp, Hrh. split; [done|]. intros Hd Heq. by destruct (Hh Hd).
  - destruct g; simpl in *; by rewrite lookup_insert_ne.
Qed.

(** A saved row has the path of its own key, or of one with the same hash. *)
Lemma saves_apart f c ct1 o1 :
  ordinary (sf_bucket f) (sf_key f) → other b0 k0 (sf_bucket f) (sf_key f) →
  offers publication_rules (sf_bucket f) (sf_key f) c ct1 o1 → sf_hash_blake3 f = (compute_hashes_parallel c).1 →
  saves self publication_rules f →
  (deduplicates → sf_hash_blake3 f ≠ hash0) ∧ canonical_path self (sf_file_path f) ∧ sf_file_path f ≠ path0.
Proof using Hname.
  intros Ho Hne Hc Hh Hs. rewrite Hh. split; [exact Hc|].
  destruct Hs as [->|(Hd & e & [Hcan He] & Hp & Hhe)].
  - destruct (unlink_own self b0 k0 cwd Hname _ _ Ho Hne). done.
  - rewrite Hp. split; [done|]. intros Heq. destruct (He Heq) as [_ Hx]. apply (Hc Hd). congruence.
Qed.

Lemma stage_read g w b k f d :
  (b, k) = (b0, k0) → row_of_upload f → at_stage g w → fs_read (w_fs w) (sf_file_path f) = Ok d →
  bytes_of_upload d.
Proof using Type.
  intros _ Hf Hw. rewrite (row_of_upload_path _ _ _ _ _ _ _ Hf). intros Hd. pose proof (at_files _ _ Hw) as Hfiles.
  assert (no_file (w_fs w) → False) as Hno.
  { intros Hno. apply fs_read_Ok in Hd as (l & Hl & Hn & _). apply resolve_place in Hl as ->.
    rewrite (based_place _ _ _ _ _ _ _ _ _ _ _ (at_based _ _ Hw)) in Hn. by apply Hno in Hn. }
  destruct g; simpl in Hfiles; [by destruct Hno|by destruct Hfiles as [? _]; destruct Hno|..];
    destruct Hfiles as (d' & Hd' & Hok); congruence.
Qed.

Lemma at_stage_cwd g w : at_stage g w → fs_cwd (w_fs w) = cwd.
Proof using Type. intros Hw. apply (ba_cwd _ _ _ _ _ _ _ _ _ _ (at_based _ _ Hw)). Qed.

Lemma stage_row g w b k row :
  at_stage g w → db_files (w_db w) !! (b, k) = Some row →
  file_key row = (b, k) ∧ known publication_rules row ∧ shown publication_rules b k row ∧ ordinary b k.
Proof using Type.
  intros Hw Hr. pose proof (ba_laid _ _ _ _ _ _ _ _ _ _ (at_based _ _ Hw)) as Hl.
  destruct (lo_rows _ _ Hl _ _ _ Hr) as (? & ? & ?).
  split_and!; [by apply (wf_keyed _ (lo_wf _ _ Hl))|by eapply sole_row| |done].
  intros [= -> ->]. pose proof (at_rows _ _ Hw) as Hrow. destruct g; simpl in Hrow; try congruence.
  destruct Hrow as (r & ? & ?). by assert (row = r) as -> by congruence.
Qed.

#[local] Instance stages_kept : Kept self publication_rules at_stage.
Proof using All.
  pose proof (row_of_upload_agrees self b0 k0 content ct opts) as Hag.
  split.
  - apply _.
  - intros g w b k row. by apply stage_row.
  - by intros b k [? _].
  - done.
  - by intros b k [[[? ?] ?] ?].
  - intros f c ct1 o1 [[Ho Hne] _] Hc [Hh _] Hs. destruct (saves_apart f c ct1 o1 Ho Hne Hc Hh Hs) as (? & ? & ?).
    by apply save_at_stage.
  - intros id. apply at_stage_sql; [apply access_tame|by apply access_keeps_row].
  - intros id st h. apply at_stage_sql; [apply status_tame|by apply status_keeps_row].
  - intros b _. apply at_stage_sql; [apply insert_bucket_tame|].
    apply same_keeps_row. intros ? ? []. apply insert_bucket_files.
  - intros kid d a s. apply at_stage_sql; [apply insert_key_tame|apply same_keeps_row, insert_key_files].
  - intros kid Hkid. apply at_stage_sql; [by apply revoke_tame|]. apply same_keeps_row. by intros now d [] d' [= <-].
  - intros b k g w [_ Hne]. by apply delete_row_at_stage.
  - intros b g w [_ Hne]. by apply drop_row_at_stage.
  - intros b f g w [_ Hne] [Hcan Hf] Hb _ _. split; [done|]. intros Hp. destruct (Hf Hp). congruence.
  - intros b _ g w s Hw H. eapply at_stage_fs; [by eapply gentle_make_dirs|done].
  - intros b k cs _ _ g w s Hw H. eapply at_stage_fs; [by eapply gentle_make_dirs|done].
  - intros b k g w l s [[Ho Hne] Ha] Hw (Hl & _ & _ & _ & ->)%fs_create_Ok.
    apply resolve_place in Hl as ->. rewrite (place_cwd _ (at_stage_cwd _ _ Hw)). split; [|done].
    apply at_stage_fs; [|done]. by apply gentle_insert; [apply (at_stage_cwd _ _ Hw)|].
  - intros l d g w Ha Hw. apply at_stage_fs; [|done]. by apply gentle_insert; [apply (at_stage_cwd _ _ Hw)|].
  - intros b k [[Ho Hne] Ha] g w s Hw H. apply at_stage_fs; [|done].
    by eapply gentle_rename; [apply (at_stage_cwd _ _ Hw)|..].
  - intros b k [[Ho Hne] _]. by apply (unlink_own self b0 k0 cwd).
  - intros p [Hc Hne] g w s Hw H. apply at_stage_fs; [|done].
    by eapply gentle_unlink; [apply (at_stage_cwd _ _ Hw)|..].
  - intros b g w [Hb Hne] Hw. apply at_stage_fs; [|done].
    by apply gentle_remove_dir; [apply (at_stage_cwd _ _ Hw)|..].
  - intros b k f v g w Ho Hs Hv Hw. by apply (set_metadata_between self b0 k0 content ct opts keys0 at_stage
      false cwd at_based at_stage_cache b k f).
  - intros b k c g w Ho Hs Hw. by apply (set_content_between self b0 k0 content ct opts keys0 at_stage
      false cwd at_based at_stage_cache b k c).
  - intros b k f c [[Ho Hne] _]. split; [exact Ho|]. by split; intros He; destruct (Hne He).
  - intros b k v f g w _ Hw. exact (cached_row_ok _ _ _ _ _ _ _ _ _ b k v f w (at_based _ _ Hw)).
  - intros b k f c g w _ Hs Hw Hr He. by eapply stage_read; [..|exact Hr]; [|apply Hs|].
  - by intros b k f g w Ho _ _ _.
  - intros b k f t Ho Hs He. split; [done|]. intros Heq. unfold expired in He.
    by rewrite (lives _ (Hs Heq)) in He.
Qed.

(** ** The calls of the upload *)

Lemma base_rows g g' w s :
  at_stage g w → (∀ d, rows_at g d → rows_at g' d) → fs_cwd s = fs_cwd (w_fs w) → files_at g' s →
  at_stage g' (set_fs s w).
Proof using Type. intros [Hb Hso Hr Hf] Hg Hc Hs. split; [by apply based_fs|done|by apply Hg|done]. Qed.

(** A file put at the place of the temporary file. *)
Lemma temp_written s d d' :
  fs_cwd s = cwd → no_file s → node_at s temp_place0 ≠ Some NDir →
  resolve s temp0 = Ok temp_place0 → wants_dir temp0 = false →
  d = d' → files_at (Written d) (set_nodes <[temp_place0 := NFile d']> s).
Proof using Hname.
  intros Hc Hno Hd Hr Hw ->.
  assert (temp_place0 ≠ []) as Hnil by (intros E; by rewrite E in Hd). split.
  - intros d. rewrite node_at_insert by done. rewrite decide_False; [by apply Hno|].
    by apply not_eq_sym, (temp_not_path self b0 k0 b0 k0 (mkFS cwd ∅)).
  - apply fs_read_Ok. exists temp_place0. split_and!; [|by rewrite node_at_insert, decide_True|done].
    eapply resolve_mono; [by apply dirs_kept_write_file|done].
Qed.

Lemma own_create w l s :
  at_stage Free w → fs_create (w_fs w) temp0 = Ok (l, s) → l = temp_place0 ∧ at_stage (Written []) (set_fs s w).
Proof using Hname.
  intros Hw (Hl & Hd & Hnil & Hwd & ->)%fs_create_Ok. pose proof (at_stage_cwd _ _ Hw) as Hc.
  pose proof (resolve_place _ _ _ Hl) as El. rewrite (place_cwd _ Hc) in El. subst l. split; [done|].
  eapply base_rows; [exact Hw|done|done|]. by apply temp_written; [|apply (at_files _ _ Hw)|..].
Qed.

Lemma own_write d d' w :
  at_stage (Written d) w → at_stage (Written d') (set_fs (fs_write_handle (w_fs w) temp_place0 d') w).
Proof using Hname.
  intros Hw. pose proof (at_stage_cwd _ _ Hw) as Hc. destruct (at_files _ _ Hw) as [Hno Hr].
  apply fs_read_Ok in Hr as (l & Hl & Hn & Hwd). pose proof (resolve_place _ _ _ Hl) as El.
  rewrite (place_cwd _ Hc) in El. subst l.
  eapply base_rows; [exact Hw|done|done|]. apply temp_written; try done. by rewrite Hn.
Qed.

Lemma own_rename d w s :
  at_stage (Written d) w → bytes_of_upload d → fs_rename (w_fs w) temp0 path0 = Ok s → at_stage Placed (set_fs s w).
Proof using Type.
  intros Hw Hd H. eapply base_rows; [exact Hw|done|by apply fs_rename_dirs_kept in H as [? _]|].
  exists d. split; [|done]. eapply fs_rename_read; [exact H|]. by destruct (at_files _ _ Hw).
Qed.

Lemma own_unlink w s : at_stage Placed w → fs_remove_file (w_fs w) path0 = Ok s → at_stage Free (set_fs s w).
Proof using Type.
  intros Hw H. pose proof (at_stage_cwd _ _ Hw) as Hc.
  eapply base_rows; [exact Hw|done|by apply fs_remove_file_dirs_kept in H as [? _]|].
  apply fs_remove_file_Ok in H as (l & d & Hl & Hn & ->). apply resolve_place in Hl as El.
  rewrite (place_cwd _ Hc) in El. subst l. fold (place0 self b0 k0 cwd) in *. intros d'.
  destruct (place0 self b0 k0 cwd) as [|a x]; [done|]. simpl. by rewrite lookup_delete_eq.
Qed.

Lemma own_save f w d :
  file_key f = (b0, k0) → row_of_upload f → sf_hash_blake3 f = hash0 → at_stage Placed w →
  upsert_file f (w_now w) (w_db w) = Ok (tt, d) → at_stage Stored (set_db d w).
Proof using Hname.
  intros Hk Hf Hh Hw E. pose proof (upsert_file_rows _ _ _ _ E) as (row & Hd & Hp & Hrh & _).
  injection Hk as Hkb Hkk. pose proof (row_of_upload_path _ _ _ _ _ _ _ Hf) as Hpath.
  assert (based0 (set_db d w)) as Hb.
  { eapply based_save; [..|apply Hw|exact E]; [by rewrite Hkb, Hkk|]. rewrite Hpath.
    destruct Hname. by do 2 eexists. }
  split; [done| | |exact (at_files _ _ Hw)].
  - rewrite Hd. intros bk r. simpl. unfold file_key. rewrite Hkb, Hkk.
    intros [[<- <-]|[_ Hrow]]%lookup_insert_Some; [|by apply (at_sole _ _ Hw)]. by rewrite Hrh.
  - apply upsert_file_inv in E as [-> _]. simpl. unfold file_key. rewrite Hkb, Hkk, lookup_insert_eq.
    eexists. split; [done|]. eapply (row_of_upload_agrees self); [apply saved_row_agrees|done].
Qed.

(** *** The calls one by one *)

Context (Hcomp : (compress_step self opts content).2 = true → co_enabled (sm_compression self) = true).

(** A result [Ok] is only reached at stage [g]. *)
Definition then_at {E A} (g : stage) (g' : stage) (r : result E A) : Prop := is_ok r = true → g' = g.

Lemma write_publishes d :
  bytes_of_upload d → follows_of at_stage (then_at Placed) Free (write_file_atomic_optimized path0 d).
Proof using Hname.
  intros Hd. unfold write_file_atomic_optimized, write_atomic_tasked. cbv zeta.
  fold temp0.
  eapply (follows_bind _ (then_at (Written d))); [|intros g [] ->%(λ H, H eq_refl)|by intros].
  - unfold write_file_optimized, write_file_tasked.
    eapply (follows_bind _ (λ g r, ∀ l, r = Ok l → l = temp_place0 ∧ g = Written [])); [| |by intros].
    + apply follows_fs_call; [apply _| |by intros]. intros w Hw.
      destruct (fs_create _ _) as [[l fs]|e] eqn:E; simpl; [|by exists Free; rewrite set_fs_id].
      destruct (own_create _ _ _ Hw E) as [-> Hw']. exists (Written []). split; [done|by intros l [= <-]].
    + intros g l Hl. destruct (Hl l eq_refl) as [-> ->].
      eapply (follows_bind _ (then_at (Written d))); [|intros g' [] ->%(λ H, H eq_refl)|by intros].
      * apply follows_fs_write; [apply _|]. intros w d' Hw. exists (Written d').
        split; [by eapply own_write|]. split; [by intros -> _|by intros ? ?].
      * eapply follows_mono; [|apply safe_follows, safe_fs_reading, _]. by intros g' r [-> _] _.
  - apply follows_fs_changing; [apply _| |by intros]. intros w fs Hw E. exists Placed.
    split; [by eapply own_rename|done].
Qed.

Lemma save_publishes f :
  file_key f = (b0, k0) → row_of_upload f → sf_hash_blake3 f = hash0 →
  follows_of at_stage (λ g r, g = if is_ok r then Stored else Placed) Placed (Database.save_file f).
Proof using Hname.
  intros Hk Hf Hh. unfold Database.save_file, save_file_tasked. apply follows_map_err, follows_db_call; [apply _| |done].
  intros w [] d Hw E. exists Stored. split; [by eapply own_save|done].
Qed.

Lemma store_new_publishes :
  follows_of at_stage (then_at Stored) Free (store_new self b0 k0 content ct opts (compute_hashes_parallel content)).
Proof using All.
  unfold store_new, store_new_tasked.
  pose proof (encrypt_between self b0 k0 content ct opts keys0 at_stage false cwd at_based at_stage_cache Hcomp) as Henc.
  pose proof (λ id, stored_row_of_upload self b0 k0 content ct opts id (compute_hashes_parallel content)) as Hrow.
  unfold compressed0 in *.
  destruct (compress_step self opts content) as [compressed is_c]. simpl in Henc, Hrow.
  eapply (follows_bind_safe _ _ _ _ _ _ Henc); [|done]. intros d Hd. specialize (Hd d eq_refl). cbv zeta.
  eapply (follows_bind_safe _ any); [|intros _ _|done].
  { destruct (parent_components _) as [cs|]; [|done]. apply safe_map_err_any, safe_fs_changing; [apply _|].
    intros g w s Hw H. eapply at_stage_fs; [by eapply gentle_make_dirs|done]. }
  eapply (follows_bind _ (then_at Placed)); [|intros g [] ->%(λ H, H eq_refl)|by intros].
  { apply follows_map_err. eapply follows_mono; [|by apply write_publishes]. by intros g []. }
  eapply (follows_bind_safe _ any); [exact (new_v4_kept self publication_rules at_stage)|intros id _|done].
  eapply (follows_bind_safe _ any); [by apply safe_now|intros t _|done].
  eapply follows_bind_attempt; [by apply save_publishes|].
  intros g [[]|e] ->; simpl.
  - eapply (follows_bind_safe _ any); [|intros _ _|done].
    { apply safe_attempt_any, set_file_metadata_kept; [apply _|]. intros g w v Hv Hw.
      by apply (kept_meta (Kept:=stages_kept) self b0 k0 _ v g w Hname (λ _, Hrow id (zlen content) d t)). }
    eapply (follows_bind_safe _ any); [|intros _ _|done].
    { apply safe_attempt_any, set_file_content_kept; [apply _|]. intros g w Hw.
      by apply (kept_content (Kept:=stages_kept) self b0 k0 d g w Hname (λ _, Hd)). }
    by apply follows_ret.
  - eapply follows_bind_attempt; [|intros g r _; by apply follows_throw].
    instantiate (1 := λ _ _, True). apply follows_fs_changing; [apply _| |done].
    intros w s Hw E. exists Free. split; [by eapply own_unlink|done].
Qed.

(** No row has the hash of the content before the upload's own. *)
Lemma no_duplicate :
  follows_of at_stage (λ g r, g = Free ∧ ∀ f, r = Ok f → f = None) Free
    (if st_enable_deduplication (cfg_storage (sm_config self)) then get_file_by_hash hash0 else mret None).
Proof using ExternalsLaws0.
  destruct (st_enable_deduplication _) eqn:Hd; [|by apply follows_ret; split; [|intros f [= <-]]].
  unfold get_file_by_hash, get_file_by_hash_tasked.
  apply follows_map_err, follows_db_call; [apply _| |by intros].
  intros w a d Hw [= <- <-]. exists Free. rewrite set_db_id. split_and!; [done..|].
  intros f [= <-]. destruct (scan _ (w_db w)) as [|r l] eqn:E; [done|]. exfalso.
  assert (r ∈ r :: l) as Hin by left. rewrite <- E in Hin.
  apply elem_of_scan in Hin as [Hh [bk Hr]]. apply bool_decide_eq_true in Hh.
  destruct (at_sole _ _ Hw _ _ Hr) as [_ H]. rewrite (H Hd Hh), (at_rows _ _ Hw) in Hr. done.
Qed.

Lemma upload_publishes : follows_of at_stage (then_at Stored) Free (job self (Upload b0 k0 content ct opts)).
Proof using All.
  unfold job, job_tasked. eapply (follows_bind _ (then_at Stored)); [|by intros g f ->%(λ H, H eq_refl)|by intros].
  unfold store_file, store_file_tasked. destruct Hname as [Hb Hk].
  eapply (follows_bind_safe _ any); [by apply (ensure_bucket_kept self publication_rules at_stage)|intros _ _|done].
  cbv zeta. eapply follows_bind; [apply no_duplicate| |by intros].
  intros g f [-> Hf]. rewrite (Hf f eq_refl). apply store_new_publishes.
Qed.

(** What is stored is served. *)
Lemma stored_serves w :
  at_stage Stored w →
  (get_file self b0 k0 (set_faults [] w)).1 = Ok (content, Some (default "application/octet-stream" ct)).
Proof using All.
  intros Hw. pose proof (row_of_upload_agrees self b0 k0 content ct opts) as Hag.
  refine (proj2 (safe_run (always (survives self b0 k0 row_of_upload bytes_of_upload (so_encryption_key_id opts)
    true cwd keys0)) _ _ tt (set_faults [] w) (get_file_survives self Hbase b0 k0 row_of_upload bytes_of_upload
    (so_encryption_key_id opts) true cwd keys0 Hname Hag (row_of_upload_path self b0 k0 content ct opts) lives
    (row0 self b0 k0 content ct opts)
    _ _ eq_refl eq_refl content _) _)).
  - by intros r (? & _).
  - by intros r (_ & _ & ? & _).
  - done.
  - destruct Hw as [[] _ Hr Hf]. by split.
Qed.
End publication.

(** ** The theorem *)

Section theorem.
Context `{X : Externals, !ExternalsLaws X} (self : StorageManager).

(** A job beside the upload of a key: it does not read, write or delete the key,
    drop its bucket or deactivate its encryption key, has another temporary file
    and, when duplicates are looked for, uploads another content. *)
Definition beside_upload (b k : string) (content : bytes) (opts : StoreOptions) (s : FS) (e : event) : Prop :=
  ordinary_job e ∧
  match e with
  | Upload b' k' c _ _ => (b', k') ≠ (b, k) ∧ temp_apart self s b k b' k' ∧
      (st_enable_deduplication (cfg_storage (sm_config self)) = true → blake3_hex c ≠ blake3_hex content)
  | Remove b' k' | Download b' k' => (b', k') ≠ (b, k)
  | DropBucket b' => b' ≠ b
  | DropKey kid => so_encryption_key_id opts ≠ Some kid
  | _ => True
  end.

Abbreviation upload_stage b k content ct opts w0 :=
  (at_stage self b k content ct opts (fs_cwd (w_fs w0)) (db_keys (w_db w0))).

Lemma beside_admitted b k content ct opts w0 e :
  beside_upload b k content opts (w_fs w0) e →
  admitted (publication_rules self b k content ct opts (fs_cwd (w_fs w0)) (db_keys (w_db w0))) e.
Proof.
  assert (∀ p, place_of (mkFS (fs_cwd (w_fs w0)) ∅) p = place_of (w_fs w0) p) as Hpl
    by (intros p; by apply place_of_cwd).
  intros [Ho Hs]. destruct e; simpl in *; unfold away, place0; rewrite ?Hpl; naive_solver.
Qed.

Lemma unclaimed_free b k content ct opts w :
  unclaimed self b k content opts w → upload_stage b k content ct opts w Free w.
Proof.
  intros [Hl Hr Hf Hm Hc Hk]. split.
  - split; [done|done|done|by rewrite Hm|by rewrite Hc|]. intros kid Hkid. split; [by apply Hk|done].
  - intros bk row Hrow. destruct (Hr _ _ Hrow) as (_ & Hp & Hh). split; [done|]. intros Hd Heq. by destruct (Hh Hd).
  - simpl. destruct (db_files (w_db w) !! (b, k)) as [row|] eqn:E; [|done]. by destruct (Hr _ _ E).
  - intros d. specialize (Hf d). by rewrite (place_of_cwd (mkFS (fs_cwd (w_fs w)) ∅) (w_fs w)) in Hf.
Qed.

Lemma stage_environment b k content ct opts w0 g v v' :
  surroundings v v' → upload_stage b k content ct opts w0 g v → upload_stage b k content ct opts w0 g v'.
Proof.
  intros [w c t en pos f Hc Ht] [[? ? ? Hm Hct ?] ? ? ?]. split; [|done..]. split; try done.
  - intros u Hu. by eapply Hm, lookup_weaken.
  - intros u Hu. by eapply Hct, lookup_weaken.
Qed.

Lemma upload_not_beside b k content ct opts s e :
  beside_upload b k content opts s e → e ≠ Upload b k content ct opts.
Proof. intros [_ H] ->. by destruct H as [? _]. Qed.

(** While the upload is on its way its key is at one of the stages. *)
Lemma upload_stages b k content ct opts w0 ps w ps' w' :
  rtc (turn self (beside_upload b k content opts (w_fs w0)) surroundings) ([], w0) (ps, w) →
  rtc (turn self (beside_upload b k content opts (w_fs w0)) surroundings)
    (ps ++ [started self (Upload b k content ct opts)], w) (ps', w') →
  unclaimed self b k content opts w0 →
  Forall (λ c, c ≠ "..") (components (sm_base_path self)) → ordinary b k → so_expires_at opts = None →
  ((compress_step self opts content).2 = true → co_enabled (sm_compression self) = true) →
  ∃ g, upload_stage b k content ct opts w0 g w' ∧
    ∀ r, mkThread (Upload b k content ct opts) (Return r) ∈ ps' → then_at Stored g r.
Proof.
  intros H1 H2 Hun Hbase Hn Hx Hcomp. set (own := Upload b k content ct opts).
  set (I := upload_stage b k content ct opts w0).
  assert (Kept self (publication_rules self b k content ct opts (fs_cwd (w_fs w0)) (db_keys (w_db w0))) I) as K
    by (by apply stages_kept).
  assert (∀ e, beside_upload b k content opts (w_fs w0) e → e ≠ own ∧ safe_of I any (job self e)) as Hjobs.
  { intros e He. split; [by eapply upload_not_beside|]. by eapply (job_kept self _ I), beside_admitted. }
  assert (∀ g v v', surroundings v v' → I g v → I g v') as Henv by (intros g v v'; apply stage_environment).
  destruct (pool_before self I own (λ _, any) _ _ Free w0 ps w Henv Hjobs H1) as [Hw Hps]; [by apply unclaimed_free|].
  destruct (pool_follows self I own (then_at Stored) (λ _, any) _ _ Free _ _ _ _ Henv Hjobs H2 Hw)
    as (g & Hg & Hr & _); [|by exists g].
  apply watched_own; [done|]. split; [done|]. by apply upload_publishes.
Qed.

(** C4: An upload is all or nothing, and it is durable.  While an upload of new
    content makes its calls one at a time among those of other jobs on other
    keys, and whatever calls fail or whether it is dropped on the way, at every
    moment its key either has no row or is complete: once calls succeed again a
    download returns exactly the uploaded bytes with their content type.  When
    the upload has succeeded the key is complete, and stays so. *)
Theorem upload_all_or_nothing b k content ct opts w0 ps w ps' w' :
  rtc (turn self (beside_upload b k content opts (w_fs w0)) surroundings) ([], w0) (ps, w) →
  rtc (turn self (beside_upload b k content opts (w_fs w0)) surroundings)
    (ps ++ [started self (Upload b k content ct opts)], w) (ps', w') →
  unclaimed self b k content opts w0 →
  Forall (λ c, c ≠ "..") (components (sm_base_path self)) → ordinary b k → so_expires_at opts = None →
  ((compress_step self opts content).2 = true → co_enabled (sm_compression self) = true) →
  let complete := (get_file self b k (set_faults [] w')).1
                  = Ok (content, Some (default "application/octet-stream" ct)) in
  (db_files (w_db w') !! (b, k) = None ∨ complete) ∧
  ∀ r, mkThread (Upload b k content ct opts) (Return (Ok r)) ∈ ps' → complete.
Proof.
  intros H1 H2 Hun Hbase Hn Hx Hcomp complete.
  destruct (upload_stages b k content ct opts w0 ps w ps' w') as (g & Hw & Hr); try done.
  assert (g = Stored → complete) as Hc by (intros ->; by eapply stored_serves).
  split.
  - pose proof (at_rows _ _ _ _ _ _ _ _ _ _ Hw) as Hrows. destruct g; try (by left). right. by apply Hc.
  - intros r Hin. apply Hc. by apply (Hr _ Hin).
Qed.
End theorem.

(** ** A concrete run *)

(** The two uploads alternate call by call, and both go to their end. *)
Definition alternating : list move :=
  concat (replicate 9 [Advance 1; Advance 0]) ++ [Finish 0; Finish 1].

Lemma upload_l_beside :
  beside_upload (X:=Toy.ToyExternals) sample_storage "b" "k" [Byte.x61; Byte.x62] default_options
    (w_fs failing_world) upload_l.
Proof.
  split; [split; vm_compute; reflexivity|]. split_and!; [discriminate| |intros _; vm_compute; discriminate].
  apply (bool_decide_eq_true_1 (_ ∧ _)). vm_compute. reflexivity.
Qed.

Lemma beside_turns ms p :
  Forall (λ m, match m with Arrive e => e = upload_l | _ => True end) ms →
  rtc (turn (X:=Toy.ToyExternals) sample_storage
         (beside_upload (X:=Toy.ToyExternals) sample_storage "b" "k" [Byte.x61; Byte.x62] default_options
            (w_fs failing_world)) surroundings)
    p (schedule (X:=Toy.ToyExternals) sample_storage ms p).
Proof.
  intros Hms. apply schedule_turns. eapply Forall_impl; [exact Hms|].
  intros [] H; [rewrite H; exact upload_l_beside|exact H..].
Qed.

Lemma upload_all_or_nothing_witness :
  option_map (is_ok ∘ snd) (finished 0 (in_flight alternating)) = Some false ∧
  option_map (is_ok ∘ snd) (finished 1 (in_flight alternating)) = Some true ∧
  (get_file (X:=Toy.ToyExternals) sample_storage "b" "k" (set_faults [] (in_flight alternating).2)).1
  = Ok ([Byte.x61; Byte.x62], Some "application/octet-stream").
Proof.
  split; [vm_compute; reflexivity|]. split; [vm_compute; reflexivity|].
  assert (option_map (λ er, (er.1, is_ok er.2)) (finished 1 (in_flight alternating)) = Some (upload_k, true)) as Hfin
    by (vm_compute; reflexivity).
  destruct (finished 1 (in_flight alternating)) as [[e [r|]]|] eqn:E; try discriminate Hfin.
  injection Hfin as ->. apply finished_elem in E.
  destruct (upload_all_or_nothing (X:=Toy.ToyExternals) sample_storage "b" "k" [Byte.x61; Byte.x62] None
    default_options failing_world arriving.1 arriving.2 (in_flight alternating).1 (in_flight alternating).2)
    as [_ H].
  - rewrite <- surjective_pairing. apply beside_turns. by repeat constructor.
  - rewrite <- surjective_pairing. apply beside_turns. by repeat constructor.
  - exact start_unclaimed.
  - exact sample_base_plain.
  - exact ordinary_b_k.
  - reflexivity.
  - intros H0. discriminate H0.
  - by apply (H r).
Defined.
