(* ===== verification/Readers.v ===== *)
(** * What readers see of an upload in flight

    While an upload of a key makes its calls, any number of downloads and
    deletions of the key, and jobs of every kind on other keys, make theirs; the
    bucket may be dropped, and any call may fail.  Whatever is there of the key
    at any moment is right: a row, if there is one, is that of the upload, and
    the bytes at its path, if there are any, decode to its content.  So a
    download returns exactly what was uploaded, or an error. *)

From S2P Require Import Prelude.
From S2P Require Import Errors.
From S2P Require Import Models.
From S2P Require Import FileSystem.
From S2P Require Import Config.
From S2P Require Import Externals.
From S2P Require Import World.
From S2P Require Import Compression.
From S2P Require Import Crypto.
From S2P Require Import Database.
From S2P Require Import Cache.
From S2P Require Import EncryptionKeys.
From S2P Require Import Performance.
From S2P Require Import Storage.
From S2P Require Import Paths.
From S2P Require Import StorageWf.
From S2P Require Import Deletion.
From S2P Require Import Upload.
From S2P Require Import Phases.
From S2P Require Import ObjectMap.
From S2P Require Import Tasks.
From S2P Require Import Jobs.
From S2P Require Import Guarantee.
From S2P Require Import Interleaving.
From S2P Require Import Confinement.
From S2P Require Import Durability.
From S2P Require Import Stages.
From S2P Require Import InFlight.

(** The temporary file is being written, or not. *)
Inductive phase := Idle | Writing (d : bytes).

Section readers.
Context `{X : Externals, !ExternalsLaws X} (self : StorageManager).
Context (b0 k0 : string) (content : bytes) (ct : option string) (opts : StoreOptions).
Context (cwd : place) (keys0 : gmap string EncryptionKey).
Context (Hname : ordinary b0 k0).

Abbreviation row_of_upload := (row_of_upload self b0 k0 content ct opts).
Abbreviation bytes_of_upload := (bytes_of_upload self b0 k0 content ct opts keys0).
Abbreviation path0 := (get_file_path self b0 k0).
Abbreviation temp0 := (temp_path self b0 k0).
Abbreviation hash0 := (compute_hashes_parallel content).1.
Abbreviation deduplicates := (st_enable_deduplication (cfg_storage (sm_config self)) = true).
Abbreviation based0 :=
  (based self b0 k0 row_of_upload bytes_of_upload (so_encryption_key_id opts) false cwd keys0).
Abbreviation place0 := (place0 self b0 k0 cwd).
Abbreviation temp_place0 := (place_of (mkFS cwd ∅) temp0).

(** The key's row is that of the upload, and no other row has its hash when
    duplicates are looked for. *)
Definition rows_right (d : Db) : Prop :=
  (∀ row, db_files d !! (b0, k0) = Some row → row_of_upload row) ∧
  ∀ bk row, deduplicates → db_files d !! bk = Some row → sf_hash_blake3 row = hash0 → bk = (b0, k0).

Definition files_right (g : phase) (fs : FS) : Prop :=
  (∀ d, node_at fs place0 = Some (NFile d) → bytes_of_upload d) ∧
  match g with
  | Idle => True
  | Writing d => ∀ d', node_at fs temp_place0 = Some (NFile d') → d' = d
  end.

Record right (g : phase) (w : World) : Prop := {
  ri_based :> based0 w;
  ri_rows : rows_right (w_db w);
  ri_files : files_right g (w_fs w)
}.

Definition reader_rules : Rules :=
  mkRules ordinary
    (λ b k, ordinary b k ∧ other b0 k0 b k ∧ place_of (mkFS cwd ∅) (temp_path self b k) ≠ temp_place0)
    (λ _ _ c _ _, deduplicates → (compute_hashes_parallel c).1 ≠ hash0)
    (λ b, ordinary_bucket b = true) (λ b, ordinary_bucket b = true)
    ordinary (λ kid, so_encryption_key_id opts ≠ Some kid) ordinary ordinary
    (λ f, canonical_path self (sf_file_path f))
    (λ b k f, (b, k) = (b0, k0) → row_of_upload f)
    (λ b k c, (b, k) = (b0, k0) → bytes_of_upload c)
    (canonical_path self) (λ l, l ≠ place0 ∧ l ≠ temp_place0).

(** ** Changes of the files that put nothing at the two places *)

Definition mild (s s' : FS) : Prop :=
  fs_cwd s' = fs_cwd s ∧
  ∀ x d, x = place0 ∨ x = temp_place0 → node_at s' x = Some (NFile d) → node_at s x = Some (NFile d).

Lemma mild_right g w s : mild (w_fs w) s → right g w → right g (set_fs s w).
Proof using Type.
  intros [Hc Hn] [Hb Hr [Hf Hg]]. split; [by apply based_fs|done|]. split; simpl.
  - intros d Hd. apply Hf, Hn; [by left|done].
  - destruct g as [|d]; [done|]. intros d' Hd. apply Hg, Hn; [by right|done].
Qed.

Lemma mild_insert s l n : l ≠ place0 → l ≠ temp_place0 → mild s (set_nodes <[l := n]> s).
Proof using Type.
  intros Hp Ht. split; [done|]. intros [|a x] d Hx; [done|]. simpl. rewrite lookup_insert_ne; [done|].
  intros ->. by destruct Hx.
Qed.

Lemma mild_make_dirs s start cs s' : fs_make_dirs s start cs = Ok s' → mild s s'.
Proof using Type.
  intros H. split; [by eapply fs_make_dirs_kept|]. intros [|a x] d _; [done|]. unfold fs_make_dirs in H.
  destruct (make_dirs _ _ _) as [ns|] eqn:E; [|done]. injection H as <-. simpl. by eapply make_dirs_files.
Qed.

Lemma mild_unlink s p s' : fs_remove_file s p = Ok s' → mild s s'.
Proof using Type.
  intros H. split; [by apply fs_remove_file_dirs_kept in H as [? _]|].
  apply fs_remove_file_Ok in H as (l & d & _ & _ & ->). intros [|a x] d' _; [done|]. simpl.
  by intros [_ ?]%lookup_delete_Some.
Qed.

Lemma mild_remove_dir s p : mild s (fs_remove_dir_all s p).2.
Proof using Type.
  split; [apply (fs_remove_dir_all_other s p [])|]. intros x d _. unfold fs_remove_dir_all.
  destruct (resolve s p) as [l|e]; [|done]. destruct (node_at s l) as [[]|]; [done| |done].
  destruct x as [|a x]; [by repeat case_match|].
  repeat case_match; simpl; rewrite ?lookup_delete_Some, ?map_lookup_filter_Some; naive_solver.
Qed.

Lemma mild_rename s b k s' :
  fs_cwd s = cwd → ordinary b k → other b0 k0 b k → place_of (mkFS cwd ∅) (temp_path self b k) ≠ temp_place0 →
  fs_rename s (temp_path self b k) (get_file_path self b k) = Ok s' → mild s s'.
Proof using Hname.
  intros Hc Ho Hne Ht H. split; [by apply fs_rename_dirs_kept in H as [? _]|]. intros x d Hx.
  rewrite (fs_rename_other _ _ _ _ x H); [done|..]; intros Hr%resolve_place;
    rewrite (place_of_cwd (mkFS cwd ∅) s) in Hr by done.
  - destruct Hx as [->| ->]; [|by apply Ht]. by apply (temp_not_path self b k b0 k0 (mkFS cwd ∅)).
  - destruct Hx as [->| ->]; [by apply (other_place self b0 k0 cwd Hname b k)|].
    by apply (temp_not_path self b0 k0 b k (mkFS cwd ∅)).
Qed.

(** ** The tables and the cache *)

Lemma right_rows g w w' :
  right g w → based0 w' → w_fs w' = w_fs w → rows_right (w_db w') → right g w'.
Proof using Type. intros [_ _ Hf] Hb Hfs Hr. split; [done|done|by rewrite Hfs]. Qed.

Lemma rows_right_sub d d' :
  (∀ bk r, db_files d' !! bk = Some r → db_files d !! bk = Some r) → rows_right d → rows_right d'.
Proof using Type. intros Hs [H1 H2]. split; [intros row Hr; by apply H1, Hs|intros bk row Hd Hr; by eapply H2, Hs]. Qed.

Lemma right_sql {A} (q : Stmt A) :
  tame (so_encryption_key_id opts) q → keeps_row b0 k0 row_of_upload q → closed right q.
Proof using Type.
  intros Ht Hk g w a d Hw E.
  assert (rows_from (w_db w) d) as Hfrom by (by eapply Ht).
  apply (right_rows g w); [done|by eapply based_sql; [..|exact E]; [|apply Hw]|done|].
  destruct (ri_rows _ _ Hw) as [H1 H2]. simpl. split.
  - intros row' Hr'. destruct (Hfrom _ _ Hr') as (row & Hr & _).
    destruct (Hk _ _ _ _ E) as (r & Hr2 & Hok); [exists row; by split; [|apply H1]|]. congruence.
  - intros bk row' Hd (row & Hr & _ & -> & _)%Hfrom. by eapply H2.
Qed.

Lemma right_cache g w c : right g w → based0 (set_cache c w) → right g (set_cache c w).
Proof using Type. by intros [_ ? ?] ?. Qed.

#[local] Instance right_robust : Robust right.
Proof using Type.
  destruct (based_robust self b0 k0 row_of_upload bytes_of_upload (so_encryption_key_id opts) false cwd keys0)
    as [H1 H2 H3]. split; intros g.
  - intros w [Hb ? ?]. split; [by apply (H1 tt)|done..].
  - intros w n [Hb ? ?]. split; [by apply (H2 tt)|done..].
  - intros w c Hc [Hb ? ?]. split; [by apply (H3 tt)|done..].
Qed.

Lemma delete_row_right b k g w :
  right g w → right g (delete_row b k w).2 ∧ ∀ p, (delete_row b k w).1 = Ok (p, 0) → canonical_path self p.
Proof using Type.
  intros Hw. pose proof (ba_laid _ _ _ _ _ _ _ _ _ _ (ri_based _ _ Hw)) as Hl. pose proof (lo_wf _ _ Hl) as Hwf.
  pose proof (based_delete_row _ _ _ _ _ _ _ _ _ b k w (ri_based _ _ Hw)) as Hb.
  destruct (delete_row_cases b k w Hwf) as [(Hfs & _ & _) Hc].
  destruct (delete_row b k w) as [[[p n]|e] w1]; cbn [fst snd] in *.
  - destruct Hc as (r & Hr & -> & -> & Hd). split.
    + apply (right_rows g w); [done..|]. apply (rows_right_sub (w_db w)); [|apply Hw].
      rewrite Hd. simpl. by intros bk r' [_ ?]%lookup_delete_Some.
    + intros p [= <- _]. by apply (lo_rows _ _ Hl) in Hr as (_ & _ & ?).
  - split; [|done]. apply (right_rows g w); [done..|]. rewrite Hc. apply Hw.
Qed.

Lemma drop_row_right b g w : right g w → right g (drop_row b w).2.
Proof using Type.
  intros Hw. pose proof (based_drop_row _ _ _ _ _ _ _ _ _ b w (ri_based _ _ Hw)) as Hb.
  destruct (drop_row_cases b w) as [(Hfs & _ & _) Hd].
  apply (right_rows g w); [done..|]. apply (rows_right_sub (w_db w)); [|apply Hw].
  destruct Hd as [->|(now & n & E)]; [done|]. unfold delete_bucket_row in E.
  destruct (db_buckets (w_db w) !! b); injection E as _ <-; [|done]. simpl.
  by intros bk r [? _]%map_lookup_filter_Some.
Qed.

Lemma save_right f :
  ordinary (sf_bucket f) (sf_key f) → canonical_path self (sf_file_path f) →
  (file_key f = (b0, k0) → row_of_upload f) →
  (deduplicates → sf_hash_blake3 f = hash0 → file_key f = (b0, k0)) →
  closed right (upsert_file f).
Proof using Type.
  intros Ho Hp Hf Hh g w [] d Hw E.
  assert (based0 (set_db d w)) as Hb by (by eapply based_save; [..|apply Hw|]).
  apply (right_rows g w); [done..|]. destruct (ri_rows _ _ Hw) as [H1 H2].
  pose proof (upsert_file_rows _ _ _ _ E) as (row & Hd & _ & Hrh & _).
  pose proof (upsert_file_inv _ _ _ _ E) as [Hd' _].
  assert (row = saved_row (db_files (w_db w)) f) as ->.
  { rewrite Hd in Hd'. apply (f_equal db_files) in Hd'. simpl in Hd'.
    apply (f_equal (lookup (file_key f))) in Hd'. rewrite !lookup_insert_eq in Hd'. by injection Hd'. }
  simpl. rewrite Hd. split; simpl.
  - intros r [[He <-]|[_ Hr]]%lookup_insert_Some; [|by apply H1].
    eapply (row_of_upload_agrees self); [apply saved_row_agrees|by apply Hf].
  - intros bk r Hdd [[<- <-]|[_ Hr]]%lookup_insert_Some; [|by eapply H2]. rewrite Hrh. by apply Hh.
Qed.

(** ** What the others do *)

Lemma right_cwd g w : right g w → fs_cwd (w_fs w) = cwd.
Proof using Type. intros Hw. apply (ba_cwd _ _ _ _ _ _ _ _ _ _ (ri_based _ _ Hw)). Qed.

Lemma read_right g w f d :
  row_of_upload f → right g w → fs_read (w_fs w) (sf_file_path f) = Ok d → bytes_of_upload d.
Proof using Type.
  intros Hf Hw Hd. rewrite (row_of_upload_path _ _ _ _ _ _ _ Hf) in Hd. destruct (ri_files _ _ Hw) as [H _].
  apply H. apply fs_read_Ok in Hd as (l & Hl & Hn & _). apply resolve_place in Hl as ->.
  by rewrite (place_of_cwd (mkFS cwd ∅)) in Hn by by eapply right_cwd.
Qed.

Lemma right_row g w b k row :
  right g w → db_files (w_db w) !! (b, k) = Some row →
  file_key row = (b, k) ∧ known reader_rules row ∧ shown reader_rules b k row ∧ ordinary b k.
Proof using Type.
  intros Hw Hr. pose proof (ba_laid _ _ _ _ _ _ _ _ _ _ (ri_based _ _ Hw)) as Hl.
  destruct (lo_rows _ _ Hl _ _ _ Hr) as (? & ? & ?).
  split_and!; [by apply (wf_keyed _ (lo_wf _ _ Hl))|done| |done].
  intros [= -> ->]. by apply (ri_rows _ _ Hw).
Qed.

#[local] Instance readers_kept : Kept self reader_rules right.
Proof using All.
  pose proof (row_of_upload_agrees self b0 k0 content ct opts) as Hag.
  split.
  - apply _.
  - intros g w b k row. by apply right_row.
  - done.
  - done.
  - by intros b k [[? ?] _].
  - intros f c ct1 o1 (Ho & Hne & _) Hc [Hh _] Hs. apply save_right; [done| |intros He; by destruct Hne|].
    + destruct Hs as [->|(_ & e & He & -> & _)]; [|done]. destruct Ho. by do 2 eexists.
    + intros Hd Heq. exfalso. apply (Hc Hd). congruence.
  - intros id. apply right_sql; [apply access_tame|by apply access_keeps_row].
  - intros id st h. apply right_sql; [apply status_tame|by apply status_keeps_row].
  - intros b _. apply right_sql; [apply insert_bucket_tame|].
    apply same_keeps_row. intros ? ? []. apply insert_bucket_files.
  - intros kid d a s. apply right_sql; [apply insert_key_tame|apply same_keeps_row, insert_key_files].
  - intros kid Hkid. apply right_sql; [by apply revoke_tame|]. apply same_keeps_row. by intros now d [] d' [= <-].
  - intros b k g w _. by apply delete_row_right.
  - intros b g w _. by apply drop_row_right.
  - by intros b f g w _ Hcan _ _ _.
  - intros b _ g w s Hw H. eapply mild_right; [by eapply mild_make_dirs|done].
  - intros b k cs _ _ g w s Hw H. eapply mild_right; [by eapply mild_make_dirs|done].
  - intros b k g w l s (Ho & Hne & Ht) Hw (Hl & _ & _ & _ & ->)%fs_create_Ok.
    apply resolve_place in Hl as ->. rewrite (place_of_cwd (mkFS cwd ∅)) by by eapply right_cwd.
    assert (place_of (mkFS cwd ∅) (temp_path self b k) ≠ place0) as Hp
      by (by apply (temp_not_path self b k b0 k0 (mkFS cwd ∅))).
    split; [|done]. apply mild_right; [|done]. by apply mild_insert.
  - intros l d g w [] Hw. apply mild_right; [|done]. by apply mild_insert.
  - intros b k (Ho & Hne & Ht) g w s Hw H. apply mild_right; [|done].
    by eapply mild_rename; [by eapply right_cwd|..].
  - intros b k ([Hb Hk] & _). by do 2 eexists.
  - intros p _ g w s Hw H. apply mild_right; [|done]. by eapply mild_unlink.
  - intros b g w _ Hw. apply mild_right; [|done]. apply mild_remove_dir.
  - intros b k f v g w Ho Hs Hv Hw. by apply (set_metadata_between self b0 k0 content ct opts keys0 right
      false cwd ri_based right_cache b k f).
  - intros b k c g w Ho Hs Hw. by apply (set_content_between self b0 k0 content ct opts keys0 right
      false cwd ri_based right_cache b k c).
  - intros b k f c (Ho & Hne & _). split; [exact Ho|]. by split; intros He; destruct (Hne He).
  - intros b k v f g w _ Hw. exact (cached_row_ok _ _ _ _ _ _ _ _ _ b k v f w (ri_based _ _ Hw)).
  - intros b k f c g w _ Hs Hw Hr He. by eapply read_right; [apply Hs| |exact Hr].
  - done.
  - done.
Qed.

(** ** The upload *)

Lemma right_idle g w s : mild (w_fs w) s → right g w → right Idle (set_fs s w).
Proof using Type. intros Hs Hw. destruct (mild_right _ _ _ Hs Hw) as [Hb Hr [Hf _]]. by split. Qed.

Lemma own_put g d w :
  right g w → right (Writing d) (set_fs (set_nodes <[temp_place0 := NFile d]> (w_fs w)) w).
Proof using Hname.
  intros [Hb Hr [Hf _]]. split; [by apply based_fs|done|].
  assert (temp_place0 ≠ place0) as Hne by (by apply (temp_not_path self b0 k0 b0 k0 (mkFS cwd ∅))).
  assert (temp_place0 ≠ []) as Hnil.
  { unfold temp_path. destruct Hname. by destruct (temp_place self b0 k0 (mkFS cwd ∅)) as [stem ->]. }
  split; simpl.
  - intros d'. rewrite node_at_insert by done. rewrite decide_False by done. apply Hf.
  - intros d'. rewrite node_at_insert, decide_True by done. by intros [= <-].
Qed.

Lemma own_place d w s :
  bytes_of_upload d → right (Writing d) w → fs_rename (w_fs w) temp0 path0 = Ok s → right Idle (set_fs s w).
Proof using Hname.
  intros Hd Hw H. pose proof (right_cwd _ _ Hw) as Hc. destruct Hw as [Hb Hr [Hf Hg]].
  split; [by apply based_fs; [|apply fs_rename_dirs_kept in H as [? _]]|done|]. split; [|done].
  apply fs_rename_Ok in H as (l & m & d' & Hl & Hm & Hnl & _ & Hm0 & _ & ->).
  apply resolve_place in Hl as ->, Hm as ->.
  rewrite (place_of_cwd (mkFS cwd ∅) (w_fs w)) in * by done.
  apply Hg in Hnl as ->. intros d'. unfold place0. simpl.
  destruct (place_of (mkFS cwd ∅) path0) as [|a x]; [done|]. simpl. rewrite lookup_insert_eq. by intros [= <-].
Qed.

Lemma write_right g d :
  bytes_of_upload d → follows_of right (λ _ _, True) g (write_file_atomic_optimized path0 d).
Proof using Hname.
  intros Hd. unfold write_file_atomic_optimized, write_atomic_tasked. cbv zeta. fold temp0.
  eapply (follows_bind _ (λ g r, is_ok r = true → g = Writing d)); [|intros g' [] ->%(λ H, H eq_refl)|done].
  - unfold write_file_optimized, write_file_tasked.
    eapply (follows_bind _ (λ _ r, ∀ l, r = Ok l → l = temp_place0)); [| |by intros].
    + apply follows_fs_call; [apply _| |by intros]. intros w Hw.
      destruct (fs_create _ _) as [[l fs]|e] eqn:E; simpl; [|by exists g; rewrite set_fs_id].
      apply fs_create_Ok in E as (Hl & _ & _ & _ & ->). apply resolve_place in Hl as ->.
      rewrite (place_of_cwd (mkFS cwd ∅)) by by eapply right_cwd.
      exists (Writing []). split; [by eapply own_put|by intros l [= <-]].
    + intros g' l Hl. rewrite (Hl l eq_refl).
      eapply (follows_bind _ (λ g r, is_ok r = true → g = Writing d)); [|intros g2 [] ->%(λ H, H eq_refl)|done].
      * apply follows_fs_write; [apply _|]. intros w d' Hw. exists (Writing d').
        split; [by eapply own_put|]. split; [by intros -> _|by intros ? ?].
      * eapply follows_mono; [|apply safe_follows, safe_fs_reading, _]. by intros g3 r [-> _] _.
  - apply follows_fs_changing; [apply _| |done]. intros w fs Hw E. exists Idle.
    split; [by eapply own_place|done].
Qed.

Lemma own_save_right id t n processed :
  closed right (upsert_file (stored_row self id b0 k0 ct opts (compute_hashes_parallel content) n
    (compressed0 self content opts) processed (compress_step self opts content).2 t)).
Proof using Hname.
  apply save_right; [done| |intros _; apply stored_row_of_upload|done]. destruct Hname. by do 2 eexists.
Qed.

Context (Hcomp : (compress_step self opts content).2 = true → co_enabled (sm_compression self) = true).

Lemma store_new_right g :
  follows_of right (λ _ _, True) g (store_new self b0 k0 content ct opts (compute_hashes_parallel content)).
Proof using All.
  unfold store_new, store_new_tasked.
  pose proof (encrypt_between self b0 k0 content ct opts keys0 right false cwd ri_based right_cache Hcomp) as Henc.
  pose proof (λ id, stored_row_of_upload self b0 k0 content ct opts id (compute_hashes_parallel content)) as Hrow.
  pose proof own_save_right as Hsave. unfold compressed0 in *.
  destruct (compress_step self opts content) as [compressed is_c]. simpl in Henc, Hrow, Hsave.
  eapply (follows_bind_safe _ _ _ _ _ _ Henc); [|done]. intros d Hd. specialize (Hd d eq_refl). cbv zeta.
  eapply (follows_bind_safe _ any); [|intros _ _|done].
  { destruct (parent_components _) as [cs|]; [|done]. apply safe_map_err_any, safe_fs_changing; [apply _|].
    intros g' w s Hw H. eapply mild_right; [by eapply mild_make_dirs|done]. }
  eapply (follows_bind _ (λ _ _, True)); [by apply follows_map_err, write_right|intros g' [] _|done].
  eapply (follows_bind_safe _ any); [exact (new_v4_kept self reader_rules right)|intros id _|done].
  eapply (follows_bind_safe _ any); [by apply safe_now|intros t _|done].
  eapply (follows_bind_safe _ any); [|intros saved _|done].
  { apply safe_attempt_any, safe_sql; [apply _|apply Hsave]. }
  destruct saved as [[]|e].
  - eapply (follows_bind_safe _ any); [|intros _ _|done].
    { apply safe_attempt_any, set_file_metadata_kept; [apply _|]. intros g2 w v Hv Hw.
      by apply (kept_meta (Kept:=readers_kept) self b0 k0 _ v g2 w Hname (λ _, Hrow id (zlen content) d t)). }
    eapply (follows_bind_safe _ any); [|by intros|done].
    apply safe_attempt_any, set_file_content_kept; [apply _|]. intros g2 w Hw.
    by apply (kept_content (Kept:=readers_kept) self b0 k0 d g2 w Hname (λ _, Hd)).
  - eapply (follows_bind_safe _ any); [|by intros|done].
    apply safe_attempt_any, safe_fs_changing; [apply _|]. intros g2 w s Hw H.
    eapply mild_right; [by eapply mild_unlink|done].
Qed.

(** A row with the hash of the content is the key's own. *)
Lemma duplicate_right :
  safe_of right (λ r, ∀ f, r = Ok (Some f) → sf_bucket f = b0 ∧ sf_key f = k0)
    (if st_enable_deduplication (cfg_storage (sm_config self)) then get_file_by_hash hash0 else mret None).
Proof using ExternalsLaws0.
  destruct (st_enable_deduplication _) eqn:Hd; [|by apply safe_ret].
  unfold get_file_by_hash, get_file_by_hash_tasked. apply safe_select_val; [apply _| |done].
  intros g w Hw f [= Hf]. destruct (scan _ (w_db w)) as [|r l] eqn:E; [done|]. injection Hf as ->.
  assert (f ∈ f :: l) as Hin by left. rewrite <- E in Hin.
  apply elem_of_scan in Hin as [Hh [bk Hr]]. apply bool_decide_eq_true in Hh.
  destruct (ri_rows _ _ Hw) as [_ H]. pose proof (H _ _ Hd Hr Hh) as ->.
  pose proof (wf_keyed _ (lo_wf _ _ (ba_laid _ _ _ _ _ _ _ _ _ _ (ri_based _ _ Hw))) _ _ Hr) as Hk.
  by injection Hk.
Qed.

Lemma upload_keeps_right g : follows_of right (λ _ _, True) g (job self (Upload b0 k0 content ct opts)).
Proof using All.
  unfold job, job_tasked. eapply (follows_bind _ (λ _ _, True)); [|by intros|done].
  unfold store_file, store_file_tasked. destruct Hname as [Hb Hk].
  eapply (follows_bind_safe _ any); [by apply (ensure_bucket_kept self reader_rules right)|intros _ _|done].
  cbv zeta. eapply follows_bind_safe; [apply duplicate_right| |done].
  intros [f|] Hf; [|apply store_new_right]. destruct (Hf f eq_refl) as [-> ->].
  by rewrite !bool_decide_eq_true_2.
Qed.

(** ** The downloads *)

Lemma read_content_right f :
  row_of_upload f → safe_of right (λ r, ∀ c, r = Ok c → bytes_of_upload c) (read_content self b0 k0 f).
Proof using Hname ExternalsLaws0.
  intros Hf. unfold read_content, read_content_tasked.
  eapply (safe_bind_attempt _ (λ r, ∀ c, r = Ok (Some c) → bytes_of_upload c)).
  { unfold get_file_content, get_file_content_tasked. apply backend_get_val; [apply _| |done|done].
    intros g w v Hw Hv c [= <-]. by apply (ba_content _ _ _ _ _ _ _ _ _ _ (ri_based _ _ Hw)). }
  intros [[c|]|e] Hc; [apply safe_ret; intros c' [= <-]; by apply Hc|..].
  all: eapply (safe_bind _); [exact (missing_kept self reader_rules right b0 k0 f Hname (λ _, Hf))| |done].
  all: intros [c|e'] Hc'.
  1, 3: assert (bytes_of_upload c) as Hok by exact (Hc' eq_refl);
    apply safe_bind_any; [|intros _; apply safe_ret; by intros c' [= <-]|done];
    apply safe_attempt_any, set_file_content_kept; [apply _|]; intros g w Hw;
    by apply (kept_content (Kept:=readers_kept) self b0 k0 c g w Hname (λ _, Hok)).
  all: destruct (is_missing_file _); [|by apply safe_throw].
  all: apply safe_bind_any; [|by intros ?; apply safe_throw|done].
  all: by apply safe_attempt_any, (delete_file_kept self reader_rules right).
Qed.

Lemma decode_right f c :
  row_of_upload f → bytes_of_upload c →
  safe_of right (λ r, ∀ a, r = Ok a → a = content) (decode_content self f c).
Proof using Type.
  intros ((Hc & He & Hal & Hkid) & _) Hb. unfold bytes_of_upload in Hb.
  eapply (safe_weaken _ (λ r, ∀ a, r = Ok a → decode_result self keys0 (row0 self b0 k0 content ct opts) c = Ok a));
    [|intros r Hr a Ha; specialize (Hr a Ha); congruence].
  clear Hb. unfold decode_content, decode_content_tasked, decode_result.
  eapply (safe_bind _ (λ r, ∀ d, r = Ok d → decrypt_result self keys0 (row0 self b0 k0 content ct opts) c = Ok d));
    [| |done].
  - unfold decrypt_content, decrypt_content_tasked, decrypt_result, row_algorithm. rewrite He, Hal, Hkid.
    destruct (flag _); [|by apply safe_ret]. destruct (from_str _) as [a|e]; [|by apply safe_throw].
    apply safe_bind_lift. pose proof (get_key_between self b0 k0 content ct opts keys0 right false cwd ri_based) as Hk.
    simpl. destruct (so_encryption_key_id opts) as [kid|] eqn:Ek; [|by apply safe_lift].
    eapply (safe_bind _ _ _ _ _ (Hk kid eq_refl)); [|done]. intros key Hkey. rewrite (Hkey key eq_refl).
    by apply safe_lift.
  - intros d Hd. rewrite (Hd d eq_refl), Hc.
    destruct (flag (sf_is_compressed (row0 _ _ _ _ _ _))); [by apply safe_lift|by apply safe_ret].
Qed.

Lemma download_right :
  safe_of right (λ r, ∀ a, r = Ok a → a = (content, Some (sf_content_type (row0 self b0 k0 content ct opts))))
    (get_file self b0 k0).
Proof using All.
  unfold Storage.get_file, get_file_tasked.
  eapply (safe_bind _); [by apply (read_metadata_kept self reader_rules right)| |done].
  intros f Hf. specialize (Hf f eq_refl eq_refl).
  apply safe_bind_any; [by apply safe_now|intros t|done]. destruct (expired f t).
  - apply safe_bind_any; [|by intros ?; apply safe_throw|done].
    by apply safe_attempt_any, (delete_file_kept self reader_rules right).
  - eapply safe_bind; [by apply read_content_right|intros raw Hraw|done].
    eapply safe_bind; [by apply decode_right; [|apply Hraw]|intros c Hc|done].
    apply safe_bind_any; [apply (touch_kept self reader_rules right)|intros []|done].
    apply safe_ret. intros a [= <-]. rewrite (Hc c eq_refl). by destruct Hf as (_ & _ & -> & _).
Qed.
End readers.

(** ** The theorem *)

Section theorem.
Context `{X : Externals, !ExternalsLaws X} (self : StorageManager).

(** A job around the upload of a key: any on ordinary names but another upload
    of the key, one that uses its temporary file or, when duplicates are looked
    for, has its content, and the deactivation of its encryption key. *)
Definition around_upload (b k : string) (content : bytes) (opts : StoreOptions) (s : FS) (e : event) : Prop :=
  ordinary_job e ∧
  match e with
  | Upload b' k' c _ _ => (b', k') ≠ (b, k) ∧ place_of s (temp_path self b' k') ≠ place_of s (temp_path self b k) ∧
      (st_enable_deduplication (cfg_storage (sm_config self)) = true → blake3_hex c ≠ blake3_hex content)
  | DropKey kid => so_encryption_key_id opts ≠ Some kid
  | _ => True
  end.

Abbreviation right_after b k content ct opts w0 :=
  (right self b k content ct opts (fs_cwd (w_fs w0)) (db_keys (w_db w0))).

Lemma around_admitted b k content ct opts w0 e :
  around_upload b k content opts (w_fs w0) e →
  admitted (reader_rules self b k content ct opts (fs_cwd (w_fs w0)) (db_keys (w_db w0))) e.
Proof.
  assert (∀ p, place_of (mkFS (fs_cwd (w_fs w0)) ∅) p = place_of (w_fs w0) p) as Hpl
    by (intros p; by apply place_of_cwd).
  intros [Ho Hs]. destruct e; simpl in *; rewrite ?Hpl; naive_solver.
Qed.

Lemma unclaimed_right b k content ct opts w :
  unclaimed self b k content opts w → right_after b k content ct opts w Idle w.
Proof.
  intros [Hl Hr Hf Hm Hc Hk]. split.
  - split; [done|done|done|by rewrite Hm|by rewrite Hc|]. intros kid Hkid. split; [by apply Hk|done].
  - split; [intros row Hrow; by destruct (Hr _ _ Hrow)|]. intros bk row Hd Hrow Heq.
    destruct (Hr _ _ Hrow) as (_ & _ & Hh). by destruct (Hh Hd).
  - split; [|done]. intros d Hd. destruct (Hf d). unfold place0 in Hd.
    by rewrite (place_of_cwd (mkFS (fs_cwd (w_fs w)) ∅) (w_fs w)).
Qed.

Lemma right_environment b k content ct opts w0 g v v' :
  surroundings v v' → right_after b k content ct opts w0 g v → right_after b k content ct opts w0 g v'.
Proof.
  intros [w c t en pos f Hc Ht] [[? ? ? Hm Hct ?] ? ?]. split; [|done..]. split; try done.
  - intros u Hu. by eapply Hm, lookup_weaken.
  - intros u Hu. by eapply Hct, lookup_weaken.
Qed.

(** C5: A reader sees the upload or nothing.  While one upload of a key makes its
    calls, any jobs run around it: downloads and deletions of the key itself,
    the drop of its bucket, sweeps, preloading, jobs on other keys; calls
    are interleaved in any order, any of them may fail, and any job may be
    dropped.  Every download of the key that succeeds, at whatever moment it
    made its calls, returns exactly the uploaded bytes and their content type:
    never a part of them, and never the bytes of another key.  (Assumed: the key
    is ordinary and fresh: at first it has no row, no file and no cache entry,
    no row has its path and, where duplicates are looked for, none has the hash
    of the content; the encryption key the upload names exists; and the upload is
    compressed only when compression is on.) *)
Theorem download_right_or_error b k content ct opts w0 ps w ps' w' r :
  rtc (turn self (around_upload b k content opts (w_fs w0)) surroundings) ([], w0) (ps, w) →
  rtc (turn self (around_upload b k content opts (w_fs w0)) surroundings)
    (ps ++ [started self (Upload b k content ct opts)], w) (ps', w') →
  unclaimed self b k content opts w0 → ordinary b k →
  ((compress_step self opts content).2 = true → co_enabled (sm_compression self) = true) →
  mkThread (Download b k) (Return (Ok r)) ∈ ps' →
  r = Content content (Some (default "application/octet-stream" ct)).
Proof.
  intros H1 H2 Hun Hn Hcomp Hin. set (own := Upload b k content ct opts).
  set (I := right_after b k content ct opts w0).
  set (P := λ e (r : result StorageError reply), e = Download b k →
    ∀ a, r = Ok a → a = Content content (Some (default "application/octet-stream" ct))).
  assert (∀ g v v', surroundings v v' → I g v → I g v') as Henv by (intros g v v'; apply right_environment).
  assert (∀ e, around_upload b k content opts (w_fs w0) e → e ≠ own ∧ safe_of I (P e) (job self e)) as Hjobs.
  { intros e He. split; [intros ->; by destruct He as [_ [? _]]|]. destruct (is_download b k e) as [->|Hne].
    - eapply safe_weaken; [|intros r' Hr' _; exact Hr']. unfold job, job_tasked.
      eapply safe_bind; [by apply download_right|intros a Ha|done].
      apply safe_ret. intros a' [= <-]. by rewrite (Ha a eq_refl).
    - eapply safe_weaken; [|by intros r' _ ?].
      eapply (job_kept self _ I (K:=readers_kept self b k content ct opts _ _ Hn)). by apply around_admitted. }
  destruct (pool_before self I own P _ _ Idle w0 ps w Henv Hjobs H1) as [Hw Hps]; [by apply unclaimed_right|].
  destruct (pool_follows self I own (λ _ _, True) P _ _ Idle _ _ _ _ Henv Hjobs H2 Hw) as (g & _ & _ & Hr).
  - apply watched_own; [done|]. split; [done|]. by apply upload_keeps_right.
  - by eapply (Hr (Download b k)).
Qed.
End theorem.

(** ** A concrete run *)

(** The two uploads alternate; a download of the key begins before the upload has
    ended, and the key is deleted while it is on its way. *)
Definition reading_meanwhile : list move :=
  concat (replicate 12 [Advance 1; Advance 0]) ++
  [Arrive (Download "b" "k"); Advance 2; Advance 2; Advance 2; Arrive (Remove "b" "k"); Finish 3; Finish 1; Finish 2].

Definition sample_around : event → Prop :=
  around_upload (X:=Toy.ToyExternals) sample_storage "b" "k" [Byte.x61; Byte.x62] default_options (w_fs failing_world).

Lemma around_turns ms p :
  Forall (λ m, match m with Arrive e => e ∈ [upload_l; Download "b" "k"; Remove "b" "k"] | _ => True end) ms →
  rtc (turn (X:=Toy.ToyExternals) sample_storage sample_around surroundings)
    p (schedule (X:=Toy.ToyExternals) sample_storage ms p).
Proof.
  intros Hms. apply schedule_turns. eapply Forall_impl; [exact Hms|]. intros [e| | |]; [|done..].
  rewrite !elem_of_cons. intros [->|[->|[->|[]%not_elem_of_nil]]].
  - split; [split; vm_compute; reflexivity|]. split_and!; [discriminate|vm_compute; discriminate|].
    intros _. vm_compute. discriminate.
  - split; [split; vm_compute; reflexivity|done].
  - split; [split; vm_compute; reflexivity|done].
Qed.

Lemma meanwhile_finished :
  option_map (λ er, (er.1, is_ok er.2)) (finished 2 (in_flight reading_meanwhile)) = Some (Download "b" "k", true).
Proof. vm_compute. reflexivity. Qed.

Lemma download_right_or_error_witness :
  option_map (is_ok ∘ snd) (finished 3 (in_flight reading_meanwhile)) = Some true ∧
  finished 2 (in_flight reading_meanwhile)
  = Some (Download "b" "k", Ok (Content [Byte.x61; Byte.x62] (Some "application/octet-stream"))).
Proof.
  split; [vm_compute; reflexivity|]. pose proof meanwhile_finished as Hfin.
  destruct (finished 2 (in_flight reading_meanwhile)) as [[e [r|]]|] eqn:E; try discriminate Hfin.
  injection Hfin as ->. apply finished_elem in E. do 3 f_equal.
  apply (download_right_or_error (X:=Toy.ToyExternals) sample_storage "b" "k" [Byte.x61; Byte.x62] None
    default_options failing_world arriving.1 arriving.2 (in_flight reading_meanwhile).1
    (in_flight reading_meanwhile).2).
  - rewrite <- surjective_pairing. apply around_turns. repeat constructor.
  - rewrite <- surjective_pairing. apply around_turns. repeat constructor.
  - exact start_unclaimed.
  - exact ordinary_b_k.
  - intros H0. discriminate H0.
  - exact E.
Defined.
