(* ===== verification/Finality.v ===== *)
(** * A deletion in flight

    A deletion removes the row, unlinks the bytes and drops the cache entries of
    its key, among the calls of other jobs.  When it has succeeded the key is not
    found, and stays so whatever runs afterwards, as long as nobody uploads to it
    and no reader of the key was on its way (which Races shows to bring it
    back). *)

From S2P Require Import Prelude.
From S2P Require Import Errors.
From S2P Require Import Models.
From S2P Require Import FileSystem.
From S2P Require Import Config.
From S2P Require Import Externals.
From S2P Require Import World.
From S2P Require Import Compression.
From S2P Require Import Crypto.
From S2P Require Import Database.
From S2P Require Import Cache.
From S2P Require Import EncryptionKeys.
From S2P Require Import Performance.
From S2P Require Import Storage.
From S2P Require Import Paths.
From S2P Require Import StorageWf.
From S2P Require Import Deletion.
From S2P Require Import Upload.
From S2P Require Import Phases.
From S2P Require Import ObjectMap.
From S2P Require Import Tasks.
From S2P Require Import Jobs.
From S2P Require Import Guarantee.
From S2P Require Import Interleaving.
From S2P Require Import Confinement.
From S2P Require Import Durability.
From S2P Require Import Stages.

(** The row is there, perhaps; it is gone; the cache does not have it either. *)
Inductive step_of_deletion := Listed | Unlisted | Gone.

Section finality.
Context `{X : Externals, !ExternalsLaws X} (self : StorageManager).
Context (b0 k0 : string) (Hname : ordinary b0 k0).

Record leaving (s : step_of_deletion) (w : World) : Prop := {
  le_calm : w_faults w = [];
  le_laid : laid_out self (w_db w);
  le_row : s ≠ Listed → db_files (w_db w) !! (b0, k0) = None;
  le_meta : s = Gone → w_cache w !! metadata_key b0 k0 = None
}.

(** Other jobs neither upload to the key nor read it. *)
Definition leaving_rules : Rules :=
  let other_key b k := ordinary b k ∧ other b0 k0 b k in
  mkRules ordinary other_key (λ _ _ _ _ _, True) (λ b, ordinary_bucket b = true) (λ b, ordinary_bucket b = true)
    other_key (λ _, True) other_key ordinary (λ f, canonical_path self (sf_file_path f))
    (λ _ _ _, True) (λ _ _ _, True) (canonical_path self) (λ _, True).

#[local] Instance leaving_robust : Robust leaving.
Proof using Type.
  split; intros s.
  - intros w [Hf ? ? ?]. split; try done. simpl. by rewrite Hf.
  - by intros w n [? ? ? ?].
  - intros w c Hc [? ? ? Hm]. split; try done. simpl. intros Hs.
    destruct (c !! metadata_key b0 k0) as [v|] eqn:E; [|done].
    by rewrite (lookup_weaken _ _ _ _ E Hc) in Hm; specialize (Hm Hs).
Qed.

Lemma leaving_fs s w fs : leaving s w → leaving s (set_fs fs w).
Proof using Type. by intros [? ? ? ?]. Qed.

Lemma leaving_db s w w' :
  leaving s w → w_faults w' = [] → w_cache w' = w_cache w → laid_out self (w_db w') →
  (s ≠ Listed → db_files (w_db w) !! (b0, k0) = None → db_files (w_db w') !! (b0, k0) = None) → leaving s w'.
Proof using Type.
  intros [_ _ Hr Hm] Hf Hc Hl Hd. split; [done|done| |by rewrite Hc]. intros Hs. apply Hd; [done|by apply Hr].
Qed.

Lemma leaving_sql {A} (q : Stmt A) :
  stmt_keeps q → (∀ now d a d', q now d = Ok (a, d') → rows_from d d') → closed leaving q.
Proof using Type.
  intros Hq Hf s w a d Hw E. pose proof (le_laid _ _ Hw) as Hl.
  apply (leaving_db s w); [done|by apply Hw|done| |].
  - eapply laid_out_from; [exact Hl|by eapply Hq, E; apply Hl|by eapply Hf].
  - intros _ Hr. simpl. destruct (db_files d !! (b0, k0)) as [row|] eqn:Er; [|done].
    apply (Hf _ _ _ _ E) in Er as (r & Er & _). congruence.
Qed.

Lemma delete_row_leaving b k s w :
  leaving s w → leaving s (delete_row b k w).2 ∧ ∀ p, (delete_row b k w).1 = Ok (p, 0) → canonical_path self p.
Proof using Type.
  intros Hw. pose proof (le_laid _ _ Hw) as Hl.
  destruct (delete_row_confined self (w_fs w) b k w) as [[Hl' _] Hp]; [by split|]. split; [|exact Hp].
  destruct (delete_row_cases b k w (lo_wf _ _ Hl)) as [(_ & Hca & _) Hc].
  apply (leaving_db s w); [done|by apply delete_row_calm, Hw|done|done|]. intros _ Hr.
  destruct (delete_row b k w) as [[[p n]|e] w1]; simpl in *; [|by rewrite Hc].
  destruct Hc as (r & _ & _ & _ & ->). simpl. by apply lookup_delete_None; right.
Qed.

Lemma drop_row_leaving b s w : leaving s w → leaving s (drop_row b w).2.
Proof using Type.
  intros Hw. pose proof (le_laid _ _ Hw) as Hl.
  destruct (drop_row_confined self (w_fs w) b w) as [Hl' _]; [by split|].
  destruct (drop_row_cases b w) as [(_ & Hca & _) Hd].
  apply (leaving_db s w); [done|by apply drop_row_calm, Hw|done|done|]. intros _ Hr.
  destruct Hd as [->|(now & n & E)]; [done|].
  destruct (db_files (w_db (drop_row b w).2) !! (b0, k0)) as [row|] eqn:Er; [|done].
  apply (delete_bucket_row_from _ _ _ _ _ E) in Er as (r & Er & _). congruence.
Qed.

Lemma save_leaving f :
  ordinary (sf_bucket f) (sf_key f) → other b0 k0 (sf_bucket f) (sf_key f) →
  canonical_path self (sf_file_path f) → closed leaving (upsert_file f).
Proof using Type.
  intros Ho Hne Hp s w [] d Hw E. pose proof (le_laid _ _ Hw) as Hl.
  apply (leaving_db s w); [done|by apply Hw|done|by eapply laid_out_upsert|]. intros _ Hr.
  destruct (upsert_file_rows _ _ _ _ E) as (row & -> & _). simpl. by rewrite lookup_insert_ne.
Qed.

#[local] Instance leaving_kept : Kept self leaving_rules leaving.
Proof using All.
  split; try (by intros; apply leaving_fs); try (by intros; intros s w fs Hw _; apply leaving_fs).
  - apply _.
  - intros s w b k row Hw Hr. pose proof (le_laid _ _ Hw) as Hl. destruct (lo_rows _ _ Hl _ _ _ Hr) as (? & ? & ?).
    by split_and!; [apply (wf_keyed _ (lo_wf _ _ Hl))|..].
  - done.
  - by intros b k [? _].
  - by intros b k [[? ?] _].
  - intros f c ct o [Ho Hne] _ _ Hs. apply save_leaving; [done..|].
    destruct Hs as [->|(_ & e & He & -> & _)]; [|done]. destruct Ho. by do 2 eexists.
  - intros id. apply leaving_sql; [apply touch_row_keeps|]. intros now d []. apply touch_row_from.
  - intros id st h. apply leaving_sql; [apply set_status_wf|]. intros now d []. apply set_status_from.
  - intros b _. apply leaving_sql; [apply insert_bucket_keeps|].
    intros now d [] d' E. by eapply rows_from_same, insert_bucket_files.
  - intros kid d a s. apply leaving_sql; [apply insert_key_keeps|].
    intros now d0 k d' E. by eapply rows_from_same, insert_key_files.
  - intros kid _. apply leaving_sql; [apply deactivate_keeps|]. intros now d [] d' [= <-]. by apply rows_from_same.
  - intros b k s w _. apply delete_row_leaving.
  - intros b s w _. apply drop_row_leaving.
  - done.
  - intros b k s w l fs _ Hw _. split; [by apply leaving_fs|done].
  - intros b k [[? ?] _]. by do 2 eexists.
  - intros b k f v s w [[Hb _] Hne] _ _ [? ? ? Hm]. split; try done. simpl. intros Hs.
    rewrite lookup_insert_ne; [by apply Hm|]. intros Heq. destruct Hname as [Hb0 _].
    apply (cache_key_inj b k b0 k0 Hb Hb0) in Heq as [-> ->]. by apply Hne.
  - intros b k c s w _ _ [? ? ? Hm]. split; try done. simpl. intros Hs.
    rewrite lookup_insert_ne; [by apply Hm|]. apply not_eq_sym, metadata_content_key.
  - by intros b k f c Ho.
  - done.
  - done.
  - by intros b k f s w [? _].
  - done.
Qed.

(** ** The deletion *)

Lemma invalidate_leaves s :
  s ≠ Listed → follows_of leaving (λ s' _, s' = Gone) s (invalidate_file (sm_cache self) b0 k0).
Proof using Type.
  intros Hs. unfold invalidate_file, invalidate_file_tasked, backend_del, backend_del_tasked.
  set (keys := [metadata_key b0 k0; content_key b0 k0]).
  assert (∀ w, leaving s w → leaving Gone (set_cache (remove_keys keys (w_cache w)) w)) as Hgone.
  { intros w [? ? Hr _]. split; [done|done|intros _; by apply Hr|]. intros _. simpl. by rewrite lookup_delete_eq. }
  destruct (cache_backend (sm_cache self)).
  - apply (follows_call _ _ _ (MemoryUpdate _)). intros w Hw. exists Gone. split; [by apply Hgone|done].
  - assert (∀ A (f : gmap string bytes → A * gmap string bytes) w, leaving s w →
      redis_call f w = (Ok (f (w_cache w)).1, set_cache (f (w_cache w)).2 w)) as Hok
      by (intros A f w Hw; by apply redis_call_ok, Hw).
    eapply (follows_bind _ (λ s' r, s' = s ∧ is_ok r = true)).
    + apply follows_map_err, (follows_call _ _ _ (RedisCall _)). intros w Hw. exists s. simpl perform.
      rewrite Hok by done. simpl. rewrite set_cache_id. by split_and!.
    + intros s' [] [-> _]. apply follows_map_err, (follows_call _ _ _ (RedisCall _)). intros w Hw. exists Gone.
      simpl perform. rewrite Hok by done. split; [by apply Hgone|done].
    + by intros s' e [_ [=]].
Qed.

Lemma unlink_leaves p n s :
  s ≠ Listed → follows_of leaving (λ s' _, s' = Gone) s (unlink_and_invalidate self b0 k0 p n).
Proof using Type.
  intros Hs. unfold unlink_and_invalidate, unlink_tasked.
  eapply (follows_bind _ (λ s' r, s' = s ∧ is_ok r = true)); [|intros s' [] [-> _]|by intros s' e [_ [=]]].
  - destruct (decide (n = 0)); [|by apply follows_ret].
    eapply follows_bind_attempt; [|intros s' r Hr; apply follows_ret; split; [exact Hr|done]].
    eapply follows_mono; [|apply safe_follows, safe_fs_changing]; [by intros s' r [-> _]|apply _|].
    intros s' w fs Hw _. by apply leaving_fs.
  - eapply follows_bind_attempt; [by apply invalidate_leaves|]. intros s' r ->. by apply follows_ret.
Qed.

Lemma deletion_leaves s :
  follows_of leaving (λ s' r, is_ok r = true → s' = Gone) s (job self (Remove b0 k0)).
Proof using Type.
  unfold job, job_tasked.
  eapply (follows_bind _ (λ s' r, is_ok r = true → s' = Gone)); [|by intros s' [] Hs _; apply Hs|by intros].
  change (follows_of leaving (λ s' r, is_ok r = true → s' = Gone) s
    (pr ← delete_row b0 k0; let '(path, n) := pr in unlink_and_invalidate self b0 k0 path n)).
  eapply (follows_bind _ (λ s' r, is_ok r = true → s' ≠ Listed)); [| |by intros].
  - apply (follows_call _ _ _ (Transaction _)). intros w Hw. simpl perform. fold (delete_row b0 k0).
    destruct (delete_row_leaving b0 k0 s w Hw) as [Hw' _].
    destruct (delete_row_cases b0 k0 w (lo_wf _ _ (le_laid _ _ Hw))) as [_ Hc].
    destruct (delete_row b0 k0 w) as [[[p n]|e] w1]; simpl in *; [|by exists s].
    destruct Hc as (r & _ & _ & _ & Hd). destruct s; [exists Unlisted|by exists Unlisted|by exists Gone].
    split; [|done]. destruct Hw' as [? ? _ _]. split; [done|done| |done]. intros _. rewrite Hd. simpl.
    apply lookup_delete_eq.
  - intros s' [p n] Hs. eapply follows_mono; [|apply unlink_leaves; by apply Hs]. by intros s2 r ->.
Qed.
End finality.

(** ** The theorem *)

Section theorem.
Context `{X : Externals, !ExternalsLaws X} (self : StorageManager).

(** A job beside the deletion of a key: it neither uploads to the key nor looks
    it up for a download, and is not another deletion of it. *)
Definition beside_deletion (b k : string) (e : event) : Prop :=
  ordinary_job e ∧
  match e with
  | Upload b' k' _ _ _ | Download b' k' | DownloadRange b' k' _ _ | DownloadCompressedRange b' k' _ _
  | Remove b' k' => (b', k') ≠ (b, k)
  | _ => True
  end.

Lemma beside_deletion_admitted b k e : beside_deletion b k e → admitted (leaving_rules self b k) e.
Proof. intros [Ho Hs]. destruct e; simpl in *; naive_solver. Qed.

(** C6: A deletion is final.  A deletion makes its calls among those of any
    other jobs, none failing, on other keys (uploads that deduplicate against
    the key included), the sweep, the preloader and the drop of buckets; no
    download of the key is on its way.  When it has succeeded, the key has no
    row, a download does not find it, and this stays so whatever such jobs do
    afterwards. *)
Theorem deletion_is_final b k w0 ps w ps' w' r :
  rtc (turn self (beside_deletion b k) calm_surroundings) ([], w0) (ps, w) →
  rtc (turn self (beside_deletion b k) calm_surroundings) (ps ++ [started self (Remove b k)], w) (ps', w') →
  w_faults w0 = [] → laid_out self (w_db w0) → ordinary b k →
  mkThread (Remove b k) (Return (Ok r)) ∈ ps' →
  db_files (w_db w') !! (b, k) = None ∧ get_file self b k w' = (Err (NotFound b k), w').
Proof.
  intros H1 H2 Hf Hl Hn Hin. set (I := leaving self b k).
  assert (∀ s v v', calm_surroundings v v' → I s v → I s v') as Henv.
  { intros s v v' [[w1 c t en pos f Hc Ht] Hf'] [? ? Hr Hm]. split; try done. simpl. intros Hs.
    destruct (c !! metadata_key b k) as [u|] eqn:E; [|done].
    by rewrite (lookup_weaken _ _ _ _ E Hc) in Hm; specialize (Hm Hs). }
  assert (∀ e, beside_deletion b k e → e ≠ Remove b k ∧ safe_of I any (job self e)) as Hjobs.
  { intros e He. split; [intros ->; by destruct He|].
    eapply (job_kept self _ I (K:=leaving_kept self b k Hn)). by apply beside_deletion_admitted. }
  destruct (pool_before self I (Remove b k) (λ _, any) _ _ Listed w0 ps w Henv Hjobs H1) as [Hw Hps]; [by split|].
  destruct (pool_follows self I (Remove b k) (λ s' r, is_ok r = true → s' = Gone) (λ _, any) _ _ Listed
    _ _ _ _ Henv Hjobs H2 Hw) as (s & [Hf' _ Hr Hm] & Hq & _).
  - apply watched_own; [done|]. split; [done|]. apply deletion_leaves.
  - rewrite (Hq _ Hin eq_refl) in *. split; [by apply Hr|]. by apply get_file_absent; [|apply Hr|apply Hm].
Qed.
End theorem.

(** ** A concrete run *)

(** An upload of the same content under another key begins; the key is deleted
    call by call meanwhile, and then the sweep runs. *)
Definition before_deletion : pool :=
  schedule (X:=Toy.ToyExternals) sample_storage [Arrive alias; Advance 0] ([], uploaded.2).

Definition after_deletion : pool :=
  schedule (X:=Toy.ToyExternals) sample_storage
    (concat (replicate 4 [Advance 1; Advance 0]) ++ [Finish 0; Finish 1; Arrive Sweep; Finish 2])
    (before_deletion.1 ++ [started (X:=Toy.ToyExternals) sample_storage (Remove "b" "k")], before_deletion.2).

Lemma deletion_turns ms p :
  Forall (λ m, match m with Arrive e => e ∈ [alias; Sweep] | _ => True end) ms →
  rtc (turn (X:=Toy.ToyExternals) sample_storage (beside_deletion "b" "k") calm_surroundings)
    p (schedule (X:=Toy.ToyExternals) sample_storage ms p).
Proof.
  intros Hms. apply schedule_turns. eapply Forall_impl; [exact Hms|]. intros [e| | |]; [|done..].
  rewrite !elem_of_cons. intros [->|[->|[]%not_elem_of_nil]]; [|by split].
  split; [split; vm_compute; reflexivity|]. discriminate.
Qed.

Lemma deletion_is_final_witness :
  is_ok (get_file (X:=Toy.ToyExternals) sample_storage "b" "l" after_deletion.2).1 = true ∧
  (get_file (X:=Toy.ToyExternals) sample_storage "b" "k" after_deletion.2).1 = Err (NotFound "b" "k").
Proof.
  split; [vm_compute; reflexivity|]. destruct uploaded_serves as (file & raw & Hs & Hl & _).
  assert (option_map (λ er, (er.1, is_ok er.2)) (finished 1 after_deletion) = Some (Remove "b" "k", true)) as Hfin
    by (vm_compute; reflexivity).
  destruct (finished 1 after_deletion) as [[e [r|]]|] eqn:E; try discriminate Hfin.
  injection Hfin as ->. apply finished_elem in E.
  destruct (deletion_is_final (X:=Toy.ToyExternals) sample_storage "b" "k" uploaded.2 before_deletion.1
    before_deletion.2 after_deletion.1 after_deletion.2 r) as [_ H].
  - rewrite <- surjective_pairing. apply deletion_turns. repeat constructor.
  - rewrite <- surjective_pairing. apply deletion_turns. repeat constructor.
  - apply Hs.
  - exact Hl.
  - exact ordinary_b_k.
  - exact E.
  - by rewrite H.
Defined.
