(* ===== verification/Races.v ===== *)
(** * Jobs that hurt each other

    Interleavings of the pool ([Jobs]) in which jobs on the same key, or a job
    that is dropped half way, leave a row and bytes that do not belong together
    or a cache that says what no longer is; and the deletion of a bucket, which
    takes the bytes of other buckets with it.

    (A handle of an open file is modelled by its place.  In the schedules below
    no handle is written to after its file was renamed, where a real handle
    would follow the file.) *)

From S2P Require Import Prelude.
From S2P Require Import Errors.
From S2P Require Import Models.
From S2P Require Import FileSystem.
From S2P Require Import Config.
From S2P Require Import Externals.
From S2P Require Import World.
From S2P Require Import Compression.
From S2P Require Import Crypto.
From S2P Require Import Database.
From S2P Require Import Cache.
From S2P Require Import EncryptionKeys.
From S2P Require Import Performance.
From S2P Require Import Storage.
From S2P Require Import Paths.
From S2P Require Import StorageWf.
From S2P Require Import Deletion.
From S2P Require Import Upload.
From S2P Require Import ObjectMap.
From S2P Require Import Tasks.
From S2P Require Import Jobs.
From S2P Require Import Guarantee.
From S2P Require Import Interleaving.
From S2P Require Import Confinement.
From S2P Require Import Durability.

(** ** Uploads of the same key *)

Definition put (key : string) (c : bytes) : event := Upload "b" key c None default_options.

Definition long_text : bytes := [Byte.x61; Byte.x62].
Definition short_text : bytes := [Byte.x63].

Definition run_moves (ms : list move) : pool :=
  schedule (X:=Toy.ToyExternals) sample_storage ms ([], start_world).

Definition succeeded (i : nat) (p : pool) : bool :=
  match finished i p with Some (_, Ok _) => true | _ => false end.

(** What a key holds: the length and the hash its row says, and what a download
    returns when the cache is cold. *)
Definition held (key : string) (p : pool) : option (Z * string) * result StorageError (bytes * option string) :=
  ((λ r, (sf_file_size r, sf_hash_blake3 r)) <$> db_files (w_db p.2) !! ("b", key),
   (get_file (X:=Toy.ToyExternals) sample_storage "b" key (set_cache ∅ p.2)).1).

(** The first upload is overtaken between its rename and its row. *)
Definition overtaken : pool :=
  run_moves ([Arrive (put "k" long_text); Arrive (put "k" short_text)]
             ++ replicate 7 (Advance 0) ++ [Finish 1; Finish 0]).

(** A third upload, of the first content under another key. *)
Definition overtaken_copied : pool :=
  schedule (X:=Toy.ToyExternals) sample_storage [Arrive (put "l" long_text); Finish 2] overtaken.

Definition toy_hash : bytes → string := blake3_hex (Externals:=Toy.ToyExternals).

(** Two uploads of one key can leave the row of one with the bytes of the
    other.  Both report success; the row has the length and hash of the first
    content, a download returns the second, and from then on an upload of the
    first content under another key is stored as an alias of these bytes: it
    succeeds, and a download of it returns the other upload's content. *)
Theorem same_key_uploads_mix :
  succeeded 0 overtaken = true ∧ succeeded 1 overtaken = true ∧
  held "k" overtaken = (Some (2, toy_hash long_text), Ok (short_text, Some "application/octet-stream")) ∧
  succeeded 2 overtaken_copied = true ∧
  held "l" overtaken_copied = (Some (2, toy_hash long_text), Ok (short_text, Some "application/octet-stream")).
Proof. vm_compute. split_and!; reflexivity. Qed.

(** The second upload is dropped just after it opened the temporary file the
    first has finished writing. *)
Definition truncated : pool :=
  run_moves ([Arrive (put "k" long_text); Arrive (put "k" short_text)]
             ++ replicate 6 (Advance 0) ++ replicate 4 (Advance 1) ++ [Finish 0; Drop 1]).

(** An overwrite is dropped between its rename and its row. *)
Definition abandoned : pool :=
  run_moves ([Arrive (put "k" long_text); Finish 0; Arrive (put "k" short_text)]
             ++ replicate 7 (Advance 1) ++ [Drop 1]).

(** A client that goes away corrupts the key it was uploading to.  Dropped
    after it opened the temporary file, which it shares with another upload of
    the key, it empties the file that upload has written: the upload reports
    success and a download returns no bytes.  Dropped after the rename, it
    leaves its bytes under the row of the content before. *)
Theorem abandoned_upload_corrupts :
  succeeded 0 truncated = true ∧
  held "k" truncated = (Some (2, toy_hash long_text), Ok ([], Some "application/octet-stream")) ∧
  succeeded 0 abandoned = true ∧
  held "k" abandoned = (Some (2, toy_hash long_text), Ok (short_text, Some "application/octet-stream")).
Proof. vm_compute. split_and!; reflexivity. Qed.

(** ** A reader that is slow *)

Section slow.
Context `{X : Externals, !ExternalsLaws X} (self : StorageManager).
Context (Hmem : cache_backend (sm_cache self) = BackendMemory).

Lemma read_metadata_hit b k w ser row :
  w_faults w = [] → w_cache w !! metadata_key b k = Some ser → json_from_slice ser = Ok row →
  read_metadata self b k w = (Ok row, w).
Proof using Type.
  intros Hf Hser Hj. unfold read_metadata. rewrite run_bind, run_attempt.
  by rewrite (get_file_metadata_hit _ _ _ _ ser row).
Qed.

Lemma download_after_query b k row w ps :
  w_faults w = [] → w_cache w !! metadata_key b k = None → db_files (w_db w) !! (b, k) = Some row →
  ∃ t, schedule self [Advance 0; Advance 0]%nat (started self (Download b k) :: ps, w)
       = (mkThread (Download b k) t :: ps, w) ∧
    ∀ w2 ser, w_faults w2 = [] → json_to_vec row = Ok ser →
      run_task t w2 = job self (Download b k) (set_cache (<[metadata_key b k := ser]> (w_cache w2)) w2).
Proof using All.
  intros Hf Hm Hrow. pose proof read_metadata_hit as Hhit. destruct self as [cfg base [ccfg be] crypto comp]. simpl in Hmem. subst be.
  set (sm := mkStorageManager _ _ _ _ _) in *.
  unfold schedule. simpl foldl. unfold started. simpl task_of.
  unfold advance_thread at 2. simpl.
  unfold job_tasked, bind_tasked, get_file_tasked, read_metadata_tasked. simpl.
  unfold get_file_metadata_tasked. cbv zeta. simpl. unfold backend_get_tasked, memory_get. simpl.
  unfold memory_call, next_fault. rewrite Hf. simpl. rewrite Hm, set_cache_id. simpl.
  unfold advance_thread. simpl. unfold db_get_file_tasked. simpl.
  unfold db_call, next_fault. rewrite Hf. simpl. rewrite Hrow, set_db_id. simpl.
  eexists. split; [reflexivity|]. intros w2 ser Hf2 Hser.
  rewrite !run_continue, Hser. simpl. unfold memory_call, next_fault. rewrite Hf2. simpl.
  rewrite run_task_of, run_bind. unfold get_file. rewrite run_bind, (Hhit _ _ _ ser row); [|done|apply lookup_insert_eq|by apply json_roundtrip].
  rewrite run_bind, run_now. cbn beta iota. set (w3 := set_cache _ w2). change (w_now w3) with (w_now w2).
  match goal with |- (let '(r, w') := ?m in _) = _ => by destruct m as [[[c ct]|e] w4] end.
Qed.

Lemma read_content_keeps b k w row raw :
  w_faults w = [] → sees_bytes b k w row raw →
  ∃ c, read_content self b k row w = (Ok raw, set_cache c w) ∧ sees_bytes b k (set_cache c w) row raw ∧
    c !! metadata_key b k = w_cache w !! metadata_key b k.
Proof using All.
  assert (cache_writable (sm_cache self)) as Hcw by (unfold cache_writable; by rewrite Hmem).
  intros Hf [Hc|[Hc Hr]]; unfold read_content, get_file_content;
    rewrite run_bind, run_attempt, backend_get_ok, Hc by done; cbn [fst snd].
  - exists (w_cache w). rewrite set_cache_id. by split_and!; [|left|].
  - rewrite run_bind, run_attempt, fs_reading_ok, Hr by done. cbn [fst snd].
    rewrite run_bind, run_attempt, set_file_content_cached by done. cbn [fst snd].
    eexists. split; [done|]. unfold sees_bytes, cached_content. case_decide; simpl; [by auto|].
    rewrite lookup_insert_eq, lookup_insert_ne; auto.
Qed.

(** A download that finds the row in the cache leaves it there. *)
Lemma cached_download b k w ser row raw content :
  w_faults w = [] → w_cache w !! metadata_key b k = Some ser → json_from_slice ser = Ok row →
  expired row (w_now w) = false → sees_bytes b k w row raw →
  (∀ w2, w_faults w2 = [] → db_keys (w_db w2) = db_keys (w_db w) →
     decode_content self row raw w2 = (Ok content, w2)) →
  ∃ w', get_file self b k w = (Ok (content, Some (sf_content_type row)), w') ∧
    w_faults w' = [] ∧ w_cache w' !! metadata_key b k = Some ser ∧ sees_bytes b k w' row raw ∧
    w_now w' = w_now w ∧ db_keys (w_db w') = db_keys (w_db w) ∧
    (db_files (w_db w) !! (b, k) = None → db_files (w_db w') !! (b, k) = None).
Proof using All.
  intros Hf Hser Hj Hexp Hbytes Hdec. unfold get_file. rewrite run_bind, (read_metadata_hit _ _ _ ser row) by done.
  cbn beta iota. rewrite run_bind, run_now, Hexp, run_bind.
  destruct (read_content_keeps b k w row raw Hf Hbytes) as (c & -> & Hb & Hm). cbn beta iota.
  rewrite run_bind, Hdec by done. cbn beta iota. rewrite run_bind.
  destruct (touch_quiet_fs row (set_cache c w)) as (d & -> & Hk & u & _ & Hrows); [done|].
  cbn beta iota. rewrite run_ret. eexists. split; [done|]. split_and!; try done; simpl; [congruence|].
  intros Hn. rewrite Hrows, lookup_fmap. simpl. by rewrite Hn.
Qed.

(** What a download does that asked the cache and the table, found a row, and
    was then overtaken: whatever happened meanwhile, it puts the row into the
    cache and joins it to the bytes it then finds, and so does every later
    download until the entry is lost. *)
Lemma overtaken_download b k row raw content w e w2 :
  w_faults w = [] → w_cache w !! metadata_key b k = None → db_files (w_db w) !! (b, k) = Some row →
  (job self e w).2 = w2 → w_faults w2 = [] → w_now w2 = w_now w → expired row (w_now w) = false →
  sees_bytes b k w2 row raw →
  (∀ w3, w_faults w3 = [] → db_keys (w_db w3) = db_keys (w_db w2) →
     decode_content self row raw w3 = (Ok content, w3)) →
  let p := schedule self [Arrive (Download b k); Advance 0; Advance 0; Arrive e; Finish 1; Finish 0]%nat ([], w) in
  finished 1 p = Some (e, (job self e w).1) ∧
  finished 0 p = Some (Download b k, Ok (Content content (Some (sf_content_type row)))) ∧
  (db_files (w_db w2) !! (b, k) = None → db_files (w_db p.2) !! (b, k) = None) ∧
  w_faults p.2 = [] ∧
  ∃ w', get_file self b k p.2 = (Ok (content, Some (sf_content_type row)), w').
Proof using All.
  intros Hf Hm Hrow Hw2 Hf2 Hnow Hexp Hbytes Hdec p. destruct (json_total row) as [ser Hser].
  pose proof (json_roundtrip _ _ Hser) as Hj.
  destruct (download_after_query b k row w [] Hf Hm Hrow) as (t & Ht & Hrun). specialize (Hrun w2 ser Hf2 Hser).
  set (w3 := set_cache _ w2) in Hrun.
  destruct (cached_download b k w3 ser row raw content) as (w4 & Hg & Hf4 & Hm4 & Hb4 & Hn4 & Hk4 & Hr4); try done.
  { apply lookup_insert_eq. }
  { simpl. by rewrite Hnow. }
  { unfold sees_bytes in *. simpl. by rewrite lookup_insert_ne. }
  destruct (cached_download b k w4 ser row raw content) as (w5 & Hg5 & _); try done.
  { rewrite Hn4. simpl. by rewrite Hnow. }
  { intros v Hv Hkv. apply Hdec; [done|]. by rewrite Hkv, Hk4. }
  assert (p = ([mkThread (Download b k) (Return (Ok (Content content (Some (sf_content_type row)))));
                mkThread e (Return (job self e w).1)], w4)) as Hp.
  { unfold p, schedule in *. simpl foldl in *. rewrite Ht. unfold make_move, finish_thread. simpl.
    rewrite run_task_of. rewrite (surjective_pairing (job self e w)), Hw2. simpl. rewrite Hrun. simpl.
    by rewrite run_bind, Hg. }
  rewrite Hp. simpl. split_and!; try done. by eexists.
Qed.

(** C39: A slow download brings a deleted file back.  The key is not in the cache,
    and deduplication has left another key with the same bytes.  A download asks
    the cache and the table, and is overtaken by a deletion of the key before
    it puts the row it found into the cache.  The deletion reports success and
    the table has no row of the key any more; the download returns the content,
    and so does a download that starts afterwards, out of the cache entry.
    (Stated for the cache in memory and for one schedule of calls; no call
    fails, the file has not expired, its bytes decode, and the statistics of the
    bucket let the row go.) *)
Theorem slow_download_restores_deleted b k row raw content w :
  w_faults w = [] → db_wf (w_db w) → w_cache w !! metadata_key b k = None →
  db_files (w_db w) !! (b, k) = Some row → expired row (w_now w) = false → delete_allowed b k (w_db w) = true →
  other_references (sf_file_path row) b k (w_db w) ≠ 0 → fs_read (w_fs w) (sf_file_path row) = Ok raw →
  (∀ w2, w_faults w2 = [] → db_keys (w_db w2) = db_keys (w_db w) →
     decode_content self row raw w2 = (Ok content, w2)) →
  let p := schedule self [Arrive (Download b k); Advance 0; Advance 0; Arrive (Remove b k); Finish 1; Finish 0]%nat
             ([], w) in
  finished 1 p = Some (Remove b k, Ok Nothing) ∧ db_files (w_db p.2) !! (b, k) = None ∧
  finished 0 p = Some (Download b k, Ok (Content content (Some (sf_content_type row)))) ∧
  (get_file self b k p.2).1 = Ok (content, Some (sf_content_type row)).
Proof using All.
  intros Hf Hwf Hm Hrow Hexp Hdel Hother Hread Hdec p.
  assert (∃ w2, job self (Remove b k) w = (Ok Nothing, w2) ∧ w_faults w2 = [] ∧ w_now w2 = w_now w ∧
    db_keys (w_db w2) = db_keys (w_db w) ∧ w_fs w2 = w_fs w ∧ w_cache w2 !! content_key b k = None ∧
    db_files (w_db w2) !! (b, k) = None) as (w2 & Hjob & Hf2 & Hn2 & Hk2 & Hfs2 & Hc2 & Hr2).
  { unfold job. rewrite run_bind, delete_file_ok, Hrow, Hdel by done. cbn beta iota. rewrite run_ret.
    unfold unlinked. rewrite decide_False by done. eexists. split; [done|]. split_and!; try done; simpl.
    - rewrite !lookup_delete_None. auto.
    - apply lookup_delete_eq. }
  destruct (overtaken_download b k row raw content w (Remove b k) w2) as (H1 & H0 & Hn & _ & w' & Hg);
    try done; rewrite ?Hjob; try done.
  - right. by rewrite Hfs2.
  - intros w3 Hw3 Hk3. apply Hdec; [done|]. congruence.
  - fold p in H1, H0, Hn, Hg. rewrite Hjob in H1. split_and!; auto. by rewrite Hg.
Qed.
End slow.

(** Content of four bytes or more is compressed. *)
Definition packing_config : Config :=
  mkConfig (mkServerConfig 8080 "INFO") (mkDatabaseConfig "h" 5432 "d" "u" "p" 10 "url")
    (mkRedisConfig "redis" 6379 None 0 10) (mkCacheSettings Memory 256 3600)
    (mkStorageConfig "/data" 1000 "default" true) (mkCryptoConfig false "aes-gcm" None)
    (mkCompressionConfig true "zstd" 3 4) None None None.

Definition packing_storage : StorageManager :=
  mkStorageManager packing_config "/data" (mkCacheManager packing_config BackendMemory)
    (mkCryptoManager (cfg_crypto packing_config) None None) (cfg_compression packing_config).

Definition run_packing (ms : list move) (p : pool) : pool :=
  schedule (X:=Toy.ToyExternals) packing_storage ms p.

Definition served (key : string) (w : World) : result StorageError (bytes * option string) :=
  (get_file (X:=Toy.ToyExternals) packing_storage "b" key w).1.

Definition packed_text : bytes := replicate 50 Byte.x61.

(** The same short content is stored under two keys, and the cache is cold. *)
Definition one_copy : World :=
  (store_file (X:=Toy.ToyExternals) packing_storage "b" "k" short_text None default_options start_world).2.

Definition two_copies : World :=
  (store_file (X:=Toy.ToyExternals) packing_storage "b" "l" short_text None default_options one_copy).2.

Definition before_reading : World := set_cache ∅ two_copies.

(** A download has asked the cache and the database, but not yet put the row it
    found into the cache, when another job on the key runs from start to end. *)
Definition overtaken_by (e : event) : pool :=
  run_packing [Arrive (Download "b" "k"); Advance 0; Advance 0; Arrive e; Finish 1; Finish 0] ([], before_reading).

Definition overwritten : pool := overtaken_by (put "k" packed_text).

(** An overwrite between the query and the cache write: the download joins
    the old row to the new bytes.  It returns bytes that are neither the old nor
    the new content (the compressed form, as it is stored), and so does every
    later download until the entry is lost, although the overwrite succeeded and
    the table and the disk hold the new content. *)
Example overwritten_reader_mixes :
  succeeded 1 overwritten = true ∧
  ∃ c, finished 0 overwritten = Some (Download "b" "k", Ok (Content c (Some "application/octet-stream"))) ∧
    c ≠ short_text ∧ c ≠ packed_text ∧
    served "k" overwritten.2 = Ok (c, Some "application/octet-stream") ∧
    served "k" (set_cache ∅ overwritten.2) = Ok (packed_text, Some "application/octet-stream").
Proof.
  split; [vm_compute; reflexivity|]. exists [Byte.x02; Byte.x00; Byte.x61; Byte.x32].
  split; [vm_compute; reflexivity|]. split; [discriminate|]. split; [discriminate|].
  split; vm_compute; reflexivity.
Qed.

Lemma one_copy_wf : db_wf (w_db one_copy).
Proof.
  exact (store_file_wf (X:=Toy.ToyExternals) packing_storage "b" "k" short_text None default_options
           start_world empty_db_wf).
Qed.

Lemma two_copies_wf : db_wf (w_db two_copies).
Proof.
  exact (store_file_wf (X:=Toy.ToyExternals) packing_storage "b" "l" short_text None default_options
           one_copy one_copy_wf).
Qed.

Lemma before_reading_wf : db_wf (w_db before_reading).
Proof. pose proof two_copies_wf as H. unfold before_reading. by destruct two_copies. Qed.

Lemma slow_download_restores_deleted_witness :
  (get_file (X:=Toy.ToyExternals) packing_storage "b" "k" (overtaken_by (Remove "b" "k")).2).1
  = Ok (short_text, Some "application/octet-stream").
Proof.
  destruct (db_files (w_db before_reading) !! ("b", "k")) as [row|] eqn:Hrow; [|vm_compute in Hrow; discriminate Hrow].
  assert (bool_decide (sf_is_compressed row = Some false ∧ sf_is_encrypted row = Some false ∧
    sf_file_path row = "/data/b/k" ∧ sf_content_type row = "application/octet-stream" ∧
    expired row (w_now before_reading) = false) = true) as Hex
    by (vm_compute in Hrow; injection Hrow as <-; vm_compute; reflexivity).
  apply bool_decide_eq_true in Hex as (Hc & He & Hp & Ht & Hx).
  pose proof (slow_download_restores_deleted (X:=Toy.ToyExternals) packing_storage eq_refl "b" "k" row
    short_text short_text before_reading) as H. rewrite Hp, Ht in H. unfold overtaken_by. apply H; clear H.
  - vm_compute. reflexivity.
  - exact before_reading_wf.
  - vm_compute. reflexivity.
  - exact Hrow.
  - exact Hx.
  - vm_compute. reflexivity.
  - vm_compute. discriminate.
  - vm_compute. reflexivity.
  - intros w2 _ _. unfold decode_content, decrypt_content. rewrite Hc, He. reflexivity.
Defined.

(** ** Dropping a bucket *)

Section drop.
Context `{X : Externals} (self : StorageManager).

(** Where a path leads, every directory on it is there. *)
Lemma walk_prefix ns cur cs cs' l :
  Forall (λ c, c ≠ "..") cs → Forall (λ c, c ≠ "..") cs' → cs ≠ [] → cs' ≠ [] →
  walk ns cur (cs ++ cs') = Ok l →
  walk ns cur cs = Ok (rev cs ++ cur) ∧ ns !! (rev cs ++ cur) = Some NDir.
Proof using Type.
  intros Hcs Hcs' Hne Hne'. revert cur. induction Hcs as [|c cs Hc Hcs IH]; intros cur; [done|].
  simpl. rewrite !decide_False by done. rewrite <- app_assoc. simpl.
  destruct cs as [|c' cs]; simpl.
  - destruct cs' as [|d cs']; [done|]. by destruct (ns !! (c :: cur)) as [[]|].
  - destruct (ns !! (c :: cur)) as [[]|]; [done| |done]. intros Hw.
    destruct (IH ltac:(done) (c :: cur) Hw) as [H1 H2]. split; [exact H1|exact H2].
Qed.

Lemma bucket_dir_there s b k l :
  Forall (λ c, c ≠ "..") (components (sm_base_path self)) → ordinary b k →
  resolve s (get_file_path self b k) = Ok l →
  let p := path_join (sm_base_path self) b in
  resolve s p = Ok (place_of s p) ∧ node_at s (place_of s p) = Some NDir.
Proof using Type.
  intros Hbase [Hb Hk] Hl p. destruct (bucket_components self b s Hb) as [Hc Hst]. fold p in Hc, Hst.
  unfold resolve in *. rewrite file_path_components, start_place_file in Hl by done.
  change (b :: split "/" k) with ([b] ++ split "/" k) in Hl. rewrite app_assoc, <- Hc in Hl.
  assert (Forall (λ c, c ≠ "..") (components p)) as Hplain.
  { rewrite Hc. apply Forall_app. split; [done|]. apply ordinary_bucket_segments in Hb as (_ & Hs & _).
    by apply ordinary_segments in Hs as [_ Hs]. }
  apply walk_prefix in Hl as [H1 H2]; try done.
  - rewrite Hst, H1. unfold place_of. rewrite Hst, lexical_plain by done. split; [done|].
    rewrite <- H2. by destruct (rev (components p) ++ _) eqn:E;
      [rewrite Hc, rev_app_distr in E|].
  - apply ordinary_key_segments in Hk as [Hk _]. by apply ordinary_segments in Hk as [_ Hk].
  - rewrite Hc. by destruct (components (sm_base_path self)).
  - apply split_not_nil.
Qed.

(** Nothing below the directory can be read any more, whatever was there. *)
Lemma remove_dir_unreadable s b k d :
  Forall (λ c, c ≠ "..") (components (sm_base_path self)) → ordinary b k →
  fs_read (fs_remove_dir_all s (path_join (sm_base_path self) b)).2 (get_file_path self b k) ≠ Ok d.
Proof using Type.
  intros Hbase Ho. set (p := path_join (sm_base_path self) b). set (s' := (fs_remove_dir_all s p).2).
  intros (l & Hl & Hn & _)%fs_read_Ok.
  destruct (bucket_dir_there s' b k l Hbase Ho Hl) as [Hres Hdir]. fold p in Hres, Hdir.
  pose proof (resolve_place _ _ _ Hl) as ->. destruct Ho as [Hb Hk].
  assert (fs_cwd s' = fs_cwd s) as Hcwd by apply (fs_remove_dir_all_other _ _ []).
  assert (place_of s p = b :: base_place self s) as Hbp by (by apply bucket_place).
  rewrite (place_of_cwd s s') in Hn, Hdir by done. rewrite (file_place self b k) in Hn by done.
  assert (resolve s p = Ok (place_of s p) ∧ node_at s (place_of s p) = Some NDir) as [Hr0 Hd0].
  { unfold s', fs_remove_dir_all in Hres, Hdir. destruct (resolve s p) as [m|e] eqn:Em.
    - pose proof (resolve_place _ _ _ Em) as ->. split; [done|].
      by destruct (node_at s (place_of s p)) as [[]|] eqn:En; simpl in Hdir; rewrite ?En in Hdir.
    - simpl in Hres. congruence. }
  eapply (fs_remove_dir_all_below s p); [done|done| |exact Hn].
  apply bool_decide_eq_true. rewrite Hbp. split; [by apply suffix_app_r|].
  intros H. apply (f_equal length) in H. simpl in H. rewrite length_app, length_rev in H. simpl in H.
  pose proof (split_not_nil "/" k). destruct (split "/" k); [done|]. simpl in H. lia.
Qed.

(** The clean-up of the rows changes no table. *)
Definition same_files (w w' : World) : Prop := db_files (w_db w') = db_files (w_db w).

#[local] Instance same_files_preorder : PreOrder same_files.
Proof using Type. split; unfold same_files; [done|]. intros x y z H1 H2. congruence. Qed.
#[local] Instance same_files_oblivious : Oblivious same_files.
Proof using Type. by split. Qed.

Lemma calm_invalidate_file cm b k : respects calm (invalidate_file cm b k).
Proof using Type.
  assert (∀ f, respects calm (memory_update (E:=StorageError) (A:=unit) f)) as Hm.
  { intros f w Hf. unfold memory_update. by destruct (f _). }
  unfold invalidate_file, backend_del, get_async_connection. solve_respects.
Qed.

Lemma clean_files_frame b fs :
  respects (λ w w', same_files w w' ∧ calm w w') (for_each fs tt (λ f _, clean_file self b f)).
Proof using Type.
  set (R := λ w w', same_files w w' ∧ calm w w').
  assert (PreOrder R) as HR.
  { split; [by intros w; split|]. intros x y z [H1 H2] [H3 H4]. split; by etrans. }
  apply (respects_for_each R). intros f [].
  assert (∀ A (q : Db → A), respects R (run_sql (select q))) as Hs.
  { intros A q w. split; [by apply (respects_select same_files)|by apply calm_run_sql]. }
  assert (∀ g, respects R (fs_call (fs_changing g))) as Hf.
  { intros g w. split; [|by apply calm_fs_call]. pose proof (fs_only_call (fs_changing g) w) as (Hd & _).
    unfold same_files. by rewrite Hd. }
  assert (respects R (invalidate_file (sm_cache self) b (sf_key f))) as Hi.
  { intros w. split; [|by apply calm_invalidate_file].
    destruct (cache_only_invalidate_file (sm_cache self) b (sf_key f) w) as (_ & Hd & _).
    unfold same_files. by rewrite Hd. }
  unfold clean_file. solve_respects.
Qed.

(** C38: Dropping a bucket takes the bytes of files in other buckets.  When
    deduplication has made a file of another bucket an alias of one in the
    dropped bucket, its row stays and its bytes are gone: the deletion counts
    the references of each file before it unlinks it, and then removes the whole
    directory of the bucket. *)
Theorem drop_bucket_destroys_aliases b k b2 k2 row w w' :
  w_faults w = [] → Forall (λ c, c ≠ "..") (components (sm_base_path self)) → ordinary b k →
  db_files (w_db w) !! (b2, k2) = Some row → sf_bucket row ≠ b → sf_file_path row = get_file_path self b k →
  delete_bucket self b w = (Ok tt, w') →
  db_files (w_db w') !! (b2, k2) = Some row ∧ ∀ d, fs_read (w_fs w') (sf_file_path row) ≠ Ok d.
Proof.
  intros Hf Hbase Ho Hrow Hne Hp. unfold delete_bucket. rewrite run_bind, select_ok by done.
  change (transaction _) with (drop_row b). rewrite run_bind.
  destruct (drop_row_cases b w) as [(Hfs & _ & _) Hd]. pose proof (drop_row_calm b w Hf) as Hf1.
  destruct (drop_row b w) as [[u|e] w1]; [|done]. cbn [fst snd] in *.
  assert (db_files (w_db w1) !! (b2, k2) = Some row) as Hrow1.
  { destruct Hd as [->|(now & n & Hd)]; [done|]. unfold delete_bucket_row in Hd.
    destruct (db_buckets (w_db w) !! b); [|by injection Hd as _ <-]. injection Hd as _ <-. simpl.
    by apply map_lookup_filter_Some. }
  rewrite run_bind. set (fs := scan _ (w_db w)).
  destruct (clean_files_frame b fs w1) as [Hsame Hcalm]. specialize (Hcalm Hf1).
  destruct (for_each _ _ _ w1) as [[[]|e] w2]; [|done]. cbn [fst snd] in *.
  rewrite run_bind, run_attempt, fs_call_ok by done. intros [= <-]. simpl.
  rewrite Hsame. split; [done|]. intros d. rewrite Hp. by apply remove_dir_unreadable.
Qed.
End drop.

(** Bucket "c" holds an alias of the file of bucket "b", which is dropped. *)
Definition copied_world : World :=
  (store_file (X:=Toy.ToyExternals) sample_storage "c" "l" [Byte.x61; Byte.x62] None default_options first_world).2.

Definition dropped : result StorageError unit * World :=
  delete_bucket (X:=Toy.ToyExternals) sample_storage "b" copied_world.

Lemma drop_bucket_destroys_aliases_witness :
  fs_read (w_fs copied_world) "/data/b/k" = Ok [Byte.x61; Byte.x62] ∧
  db_files (w_db dropped.2) !! ("c", "l") ≠ None ∧ ∀ d, fs_read (w_fs dropped.2) "/data/b/k" ≠ Ok d.
Proof.
  split; [vm_compute; reflexivity|].
  assert (is_ok dropped.1 = true) as Hok by (vm_compute; reflexivity).
  assert (match db_files (w_db copied_world) !! ("c", "l") with
          | Some r => bool_decide (sf_bucket r = "c" ∧ sf_file_path r = "/data/b/k")
          | None => false end = true) as Hex by (vm_compute; reflexivity).
  destruct (db_files (w_db copied_world) !! ("c", "l")) as [row|] eqn:Hrow; [|discriminate Hex].
  apply bool_decide_eq_true in Hex as [Hb Hp].
  unfold dropped in *. destruct (delete_bucket _ _ _) as [[[]|e] w'] eqn:E; [|discriminate Hok].
  destruct (drop_bucket_destroys_aliases (X:=Toy.ToyExternals) sample_storage "b" "k" "c" "l" row copied_world w')
    as [H1 H2].
  - vm_compute. reflexivity.
  - exact sample_base_plain.
  - exact ordinary_b_k.
  - exact Hrow.
  - rewrite Hb. discriminate.
  - exact Hp.
  - exact E.
  - cbn [snd]. rewrite H1, <- Hp. split; [discriminate|exact H2].
Defined.
