(* ===== verification/Ranges.v ===== *)
(** * Range reads

    The two fast paths for a span of a file give the same bytes as slicing a
    full download; and what happens to a file whose bytes cannot be opened. *)

From S2P Require Import Prelude.
From S2P Require Import Errors.
From S2P Require Import Models.
From S2P Require Import FileSystem.
From S2P Require Import Config.
From S2P Require Import Externals.
From S2P Require Import World.
From S2P Require Import Compression.
From S2P Require Import Crypto.
From S2P Require Import Database.
From S2P Require Import Cache.
From S2P Require Import EncryptionKeys.
From S2P Require Import Performance.
From S2P Require Import Storage.
From S2P Require Import StorageWf.
From S2P Require Import Deletion.
From S2P Require Import Upload.

(** [content[start..=end]]. *)
Definition slice (start end_ : Z) (d : bytes) : bytes :=
  take (Z.to_nat (end_ - start + 1)) (drop (Z.to_nat start) d).

Lemma length_slice start end_ d :
  0 ≤ start ≤ end_ → end_ < zlen d → zlen (slice start end_ d) = end_ - start + 1.
Proof. intros H1 H2. unfold slice, zlen in *. rewrite length_take, length_drop. lia. Qed.

Section ranges.
Context `{X : Externals, !ExternalsLaws X} (self : StorageManager).
Context (Hcw : cache_writable (sm_cache self)).

Lemma clamp_end_min end_ total : 0 < total → clamp_end end_ total = Z.min end_ (total - 1).
Proof using Type. intros H. unfold clamp_end, saturating_sub. lia. Qed.

Lemma range_guard start end_ total :
  0 ≤ start ≤ end_ → start < total →
  bool_decide (total = 0) || (clamp_end end_ total <? start) = false.
Proof using Type.
  intros H1 H2. rewrite clamp_end_min by lia. apply orb_false_iff.
  rewrite bool_decide_eq_false, Z.ltb_ge. lia.
Qed.

Lemma plain_range_read b k w row raw start end_ :
  w_faults w = [] → sees_row b k w row →
  flag (sf_is_compressed row) = false → flag (sf_is_encrypted row) = false →
  fs_read (w_fs w) (sf_file_path row) = Ok raw → sf_file_size row = zlen raw →
  zlen raw ≤ i64_max → 0 ≤ start ≤ end_ → start < zlen raw →
  ∃ w', get_file_range_if_plain self b k start end_ w
        = (Ok (Some (slice start (Z.min end_ (zlen raw - 1)) raw, sf_content_type row, zlen raw)), w').
Proof using All.
  intros Hf Hrow Hcomp Henc Hread Hsize Hmax Hrange Hstart.
  unfold get_file_range_if_plain. rewrite run_bind.
  destruct (read_metadata_ok self Hcw b k w row Hf Hrow) as (c & -> & _). cbn beta iota.
  rewrite Hcomp, Henc. cbn [orb]. cbv zeta.
  rewrite Hsize, as_u64_id by (pose proof (zlen_nonneg raw); lia).
  rewrite range_guard, clamp_end_min by lia.
  rewrite run_bind, run_map_err, fs_reading_ok by done. simpl w_fs.
  unfold read_span. rewrite Hread. simpl. rewrite decide_True by lia. simpl.
  destruct (touch_quiet_fs row (set_cache c w)) as (d & Ht & _); [done|].
  rewrite run_bind, Ht. eexists. done.
Qed.

Lemma compressed_range_read b k w row cfg content out start end_ :
  w_faults w = [] → sees_row b k w row →
  flag (sf_is_compressed row) = true → flag (sf_is_encrypted row) = false →
  compresses cfg content → compress cfg content = Ok out →
  fs_read (w_fs w) (sf_file_path row) = Ok out → sf_original_size row = zlen content →
  zlen content ≤ i64_max → 0 ≤ start ≤ end_ → start < zlen content →
  ∃ w', get_compressed_file_range self b k start end_ w
        = (Ok (Some (slice start (Z.min end_ (zlen content - 1)) content, sf_content_type row, zlen content)), w').
Proof using All.
  intros Hf Hrow Hcomp Henc Hc Ho Hread Hsize Hmax Hrange Hstart.
  unfold get_compressed_file_range. rewrite run_bind.
  destruct (read_metadata_ok self Hcw b k w row Hf Hrow) as (c & -> & _). cbn beta iota.
  rewrite Hcomp, Henc. cbn [orb negb]. cbv zeta.
  rewrite Hsize, as_u64_id by (pose proof (zlen_nonneg content); lia).
  rewrite range_guard, clamp_end_min by lia.
  rewrite run_bind, run_map_err, fs_reading_ok by done. simpl w_fs. rewrite Hread. simpl.
  rewrite run_bind, run_lift.
  rewrite (decompress_range_compress cfg content) by (try done; unfold zlen in *; lia). simpl.
  destruct (touch_quiet_fs row (set_cache c w)) as (d & Ht & _); [done|].
  rewrite run_bind, Ht. eexists. done.
Qed.

(** The seek fast path.  For a plain file whose stored bytes are on disk
    and a span inside it, the direct read returns exactly the span of the
    stored bytes, with the content type and the total size, which is the
    span of what a full download returns. *)
Theorem plain_range_is_slice b k w row raw start end_ :
  w_faults w = [] → sees_row b k w row →
  sf_is_compressed row = Some false → sf_is_encrypted row = Some false →
  fs_read (w_fs w) (sf_file_path row) = Ok raw → sf_file_size row = zlen raw →
  zlen raw ≤ i64_max → 0 ≤ start ≤ end_ → end_ < zlen raw →
  ∃ w', get_file_range_if_plain self b k start end_ w
        = (Ok (Some (slice start end_ raw, sf_content_type row, zlen raw)), w') ∧
  (expired row (w_now w) = false → w_cache w !! content_key b k = None →
   ∃ w'', get_file self b k w = (Ok (raw, Some (sf_content_type row)), w'')).
Proof.
  intros Hf Hrow Hcomp Henc Hread Hsize Hmax Hrange Hend.
  destruct (plain_range_read b k w row raw start end_) as (w' & Hrun); rewrite ?Hcomp, ?Henc; try done; [lia|].
  exists w'. rewrite Hrun, Z.min_l by lia. split; [done|]. intros Hexp Hct.
  destruct (get_file_ok self Hcw b k w row raw raw) as (w'' & Hget & _); try done.
  - by right.
  - intros w2 _ _. unfold decode_content, decrypt_content. by rewrite Hcomp, Henc.
  - eauto.
Qed.

(** C24: The streaming fast path.  For a compressed file that is not
    encrypted, the span returned is the span of the original content, up to
    the last byte, although only the part of the stream up to the end of
    the span was decoded.  A full download returns that content when compression
    is enabled, so the span is then the slice of it; when it is disabled the full
    download returns the compressed bytes as they are stored, while the range
    read, which does not look at the setting, still decodes them.  (Assumed: the
    cache holds nothing else for the key; no call fails; a Redis cache has a time
    to live that is not zero.) *)
Theorem compressed_range_is_slice b k w row cfg content out start end_ :
  w_faults w = [] → sees_row b k w row →
  sf_is_compressed row = Some true → sf_is_encrypted row = Some false →
  compresses cfg content → compress cfg content = Ok out →
  fs_read (w_fs w) (sf_file_path row) = Ok out → sf_original_size row = zlen content →
  zlen content ≤ i64_max → 0 ≤ start ≤ end_ → end_ < zlen content →
  expired row (w_now w) = false →
  (∀ raw, w_cache w !! content_key b k = Some raw → raw = out) →
  (∃ w', get_compressed_file_range self b k start end_ w
         = (Ok (Some (slice start end_ content, sf_content_type row, zlen content)), w')) ∧
  ∃ w'', get_file self b k w
         = (Ok (if co_enabled (sm_compression self) then content else out, Some (sf_content_type row)), w'').
Proof.
  intros Hf Hrow Hcomp Henc Hc Ho Hread Hsize Hmax Hrange Hend Hexp Hct. split.
  2:{ destruct (get_file_ok self Hcw b k w row out
        (if co_enabled (sm_compression self) then content else out)) as (w'' & -> & _); try done.
      - unfold sees_bytes. destruct (w_cache w !! content_key b k) as [raw|]; [|by right].
        left. by rewrite (Hct raw).
      - intros w2 _ _. unfold decode_content, decrypt_content. rewrite Hcomp, Henc.
        change (flag (Some true)) with true. change (flag (Some false)) with false. cbn iota.
        rewrite run_bind, run_ret, run_lift. destruct (co_enabled (sm_compression self)) eqn:He.
        + by rewrite (decompress_compress cfg _ content).
        + unfold decompress. by rewrite He.
      - by eexists. }
  destruct (compressed_range_read b k w row cfg content out start end_) as (w' & Hrun);
    rewrite ?Hcomp, ?Henc; try done; [lia|].
  exists w'. rewrite Hrun, Z.min_l by lia. done.
Qed.

(** A look into the cache finds no entry that is not there, whatever fails. *)

Lemma backend_get_none key w :
  w_cache w !! key = None → ∀ v, (backend_get (sm_cache self) key w).1 ≠ Ok (Some v).
Proof using Type.
  intros Hn v. unfold backend_get, memory_get, memory_call, get_async_connection, redis_call, map_err.
  destruct (cache_backend _).
  - unfold next_fault. destruct (w_faults w) as [|[g|] fs]; simpl; congruence.
  - unfold mbind, prog_bind, next_fault. destruct (w_faults w) as [|[g|] fs] eqn:E; simpl; [|done|].
    + rewrite E. simpl. congruence.
    + destruct fs as [|[g|] fs]; simpl; congruence.
Qed.

(** ** A passing failure to open the file *)

Lemma memory_call_go {E A} (f : bool → gmap string bytes → A * gmap string bytes) w fs :
  w_faults w = None :: fs →
  memory_call (E:=E) f w = (Ok (f false (w_cache w)).1,
                            set_cache (f false (w_cache w)).2 (set_faults fs w)).
Proof using Type. intros Hf. unfold memory_call, next_fault. rewrite Hf. simpl. by destruct (f _ _). Qed.

Lemma run_sql_go {A} (q : Stmt A) w fs :
  w_faults w = None :: fs →
  run_sql q w = match q (w_now w) (w_db w) with
                | Ok (a, d) => (Ok a, set_db d (set_faults fs w))
                | Err e => (Err (from_sqlx_error e), set_faults fs w)
                end.
Proof using Type.
  intros Hf. unfold run_sql, map_err, db_call, next_fault. rewrite Hf. simpl.
  by destruct (q _ _) as [[? ?]|].
Qed.

Lemma fs_call_fail {A} (f : FS → result IoError A * FS) w flt fs :
  w_faults w = Some flt :: fs →
  fs_call f w = (Err {| io_text := fault_text flt |}, set_faults fs w).
Proof using Type. intros Hf. unfold fs_call, next_fault. by rewrite Hf. Qed.

Definition TOO_MANY_FILES : Fault := mkFault "Too many open files (os error 24)" 0.

(** A read error that is not "no such file" can delete the file.  The
    code looks for "os error 2" in the text of the error, which is also the
    beginning of "os error 24" (too many open files, like 20 to 29): a
    download while the process is out of file descriptors removes the row
    and, being the last reference, the bytes. *)
Theorem passing_read_error_deletes b k w row :
  cache_backend (sm_cache self) = BackendMemory → db_wf (w_db w) →
  w_faults w = [None; None; None; None; Some TOO_MANY_FILES] →
  w_cache w !! metadata_key b k = None → w_cache w !! content_key b k = None →
  db_files (w_db w) !! (b, k) = Some row → expired row (w_now w) = false →
  delete_allowed b k (w_db w) = true →
  other_references (sf_file_path row) b k (w_db w) = 0 →
  let '(r, w') := get_file self b k w in
  r = Err (NotFound b k) ∧ db_files (w_db w') !! (b, k) = None ∧
  ∀ d, fs_read (w_fs w') (sf_file_path row) ≠ Ok d.
Proof.
  intros Hb Hwf Hf Hm Hc Hrow Hexp Hal Hoth. destruct (json_total row) as [ser Hser].
  set (w4 := set_cache (<[metadata_key b k := ser]> (w_cache w)) (set_faults [] w)).
  assert (get_file self b k w =
    (_ ← attempt (F:=StorageError) (delete_file self b k); throw (NotFound b k)) w4) as ->.
  { set (w1 := set_faults [None; None; None; Some TOO_MANY_FILES] w).
    set (w2 := set_faults [None; None; Some TOO_MANY_FILES] w).
    set (w3 := set_cache (<[metadata_key b k := ser]> (w_cache w))
                 (set_faults [None; Some TOO_MANY_FILES] w)).
    assert (get_file_metadata (sm_cache self) b k w = (Ok None, w1)) as E1.
    { unfold get_file_metadata, backend_get. rewrite Hb, run_bind, run_attempt. unfold memory_get.
      rewrite (memory_call_go _ _ _ Hf). cbn [fst snd]. by rewrite Hm. }
    assert (Database.get_file b k w1 = (Ok row, w2)) as E2.
    { unfold Database.get_file. rewrite run_bind, (run_sql_go _ w1 _ eq_refl). unfold select.
      cbn beta iota. rewrite run_lift. simpl. by rewrite Hrow. }
    assert (set_file_metadata (sm_cache self) b k row w2 = (Ok tt, w3)) as E3.
    { unfold set_file_metadata. rewrite run_bind, run_lift, Hser. simpl. unfold backend_set.
      rewrite Hb. unfold memory_insert. by rewrite (memory_call_go _ w2 _ eq_refl). }
    assert (get_file_content (sm_cache self) b k w3
            = (Ok None, set_cache (w_cache w3) (set_faults [Some TOO_MANY_FILES] w3))) as E4.
    { unfold get_file_content, backend_get. rewrite Hb. unfold memory_get.
      rewrite (memory_call_go _ w3 _ eq_refl). cbn [fst snd w_cache set_cache w3]. do 3 f_equal.
      by rewrite lookup_insert_ne. }
    unfold get_file, read_metadata. rewrite !run_bind, run_attempt, E1. cbn [fst snd].
    rewrite run_bind, E2. cbn beta iota. rewrite run_bind, run_attempt, E3. cbn [fst snd].
    rewrite run_ret, run_bind, run_now. change (w_now w3) with (w_now w). rewrite Hexp, run_bind.
    unfold read_content. rewrite run_bind, run_attempt, E4. cbn [fst snd].
    rewrite run_bind, run_attempt, (fs_call_fail _ (set_cache _ (set_faults _ _)) _ _ eq_refl). cbn [fst snd].
    change (is_missing_file _) with true. cbn beta iota. rewrite !run_bind, !run_attempt.
    done. }
  assert (db_wf (w_db w4)) as Hwf4 by done. assert (w_faults w4 = []) as Hf4 by done.
  rewrite run_bind, run_attempt, delete_file_ok by done. simpl w_db.
  change (w_db w4) with (w_db w). rewrite Hrow, Hal. cbn [fst snd]. rewrite run_throw.
  split; [done|]. split; [simpl; by rewrite lookup_delete_eq|].
  cbn [w_fs set_cache set_fs]. rewrite Hoth. apply remove_file_unreadable.
Qed.
End ranges.

(** ** Concrete runs *)

(** The row of a key in a world, with a default that is never used. *)
Definition row_of (w : World) (b k : string) : StoredFile :=
  default (sample_row Byte.x00 "" "" 0) (db_files (w_db w) !! (b, k)).

Lemma plain_range_is_slice_witness :
  ∃ w', get_file_range_if_plain (X:=Toy.ToyExternals) sample_storage "b" "k" 1 1
          (set_cache ∅ first_world)
        = (Ok (Some (slice 1 1 [Byte.x61; Byte.x62], sf_content_type (row_of first_world "b" "k"), 2)), w').
Proof.
  pose proof (plain_range_is_slice (X:=Toy.ToyExternals) sample_storage ltac:(discriminate) "b" "k"
    (set_cache ∅ first_world) (row_of first_world "b" "k") [Byte.x61; Byte.x62] 1 1) as H.
  destruct H as (w' & H & _).
  - reflexivity.
  - right. split; vm_compute; reflexivity.
  - vm_compute. reflexivity.
  - vm_compute. reflexivity.
  - vm_compute. reflexivity.
  - vm_compute. reflexivity.
  - vm_compute. discriminate.
  - split; vm_compute; discriminate.
  - vm_compute. reflexivity.
  - exists w'. exact H.
Defined.

Definition zipped_world : World :=
  (store_file (X:=Toy.ToyExternals) secure_storage "b" "z" long_content None
     (mkStoreOptions None (Some false) None None None None None) start_world).2.

Lemma compressed_range_is_slice_witness :
  let w := set_cache ∅ zipped_world in let ct := sf_content_type (row_of zipped_world "b" "z") in
  (∃ w', get_compressed_file_range (X:=Toy.ToyExternals) secure_storage "b" "z" 150 152 w
         = (Ok (Some (slice 150 152 long_content, ct, zlen long_content)), w')) ∧
  ∃ w'', get_file (X:=Toy.ToyExternals) secure_storage "b" "z" w = (Ok (long_content, Some ct), w'').
Proof.
  cbv zeta.
  apply (compressed_range_is_slice (X:=Toy.ToyExternals) secure_storage ltac:(discriminate) "b" "z"
    (set_cache ∅ zipped_world) (row_of zipped_world "b" "z") (mkCompressionConfig true "zstd" 3 4)
    long_content [Byte.x02; Byte.x00; Byte.x61; Byte.xc8] 150 152).
  - reflexivity.
  - right. split; vm_compute; reflexivity.
  - vm_compute. reflexivity.
  - vm_compute. reflexivity.
  - split; [reflexivity|]. split; [vm_compute; discriminate|discriminate].
  - vm_compute. reflexivity.
  - vm_compute. reflexivity.
  - vm_compute. reflexivity.
  - vm_compute. discriminate.
  - split; vm_compute; discriminate.
  - vm_compute. reflexivity.
  - vm_compute. reflexivity.
  - intros raw H. discriminate H.
Defined.

Definition exhausted_world : World :=
  set_faults [None; None; None; None; Some TOO_MANY_FILES] (set_cache ∅ first_world).

Lemma set_faults_cache_wf f c w : world_wf w → world_wf (set_faults f (set_cache c w)).
Proof. intros H. exact H. Qed.

Lemma exhausted_world_wf : world_wf exhausted_world.
Proof.
  assert (world_wf first_world) as H.
  { exact (store_file_wf (X:=Toy.ToyExternals) sample_storage "b" "k" _ _ _ start_world empty_db_wf). }
  exact (set_faults_cache_wf _ _ _ H).
Qed.

Lemma passing_read_error_deletes_witness :
  fs_read (w_fs exhausted_world) "/data/b/k" = Ok [Byte.x61; Byte.x62] ∧
  let '(r, w') := get_file (X:=Toy.ToyExternals) sample_storage "b" "k" exhausted_world in
  r = Err (NotFound "b" "k") ∧ db_files (w_db w') !! ("b", "k") = None.
Proof.
  split; [vm_compute; reflexivity|].
  pose proof (passing_read_error_deletes (X:=Toy.ToyExternals) sample_storage "b" "k"
    exhausted_world (row_of first_world "b" "k")) as H.
  destruct (get_file _ _ _ _) as [r w']. destruct H as (H1 & H2 & _).
  - reflexivity.
  - exact exhausted_world_wf.
  - reflexivity.
  - reflexivity.
  - reflexivity.
  - vm_compute. reflexivity.
  - vm_compute. reflexivity.
  - vm_compute. reflexivity.
  - vm_compute. reflexivity.
  - split; assumption.
Defined.
