(* ===== verification/Http.v ===== *)
(** * Requests and responses (app.rs)

    What the handlers take and give: headers, bodies and the shared state of the
    application. *)

From S2P Require Import Prelude.
From S2P Require Import Errors.
From S2P Require Import Models.
From S2P Require Import FileSystem.
From S2P Require Import Config.
From S2P Require Import Externals.
From S2P Require Import World.
From S2P Require Import Storage.

(** A header map gives the bytes of the first value of a (lower-case) name. *)
Abbreviation HeaderMap := (string → option string).

Inductive Body :=
| NoBody
| TextBody (s : string)
| BytesBody (b : bytes)
| JsonInfo (f : FileInfo)
| JsonInfos (l : list FileInfo)
| JsonNames (l : list string)
| JsonStats (s : StorageStats)
| JsonError_ (msg : string).

Record Response := mkResponse {
  rs_status : Z;
  rs_headers : list (string * string);
  rs_body : Body
}.

(** A handler ends with a response, an error that becomes one, or a panic
    (which drops the connection). *)
Inductive Failure := Failed (e : StorageError) | Panicked.

Abbreviation H A := (prog World Failure A).

Definition run_storage {A} (m : M A) : H A := map_err Failed m.

(** What a client sees of an error. *)
Definition error_response (e : StorageError) : Response :=
  let '(status, msg) := into_response e in mkResponse status [] (JsonError_ msg).

Record AppState := mkAppState {
  as_storage : StorageManager;
  as_s3_config : option S3Config;
  as_download_protection_token : option string;
  as_protected_read_buckets : option (list string)
}.

(** [main] builds the state from the configuration. *)
Definition app_state (config : Config) (storage : StorageManager) : AppState :=
  mkAppState storage (cfg_s3 config) (cfg_download_protection_token config)
    (cfg_protected_read_buckets config).

Section headers.
Context `{X : Externals}.

(** [headers.get(name).and_then(|v| v.to_str().ok())]. *)
Definition header_str (headers : HeaderMap) (name : string) : option string :=
  v ← headers name; header_to_str v.

(** [HeaderValue::from_str(v).map_err(|_| BadRequest(msg))?]. *)
Definition header_value (v msg : string) : H string :=
  if header_from_str_ok v then mret v else throw (Failed (BadRequest msg)).

(** [(status, [(name, v)]).into_response()]: a value that is no header value
    makes the response an internal error. *)
Definition with_header (status : Z) (name v : string) : Response :=
  if header_from_str_ok v then mkResponse status [(name, v)] NoBody
  else mkResponse STATUS_INTERNAL_SERVER_ERROR [] (TextBody "failed to parse header value").
End headers.
