(* ===== verification/Limiter.v ===== *)
(** * The concurrency limiter (app.rs, main.rs)

    The middleware that takes a permit of a semaphore before it runs the rest of
    the service on a request, as the tree of its steps; and the requests it
    handles at the same time, step by step in any order, any of which may be
    dropped wherever it waits.  The semaphore is tokio's and a parameter. *)

From S2P Require Import Prelude.
From S2P Require Import Errors.

(** [tokio::sync::Semaphore], as far as the middleware uses it. *)
Class Semaphore := {
  sem : Type;
  (* Semaphore::new, and the number of permits that are free *)
  sem_new : nat → sem;
  available_permits : sem → nat;
  (* try_acquire: None is TryAcquireError *)
  try_acquire : sem → option sem;
  (* what dropping a permit does *)
  release : sem → sem
}.

Class SemaphoreLaws (S : Semaphore) : Prop := {
  available_new n : available_permits (sem_new n) = n;
  (** A permit is given when one is free, and then there is one less. *)
  try_acquire_some s s' :
    try_acquire s = Some s' → available_permits s = Datatypes.S (available_permits s');
  try_acquire_none s : try_acquire s = None ↔ available_permits s = 0%nat;
  (** A dropped permit is free again. *)
  available_release s : available_permits (release s) = Datatypes.S (available_permits s)
}.

(** ** The middleware *)

(** What a middleware may do with the permits and the request. *)
Inductive middleware :=
| TryAcquire (granted refused : middleware)  (* [match semaphore.try_acquire()] *)
| RunNext (after : middleware)               (* [next.run(request).await] *)
| DropPermit (after : middleware)            (* [drop(permit)] *)
| Respond (status : option Z).               (* [Ok(response)], or [Err(status)] *)

Definition concurrency_limiter : middleware :=
  TryAcquire
    (RunNext (DropPermit (Respond None)))
    (Respond (Some STATUS_TOO_MANY_REQUESTS)).

(** [Semaphore::new(100)] in [main]. *)
Definition REQUEST_PERMITS : nat := 100.

Definition request_semaphore `{S : Semaphore} : sem := sem_new REQUEST_PERMITS.

(** A request behind the middleware: what is left to do, whether it is inside
    the rest of the service, and whether it holds a permit. *)
Record Handled := mkHandled { hd_rest : middleware; hd_inside : bool; hd_permit : bool }.

Definition arrived : Handled := mkHandled concurrency_limiter false false.

(** ** Requests side by side *)

Section requests.
Context `{S : Semaphore}.

Definition limiter_state : Type := list Handled * sem.

(** A permit a future holds returns when the future is dropped. *)
Definition give_back (h : Handled) (s : sem) : sem := if hd_permit h then release s else s.

Inductive limiter_step : relation limiter_state :=
| step_arrive hs s : limiter_step (hs, s) (hs ++ [arrived], s)
| step_granted hs s i g r p s' :
    hs !! i = Some (mkHandled (TryAcquire g r) false p) → try_acquire s = Some s' →
    limiter_step (hs, s) (<[i := mkHandled g false true]> hs, s')
| step_refused hs s i g r p :
    hs !! i = Some (mkHandled (TryAcquire g r) false p) → try_acquire s = None →
    limiter_step (hs, s) (<[i := mkHandled r false p]> hs, s)
| step_enter hs s i k p :
    hs !! i = Some (mkHandled (RunNext k) false p) →
    limiter_step (hs, s) (<[i := mkHandled (RunNext k) true p]> hs, s)
| step_leave hs s i k p :
    hs !! i = Some (mkHandled (RunNext k) true p) →
    limiter_step (hs, s) (<[i := mkHandled k false p]> hs, s)
| step_drop_permit hs s i k p :
    hs !! i = Some (mkHandled (DropPermit k) false p) →
    limiter_step (hs, s) (<[i := mkHandled k false false]> hs, give_back (mkHandled k false p) s)
(** The response is sent, the client is gone, time is up, or the handler
    panicked: the future of the request is dropped. *)
| step_gone hs s i h :
    hs !! i = Some h → limiter_step (hs, s) (delete i hs, give_back h s).

Definition inside (hs : list Handled) : nat := length (filter (λ h, hd_inside h = true) hs).
Definition holding (hs : list Handled) : nat := length (filter (λ h, hd_permit h = true) hs).

(** ** Lemmas *)

(** Where a request can be. *)
Definition limiter_points : list Handled :=
  let waiting := RunNext (DropPermit (Respond None)) in
  [arrived; mkHandled waiting false true; mkHandled waiting true true;
   mkHandled (DropPermit (Respond None)) false true; mkHandled (Respond None) false false;
   mkHandled (Respond (Some STATUS_TOO_MANY_REQUESTS)) false false].

Lemma holding_app hs hs' : holding (hs ++ hs') = (holding hs + holding hs')%nat.
Proof. unfold holding. by rewrite filter_app, length_app. Qed.

Definition held (h : Handled) : nat := if hd_permit h then 1 else 0.

Lemma holding_one h : holding [h] = held h.
Proof. unfold holding, held. rewrite filter_cons, filter_nil. by destruct (hd_permit h). Qed.

Lemma holding_delete hs i h : hs !! i = Some h → holding hs = (held h + holding (delete i hs))%nat.
Proof.
  intros Hi. apply list_elem_of_split_length in Hi as (l1 & l2 & -> & ->).
  rewrite delete_middle, !holding_app. change (h :: l2) with ([h] ++ l2).
  rewrite holding_app, holding_one. lia.
Qed.

Lemma holding_insert hs i h h' :
  hs !! i = Some h → (held h' + holding hs = held h + holding (<[i := h']> hs))%nat.
Proof.
  intros Hi. apply list_elem_of_split_length in Hi as (l1 & l2 & -> & ->).
  replace (length l1) with (length l1 + 0)%nat by lia. rewrite insert_app_r. cbn [insert list_insert].
  rewrite !holding_app. change (h :: l2) with ([h] ++ l2). change (h' :: l2) with ([h'] ++ l2).
  rewrite !holding_app, !holding_one. lia.
Qed.

Lemma inside_holding hs : Forall (.∈ limiter_points) hs → (inside hs ≤ holding hs)%nat.
Proof.
  unfold inside, holding. induction 1 as [|h hs Hh _ IH]; [done|]. rewrite !filter_cons.
  assert (hd_inside h = true → hd_permit h = true) as Hp.
  { unfold limiter_points in Hh. set_unfold. naive_solver. }
  repeat case_decide; simpl; first [lia|naive_solver].
Qed.

(** Every request is where the middleware lets it be, and the permits that are
    free or held are those the semaphore was made with. *)
Definition limiter_inv (st : limiter_state) : Prop :=
  Forall (.∈ limiter_points) st.1 ∧ (available_permits st.2 + holding st.1 = REQUEST_PERMITS)%nat.

Context {SL : SemaphoreLaws S}.

Lemma available_give_back h s : available_permits (give_back h s) = (held h + available_permits s)%nat.
Proof. unfold give_back, held. destruct (hd_permit h); [by rewrite available_release|done]. Qed.

Lemma limiter_step_inv st st' : limiter_step st st' → limiter_inv st → limiter_inv st'.
Proof.
  assert (∀ hs i h, Forall (.∈ limiter_points) hs → hs !! i = Some h → h ∈ limiter_points) as Hat.
  { intros hs i h Hall Hi. rewrite Forall_forall in Hall. by apply Hall, (list_elem_of_lookup_2 _ i). }
  assert (∀ hs i h h' s s', Forall (.∈ limiter_points) hs → hs !! i = Some h → h' ∈ limiter_points →
    (available_permits s + holding hs = REQUEST_PERMITS)%nat →
    (held h' + available_permits s' = held h + available_permits s)%nat →
    limiter_inv (<[i := h']> hs, s')) as Hins.
  { intros hs i h h' s s' Hall Hi Hh' Hn Hs. split; cbn [fst snd]; [by apply Forall_insert|].
    pose proof (holding_insert hs i h h' Hi). lia. }
  intros Hstep [Hall Hn]. destruct Hstep as
    [hs s|hs s i g r p s' Hi Ha|hs s i g r p Hi Ha|hs s i k p Hi|hs s i k p Hi|hs s i k p Hi|hs s i h Hi];
    cbn [fst snd] in *; try pose proof (Hat _ _ _ Hall Hi) as Hpt.
  - split; cbn [fst snd]; [|rewrite holding_app, holding_one; cbn; lia].
    apply Forall_app. split; [done|]. constructor; [left|constructor].
  - apply try_acquire_some in Ha. unfold limiter_points, arrived, concurrency_limiter in Hpt. set_unfold.
    destruct Hpt as [[= -> -> ->]|Hpt]; [|naive_solver].
    eapply (Hins _ _ _ _ s); [done|exact Hi|unfold limiter_points; set_solver|done|cbn; lia].
  - unfold limiter_points, arrived, concurrency_limiter in Hpt. set_unfold.
    destruct Hpt as [[= -> -> ->]|Hpt]; [|naive_solver].
    eapply (Hins _ _ _ _ s); [done|exact Hi|unfold limiter_points; set_solver|done|cbn; lia].
  - assert (k = DropPermit (Respond None) ∧ p = true) as [-> ->]
      by (unfold limiter_points, arrived, concurrency_limiter in Hpt; set_unfold; naive_solver).
    eapply (Hins _ _ _ _ s); [done|exact Hi|unfold limiter_points; set_solver|done|cbn; lia].
  - assert (k = DropPermit (Respond None) ∧ p = true) as [-> ->]
      by (unfold limiter_points, arrived, concurrency_limiter in Hpt; set_unfold; naive_solver).
    eapply (Hins _ _ _ _ s); [done|exact Hi|unfold limiter_points; set_solver|done|cbn; lia].
  - assert (k = Respond None ∧ p = true) as [-> ->]
      by (unfold limiter_points, arrived, concurrency_limiter in Hpt; set_unfold; naive_solver).
    eapply (Hins _ _ _ _ s); [done|exact Hi|unfold limiter_points; set_solver|done|].
    rewrite available_give_back. cbn. lia.
  - split; cbn [fst snd]; [by apply Forall_delete|].
    rewrite available_give_back. pose proof (holding_delete hs i h Hi). lia.
Qed.

(** C40: The limiter.  However the requests behind it arrive, proceed, are
    answered or are dropped, at most 100 are inside the rest of the service at
    once; a request that asks for a permit is turned away exactly when 100
    requests hold one; and no permit is lost: when none of the requests in flight
    holds one (or there are none), all 100 are free again. *)
Theorem limiter_bounds_requests hs s :
  rtc limiter_step ([], request_semaphore) (hs, s) →
  (inside hs ≤ 100)%nat ∧
  (try_acquire s = None ↔ holding hs = 100%nat) ∧
  (holding hs = 0%nat → available_permits s = 100%nat).
Proof.
  intros Hr. assert (limiter_inv (hs, s)) as [Hall Hn].
  { remember ([], request_semaphore) as st0 eqn:E0. assert (limiter_inv st0) as H0.
    { subst. split; [constructor|]. cbn [fst snd]. unfold request_semaphore. rewrite available_new. done. }
    clear E0. remember (hs, s) as st eqn:E. clear E.
    induction Hr; [done|]. eauto using limiter_step_inv. }
  cbn [fst snd] in *. unfold REQUEST_PERMITS in Hn. pose proof (inside_holding hs Hall).
  rewrite try_acquire_none. split_and!; lia.
Qed.
End requests.

(** ** A concrete semaphore *)

Definition CountingSemaphore : Semaphore := {|
  sem := nat;
  sem_new n := n;
  available_permits s := s;
  try_acquire s := match s with O => None | Datatypes.S s' => Some s' end;
  release s := Datatypes.S s
|}.

#[export] Instance counting_laws : SemaphoreLaws CountingSemaphore.
Proof. split; [done| | |done]; intros [|s]; simpl; naive_solver. Qed.

(** A request is inside, and another one was dropped while it was inside. *)
Lemma limiter_bounds_requests_witness :
  let S := CountingSemaphore in
  let hs := [mkHandled (RunNext (DropPermit (Respond None))) true true] in
  rtc (limiter_step (S:=S)) ([], request_semaphore (S:=S)) (hs, 99%nat) ∧ (inside hs ≤ 100)%nat.
Proof.
  cbv zeta.
  assert (rtc (limiter_step (S:=CountingSemaphore)) ([], request_semaphore (S:=CountingSemaphore))
    ([mkHandled (RunNext (DropPermit (Respond None))) true true], 99%nat)) as H.
  { do 2 (eapply rtc_l; [apply step_arrive|]).
    eapply rtc_l; [eapply (step_granted _ _ 1); reflexivity|].
    eapply rtc_l; [eapply (step_enter _ _ 1); reflexivity|].
    eapply rtc_l; [eapply (step_granted _ _ 0); reflexivity|].
    eapply rtc_l; [eapply (step_enter _ _ 0); reflexivity|].
    eapply rtc_l; [eapply (step_gone _ _ 1); reflexivity|]. apply rtc_refl. }
  split; [exact H|]. exact (proj1 (limiter_bounds_requests (S:=CountingSemaphore) _ _ H)).
Defined.
