(* ===== verification/FileHandlers.v ===== *)
(** * File handlers (handlers/file_handlers.rs)

    Download protection, the names and options of an upload, range headers,
    and the handlers for files. *)

From S2P Require Import Prelude.
From S2P Require Import Errors.
From S2P Require Import Models.
From S2P Require Import FileSystem.
From S2P Require Import Config.
From S2P Require Import Externals.
From S2P Require Import World.
From S2P Require Import Compression.
From S2P Require Import Crypto.
From S2P Require Import Database.
From S2P Require Import Cache.
From S2P Require Import EncryptionKeys.
From S2P Require Import Performance.
From S2P Require Import Storage.
From S2P Require Import Http.

Definition DOWNLOAD_TOKEN_HEADER : string := "x-activator-write-token".

Definition download_is_authorized (expected_token : option string)
    (protected_buckets : option (list string)) (requested_bucket provided_token : option string) :
    bool :=
  match expected_token with
  | None => true
  | Some expected =>
    let in_scope := match protected_buckets with
                    | Some allowlist =>
                      match requested_bucket with
                      | Some name => existsb (λ b, bool_decide (b = name)) allowlist
                      | None => true
                      end
                    | None => true
                    end in
    if negb in_scope then true else bool_decide (provided_token = Some expected)
  end.

(** ** Text of a header that is not ASCII: [String::from_utf8_lossy] *)

(** The length of the valid character at the front, or of the bytes that one
    replacement character stands for. *)
Definition in_range (lo hi : Z) (l : list ascii) : bool :=
  match l with c :: _ => (lo <=? char_val c) && (char_val c <=? hi) | [] => false end.

Definition utf8_front (l : list ascii) : bool * nat :=
  match l with
  | [] => (true, 0%nat)
  | c :: r =>
    let b := char_val c in
    let cont := in_range 128 191 in
    let three (second : bool) :=
      if second then if cont (tail r) then (true, 3%nat) else (false, 2%nat) else (false, 1%nat) in
    let four (second : bool) :=
      if second then
        if cont (tail r) then
          if cont (tail (tail r)) then (true, 4%nat) else (false, 3%nat)
        else (false, 2%nat)
      else (false, 1%nat) in
    if b <? 128 then (true, 1%nat)
    else if (194 <=? b) && (b <=? 223) then if cont r then (true, 2%nat) else (false, 1%nat)
    else if b =? 224 then three (in_range 160 191 r)
    else if b =? 237 then three (in_range 128 159 r)
    else if (225 <=? b) && (b <=? 239) then three (cont r)
    else if b =? 240 then four (in_range 144 191 r)
    else if (241 <=? b) && (b <=? 243) then four (cont r)
    else if b =? 244 then four (in_range 128 143 r)
    else (false, 1%nat)
  end.

Definition REPLACEMENT : list ascii := map (λ n, Ascii.ascii_of_N n) [239%N; 191%N; 189%N].

Fixpoint utf8_lossy (fuel : nat) (l : list ascii) : list ascii :=
  match fuel, l with
  | O, _ | _, [] => []
  | Datatypes.S fuel', _ =>
    let '(valid, n) := utf8_front l in
    (if valid : bool then take n l else REPLACEMENT) ++ utf8_lossy fuel' (drop n l)
  end.

Definition from_utf8_lossy (s : string) : string :=
  let l := String.list_ascii_of_string s in
  String.string_of_list_ascii (utf8_lossy (length l) l).

(** [s.split(sep)] for a separator that is a string, as far as it is used: the
    second piece of it. *)
Fixpoint split_at (sep s : string) : option (string * string) :=
  match strip_prefix sep s with
  | Some r => Some (EmptyString, r)
  | None => match s with
            | EmptyString => None
            | String c s' => match split_at sep s' with
                             | Some (a, b) => Some (String c a, b)
                             | None => None
                             end
            end
  end.

Definition second_piece (sep s : string) : option string :=
  match split_at sep s with
  | None => None
  | Some (_, rest) => Some (match split_at sep rest with Some (a, _) => a | None => rest end)
  end.

Definition double_quote : ascii := Ascii.ascii_of_N 34.
Definition single_quote : ascii := Ascii.ascii_of_N 39.

(** The text between the quote at the front and the next one, or everything. *)
Definition unquote (filename_part : string) : string :=
  match filename_part with
  | String q r =>
    if char_eqb q double_quote || char_eqb q single_quote then
      match split_once q r with Some (inner, _) => inner | None => filename_part end
    else match split_once ";" filename_part with Some (a, _) => a | None => filename_part end
  | EmptyString => EmptyString
  end.

Section handlers.
Context `{X : Externals}.

Definition require_download_token (state : AppState) (headers : HeaderMap) (bucket : option string) :
    result StorageError unit :=
  let provided := header_str headers DOWNLOAD_TOKEN_HEADER in
  if download_is_authorized (as_download_protection_token state) (as_protected_read_buckets state)
       bucket provided
  then Ok tt
  else Err (Forbidden "valid X-Activator-Write-Token header required to read this bucket").

Definition extract_filename_from_content_disposition (headers : HeaderMap) : option string :=
  h ← headers "content-disposition";
  let s := default (from_utf8_lossy h) (header_to_str h) in
  if contains_str "filename=" s then
    filename_part ← trim <$> second_piece "filename=" s;
    let filename := unquote filename_part in
    match strip_prefix "UTF-8''" filename with
    | Some encoded => url_decode encoded
    | None => Some (default filename (url_decode filename))
    end
  else None.

Record UploadQuery := mkUploadQuery {
  uq_compress : option bool;
  uq_encrypt : option bool;
  uq_compression_algorithm : option string;
  uq_compression_level : option Z;
  uq_encryption_key_id : option string;
  uq_ttl_seconds : option Z
}.

(** [to_bytes(body, max_size)]: the bytes, or the text of the error. *)
Abbreviation RequestBody := (Z → result string bytes).

Definition resolve_ttl (ttl_seconds : option Z) (t : DateTime) : result Failure (option DateTime) :=
  match ttl_seconds with
  | None => Ok None
  | Some ttl =>
    if 0 <? ttl then
      match chrono_add_seconds t ttl with
      | Some e => Ok (Some e)
      | None => Err Panicked
      end
    else Err (Failed (BadRequest ("ttl_seconds must be a positive number, got " +:+ pretty ttl)))
  end.

Definition upload_file (state : AppState) (bucket : string) (query : UploadQuery)
    (headers : HeaderMap) (body : RequestBody) : H Response :=
  t ← now;
  let filename := default ("file_" +:+ pretty (t / 1000000) +:+ ".bin")
                    (extract_filename_from_content_disposition headers) in
  let content_type := default "application/octet-stream" (header_str headers "content-type") in
  let storage := as_storage state in
  let max_size := max_file_size storage in
  _ ← (match header_str headers "content-length" ≫= parse_u64 with
       | Some len =>
         if max_size <? len then
           throw (Failed (PayloadTooLarge ("Content-Length " +:+ pretty len +:+
             " exceeds max file size " +:+ pretty max_size +:+ " bytes")))
         else mret tt
       | None => mret tt
       end : H unit);
  bytes ← (match body max_size with
           | Ok b => mret b
           | Err e =>
             throw (Failed (if contains_str "length limit exceeded" e
               then PayloadTooLarge ("Body exceeds max file size " +:+ pretty max_size +:+ " bytes")
               else BadRequest ("Failed to read body: " +:+ e)))
           end : H bytes);
  if decide (bytes = []) then throw (Failed (BadRequest "No file content provided"))
  else
    t2 ← now;
    expires_at ← lift (resolve_ttl (uq_ttl_seconds query) t2);
    let opts := mkStoreOptions (uq_compress query) (uq_encrypt query) expires_at
                  (uq_compression_algorithm query) (uq_compression_level query)
                  (uq_encryption_key_id query) None in
    file ← run_storage (store_file storage bucket filename bytes (Some content_type) opts);
    mret (mkResponse STATUS_CREATED [] (JsonInfo (file_info_from file))).

(** ** Range headers *)

Definition parse_range_header (value : string) (total_len : Z) : option (Z * Z) :=
  spec ← strip_prefix "bytes=" value;
  if contains_char "," spec then None
  else
    se ← split_once "-" spec;
    let '(start_str, end_str) := se in
    if decide (start_str = EmptyString) then
      suffix_len ← parse_u64 end_str;
      if bool_decide (suffix_len = 0) || bool_decide (total_len = 0) then None
      else Some (saturating_sub total_len suffix_len, total_len - 1)
    else
      start ← parse_u64 start_str;
      end_ ← (if decide (end_str = EmptyString) then Some (saturating_sub total_len 1)
              else parse_u64 end_str);
      if (end_ <? start) || (total_len <=? start) then None
      else Some (start, Z.min end_ (saturating_sub total_len 1)).

(** [content[start as usize..=end as usize]], which panics outside. *)
Definition slice_inclusive (start end_ : Z) (content : bytes) : result Failure bytes :=
  if (start <=? end_ + 1) && (end_ <? zlen content)
  then Ok (take (Z.to_nat (end_ - start + 1)) (drop (Z.to_nat start) content))
  else Err Panicked.

Definition content_range (start end_ total : Z) : string :=
  "bytes " +:+ pretty start +:+ "-" +:+ pretty end_ +:+ "/" +:+ pretty total.

(** The 206 response of the two fast paths. *)
Definition partial_response (start end_ : Z) (r : bytes * string * Z) : H Response :=
  let '(slice, content_type, total) := r in
  ct ← header_value content_type "Invalid content type";
  cr ← header_value (content_range start end_ total) "Invalid range";
  mret (mkResponse STATUS_PARTIAL_CONTENT
          [("Content-Type", ct); ("Accept-Ranges", "bytes"); ("Content-Range", cr)]
          (BytesBody slice)).

(** The part of [handle_file_request] before the full download: a response,
    or [None] to go on. *)
Definition range_fast_path (storage : StorageManager) (bucket key range_value : string) :
    H (option Response) :=
  info ← attempt (get_file_info storage bucket key);
  match info with
  | Err _ => mret None
  | Ok info =>
    let total_len := as_u64 (fi_original_size info) in
    match parse_range_header range_value total_len with
    | Some (start, end_) =>
      plain ← attempt (get_file_range_if_plain storage bucket key start end_);
      match plain with
      | Ok (Some r) => resp ← partial_response start end_ r; mret (Some resp)
      | _ =>
        compressed ← attempt (get_compressed_file_range storage bucket key start end_);
        match compressed with
        | Ok (Some r) => resp ← partial_response start end_ r; mret (Some resp)
        | _ => mret None
        end
      end
    | None =>
      match strip_prefix "bytes=" range_value with
      | Some spec =>
        if negb (contains_char "," spec) then
          cr ← header_value ("bytes */" +:+ pretty total_len) "Invalid range";
          mret (Some (mkResponse STATUS_RANGE_NOT_SATISFIABLE
                        [("Accept-Ranges", "bytes"); ("Content-Range", cr)] NoBody))
        else mret None
      | None => mret None
      end
    end
  end.

Definition full_download (storage : StorageManager) (bucket key : string)
    (range_header : option string) : H Response :=
  cc ← run_storage (get_file storage bucket key);
  let '(content, content_type) := cc in
  let total_len := zlen content in
  ct_headers ← (match content_type with
                | Some ct => v ← header_value ct "Invalid content type"; mret [("Content-Type", v)]
                | None => mret []
                end : H (list (string * string)));
  let headers := ct_headers ++ [("Accept-Ranges", "bytes")] in
  match (rv ← range_header; parse_range_header rv total_len) with
  | Some (start, end_) =>
    slice ← lift (slice_inclusive start end_ content);
    cr ← header_value (content_range start end_ total_len) "Invalid range";
    mret (mkResponse STATUS_PARTIAL_CONTENT (headers ++ [("Content-Range", cr)]) (BytesBody slice))
  | None => mret (mkResponse STATUS_OK headers (BytesBody content))
  end.

Definition handle_file_request (state : AppState) (bucket path : string) (request_headers : HeaderMap) :
    H Response :=
  _ ← lift (map_result_err Failed (require_download_token state request_headers (Some bucket)));
  let storage := as_storage state in
  let is_info := ends_with path "/info" in
  let key := if is_info then trim_end_matches "/info" path else path in
  if is_info then
    info ← run_storage (get_file_info storage bucket key);
    mret (mkResponse STATUS_OK [] (JsonInfo info))
  else
    let range_header := header_str request_headers "range" in
    fast ← (match range_header with
            | Some range_value => range_fast_path storage bucket key range_value
            | None => mret None
            end : H (option Response));
    match fast with
    | Some response => mret response
    | None => full_download storage bucket key range_header
    end.

Definition handle_file_delete (state : AppState) (bucket path : string) : H Response :=
  let key := trim_end_matches "/info" path in
  _ ← run_storage (delete_file (as_storage state) bucket key);
  mret (mkResponse STATUS_NO_CONTENT [] NoBody).

Record ListFilesQuery := mkListFilesQuery {
  lq_prefix : option string; lq_limit : option Z; lq_offset : option Z }.

Record SearchQuery := mkSearchQuery {
  sq_bucket : option string; sq_query : string; sq_limit : option Z }.

Definition list_files (state : AppState) (bucket : string) (query : ListFilesQuery)
    (headers : HeaderMap) : H Response :=
  _ ← lift (map_result_err Failed (require_download_token state headers (Some bucket)));
  files ← run_storage (Storage.list_files (as_storage state) bucket (lq_prefix query)
                         (lq_limit query) (lq_offset query));
  mret (mkResponse STATUS_OK [] (JsonInfos files)).

Definition search_files (state : AppState) (query : SearchQuery) (headers : HeaderMap) : H Response :=
  _ ← lift (map_result_err Failed (require_download_token state headers (sq_bucket query)));
  files ← run_storage (Storage.search_files (as_storage state) (sq_bucket query) (sq_query query)
                         (sq_limit query));
  mret (mkResponse STATUS_OK [] (JsonInfos files)).
End handlers.

(** ** Lemmas *)

Lemma pretty_not_empty n : 0 ≤ n → pretty n ≠ EmptyString.
Proof.
  intros Hn. assert (pretty n = pretty (Z.to_N n)) as -> by (by destruct n; try lia).
  destruct (pretty_N_head_digit (Z.to_N n)) as (c & s & -> & _). done.
Qed.

Lemma parse_range_bounds value total s e :
  0 ≤ total → parse_range_header value total = Some (s, e) → 0 ≤ s ≤ e ∧ e < total.
Proof.
  intros Ht. unfold parse_range_header.
  destruct (strip_prefix "bytes=" value) as [spec|]; simpl; [|done].
  destruct (contains_char "," spec); [done|].
  destruct (split_once "-" spec) as [[a b]|]; simpl; [|done]. case_decide.
  - destruct (parse_u64 b) as [n|] eqn:En; simpl; [|done]. apply parse_unsigned_range in En.
    destruct (bool_decide (n = 0)) eqn:E1; [done|]. destruct (bool_decide (total = 0)) eqn:E2; [done|].
    apply bool_decide_eq_false in E1, E2. simpl. intros [= <- <-]. unfold saturating_sub. lia.
  - destruct (parse_u64 a) as [n|] eqn:En; simpl; [|done]. apply parse_unsigned_range in En.
    destruct (if decide (b = "") then _ else _) as [m|] eqn:Em; simpl; [|done].
    destruct (m <? n) eqn:E1; [done|]. destruct (total <=? n) eqn:E2; [done|]. simpl.
    apply Z.ltb_ge in E1. apply Z.leb_gt in E2. intros [= <- <-]. unfold saturating_sub. lia.
Qed.

Lemma parse_range_numbers s e total :
  0 ≤ s ≤ u64_max → 0 ≤ e ≤ u64_max →
  parse_range_header ("bytes=" +:+ pretty s +:+ "-" +:+ pretty e) total
  = if (e <? s) || (total <=? s) then None else Some (s, Z.min e (saturating_sub total 1)).
Proof.
  intros Hs He. unfold parse_range_header. rewrite strip_prefix_app. simpl.
  rewrite contains_char_app, contains_char_app, !contains_char_pretty by (done || lia). simpl.
  change ("-" +:+ pretty e) with (String "-" (pretty e)).
  rewrite split_once_app by (apply contains_char_pretty; [lia|done]). simpl.
  rewrite decide_False by (apply pretty_not_empty; lia).
  rewrite decide_False by (apply pretty_not_empty; lia).
  unfold parse_u64. by rewrite !parse_unsigned_pretty by lia.
Qed.

Lemma parse_range_well_formed s e total :
  0 ≤ s ≤ e → e ≤ u64_max → s < total →
  parse_range_header ("bytes=" +:+ pretty s +:+ "-" +:+ pretty e) total
  = Some (s, Z.min e (saturating_sub total 1)).
Proof.
  intros Hse He Hs. rewrite parse_range_numbers by lia.
  destruct (Z.ltb_spec e s); [lia|]. destruct (Z.leb_spec total s); [lia|]. done.
Qed.

(** The range without an end. *)
Lemma parse_range_open s total :
  0 ≤ s ≤ u64_max →
  parse_range_header ("bytes=" +:+ pretty s +:+ "-") total
  = if (saturating_sub total 1 <? s) || (total <=? s) then None
    else Some (s, Z.min (saturating_sub total 1) (saturating_sub total 1)).
Proof.
  intros Hs. unfold parse_range_header. rewrite strip_prefix_app. simpl.
  rewrite contains_char_app, contains_char_pretty by (done || lia). simpl.
  change ("-") with (String "-" EmptyString).
  rewrite split_once_app by (apply contains_char_pretty; [lia|done]). simpl.
  rewrite decide_False by (apply pretty_not_empty; lia).
  unfold parse_u64. by rewrite parse_unsigned_pretty by lia.
Qed.

Lemma parse_range_suffix n total :
  0 < n ≤ u64_max → 0 < total →
  parse_range_header ("bytes=-" +:+ pretty n) total = Some (saturating_sub total n, total - 1).
Proof.
  intros Hn Ht. unfold parse_range_header.
  change ("bytes=-" +:+ pretty n) with ("bytes=" +:+ String "-" (pretty n)).
  rewrite strip_prefix_app. simpl.
  rewrite contains_char_pretty by (done || lia). simpl.
  unfold parse_u64. rewrite parse_unsigned_pretty by lia. simpl.
  by rewrite !bool_decide_eq_false_2 by lia.
Qed.

Lemma slice_inclusive_ok s e content :
  0 ≤ s ≤ e → e < zlen content →
  slice_inclusive s e content = Ok (take (Z.to_nat (e - s + 1)) (drop (Z.to_nat s) content)).
Proof.
  intros H1 H2. unfold slice_inclusive. rewrite (proj2 (Z.leb_le _ _)), (proj2 (Z.ltb_lt _ _)) by lia.
  done.
Qed.

Lemma trim_end_matches_one suf k :
  suf ≠ EmptyString → strip_suffix suf k = None → trim_end_matches suf (k +:+ suf) = k.
Proof.
  intros Hne Hk. unfold trim_end_matches. rewrite length_str_app.
  destruct suf as [|c suf]; [done|]. simpl String.length. rewrite Nat.add_succ_r.
  cbn [trim_end_matches_fuel].
  assert (strip_suffix (String c suf) (k +:+ String c suf) = Some k) as -> by (by apply strip_suffix_Some).
  destruct (String.length k + String.length suf)%nat; [done|]. cbn [trim_end_matches_fuel]. by rewrite Hk.
Qed.

(** ** Properties *)

Section properties.
Context `{X : Externals}.

(** C31: Range headers.  Whatever the text, an accepted range is non-empty and
    inside the file, so slicing by it cannot go out of bounds.  The three forms of
    a single range mean what they should: "start-end" is clamped to the end of
    the file, "start-" goes to its last byte, and "-n" means the last n bytes, or
    all of them.  A range that starts behind the end of the file or ends before
    it starts is refused, and so is the suffix of no bytes. *)
Theorem parse_range_header_spec value total :
  0 ≤ total →
  (∀ s e, parse_range_header value total = Some (s, e) → 0 ≤ s ≤ e ∧ e < total) ∧
  (∀ s e, 0 ≤ s ≤ e → e ≤ u64_max → s < total →
     parse_range_header ("bytes=" +:+ pretty s +:+ "-" +:+ pretty e) total
     = Some (s, Z.min e (total - 1))) ∧
  (∀ s, 0 ≤ s ≤ u64_max → s < total →
     parse_range_header ("bytes=" +:+ pretty s +:+ "-") total = Some (s, total - 1)) ∧
  (∀ n, 0 < n ≤ u64_max → 0 < total →
     parse_range_header ("bytes=-" +:+ pretty n) total = Some (Z.max 0 (total - n), total - 1)) ∧
  (∀ s e, 0 ≤ s ≤ u64_max → 0 ≤ e ≤ u64_max → e < s ∨ total ≤ s →
     parse_range_header ("bytes=" +:+ pretty s +:+ "-" +:+ pretty e) total = None) ∧
  (∀ s, 0 ≤ s ≤ u64_max → total ≤ s →
     parse_range_header ("bytes=" +:+ pretty s +:+ "-") total = None) ∧
  parse_range_header "bytes=-0" total = None.
Proof.
  intros Ht. split_and!; [..|done].
  - intros s e. by apply parse_range_bounds.
  - intros s e H1 H2 H3. rewrite parse_range_well_formed by done.
    unfold saturating_sub. do 2 f_equal. lia.
  - intros s H1 H2. rewrite parse_range_open by done. unfold saturating_sub.
    destruct (Z.ltb_spec (Z.max 0 (total - 1)) s); [lia|]. destruct (Z.leb_spec total s); [lia|].
    simpl. do 2 f_equal. lia.
  - intros n H1 H2. by rewrite parse_range_suffix.
  - intros s e H1 H2 H3. rewrite parse_range_numbers by done.
    destruct (Z.ltb_spec e s), (Z.leb_spec total s); done || lia.
  - intros s H1 H2. rewrite parse_range_open by done.
    destruct (Z.leb_spec total s); [by rewrite orb_true_r|lia].
Qed.

(** Download protection.  Without a configured token every read is open;
    with one, a read is let through without it exactly when it names a
    bucket outside a configured list; a request that names no bucket is
    never outside. *)
Theorem download_is_authorized_spec token buckets bucket provided :
  download_is_authorized token buckets bucket provided = true ↔
  token = None
  ∨ (provided = token ∧ token ≠ None)
  ∨ (∃ allowlist name, buckets = Some allowlist ∧ bucket = Some name ∧ name ∉ allowlist).
Proof.
  assert (∀ l name, existsb (λ b : string, bool_decide (b = name)) l = true ↔ name ∈ l) as Hex.
  { intros l name. rewrite existsb_exists. setoid_rewrite bool_decide_eq_true.
    rewrite list_elem_of_In. split; [by intros (? & ? & ->)|eauto]. }
  unfold download_is_authorized. destruct token as [t|]; [|tauto].
  destruct buckets as [l|]; [destruct bucket as [name|]|]; simpl; rewrite ?bool_decide_eq_true.
  - destruct (existsb _ l) eqn:E; simpl.
    + apply Hex in E. rewrite bool_decide_eq_true. split.
      * intros ->. right. left. done.
      * intros [?|[[? _]|(? & ? & [= <-] & [= <-] & ?)]]; done.
    + split; [|done]. intros _. right. right. exists l, name. split_and!; try done.
      intros Hin. apply Hex in Hin. congruence.
  - split; [intros ->; right; left; done|].
    intros [?|[[? _]|(? & ? & [= <-] & [=] & ?)]]; done.
  - split; [intros ->; right; left; done|].
    intros [?|[[? _]|(? & ? & [=] & ? & ?)]]; done.
Qed.

(** Naming the empty bucket goes around download protection.  With a
    token required for a list of buckets (which never contains the empty
    name), a search without the token that names no bucket is refused, but
    one that names the empty bucket is answered, and with exactly what the
    search over all buckets, protected ones included, finds. *)
Theorem search_empty_bucket_bypasses_token state query limit headers token allowlist w :
  as_download_protection_token state = Some token →
  as_protected_read_buckets state = Some allowlist → EmptyString ∉ allowlist →
  header_str headers DOWNLOAD_TOKEN_HEADER = None →
  (∃ msg, search_files state (mkSearchQuery None query limit) headers w = (Err (Failed (Forbidden msg)), w)) ∧
  search_files state (mkSearchQuery (Some EmptyString) query limit) headers w =
  (files ← run_storage (Storage.search_files (as_storage state) None query limit);
   mret (mkResponse STATUS_OK [] (JsonInfos files)) : H Response) w.
Proof.
  intros Ht Hb Hnot Hh. unfold search_files, require_download_token. rewrite Ht, Hb, Hh. simpl.
  assert (existsb (λ b : string, bool_decide (b = EmptyString)) allowlist = false) as ->.
  { apply not_true_is_false. rewrite existsb_exists. intros (b & Hin & ->%bool_decide_eq_true).
    apply Hnot. by apply list_elem_of_In. }
  split; [|done]. eexists. reflexivity.
Qed.

(** A file whose key ends in "/info" cannot be deleted: the delete route
    cuts the ending off and deletes the file of the shorter key instead. *)
Theorem delete_info_key_deletes_other state bucket key :
  ends_with key "/info" = false →
  handle_file_delete state bucket (key +:+ "/info") = handle_file_delete state bucket key.
Proof.
  intros Hk. unfold handle_file_delete.
  assert (strip_suffix "/info" key = None) as Hs.
  { unfold ends_with in Hk. by destruct (strip_suffix "/info" key). }
  rewrite trim_end_matches_one by done.
  assert (trim_end_matches "/info" key = key) as ->; [|done].
  unfold trim_end_matches. destruct (String.length key); [done|]. simpl. by rewrite Hs.
Qed.

Definition declared_too_large (state : AppState) (headers : HeaderMap) : bool :=
  match header_str headers "content-length" ≫= parse_u64 with
  | Some len => max_file_size (as_storage state) <? len
  | None => false
  end.

(** C32: What an upload is refused for, before anything is stored.  A declared
    length over the limit, a body the server could not read in full within
    it, an empty body, or a time to live that is not positive is answered
    with a client error and leaves the world as it was; a time to live too
    large for the calendar is not refused but ends in a panic. *)
Theorem upload_refusals state bucket query headers body w :
  let max := max_file_size (as_storage state) in
  let outcome := upload_file state bucket query headers body w in
  if declared_too_large state headers
  then ∃ msg, outcome = (Err (Failed (PayloadTooLarge msg)), w)
  else match body max with
       | Err _ => ∃ e, outcome = (Err (Failed e), w) ∧ 400 ≤ (into_response e).1 < 500
       | Ok [] => ∃ msg, outcome = (Err (Failed (BadRequest msg)), w)
       | Ok _ => ∀ ttl, uq_ttl_seconds query = Some ttl →
           (ttl ≤ 0 → ∃ msg, outcome = (Err (Failed (BadRequest msg)), w)) ∧
           (0 < ttl → chrono_add_seconds (w_now w) ttl = None → outcome = (Err Panicked, w))
       end.
Proof.
  cbv zeta. unfold upload_file, declared_too_large. rewrite run_bind, run_now. cbv zeta.
  set (max := max_file_size _). set (len := header_str headers "content-length" ≫= parse_u64).
  rewrite run_bind. destruct len as [n|]; [destruct (max <? n)|].
  1: { rewrite run_throw. eauto. }
  all: rewrite run_ret, run_bind; destruct (body max) as [[|c b]|e];
    [rewrite run_ret, decide_True, run_throw by done; by eauto
    |rewrite run_ret, decide_False by done; intros ttl Httl; rewrite run_bind, run_now, run_bind, run_lift;
     unfold resolve_ttl; rewrite Httl
    |rewrite run_throw; destruct (contains_str _ _); eexists; (split; [done|]); vm_compute; split; congruence].
  all: split; [intros Hle; destruct (Z.ltb_spec 0 ttl); [lia|]; by eauto
              |intros Hlt Hn; destruct (Z.ltb_spec 0 ttl); [|lia]; by rewrite Hn].
Qed.

(** A download never panics, and a partial answer is what it says.
    Whatever calls fail, the full-download path ends with a response or an
    error; a 206 answer carries exactly the span of the file's content that
    its Content-Range names, and any other success is the whole content with
    status 200. *)
Theorem full_download_response storage bucket key range_header w :
  let '(r, w') := full_download storage bucket key range_header w in
  match r with
  | Err f => f ≠ Panicked
  | Ok resp => ∃ content ct, get_file storage bucket key w = (Ok (content, ct), w') ∧
      ((rs_status resp = STATUS_OK ∧ rs_body resp = BytesBody content) ∨
       ∃ s e, 0 ≤ s ≤ e ∧ e < zlen content ∧ rs_status resp = STATUS_PARTIAL_CONTENT ∧
         ("Content-Range", content_range s e (zlen content)) ∈ rs_headers resp ∧
         rs_body resp = BytesBody (take (Z.to_nat (e - s + 1)) (drop (Z.to_nat s) content)))
  end.
Proof.
  unfold full_download, run_storage. rewrite run_bind, run_map_err.
  destruct (get_file storage bucket key w) as [[[content ct]|e] w1]; cbn [fst snd map_result_err];
    [|done].
  rewrite run_bind.
  set (hs := match ct with Some _ => _ | None => _ end).
  assert ((∃ l, hs w1 = (Ok l, w1)) ∨ (∃ e, hs w1 = (Err (Failed e), w1))) as [[l ->]|[e ->]];
    [|cbn beta iota|done].
  { subst hs. destruct ct as [c|]; [|by eauto]. rewrite run_bind. unfold header_value.
    destruct (header_from_str_ok c); [rewrite run_ret; cbn; eauto|rewrite run_throw; eauto]. }
  destruct (range_header ≫= _) as [[s e]|] eqn:Er.
  - destruct range_header as [rv|]; [|done]. simpl in Er.
    apply parse_range_bounds in Er as [Hse He]; [|apply zlen_nonneg].
    rewrite run_bind, run_lift, slice_inclusive_ok by done. cbn beta iota.
    rewrite run_bind. unfold header_value. destruct (header_from_str_ok _); [|done].
    rewrite !run_ret. exists content, ct. split; [done|]. right. exists s, e. simpl.
    split_and!; try done; try lia. apply elem_of_app. right. by left.
  - rewrite run_ret. exists content, ct. split; [done|]. by left.
Qed.
End properties.

(** ** Concrete requests *)

Lemma parse_range_header_spec_witness :
  parse_range_header "bytes=2-5" 10 = Some (2, 5) ∧ parse_range_header "bytes=4-" 10 = Some (4, 9) ∧
  parse_range_header "bytes=-3" 10 = Some (7, 9) ∧ parse_range_header "bytes=10-" 10 = None.
Proof.
  destruct (parse_range_header_spec "bytes=2-5" 10 ltac:(lia)) as (_ & H1 & H2 & H3 & _ & H4 & _).
  split_and!; [apply (H1 2 5)|apply (H2 4)|apply (H3 3)|apply (H4 10)]; unfold u64_max; lia.
Defined.

Definition demo_config : Config :=
  mkConfig (mkServerConfig 8080 "INFO") (mkDatabaseConfig "h" 5432 "d" "u" "p" 10 "url")
    (mkRedisConfig "redis" 6379 None 0 10) (mkCacheSettings Memory 256 3600)
    (mkStorageConfig "/data" 1000 "default" true) (mkCryptoConfig false "aes-gcm" None)
    (mkCompressionConfig false "zstd" 3 1024) None (Some "token") (Some ["private"]).

Definition demo_storage : StorageManager :=
  mkStorageManager demo_config "/data" (mkCacheManager demo_config BackendMemory)
    (mkCryptoManager (cfg_crypto demo_config) None None) (cfg_compression demo_config).

Definition demo_state : AppState := app_state demo_config demo_storage.

Definition private_db : Db :=
  run_stmt (upsert_file (sample_row Byte.x01 "private" "secret" 10))
    (mkDb ∅ {[ "private" := mkBucketRow (Some true) 0 ]} ∅ 1 None).

Lemma search_empty_bucket_bypasses_token_witness :
  let X := Toy.ToyExternals in
  search_files (X:=X) demo_state (mkSearchQuery (Some EmptyString) "secret" None) (λ _, None)
    (db_world private_db)
  = (Ok (mkResponse STATUS_OK [] (JsonInfos [file_info_from (sample_row Byte.x01 "private" "secret" 10)])),
     db_world private_db).
Proof.
  cbv zeta.
  destruct (search_empty_bucket_bypasses_token (X:=Toy.ToyExternals) demo_state "secret" None (λ _, None)
    "token" ["private"] (db_world private_db)) as [_ H].
  - reflexivity.
  - reflexivity.
  - set_solver.
  - reflexivity.
  - rewrite H. vm_compute. reflexivity.
Defined.

Lemma delete_info_key_deletes_other_witness :
  handle_file_delete (X:=Toy.ToyExternals) demo_state "b" "report/info"
  = handle_file_delete (X:=Toy.ToyExternals) demo_state "b" "report".
Proof. apply (delete_info_key_deletes_other (X:=Toy.ToyExternals) demo_state "b" "report"). reflexivity. Defined.
