(* ===== verification/SourceTests.v ===== *)
(** * The unit tests of the handlers

    The tests that file_handlers.rs keeps beside its code, as evaluations of the
    definitions of FileHandlers: each test is the conjunction of its
    assertions. *)

From S2P Require Import Prelude.
From S2P Require Import Errors.
From S2P Require Import Models.
From S2P Require Import FileSystem.
From S2P Require Import Config.
From S2P Require Import Externals.
From S2P Require Import World.
From S2P Require Import Storage.
From S2P Require Import Http.
From S2P Require Import FileHandlers.

(** ** download_protection_tests *)

Module DownloadProtection.

Definition no_token_configured_is_always_authorized : bool :=
  download_is_authorized None None (Some "chat-attachments") None
  && download_is_authorized None (Some ["chat-attachments"]) (Some "chat-attachments") None.

Definition token_configured_no_allowlist_protects_every_bucket : bool :=
  negb (download_is_authorized (Some "secret") None (Some "clips") None)
  && negb (download_is_authorized (Some "secret") None (Some "clips") (Some "wrong"))
  && download_is_authorized (Some "secret") None (Some "clips") (Some "secret").

Definition allowlist_only_gates_named_buckets : bool :=
  let allowlist := ["chat-attachments"; "chat-attachments-live-verify"] in
  let allowed := download_is_authorized (Some "secret") (Some allowlist) in
  allowed (Some "clips") None
  && allowed (Some "video-editor") (Some "wrong-or-missing-doesnt-matter")
  && negb (allowed (Some "chat-attachments") None)
  && negb (allowed (Some "chat-attachments") (Some "wrong"))
  && allowed (Some "chat-attachments") (Some "secret")
  && allowed (Some "chat-attachments-live-verify") (Some "secret").

Definition unscoped_request_with_allowlist_fails_closed : bool :=
  let allowlist := ["chat-attachments"] in
  let allowed := download_is_authorized (Some "secret") (Some allowlist) in
  negb (allowed None None) && negb (allowed None (Some "wrong")) && allowed None (Some "secret").

End DownloadProtection.

(** ** range_header_tests *)

Module RangeHeader.

Definition parses (value : string) (total : Z) (range : option (Z * Z)) : bool :=
  bool_decide (parse_range_header value total = range).

Definition plain_start_end : bool :=
  parses "bytes=0-99" 1000 (Some (0, 99)) && parses "bytes=500-999" 1000 (Some (500, 999)).

Definition open_ended : bool := parses "bytes=900-" 1000 (Some (900, 999)).

Definition suffix_range : bool :=
  parses "bytes=-500" 1000 (Some (500, 999)) && parses "bytes=-2000" 1000 (Some (0, 999)).

Definition end_beyond_total_is_clamped : bool := parses "bytes=0-9999" 1000 (Some (0, 999)).

Definition unsatisfiable_start_returns_none : bool :=
  parses "bytes=1000-1999" 1000 None && parses "bytes=2000-3000" 1000 None.

Definition inverted_range_returns_none : bool := parses "bytes=500-100" 1000 None.

Definition multi_range_unsupported : bool := parses "bytes=0-99,200-299" 1000 None.

Definition malformed_returns_none : bool :=
  parses "not-a-range" 1000 None && parses "bytes=abc-def" 1000 None && parses "bytes=" 1000 None.

Definition zero_length_file : bool := parses "bytes=0-99" 0 None && parses "bytes=-10" 0 None.

End RangeHeader.

(** The model passes the tests of the code. *)
Theorem handler_tests_pass :
  Forall (λ test, test = true)
    [DownloadProtection.no_token_configured_is_always_authorized;
     DownloadProtection.token_configured_no_allowlist_protects_every_bucket;
     DownloadProtection.allowlist_only_gates_named_buckets;
     DownloadProtection.unscoped_request_with_allowlist_fails_closed;
     RangeHeader.plain_start_end; RangeHeader.open_ended; RangeHeader.suffix_range;
     RangeHeader.end_beyond_total_is_clamped; RangeHeader.unsatisfiable_start_returns_none;
     RangeHeader.inverted_range_returns_none; RangeHeader.multi_range_unsupported;
     RangeHeader.malformed_returns_none; RangeHeader.zero_length_file].
Proof. repeat constructor. Qed.
