(* ===== verification/RangeDownload.v ===== *)
(** * Range requests of uploaded files

    A range request takes one of three ways: the bytes of a plain file are read
    by seeking, a compressed file is decoded up to the end of the range, and any
    other file is decoded whole and cut.  Whichever it is, the answer is the
    same slice of the content. *)

From S2P Require Import Prelude.
From S2P Require Import Errors.
From S2P Require Import Models.
From S2P Require Import FileSystem.
From S2P Require Import Config.
From S2P Require Import Externals.
From S2P Require Import World.
From S2P Require Import Compression.
From S2P Require Import Crypto.
From S2P Require Import Database.
From S2P Require Import Cache.
From S2P Require Import EncryptionKeys.
From S2P Require Import Performance.
From S2P Require Import Storage.
From S2P Require Import StorageWf.
From S2P Require Import Deletion.
From S2P Require Import Upload.
From S2P Require Import Ranges.
From S2P Require Import Http.
From S2P Require Import FileHandlers.

Section range_download.
Context `{X : Externals, !ExternalsLaws X} (self : StorageManager).
Context (Hcw : cache_writable (sm_cache self)).

(** Reading the row leaves what the key serves as it is. *)
Lemma serves_read_metadata b k file raw content w :
  serves self b k file raw content w →
  ∃ r c, read_metadata self b k w = (Ok r, set_cache c w) ∧ sees_row b k w r ∧ agrees file r ∧
    serves self b k file raw content (set_cache c w).
Proof using All.
  intros Hs. destruct (serves_sees self _ _ _ _ _ _ Hs) as (r & Hr & Har & _).
  destruct (read_metadata_ok self Hcw b k w r (sv_faults _ _ _ _ _ _ _ Hs) Hr) as (c & Hrun & Hct & Hc).
  exists r, c. split_and!; [done..|]. split; simpl; try apply Hs.
  - intros ser [H|(_ & Hj & _)]%Hc; [by apply (sv_meta _ _ _ _ _ _ _ Hs)|].
    exists r. split; [by apply json_roundtrip|done].
  - intros c' Hc'. rewrite Hct in Hc'. by apply (sv_content _ _ _ _ _ _ _ Hs).
Qed.

(** The file that is not plain has no seek path, and leaves no trace but the
    cached row. *)
Lemma plain_range_none b k file raw content s e w :
  serves self b k file raw content w →
  flag (sf_is_compressed file) || flag (sf_is_encrypted file) = true →
  ∃ w', get_file_range_if_plain self b k s e w = (Ok None, w') ∧ w_now w' = w_now w ∧
    serves self b k file raw content w'.
Proof using All.
  intros Hs Hflags. destruct (serves_read_metadata _ _ _ _ _ _ Hs) as (r & c & Hrun & _ & Har & Hs').
  exists (set_cache c w). split; [|done]. unfold get_file_range_if_plain. rewrite run_bind, Hrun.
  destruct Har as ((-> & -> & _) & _). by rewrite Hflags.
Qed.

Lemma compressed_range_none b k file raw content s e w :
  serves self b k file raw content w → flag (sf_is_encrypted file) = true →
  ∃ w', get_compressed_file_range self b k s e w = (Ok None, w') ∧ w_now w' = w_now w ∧
    serves self b k file raw content w'.
Proof using All.
  intros Hs Henc. destruct (serves_read_metadata _ _ _ _ _ _ Hs) as (r & c & Hrun & _ & Har & Hs').
  exists (set_cache c w). split; [|done]. unfold get_compressed_file_range. rewrite run_bind, Hrun.
  destruct Har as ((-> & -> & _) & _). by rewrite Henc.
Qed.

(** The two fast paths of a file that is not encrypted. *)
Lemma serves_plain_range b k file raw content s e w :
  serves self b k file raw content w → flag (sf_is_compressed file) = false → flag (sf_is_encrypted file) = false →
  zlen content ≤ i64_max → 0 ≤ s ≤ e → s < zlen content →
  ∃ w', get_file_range_if_plain self b k s e w
        = (Ok (Some (slice s (Z.min e (zlen content - 1)) content, sf_content_type file, zlen content)), w').
Proof using All.
  intros Hs Hc He Hmax Hse Hlt. destruct (serves_sees self _ _ _ _ _ _ Hs) as (r & Hr & Har & _).
  destruct Har as ((Hrc & Hre & _) & Hp & Ht & _ & Hsz & _).
  assert (raw = content) as ->.
  { pose proof (sv_decode _ _ _ _ _ _ _ Hs w (sv_faults _ _ _ _ _ _ _ Hs) eq_refl) as Hd.
    unfold decode_content, decrypt_content in Hd. rewrite Hc, He in Hd. by injection Hd. }
  destruct (plain_range_read self Hcw b k w r content s e) as (w' & Hrun); try done.
  - apply (sv_faults _ _ _ _ _ _ _ Hs).
  - by rewrite Hrc.
  - by rewrite Hre.
  - rewrite Hp. apply (sv_bytes _ _ _ _ _ _ _ Hs).
  - rewrite Hsz. apply (sv_sizes _ _ _ _ _ _ _ Hs).
  - exists w'. by rewrite Hrun, Ht.
Qed.

Lemma serves_compressed_range b k file raw content s e w :
  serves self b k file raw content w → flag (sf_is_compressed file) = true → flag (sf_is_encrypted file) = false →
  zlen content ≤ i64_max → 0 ≤ s ≤ e → s < zlen content →
  ∃ w', get_compressed_file_range self b k s e w
        = (Ok (Some (slice s (Z.min e (zlen content - 1)) content, sf_content_type file, zlen content)), w').
Proof using All.
  intros Hs Hc He Hmax Hse Hlt. destruct (serves_sees self _ _ _ _ _ _ Hs) as (r & Hr & Har & _).
  destruct Har as ((Hrc & Hre & _) & Hp & Ht & _ & _ & _ & Hsz).
  destruct (sv_compressed _ _ _ _ _ _ _ Hs Hc He) as (cfg & Hcfg & Hout).
  destruct (compressed_range_read self Hcw b k w r cfg content raw s e) as (w' & Hrun); try done.
  - apply (sv_faults _ _ _ _ _ _ _ Hs).
  - by rewrite Hrc.
  - by rewrite Hre.
  - rewrite Hp. apply (sv_bytes _ _ _ _ _ _ _ Hs).
  - rewrite Hsz. apply (sv_sizes _ _ _ _ _ _ _ Hs).
  - exists w'. by rewrite Hrun, Ht.
Qed.

(** ** The handler *)

Lemma serves_info b k file raw content w :
  serves self b k file raw content w → expired file (w_now w) = false →
  ∃ row, get_file_info self b k w = (Ok (file_info_from row), w) ∧ agrees file row.
Proof using Type.
  intros Hs Hexp. destruct (sv_row _ _ _ _ _ _ _ Hs) as (row & Hrow & Har). exists row. split; [|done].
  unfold get_file_info, Database.get_file. rewrite !run_bind, select_ok by apply (sv_faults _ _ _ _ _ _ _ Hs).
  cbn beta iota. rewrite run_lift, Hrow. cbn [ok_or]. rewrite run_bind, run_now. cbn beta iota.
  destruct Har as (_ & _ & _ & Hex & _). unfold expired in *. by rewrite Hex, Hexp.
Qed.

(** The answer to a range of a content. *)
Definition range_response (ct : string) (s e : Z) (content : bytes) : Response :=
  mkResponse STATUS_PARTIAL_CONTENT
    [("Content-Type", ct); ("Accept-Ranges", "bytes");
     ("Content-Range", content_range s e (zlen content))]
    (BytesBody (slice s e content)).

Lemma partial_response_ok ct s e slice_ total w :
  header_from_str_ok ct = true → header_from_str_ok (content_range s e total) = true →
  partial_response s e (slice_, ct, total) w
  = (Ok (mkResponse STATUS_PARTIAL_CONTENT
           [("Content-Type", ct); ("Accept-Ranges", "bytes"); ("Content-Range", content_range s e total)]
           (BytesBody slice_)), w).
Proof using Type.
  intros H1 H2. unfold partial_response, header_value. rewrite H1, run_bind, run_ret, H2. done.
Qed.

Section request.
Context (b k : string) (file : StoredFile) (raw content : bytes) (s e : Z).
Let e' := Z.min e (zlen content - 1).
Let ct := sf_content_type file.
Let header := "bytes=" +:+ pretty s +:+ "-" +:+ pretty e.
Context (Hmax : zlen content ≤ i64_max) (Hse : 0 ≤ s ≤ e) (He : e ≤ u64_max) (Hs : s < zlen content).
Context (Hct : header_from_str_ok ct = true)
  (Hcr : header_from_str_ok (content_range s e' (zlen content)) = true).

Lemma header_parses : parse_range_header header (zlen content) = Some (s, e').
Proof using All.
  unfold header. rewrite parse_range_well_formed by done. do 2 f_equal. unfold saturating_sub, e'. lia.
Qed.

(** The fast paths answer, or leave everything to the full download. *)
Lemma fast_path_range w :
  serves self b k file raw content w → expired file (w_now w) = false →
  (∃ w', range_fast_path self b k header w = (Ok (Some (range_response ct s e' content)), w'))
  ∨ ∃ w', range_fast_path self b k header w = (Ok None, w') ∧ w_now w' = w_now w ∧
          serves self b k file raw content w'.
Proof using All.
  intros Hsv Hexp. unfold range_fast_path. rewrite run_bind, run_attempt.
  destruct (serves_info _ _ _ _ _ _ Hsv Hexp) as (row & -> & Har). cbn [fst snd].
  destruct Har as (_ & _ & _ & _ & _ & _ & Hor). cbn [file_info_from fi_original_size].
  rewrite Hor, (proj2 (sv_sizes _ _ _ _ _ _ _ Hsv)), as_u64_id by (pose proof (zlen_nonneg content); lia).
  cbv zeta. rewrite header_parses. cbn beta iota. assert (Z.min e' (zlen content - 1) = e') as Hmin by (unfold e'; lia).
  rewrite run_bind, run_attempt.
  destruct (flag (sf_is_compressed file)) eqn:Hc, (flag (sf_is_encrypted file)) eqn:Hen.
  2:{ left. destruct (plain_range_none b k file raw content s e' w Hsv) as (w1 & -> & Hn & Hs1); [by rewrite Hc|].
      cbn [fst snd]. rewrite run_bind, run_attempt.
      destruct (serves_compressed_range b k file raw content s e' w1) as (w2 & ->); try done; [unfold e'; lia|].
      cbn [fst snd]. rewrite Hmin, run_bind, partial_response_ok by done. by eexists. }
  3:{ left. destruct (serves_plain_range b k file raw content s e' w) as (w1 & ->); try done; [unfold e'; lia|].
      cbn [fst snd]. rewrite Hmin, run_bind, partial_response_ok by done. by eexists. }
  all: right; destruct (plain_range_none b k file raw content s e' w Hsv) as (w1 & -> & Hn & Hs1);
    [by rewrite ?Hc, ?Hen|]; cbn [fst snd]; rewrite run_bind, run_attempt;
    destruct (compressed_range_none b k file raw content s e' w1 Hs1 Hen) as (w2 & -> & Hn2 & Hs2);
    exists w2; split; [done|]; split; [congruence|done].
Qed.

Lemma full_download_range w :
  serves self b k file raw content w → expired file (w_now w) = false →
  ∃ w', full_download self b k (Some header) w = (Ok (range_response ct s e' content), w').
Proof using All.
  intros Hsv Hexp. unfold full_download, run_storage. rewrite run_bind, run_map_err.
  destruct (serves_download self Hcw _ _ _ _ _ _ Hsv Hexp) as (w1 & ->). cbn [fst snd map_result_err].
  rewrite run_bind, run_bind. unfold header_value. fold ct. rewrite Hct, !run_ret. cbn [mbind option_bind].
  rewrite header_parses. cbn beta iota.
  rewrite run_bind, run_lift, slice_inclusive_ok by (unfold e'; lia). cbn beta iota.
  rewrite run_bind, Hcr, run_ret. by eexists.
Qed.

(** Whichever way the request takes. *)
Lemma range_request state headers w :
  as_storage state = self → require_download_token state headers (Some b) = Ok tt →
  ends_with k "/info" = false → header_str headers "range" = Some header →
  serves self b k file raw content w → expired file (w_now w) = false →
  ∃ w', handle_file_request state b k headers w = (Ok (range_response ct s e' content), w').
Proof using All.
  intros Hst Htok Hinfo Hrange Hsv Hexp. unfold handle_file_request.
  rewrite run_bind, run_lift, Htok. cbn [map_result_err]. rewrite Hinfo, Hrange, Hst, run_bind. cbv zeta.
  destruct (fast_path_range w Hsv Hexp) as [(w1 & ->)|(w1 & -> & Hn & Hs1)]; [by eexists|].
  apply full_download_range; [done|by rewrite Hn].
Qed.
End request.
End range_download.

Section properties.
Context `{X : Externals, !ExternalsLaws X} (state : AppState).
Context (Hcw : cache_writable (sm_cache (as_storage state))).

(** C12: A range request returns the slice of what was uploaded, whatever form
    it is stored in.  After an upload of new content, at any later time before
    the file expires and whatever entries the cache has lost, a request for the
    bytes from [s] to [e] is answered 206 with exactly that slice of the
    uploaded content, clamped to its end, the Content-Range that names it and
    the content type of the upload: the seek path of plain files, the streaming
    path of compressed ones and the full download of encrypted ones agree.
    (Assumed: no call fails; the content is not stored yet; a file stored
    compressed is read with compression on; no older content of the key is
    cached, or the cache takes the new one in its place; a Redis cache has a time
    to live that is not zero; the key does not end in "/info"; the sizes fit the
    integers of the code and the type and the range are texts a header can
    hold.) *)
Theorem range_of_upload b k content ct opts w file w' c t headers s e :
  let n := zlen content in
  let e' := Z.min e (n - 1) in
  w_faults w = [] → not_duplicate (as_storage state) content w →
  store_file (as_storage state) b k content (Some ct) opts w = (Ok file, w') →
  (sf_is_compressed file = Some true → co_enabled (sm_compression (as_storage state)) = true) →
  (w_cache w !! content_key b k = None ∨ sf_file_size file ≤ MAX_CACHE_SIZE) →
  c ⊆ w_cache w' → expired file t = false →
  require_download_token state headers (Some b) = Ok tt → ends_with k "/info" = false →
  header_str headers "range" = Some ("bytes=" +:+ pretty s +:+ "-" +:+ pretty e) →
  n ≤ i64_max → 0 ≤ s ≤ e → e ≤ u64_max → s < n →
  header_from_str_ok ct = true → header_from_str_ok (content_range s e' n) = true →
  ∃ w'', handle_file_request state b k headers (set_now t (set_cache c w'))
    = (Ok (mkResponse STATUS_PARTIAL_CONTENT
             [("Content-Type", ct); ("Accept-Ranges", "bytes"); ("Content-Range", content_range s e' n)]
             (BytesBody (take (Z.to_nat (e' - s + 1)) (drop (Z.to_nat s) content)))), w'').
Proof.
  intros n e' Hf Hdup Hst Hcomp Hold Hsub Hexp Htok Hinfo Hrange Hmax Hse He Hs Hct Hcr.
  destruct (upload_serves (as_storage state) Hcw b k content (Some ct) opts w file w' c t)
    as (raw & Hsv & Hty); try done. simpl in Hty. subst ct.
  by eapply (range_request (as_storage state) Hcw).
Qed.
End properties.

(** ** A concrete range, served by the streaming path *)

Definition compressed_only : StoreOptions :=
  mkStoreOptions None (Some false) None None None None None.

Definition runs_upload : result StorageError StoredFile * World :=
  store_file (X:=Toy.ToyExternals) secure_storage "b" "dir/k" long_content (Some "text/plain")
    compressed_only start_world.

Definition middle_range : HeaderMap := λ name, if decide (name = "range") then Some "bytes=98-101" else None.

Lemma range_of_upload_witness :
  ∃ w'', handle_file_request (X:=Toy.ToyExternals) (mkAppState secure_storage None None None) "b" "dir/k"
           middle_range (set_now 99 (set_cache ∅ runs_upload.2))
         = (Ok (mkResponse STATUS_PARTIAL_CONTENT
                  [("Content-Type", "text/plain"); ("Accept-Ranges", "bytes"); ("Content-Range", "bytes 98-101/200")]
                  (BytesBody (replicate 4 Byte.x61))), w'').
Proof.
  assert (match runs_upload.1 with
          | Ok f => bool_decide (sf_is_compressed f = Some true ∧ sf_is_encrypted f = Some false
                      ∧ sf_file_size f ≤ MAX_CACHE_SIZE) && negb (expired f 99)
          | Err _ => false
          end = true) as Hfacts by (vm_compute; reflexivity).
  destruct runs_upload as [[f|e] w'] eqn:E; simpl in Hfacts; [|discriminate Hfacts].
  apply andb_true_iff in Hfacts as [(Hc & Hen & Hs)%bool_decide_eq_true He].
  apply (range_of_upload (X:=Toy.ToyExternals) (mkAppState secure_storage None None None) ltac:(discriminate)
           "b" "dir/k" long_content "text/plain" compressed_only start_world f w' ∅ 99 middle_range 98 101).
  - reflexivity.
  - intros _. vm_compute. reflexivity.
  - exact E.
  - reflexivity.
  - right. exact Hs.
  - apply map_empty_subseteq.
  - apply negb_true_iff. exact He.
  - reflexivity.
  - vm_compute. reflexivity.
  - vm_compute. reflexivity.
  - vm_compute. discriminate.
  - lia.
  - vm_compute. discriminate.
  - vm_compute. reflexivity.
  - vm_compute. reflexivity.
  - vm_compute. reflexivity.
Defined.
