(* ===== verification/Handlers.v ===== *)
(** * Bucket, key and health handlers (handlers/)

    The handlers around [StorageManager] that are not about files. *)

From S2P Require Import Prelude.
From S2P Require Import Errors.
From S2P Require Import Models.
From S2P Require Import FileSystem.
From S2P Require Import Config.
From S2P Require Import Externals.
From S2P Require Import World.
From S2P Require Import Compression.
From S2P Require Import Crypto.
From S2P Require Import Database.
From S2P Require Import Cache.
From S2P Require Import EncryptionKeys.
From S2P Require Import Performance.
From S2P Require Import Storage.
From S2P Require Import StorageWf.
From S2P Require Import Deletion.
From S2P Require Import Http.

(** The body of the key routes: everything but the key itself. *)
Record EncryptionKeyInfo := mkEncryptionKeyInfo {
  ki_key_id : string;
  ki_algorithm : string;
  ki_description : option string;
  ki_is_active : option bool;
  ki_created_at : option DateTime
}.

Definition key_info_from (k : EncryptionKey) : EncryptionKeyInfo :=
  mkEncryptionKeyInfo (ek_key_id k) (ek_algorithm k) (ek_description k) (ek_is_active k) (ek_created_at k).

Record CreateKeyRequest := mkCreateKeyRequest { ck_algorithm : string; ck_description : option string }.

(** [#[serde(default)]]: a request without an algorithm means AES-GCM. *)
Definition default_algorithm : string := "aes-gcm".
Definition create_key_request (algorithm description : option string) : CreateKeyRequest :=
  mkCreateKeyRequest (default default_algorithm algorithm) description.

Section handlers.
Context `{X : Externals}.

Definition create_bucket (state : AppState) (bucket : string) : H Response :=
  _ ← run_storage (Storage.create_bucket (as_storage state) bucket);
  mret (mkResponse STATUS_CREATED [] NoBody).

Definition delete_bucket (state : AppState) (bucket : string) : H Response :=
  _ ← run_storage (Storage.delete_bucket (as_storage state) bucket);
  mret (mkResponse STATUS_NO_CONTENT [] NoBody).

Definition list_buckets (state : AppState) : H Response :=
  buckets ← run_storage Storage.list_buckets;
  mret (mkResponse STATUS_OK [] (JsonNames buckets)).

Definition get_bucket_stats (state : AppState) (bucket : string) : H Response :=
  stats ← run_storage (Storage.get_bucket_stats (as_storage state) bucket);
  mret (mkResponse STATUS_OK [] (JsonStats stats)).

Definition get_storage_stats (state : AppState) : H Response :=
  stats ← run_storage Storage.get_storage_stats;
  mret (mkResponse STATUS_OK [] (JsonStats stats)).

Definition create_key (state : AppState) (req : CreateKeyRequest) : H (Z * EncryptionKeyInfo) :=
  key ← run_storage (create_encryption_key (ck_algorithm req) (ck_description req));
  mret (STATUS_CREATED, key_info_from key).

Definition list_keys (state : AppState) : H (list EncryptionKeyInfo) :=
  keys ← run_storage list_encryption_keys;
  mret (key_info_from <$> keys).

Definition deactivate_key (state : AppState) (key_id : string) : H Response :=
  _ ← run_storage (deactivate_encryption_key key_id);
  mret (mkResponse STATUS_NO_CONTENT [] NoBody).

Definition health_check : Response := mkResponse STATUS_OK [] (TextBody "OK").

Definition health_check_deep (state : AppState) : H Response :=
  r ← run_storage (Storage.health_check (as_storage state));
  let '(db_ok, redis_ok) := r in
  if (db_ok : bool) && (redis_ok : bool) then mret (mkResponse STATUS_OK [] (TextBody "OK"))
  else mret (mkResponse STATUS_SERVICE_UNAVAILABLE [] (TextBody "UNHEALTHY")).
End handlers.

(** ** Properties *)

Section properties.
Context `{X : Externals}.

(** The deep health check tells the truth about the database: it answers
    200 exactly when the ping of the database succeeded and the cache
    answered, 503 otherwise, always one of the two, and changes nothing but
    the pending failures. The plain check answers 200 whatever the state. *)
Theorem health_check_deep_truth state w :
  cache_backend (sm_cache (as_storage state)) = BackendMemory →
  let '(r, w') := health_check_deep state w in
  (∃ resp, r = Ok resp ∧
    rs_status resp = match w_faults w with
                     | Some _ :: _ => STATUS_SERVICE_UNAVAILABLE
                     | _ => STATUS_OK
                     end) ∧
  w_db w' = w_db w ∧ w_fs w' = w_fs w ∧ rs_status health_check = STATUS_OK.
Proof.
  intros Hb. unfold health_check_deep, Storage.health_check, run_storage, cache_health_check.
  rewrite Hb. simpl is_enabled. cbn beta iota.
  rewrite run_bind, run_map_err, run_bind, run_attempt.
  pose proof (run_sql_cases (select (λ _, tt)) w) as H1.
  pose proof (db_only_run_sql (select (λ _, tt)) w) as (H2 & _ & _).
  assert (is_ok (run_sql (select (λ _, tt)) w).1
          = match w_faults w with Some _ :: _ => false | _ => true end) as Hok.
  { unfold run_sql, map_err, db_call, next_fault, select. destruct (w_faults w) as [|[g|] fs]; done. }
  destruct (run_sql _ w) as [r w1]. cbn [fst snd] in *.
  assert (w_db w1 = w_db w) as Hd by (by destruct r; [injection H1|]).
  destruct r as [u|e]; simpl in *; (split; [|done]); eexists; (split; [done|]);
    destruct (w_faults w) as [|[g|] fs]; simpl in *; congruence.
Qed.
End properties.

Lemma health_check_deep_truth_witness :
  let s := mkAppState sample_storage None None None in
  let w := set_faults [Some (mkFault "connection refused" 0)] (db_world empty_db) in
  let '(r, w') := health_check_deep s w in
  ∃ resp, r = Ok resp ∧ rs_status resp = STATUS_SERVICE_UNAVAILABLE.
Proof.
  cbv zeta.
  pose proof (health_check_deep_truth (mkAppState sample_storage None None None)
    (set_faults [Some (mkFault "connection refused" 0)] (db_world empty_db)) eq_refl) as H.
  destruct (health_check_deep _ _) as [r w']. destruct H as [H _]. exact H.
Defined.
