(* ===== verification/S3Error.v ===== *)
(** * Errors of the S3 API (s3/error.rs)

    The error the S3 handlers answer with, its constructors, the conversion
    from the errors of the storage manager and the XML response. *)

From S2P Require Import Prelude.
From S2P Require Import Errors.
From S2P Require Import Models.
From S2P Require Import FileSystem.
From S2P Require Import Config.
From S2P Require Import Xml.
From S2P Require Import Externals.
From S2P Require Import World.
From S2P Require Import Storage.
From S2P Require Import Http.

Record S3Error := mkS3Error {
  s3_status : Z;
  s3_code : string;
  s3_message : string;
  s3_resource : string
}.

Definition no_such_bucket (bucket : string) : S3Error :=
  mkS3Error STATUS_NOT_FOUND "NoSuchBucket" "The specified bucket does not exist" ("/" +:+ bucket).

Definition no_such_key (bucket key : string) : S3Error :=
  mkS3Error STATUS_NOT_FOUND "NoSuchKey" "The specified key does not exist"
    ("/" +:+ bucket +:+ "/" +:+ key).

Definition access_denied (message : string) : S3Error :=
  mkS3Error STATUS_FORBIDDEN "AccessDenied" message "".

Definition signature_does_not_match : S3Error :=
  mkS3Error STATUS_FORBIDDEN "SignatureDoesNotMatch"
    "The request signature we calculated does not match the signature you provided" "".

Definition invalid_request (message : string) : S3Error :=
  mkS3Error STATUS_BAD_REQUEST "InvalidRequest" message "".

Definition internal (message : string) : S3Error :=
  mkS3Error STATUS_INTERNAL_SERVER_ERROR "InternalError" message "".

(** [impl From<StorageError> for S3Error]. *)
Definition s3_error_from (e : StorageError) : S3Error :=
  match e with
  | NotFound bucket key => no_such_key bucket key
  | InvalidBucket msg => mkS3Error STATUS_NOT_FOUND "NoSuchBucket" msg msg
  | AlreadyExists bucket key =>
    mkS3Error STATUS_CONFLICT "KeyAlreadyExists"
      ("Object already exists: " +:+ bucket +:+ "/" +:+ key) ("/" +:+ bucket +:+ "/" +:+ key)
  | InvalidKey msg | Validation msg | BadRequest msg => invalid_request msg
  | PayloadTooLarge msg => mkS3Error STATUS_PAYLOAD_TOO_LARGE "EntityTooLarge" msg ""
  | other => internal (error_to_string other)
  end.

(** A handler ends with a response, an error that becomes one, or a panic. *)
Inductive S3Failure := S3Failed (e : S3Error) | S3Panicked.

Abbreviation H3 A := (prog World S3Failure A).

Section response.
Context `{X : Externals}.

Definition to_xml (value : XmlDoc) : string :=
  "<?xml version=" +:+ String (Ascii.ascii_of_N 34) "1.0" +:+ String (Ascii.ascii_of_N 34)
    " encoding=" +:+ String (Ascii.ascii_of_N 34) "UTF-8" +:+ String (Ascii.ascii_of_N 34)
    "?>" +:+ String (Ascii.ascii_of_N 10) (default EmptyString (xml_se value)).

Definition xml_response (status : Z) (value : XmlDoc) : Response :=
  mkResponse status [("Content-Type", "application/xml")] (TextBody (to_xml value)).

(** [impl IntoResponse for S3Error]: the request id is a fresh UUID. *)
Definition s3_into_response (e : S3Error) : H3 Response :=
  b ← fill_bytes 16;
  mret (xml_response (s3_status e)
          (XError (mkErrorBody (s3_code e) (s3_message e) (s3_resource e)
                     (uuid_to_string (uuid_v4 b))))).

(** What a client gets of a handler: its response, or the error's; nothing
    when the handler panicked. *)
Definition s3_answer (handler : H3 Response) : H3 Response := λ w,
  match handler w with
  | (Err (S3Failed e), w') => s3_into_response e w'
  | other => other
  end.

(** [storage.call().await.map_err(S3Error::from)?]. *)
Definition run_s3_storage {A} (m : M A) : H3 A := map_err (λ e, S3Failed (s3_error_from e)) m.
End response.

(** A missing object is the only storage error that says [NoSuchKey], and no
    error becomes a success. *)
Lemma s3_error_from_status e :
  400 ≤ s3_status (s3_error_from e) < 600 ∧
  (s3_code (s3_error_from e) = "NoSuchKey" ↔ ∃ b k, e = NotFound b k).
Proof.
  destruct e; (split; [vm_compute; split; congruence|]);
    (split; [first [by eauto|discriminate]|intros (? & ? & [=]); reflexivity]).
Qed.
