(* ===== verification/SigV4.v ===== *)
(** * Request signatures (s3/auth.rs)

    AWS Signature Version 4: the canonical form of a request, the signing key,
    and the check every S3 handler starts with. *)

From S2P Require Import Prelude.
From S2P Require Import Errors.
From S2P Require Import Models.
From S2P Require Import FileSystem.
From S2P Require Import Config.
From S2P Require Import Xml.
From S2P Require Import Externals.
From S2P Require Import World.
From S2P Require Import Crypto.
From S2P Require Import Storage.
From S2P Require Import Http.
From S2P Require Import S3Error.

(** [method.as_str()], and a URI by its path and query. *)
Abbreviation Method := string.
Record Uri := mkUri { uri_path : string; uri_query : option string }.

Definition newline : ascii := Ascii.ascii_of_N 10.

Record ParsedAuth := mkParsedAuth {
  pa_access_key : string;
  pa_date : string;
  pa_region : string;
  pa_signed_headers : list string;
  pa_signature : string
}.

(** ** Sorting: the byte order of [String], and pairs of strings *)
Abbreviation str_le := String.le.

Definition pair_le (p q : string * string) : Prop :=
  if decide (p.1 = q.1) then str_le p.2 q.2 else str_le p.1 q.1.
#[export] Instance pair_le_dec : RelDecision pair_le.
Proof. intros p q. unfold pair_le. case_decide; apply _. Defined.

(** [split_whitespace]. *)
Fixpoint split_space (s : string) : list string :=
  match s with
  | EmptyString => [EmptyString]
  | String c s' =>
    if Ascii.is_space c then EmptyString :: split_space s'
    else match split_space s' with
         | [] => [String c EmptyString]
         | x :: r => String c x :: r
         end
  end.

Definition split_whitespace (s : string) : list string :=
  filter (λ w, w ≠ EmptyString) (split_space s).

(** [format!("%{:02X}", byte)]. *)
Definition upper_hex_digit (n : Z) : ascii :=
  Ascii.ascii_of_N (Z.to_N (if n <? 10 then 48 + n else 55 + n)).

Definition percent_encode (c : ascii) : string :=
  String "%" (String (upper_hex_digit (char_val c / 16))
    (String (upper_hex_digit (char_val c mod 16)) EmptyString)).

Definition is_unreserved (c : ascii) : bool :=
  is_ascii_alphanumeric c || char_eqb c "-" || char_eqb c "_" || char_eqb c "." || char_eqb c "~".

Fixpoint uri_encode (input : string) (preserve_slash : bool) : string :=
  match input with
  | EmptyString => EmptyString
  | String c rest =>
    (if is_unreserved c then String c EmptyString
     else if preserve_slash && char_eqb c "/" then String c EmptyString
     else percent_encode c) +:+ uri_encode rest preserve_slash
  end.

Definition constant_time_eq (a b : bytes) : bool :=
  if negb (length a =? length b)%nat then false
  else foldl (λ diff '(x, y), Z.lor diff (Z.lxor (byte_val x) (byte_val y))) 0 (zip a b) =? 0.

(** One part of the header, and what it sets. *)
Definition authorization_part (acc : option string * option string * option string) (part : string) :
    option string * option string * option string :=
  let '(credential, signed_headers, signature) := acc in
  let part := trim part in
  match strip_prefix "Credential=" part with
  | Some v => (Some v, signed_headers, signature)
  | None =>
    match strip_prefix "SignedHeaders=" part with
    | Some v => (credential, Some v, signature)
    | None =>
      match strip_prefix "Signature=" part with
      | Some v => (credential, signed_headers, Some v)
      | None => acc
      end
    end
  end.

Definition parse_authorization (header : string) : option ParsedAuth :=
  header ← strip_prefix "AWS4-HMAC-SHA256 " header;
  let '(credential, signed_headers, signature) :=
    foldl authorization_part (None, None, None) (split "," header) in
  credential ← credential;
  match splitn 5 "/" credential with
  | access_key :: date :: region :: _ :: _ :: _ =>
    signed_headers ← signed_headers;
    signature ← signature;
    Some (mkParsedAuth access_key date region
            (merge_sort str_le (map to_lowercase (split ";" signed_headers))) signature)
  | _ => None
  end.

Section auth.
Context `{X : Externals}.

Definition sha256_hex (data : bytes) : string := hex_encode (sha256 data).

Definition decode_or_original (s : string) : string := default s (url_decode s).

Definition canonical_uri (path : string) : string :=
  if decide (path = EmptyString) then "/"
  else join "/" (map (λ segment, uri_encode (decode_or_original segment) false) (split "/" path)).

Definition query_pair (pair : string) : string * string :=
  let it := splitn 2 "=" pair in
  (decode_or_original (default EmptyString (it !! 0%nat)),
   decode_or_original (default EmptyString (it !! 1%nat))).

(** The sorted parameters of a query. *)
Definition query_pairs (query : string) : list (string * string) :=
  merge_sort pair_le (map query_pair (filter (λ s, s ≠ EmptyString) (split "&" query))).

Definition canonical_query_string (query : string) : string :=
  if decide (query = EmptyString) then EmptyString
  else join "&" (map (λ kv, uri_encode kv.1 false +:+ "=" +:+ uri_encode kv.2 false)
                   (query_pairs query)).

Definition header_line (headers : HeaderMap) (name : string) : string :=
  let value := default EmptyString (header_str headers name) in
  name +:+ ":" +:+ join " " (split_whitespace (trim value)).

Definition canonical_headers (headers : HeaderMap) (sorted_signed_header_names : list string) :
    string :=
  join (String newline EmptyString) (map (header_line headers) sorted_signed_header_names)
    +:+ String newline EmptyString.

Definition canonical_request (method : Method) (uri : Uri) (headers : HeaderMap)
    (sorted_signed_headers : list string) (hashed_payload : string) : string :=
  join (String newline EmptyString)
    [method; canonical_uri (uri_path uri);
     canonical_query_string (default EmptyString (uri_query uri));
     canonical_headers headers sorted_signed_headers;
     join ";" sorted_signed_headers; hashed_payload].

Definition signing_key (secret_key date region : string) : bytes :=
  let k_date := hmac_sha256 (as_bytes ("AWS4" +:+ secret_key)) (as_bytes date) in
  let k_region := hmac_sha256 k_date (as_bytes region) in
  let k_service := hmac_sha256 k_region (as_bytes "s3") in
  hmac_sha256 k_service (as_bytes "aws4_request").

Definition string_to_sign (amz_date date region canonical : string) : string :=
  "AWS4-HMAC-SHA256" +:+ String newline amz_date +:+ String newline
    (date +:+ "/" +:+ region +:+ "/s3/aws4_request") +:+ String newline
    (sha256_hex (as_bytes canonical)).

(** The hash of the body that goes into the canonical request. *)
Definition payload_hash (headers : HeaderMap) (uri : Uri) (body : bytes) : result S3Error string :=
  match header_str headers "x-amz-content-sha256" with
  | Some v =>
    if decide (v = "UNSIGNED-PAYLOAD") then Ok "UNSIGNED-PAYLOAD"
    else if starts_with v "STREAMING-" then
      Err (mkS3Error STATUS_NOT_IMPLEMENTED "NotImplemented"
        "Chunked/streaming signed payloads (STREAMING-AWS4-HMAC-SHA256-PAYLOAD) are not supported yet"
        (uri_path uri))
    else if decide (v = sha256_hex body) then Ok (sha256_hex body)
    else Err signature_does_not_match
  | None => Ok (sha256_hex body)
  end.

(** [(Utc::now() - request_time).num_seconds().abs()]. *)
Definition skew_seconds (now request_time : DateTime) : Z :=
  Z.abs (Z.quot (now - request_time) 1000000).

Definition computed_signature (s3_config : S3Config) (parsed : ParsedAuth)
    (amz_date canonical : string) : string :=
  hex_encode (hmac_sha256 (signing_key (s3_secret_key s3_config) (pa_date parsed) (pa_region parsed))
    (as_bytes (string_to_sign amz_date (pa_date parsed) (pa_region parsed) canonical))).

Definition verify_sigv4 (headers : HeaderMap) (method : Method) (uri : Uri) (body : bytes)
    (s3_config : S3Config) : prog World S3Error unit :=
  auth_header ← lift (ok_or (access_denied "Missing Authorization header")
                        (header_str headers "authorization"));
  parsed ← lift (ok_or (invalid_request "Malformed Authorization header")
                   (parse_authorization auth_header));
  if decide (pa_access_key parsed ≠ s3_access_key s3_config) then throw signature_does_not_match
  else
    amz_date ← lift (ok_or (invalid_request "Missing x-amz-date header")
                       (header_str headers "x-amz-date"));
    request_time ← lift (ok_or (invalid_request "Invalid x-amz-date")
                           (chrono_parse_amz_date amz_date));
    t ← now;
    if 900 <? skew_seconds t request_time then
      throw (mkS3Error STATUS_FORBIDDEN "RequestTimeTooSkewed"
        "The difference between the request time and the current time is too large" (uri_path uri))
    else
      hashed_payload ← lift (payload_hash headers uri body);
      let canonical := canonical_request method uri headers (pa_signed_headers parsed)
                         hashed_payload in
      if constant_time_eq (as_bytes (computed_signature s3_config parsed amz_date canonical))
           (as_bytes (pa_signature parsed))
      then mret tt
      else throw signature_does_not_match.
End auth.

(** ** Comparing without branching on the content *)

Lemma byte_val_inj a b : byte_val a = byte_val b → a = b.
Proof.
  unfold byte_val. intros H%N2Z.inj. apply (f_equal Byte.of_N) in H.
  rewrite !Byte.of_to_N in H. by injection H.
Qed.

Lemma fold_diff l acc :
  foldl (λ diff '(x, y), Z.lor diff (Z.lxor (byte_val x) (byte_val y))) acc l = 0
  ↔ acc = 0 ∧ Forall (λ '(x, y), x = y) l.
Proof.
  revert acc. induction l as [|[x y] l IH]; intros acc; simpl.
  - split; [by split|by intros [? _]].
  - rewrite IH, Z.lor_eq_0_iff, Z.lxor_eq_0_iff, Forall_cons. split.
    + intros [[? ?%byte_val_inj] ?]. done.
    + intros (? & -> & ?). done.
Qed.

(** The comparison of signatures is equality. *)
Lemma constant_time_eq_true a b : constant_time_eq a b = true ↔ a = b.
Proof.
  unfold constant_time_eq. destruct (Nat.eqb_spec (length a) (length b)) as [Hlen|Hlen]; simpl.
  2: { split; [done|]. intros ->. done. }
  rewrite Z.eqb_eq, fold_diff. split.
  - intros [_ H]. revert b Hlen H. induction a as [|x a IH]; intros [|y b]; try done.
    simpl. intros [= Hlen] [-> H]%Forall_cons. f_equal. auto.
  - intros <-. split; [done|]. clear Hlen. induction a; constructor; done.
Qed.

(** ** Percent encoding keeps texts apart *)

Lemma char_val_inj c d : char_val c = char_val d → c = d.
Proof.
  unfold char_val. intros H%N2Z.inj.
  by rewrite <- (Ascii.ascii_N_embedding c), H, Ascii.ascii_N_embedding.
Qed.

Lemma percent_digits c :
  is_unreserved (upper_hex_digit (char_val c / 16)) = true ∧
  is_unreserved (upper_hex_digit (char_val c mod 16)) = true ∧
  (let un d := if char_val d <? 58 then char_val d - 48 else char_val d - 55 in
   un (upper_hex_digit (char_val c / 16)) * 16 + un (upper_hex_digit (char_val c mod 16)))
  = char_val c.
Proof. destruct c as [[] [] [] [] [] [] [] []]; vm_compute; done. Qed.

Definition encode_char (c : ascii) : string :=
  if is_unreserved c then String c EmptyString else percent_encode c.

Lemma uri_encode_cons c s : uri_encode (String c s) false = encode_char c +:+ uri_encode s false.
Proof. simpl. unfold encode_char. by destruct (is_unreserved c). Qed.

Lemma encode_char_prefix_free c d s t :
  encode_char c +:+ s = encode_char d +:+ t → c = d ∧ s = t.
Proof.
  unfold encode_char, percent_encode.
  destruct (is_unreserved c) eqn:Hc, (is_unreserved d) eqn:Hd;
    rewrite !str_app_cons, !str_app_nil_l; intros H.
  - by injection H as -> ->.
  - by injection H as -> _.
  - by injection H as <- _.
  - injection H as H1 H2 H3. split; [|done]. apply char_val_inj.
    destruct (percent_digits c) as (_ & _ & <-), (percent_digits d) as (_ & _ & <-).
    by rewrite H1, H2.
Qed.

Lemma uri_encode_inj s t : uri_encode s false = uri_encode t false → s = t.
Proof.
  revert t. induction s as [|c s IH]; intros [|d t]; rewrite ?uri_encode_cons; intros H; try done.
  - by destruct (is_unreserved d) eqn:Hd; unfold encode_char in H; rewrite Hd in H.
  - by destruct (is_unreserved c) eqn:Hc; unfold encode_char in H; rewrite Hc in H.
  - apply encode_char_prefix_free in H as [-> H]. f_equal. auto.
Qed.

(** The characters an encoded text can hold. *)
Definition encoded (c : ascii) : Prop := is_unreserved c = true ∨ c = "%"%char.

Lemma uri_encode_encoded s : all_chars encoded (uri_encode s false).
Proof.
  induction s as [|c s IH]; [constructor|]. rewrite uri_encode_cons, all_chars_app.
  split; [|done]. unfold encode_char, percent_encode.
  destruct (is_unreserved c) eqn:Hc; rewrite !all_chars_cons.
  - split; [by left|constructor].
  - destruct (percent_digits c) as (H1 & H2 & _).
    split_and!; [by right|by left|by left|constructor].
Qed.

Lemma uri_encode_free c s : ¬ encoded c → contains_char c (uri_encode s false) = false.
Proof. intros H. eapply all_chars_free; [exact H|apply uri_encode_encoded]. Qed.

Ltac not_encoded := unfold encoded; vm_compute; intros [[=]|[=]].

(** ** What an accepted request looks like *)

Lemma as_bytes_inj s t : as_bytes s = as_bytes t → s = t.
Proof.
  unfold as_bytes. intros H. rewrite <- (String.string_of_list_byte_of_string s), H.
  apply String.string_of_list_byte_of_string.
Qed.

Lemma str_app_inj_l s t u : s +:+ t = s +:+ u → t = u.
Proof. induction s as [|c s IH]; [done|]. rewrite !str_app_cons. intros [= H]. auto. Qed.

Lemma app_sep_inj c a a' r r' :
  contains_char c a = false → contains_char c a' = false →
  a +:+ String c r = a' +:+ String c r' → a = a' ∧ r = r'.
Proof.
  intros Ha Ha' H. apply (f_equal (split_once c)) in H. rewrite !split_once_app in H by done.
  by injection H.
Qed.

(** The function does not map these two inputs to one value. *)
Definition no_collision {A B} (f : A → B) (x y : A) : Prop := f x = f y → x = y.

Section facts.
Context `{X : Externals, !ExternalsLaws X}.

Lemma verify_sigv4_state headers m u b cfg w : (verify_sigv4 headers m u b cfg w).2 = w.
Proof using Type.
  unfold verify_sigv4. rewrite run_bind, run_lift.
  destruct (header_str headers "authorization") as [h|]; simpl; [|done].
  rewrite run_bind, run_lift. destruct (parse_authorization h) as [p|]; simpl; [|done].
  case_decide; [done|]. rewrite run_bind, run_lift.
  destruct (header_str headers "x-amz-date") as [d|]; simpl; [|done].
  rewrite run_bind, run_lift. destruct (chrono_parse_amz_date d) as [t|]; simpl; [|done].
  rewrite run_bind, run_now. cbn beta iota. case_match; [done|]. rewrite run_bind, run_lift.
  destruct (payload_hash headers u b); [|done]. by case_match.
Qed.

(** A request is accepted exactly when it names the access key, its date is
    within fifteen minutes of the clock, the body has the declared hash and
    the signature is the one computed from the canonical request. *)
Lemma verify_sigv4_ok headers m u b cfg w :
  (verify_sigv4 headers m u b cfg w).1 = Ok tt ↔
  ∃ parsed amz_date t p,
    header_str headers "authorization" ≫= parse_authorization = Some parsed ∧
    pa_access_key parsed = s3_access_key cfg ∧
    header_str headers "x-amz-date" = Some amz_date ∧ chrono_parse_amz_date amz_date = Some t ∧
    skew_seconds (w_now w) t ≤ 900 ∧ payload_hash headers u b = Ok p ∧
    computed_signature cfg parsed amz_date
      (canonical_request m u headers (pa_signed_headers parsed) p) = pa_signature parsed.
Proof using Type.
  unfold verify_sigv4. rewrite run_bind, run_lift.
  destruct (header_str headers "authorization") as [h|]; simpl;
    [|split; [done|by intros (?&?&?&?&?&?)]].
  rewrite run_bind, run_lift. destruct (parse_authorization h) as [pa|]; simpl;
    [|split; [done|by intros (?&?&?&?&?&?)]].
  case_decide as Hk; simpl.
  { split; [done|]. intros (?&?&?&?&[= <-]&?&?). done. }
  rewrite run_bind, run_lift. destruct (header_str headers "x-amz-date") as [d|]; simpl;
    [|split; [done|by intros (?&?&?&?&?&?&?&?)]].
  rewrite run_bind, run_lift. destruct (chrono_parse_amz_date d) as [t|] eqn:Et; simpl.
  2: { split; [done|]. intros (?&?&?&?&?&?&[= <-]&?&?). congruence. }
  rewrite run_bind, run_now. cbn beta iota. destruct (Z.ltb_spec 900 (skew_seconds (w_now w) t)).
  { split; [done|]. intros (?&?&?&?&?&?&[= <-]&?&?&?). assert (x1 = t) as -> by congruence. lia. }
  rewrite run_bind, run_lift. destruct (payload_hash headers u b) as [p|e]; simpl.
  2: { split; [done|]. by intros (?&?&?&?&?&?&?&?&?&?&?). }
  destruct (constant_time_eq _ _) eqn:Ec.
  - apply constant_time_eq_true, as_bytes_inj in Ec. split; [|done]. intros _.
    exists pa, d, t, p. split_and!; try done.
  - split; [done|]. intros (?&?&?&?&[= <-]&?&[= <-]&?&?&[= <-]&Hs). exfalso.
    apply not_true_iff_false in Ec. apply Ec. apply constant_time_eq_true. by rewrite Hs.
Qed.
End facts.

(** ** The canonical request determines the request *)

Section canonical.
Context `{X : Externals, !ExternalsLaws X}.

(** The path and the query as the program reads them. *)
Definition decoded_path (path : string) : list string :=
  if decide (path = EmptyString) then [EmptyString; EmptyString]
  else map decode_or_original (split "/" path).

Definition encode_pair (kv : string * string) : string :=
  uri_encode kv.1 false +:+ "=" +:+ uri_encode kv.2 false.

Lemma canonical_uri_eq path :
  canonical_uri path = join "/" (map (λ s, uri_encode s false) (decoded_path path)).
Proof using Type.
  unfold canonical_uri, decoded_path. case_decide; [done|]. by rewrite map_map.
Qed.

Lemma decoded_path_not_nil path : decoded_path path ≠ [].
Proof using Type.
  unfold decoded_path. case_decide; [done|].
  pose proof (split_not_nil "/" path). by destruct (split "/" path).
Qed.

Lemma canonical_query_string_eq query :
  canonical_query_string query = join "&" (map encode_pair (query_pairs query)).
Proof using Type. unfold canonical_query_string. by case_decide; subst. Qed.

Lemma encoded_free (c : ascii) l :
  ¬ encoded c → Forall (λ p, contains_char c p = false) (map (λ s, uri_encode s false) l).
Proof using Type. intros Hc. apply Forall_fmap, Forall_true. intros s. by apply uri_encode_free. Qed.

Lemma canonical_uri_inj p q : canonical_uri p = canonical_uri q → decoded_path p = decoded_path q.
Proof using Type.
  rewrite !canonical_uri_eq. intros H. apply join_inj in H.
  - apply (list_fmap_eq_inj (λ s, uri_encode s false)); [|exact H]. intros s t. apply uri_encode_inj.
  - pose proof (decoded_path_not_nil p). by destruct (decoded_path p).
  - pose proof (decoded_path_not_nil q). by destruct (decoded_path q).
  - apply encoded_free. not_encoded.
  - apply encoded_free. not_encoded.
Qed.

Lemma encode_pair_inj kv kv' : encode_pair kv = encode_pair kv' → kv = kv'.
Proof using Type.
  destruct kv as [k v], kv' as [k' v']. unfold encode_pair. simpl.
  rewrite !str_app_cons, !str_app_nil_l. intros H.
  apply app_sep_inj in H as [Hk%uri_encode_inj Hv%uri_encode_inj];
    [by subst|apply uri_encode_free; not_encoded..].
Qed.

Lemma encode_pair_free (c : ascii) kv :
  ¬ encoded c → c ≠ "="%char → contains_char c (encode_pair kv) = false.
Proof using Type.
  intros Hc He. unfold encode_pair. rewrite !contains_char_app. simpl.
  rewrite !uri_encode_free, char_eqb_neq by done. done.
Qed.

Lemma canonical_query_string_inj p q :
  canonical_query_string p = canonical_query_string q → query_pairs p = query_pairs q.
Proof using Type.
  rewrite !canonical_query_string_eq. intros H.
  assert (∀ kv l, EmptyString = join "&" (map encode_pair (kv :: l)) → False) as Hne.
  { intros kv l Hj. apply (f_equal (contains_char "=")) in Hj. destruct l; revert Hj; simpl;
      unfold encode_pair; rewrite !contains_char_app; simpl; rewrite ?orb_true_r; done. }
  destruct (query_pairs p) as [|kv l], (query_pairs q) as [|kv' l']; try done.
  - by destruct (Hne _ _ H).
  - symmetry in H. by destruct (Hne _ _ H).
  - apply join_inj in H; [|done|done|..].
    + apply (list_fmap_eq_inj encode_pair); [|exact H]. intros a b. apply encode_pair_inj.
    + apply Forall_fmap, Forall_true. intros x. by apply encode_pair_free; [not_encoded|].
    + apply Forall_fmap, Forall_true. intros x. by apply encode_pair_free; [not_encoded|].
Qed.

Lemma canonical_uri_free (c : ascii) path :
  ¬ encoded c → c ≠ "/"%char → contains_char c (canonical_uri path) = false.
Proof using Type.
  intros Hc Hs. rewrite canonical_uri_eq. apply (all_chars_free (λ d, encoded d ∨ d = "/"%char)).
  { by intros [?|?]. }
  apply all_chars_join; [by repeat constructor; right|].
  apply Forall_fmap, Forall_true. intros s. eapply all_chars_impl; [|apply uri_encode_encoded]. auto.
Qed.

Lemma canonical_query_string_free (c : ascii) query :
  ¬ encoded c → c ≠ "="%char → c ≠ "&"%char →
  contains_char c (canonical_query_string query) = false.
Proof using Type.
  intros Hc He Ha. rewrite canonical_query_string_eq.
  apply (all_chars_free (λ d, encoded d ∨ d = "="%char ∨ d = "&"%char)).
  { by intros [?|[?|?]]. }
  apply all_chars_join; [by repeat constructor; right; right|].
  apply Forall_fmap, Forall_true. intros [k v]. unfold compose, encode_pair. rewrite !all_chars_app.
  split_and!; [|by repeat constructor; right; left|];
    (eapply all_chars_impl; [|apply uri_encode_encoded]; auto).
Qed.

Lemma canonical_request_inj headers names m1 u1 p1 m2 u2 p2 :
  contains_char newline m1 = false → contains_char newline m2 = false →
  canonical_request m1 u1 headers names p1 = canonical_request m2 u2 headers names p2 →
  m1 = m2 ∧ decoded_path (uri_path u1) = decoded_path (uri_path u2) ∧
  query_pairs (default EmptyString (uri_query u1)) = query_pairs (default EmptyString (uri_query u2)) ∧
  p1 = p2.
Proof using Type.
  intros Hm1 Hm2. unfold canonical_request. rewrite !join_cons by done.
  rewrite !str_app_cons, !str_app_nil_l. intros H.
  apply app_sep_inj in H as [-> H]; [|done..].
  apply app_sep_inj in H as [Hu%canonical_uri_inj H];
    [|apply canonical_uri_free; [not_encoded|done]..].
  apply app_sep_inj in H as [Hq%canonical_query_string_inj H];
    [|apply canonical_query_string_free; [not_encoded|done|done]..].
  do 2 (apply str_app_inj_l in H; injection H as H; change (EmptyString +:+ ?s) with s in H).
  done.
Qed.

Lemma string_to_sign_inj a d r c c' :
  string_to_sign a d r c = string_to_sign a d r c' → sha256 (as_bytes c) = sha256 (as_bytes c').
Proof.
  unfold string_to_sign. intros H. do 3 apply str_app_inj_l in H. injection H as H.
  by apply hex_encode_inj in H.
Qed.

Lemma payload_hash_inj headers u1 b1 u2 b2 p :
  payload_hash headers u1 b1 = Ok p → payload_hash headers u2 b2 = Ok p →
  header_str headers "x-amz-content-sha256" ≠ Some "UNSIGNED-PAYLOAD" → sha256 b1 = sha256 b2.
Proof.
  unfold payload_hash. intros H1 H2 Hu.
  destruct (header_str headers _) as [v|].
  - destruct (decide (v = "UNSIGNED-PAYLOAD")) as [->|]; [done|].
    destruct (starts_with v _); [done|]. do 2 case_decide; try done.
    apply hex_encode_inj. unfold sha256_hex in *. congruence.
  - apply hex_encode_inj. unfold sha256_hex in *. congruence.
Qed.

(** C17: A signature stands for one request.  If the same headers are accepted
    with two requests, and HMAC and SHA-256 do not collide on the texts at
    hand, the two have the same method, the same decoded path, the same
    query parameters up to their order, and the same body unless the client
    declared the body unsigned. *)
Theorem signature_binds_request headers cfg m1 u1 b1 w1 m2 u2 b2 w2 parsed amz_date p1 p2 :
  contains_char newline m1 = false → contains_char newline m2 = false →
  (verify_sigv4 headers m1 u1 b1 cfg w1).1 = Ok tt →
  (verify_sigv4 headers m2 u2 b2 cfg w2).1 = Ok tt →
  header_str headers "authorization" ≫= parse_authorization = Some parsed →
  header_str headers "x-amz-date" = Some amz_date →
  payload_hash headers u1 b1 = Ok p1 → payload_hash headers u2 b2 = Ok p2 →
  let c1 := canonical_request m1 u1 headers (pa_signed_headers parsed) p1 in
  let c2 := canonical_request m2 u2 headers (pa_signed_headers parsed) p2 in
  let sts := string_to_sign amz_date (pa_date parsed) (pa_region parsed) in
  no_collision (hmac_sha256 (signing_key (s3_secret_key cfg) (pa_date parsed) (pa_region parsed)))
    (as_bytes (sts c1)) (as_bytes (sts c2)) →
  no_collision sha256 (as_bytes c1) (as_bytes c2) → no_collision sha256 b1 b2 →
  m1 = m2 ∧ decoded_path (uri_path u1) = decoded_path (uri_path u2) ∧
  query_pairs (default EmptyString (uri_query u1)) = query_pairs (default EmptyString (uri_query u2)) ∧
  (header_str headers "x-amz-content-sha256" ≠ Some "UNSIGNED-PAYLOAD" → b1 = b2).
Proof.
  intros Hm1 Hm2 H1 H2 Hpa Hd Hp1 Hp2 c1 c2 sts Hmac Hsha Hbody.
  apply verify_sigv4_ok in H1 as (pa & d & t & p & Hpa1 & _ & Hd1 & _ & _ & Hq1 & Hs1).
  apply verify_sigv4_ok in H2 as (pa' & d' & t' & p' & Hpa2 & _ & Hd2 & _ & _ & Hq2 & Hs2).
  assert (pa = parsed ∧ pa' = parsed) as [-> ->] by (split; congruence).
  assert (d = amz_date ∧ d' = amz_date) as [-> ->] by (split; congruence).
  assert (p = p1 ∧ p' = p2) as [-> ->] by (split; congruence).
  rewrite <- Hs2 in Hs1. unfold computed_signature in Hs1.
  apply hex_encode_inj, Hmac, as_bytes_inj, string_to_sign_inj, Hsha, as_bytes_inj in Hs1.
  apply canonical_request_inj in Hs1 as (-> & Hpath & Hquery & ->); [|done..].
  split_and!; try done. intros Hu. apply Hbody. by eapply payload_hash_inj.
Qed.
End canonical.

(** ** What a client signs

    The procedure of a client (the [client_sign] of the tests of s3/auth.rs),
    with the list of the headers it chose to sign. *)
Definition insert_header (name value : string) (headers : HeaderMap) : HeaderMap :=
  λ n, if decide (n = name) then Some value else headers n.

Section client.
Context `{X : Externals, !ExternalsLaws X}.

Definition authorization_text (access_key date region : string) (names : list string)
    (signature : string) : string :=
  "AWS4-HMAC-SHA256 Credential=" +:+ access_key +:+ "/" +:+ (date +:+ "/" +:+ region +:+ "/s3/aws4_request")
    +:+ ", SignedHeaders=" +:+ join ";" names +:+ ", Signature=" +:+ signature.

Definition client_sign (method : Method) (uri : Uri) (headers : HeaderMap) (names : list string)
    (body : bytes) (access_key secret_key region date amz_date : string) : HeaderMap :=
  let hashed_payload := sha256_hex body in
  let headers := insert_header "x-amz-content-sha256" hashed_payload
                   (insert_header "x-amz-date" amz_date headers) in
  let canonical := canonical_request method uri headers names hashed_payload in
  let key := signing_key secret_key date region in
  let signature := hex_encode (hmac_sha256 key
                     (as_bytes (string_to_sign amz_date date region canonical))) in
  insert_header "authorization" (authorization_text access_key date region names signature) headers.

(** Texts without white space and without the separators of the header. *)
Definition plain (c : ascii) : Prop :=
  33 ≤ char_val c ≤ 126 ∧ c ≠ ","%char ∧ c ≠ "/"%char ∧ c ≠ ";"%char.

Lemma plain_no_space c : 33 ≤ char_val c ≤ 126 → Ascii.is_space c = false.
Proof using Type.
  destruct c as [[] [] [] [] [] [] [] []]; try done;
    vm_compute; intros [H _]; by destruct H.
Qed.

Lemma hex_plain b : all_chars plain (hex_encode b).
Proof.
  eapply all_chars_impl; [|apply hex_encode_digits]. intros c Hc.
  assert (48 ≤ char_val c ≤ 57 ∨ 97 ≤ char_val c ≤ 102) as Hr.
  { destruct Hc as [Hc|Hc]; [left; apply is_ascii_digit_range in Hc; lia|by right]. }
  split; [lia|]. clear Hc. split_and!; intros ->; revert Hr; vm_compute;
    intros [[H1 H2]|[H1 H2]]; first [exact (H1 eq_refl)|exact (H2 eq_refl)].
Qed.

Lemma plain_free (c : ascii) s : ¬ plain c → all_chars plain s → contains_char c s = false.
Proof using Type. apply all_chars_free. Qed.

Lemma plain_no_spaces s : all_chars plain s → all_chars (λ c, Ascii.is_space c = false) s.
Proof using Type. apply all_chars_impl. intros c [H _]. by apply plain_no_space. Qed.

Lemma names_no_spaces names :
  Forall (all_chars plain) names → all_chars (λ c, Ascii.is_space c = false) (join ";" names).
Proof using Type.
  intros Hn. apply all_chars_join; [by repeat constructor|].
  eapply Forall_impl; [exact Hn|]. apply plain_no_spaces.
Qed.

Lemma names_free names : Forall (all_chars plain) names → contains_char "," (join ";" names) = false.
Proof using Type.
  intros Hn. apply (all_chars_free (λ c, plain c ∨ c = ";"%char)); [intros [[_ [? _]]|?]; done|].
  apply all_chars_join; [by repeat constructor; right|].
  eapply Forall_impl; [exact Hn|]. intros p. apply all_chars_impl. auto.
Qed.

Lemma authorization_parts a b c v :
  all_chars (λ c, Ascii.is_space c = false) v →
  authorization_part (a, b, c) ("Credential=" +:+ v) = (Some v, b, c) ∧
  authorization_part (a, b, c) (" " +:+ ("SignedHeaders=" +:+ v)) = (a, Some v, c) ∧
  authorization_part (a, b, c) (" " +:+ ("Signature=" +:+ v)) = (a, b, Some v).
Proof using Type.
  intros Hv. assert (∀ p, all_chars (λ c, Ascii.is_space c = false) p →
    trim (p +:+ v) = p +:+ v ∧ trim (" " +:+ (p +:+ v)) = p +:+ v) as Htrim.
  { intros p Hp. split; [apply trim_id|apply trim_spaces_front; [by repeat constructor|]];
      by apply all_chars_app. }
  unfold authorization_part. split_and!.
  - rewrite (proj1 (Htrim "Credential=" ltac:(by repeat constructor))). by rewrite strip_prefix_app.
  - rewrite (proj2 (Htrim "SignedHeaders=" ltac:(by repeat constructor))).
    change (strip_prefix "Credential=" ("SignedHeaders=" +:+ v)) with (@None string).
    by rewrite strip_prefix_app.
  - rewrite (proj2 (Htrim "Signature=" ltac:(by repeat constructor))).
    change (strip_prefix "Credential=" ("Signature=" +:+ v)) with (@None string).
    change (strip_prefix "SignedHeaders=" ("Signature=" +:+ v)) with (@None string).
    by rewrite strip_prefix_app.
Qed.

(** Reading back the header a client writes. *)
Lemma parse_authorization_text access_key date region names signature :
  all_chars plain access_key → all_chars plain date → all_chars plain region →
  Forall (all_chars plain) names → all_chars plain signature → names ≠ [] →
  Forall (λ n, to_lowercase n = n) names → StronglySorted str_le names →
  parse_authorization (authorization_text access_key date region names signature) =
  Some (mkParsedAuth access_key date region names signature).
Proof using Type.
  intros Hak Hd Hr Hn Hs Hne Hlow Hsort.
  set (cred := access_key +:+ String "/" (date +:+ String "/" (region +:+ "/s3/aws4_request"))).
  assert (authorization_text access_key date region names signature =
    "AWS4-HMAC-SHA256 " +:+ join "," ["Credential=" +:+ cred;
      " " +:+ ("SignedHeaders=" +:+ join ";" names); " " +:+ ("Signature=" +:+ signature)]) as ->.
  { unfold authorization_text, cred. cbn [join]. autorewrite with strings. reflexivity. }
  unfold parse_authorization. rewrite strip_prefix_app. unfold mbind at 1, option_bind at 1. cbv beta iota.
  assert (all_chars (λ c, plain c ∨ c = "/"%char) cred) as Hcred.
  { assert (∀ s, all_chars plain s → all_chars (λ c, plain c ∨ c = "/"%char) s) as Hi
      by (intros s; apply all_chars_impl; auto).
    unfold cred. rewrite !all_chars_app, !all_chars_cons, !all_chars_app, !all_chars_cons, !all_chars_app.
    assert (all_chars (λ c, plain c ∨ c = "/"%char) "/s3/aws4_request").
    { repeat (apply all_chars_cons; split; [first [by right|left; by vm_compute]|]). constructor. }
    split_and!; auto. }
  assert (all_chars (λ c, Ascii.is_space c = false) cred) as Hcs.
  { eapply all_chars_impl; [|exact Hcred]. intros c [[? _]| ->]; [by apply plain_no_space|done]. }
  rewrite split_join; [|done|].
  2:{ repeat constructor; autorewrite with strings; simpl.

      - apply (all_chars_free (λ c, plain c ∨ c = "/"%char)); [intros [[_ [? _]]|?]; done|done].
      - by apply names_free.
      - apply plain_free; [intros [_ [? _]]; done|done]. }
  cbn [foldl]. rewrite (proj1 (authorization_parts _ _ _ _ Hcs)).
  rewrite (proj1 (proj2 (authorization_parts _ _ _ _ (names_no_spaces _ Hn)))).
  rewrite (proj2 (proj2 (authorization_parts _ _ _ _ (plain_no_spaces _ Hs)))).
  assert (splitn 5 "/" cred = [access_key; date; region; "s3"; "aws4_request"]) as Hsp.
  { unfold cred. cbn [splitn].
    do 3 (rewrite split_once_app by (by apply plain_free; [intros [_ [_ [? _]]]; done|])).
    done. }
  unfold mbind, option_bind. cbv beta iota zeta. rewrite Hsp. f_equal. f_equal.
  rewrite split_join; [|done|].
  - assert (map to_lowercase names = names) as ->.
    { rewrite <- (list_fmap_id names) at 2. apply list_fmap_ext. intros i n Hi.
      rewrite Forall_forall in Hlow. by eapply Hlow, list_elem_of_lookup_2. }
    apply (StronglySorted_unique str_le); [|done|apply merge_sort_Permutation].
    apply StronglySorted_merge_sort; apply _.
  - eapply Forall_impl; [exact Hn|]. intros n. apply plain_free. by intros [_ [_ [_ ?]]].
Qed.

Lemma header_str_visible name v (headers : HeaderMap) :
  all_chars (λ c, 32 ≤ char_val c ≤ 126) v → headers name = Some v → header_str headers name = Some v.
Proof. intros Hv Hn. unfold header_str. rewrite Hn. by apply header_to_str_visible. Qed.

Lemma plain_visible s : all_chars plain s → all_chars (λ c, 32 ≤ char_val c ≤ 126) s.
Proof using Type. apply all_chars_impl. intros c [H _]. lia. Qed.

Lemma authorization_text_visible access_key date region names signature :
  all_chars plain access_key → all_chars plain date → all_chars plain region →
  Forall (all_chars plain) names → all_chars plain signature →
  all_chars (λ c, 32 ≤ char_val c ≤ 126)
    (authorization_text access_key date region names signature).
Proof using Type.
  intros Hak Hd Hr Hn Hs.
  assert (∀ l, forallb (λ c, (32 <=? char_val c) && (char_val c <=? 126))
                 (String.list_ascii_of_string l) = true →
           all_chars (λ c, 32 ≤ char_val c ≤ 126) l) as Hlit.
  { intros l Hl. apply Forall_forall. intros c Hc%list_elem_of_In.
    rewrite forallb_forall in Hl. specialize (Hl c Hc). lia. }
  assert (all_chars (λ c, 32 ≤ char_val c ≤ 126) (join ";" names)) as Hj.
  { apply all_chars_join; [by apply Hlit|]. eapply Forall_impl; [exact Hn|]. apply plain_visible. }
  apply plain_visible in Hak, Hd, Hr, Hs.
  unfold authorization_text. rewrite !all_chars_app.
  split_and!; first [assumption|by apply Hlit].
Qed.

Lemma canonical_headers_insert name v headers names :
  name ∉ names → canonical_headers (insert_header name v headers) names = canonical_headers headers names.
Proof using Type.
  intros Hn. unfold canonical_headers. do 2 f_equal. apply map_ext_in. intros n Hin%list_elem_of_In.
  unfold header_line, header_str, insert_header. rewrite decide_False; [done|]. by intros ->.
Qed.

Lemma canonical_request_insert m u name v headers names p :
  name ∉ names →
  canonical_request m u (insert_header name v headers) names p = canonical_request m u headers names p.
Proof using Type. intros Hn. unfold canonical_request. by rewrite canonical_headers_insert. Qed.

(** C16: A client that signs with the configured keys is let in.  Whatever the
    method, the path, the query, the other headers and the body, a request
    signed by the client's procedure within fifteen minutes of the clock is
    accepted, and checking it changes nothing. *)
Theorem signed_request_accepted method uri headers names body cfg region date amz_date t w :
  all_chars plain (s3_access_key cfg) → all_chars plain date → all_chars plain region →
  all_chars plain amz_date → Forall (all_chars plain) names → names ≠ [] →
  Forall (λ n, to_lowercase n = n) names → StronglySorted str_le names →
  "authorization" ∉ names → chrono_parse_amz_date amz_date = Some t →
  skew_seconds (w_now w) t ≤ 900 →
  verify_sigv4
    (client_sign method uri headers names body (s3_access_key cfg) (s3_secret_key cfg) region date amz_date)
    method uri body cfg w = (Ok tt, w).
Proof.
  intros Hak Hd Hr Hamz Hn Hne Hlow Hsort Hauth Ht Hskew.
  rewrite (surjective_pairing (verify_sigv4 _ _ _ _ _ _)), verify_sigv4_state. f_equal.
  apply verify_sigv4_ok.
  unfold client_sign. set (h2 := insert_header "x-amz-content-sha256" _ _).
  set (canonical := canonical_request _ _ h2 _ _). set (sig := hex_encode (hmac_sha256 _ _)).
  set (h3 := insert_header "authorization" _ _).
  exists (mkParsedAuth (s3_access_key cfg) date region names sig), amz_date, t, (sha256_hex body).
  assert (all_chars plain sig) as Hsig by apply hex_plain.
  split_and!; try done.
  - rewrite (header_str_visible "authorization" _ h3 (authorization_text_visible _ _ _ _ _ Hak Hd Hr Hn Hsig))
      by done. by apply parse_authorization_text.
  - apply header_str_visible; [by apply plain_visible|done].
  - unfold payload_hash. rewrite (header_str_visible _ (sha256_hex body) h3);
      [|apply plain_visible, hex_plain|done].
    rewrite decide_False, decide_True; [|done|].
    2: { intros Hx. pose proof (hex_encode_digits (sha256 body)) as Hdig.
         unfold sha256_hex in Hx. rewrite Hx in Hdig. inversion Hdig as [|? ? [H1|H1]]; subst;
           [done|]. revert H1. vm_compute. intros [H1 _]. by destruct H1. }
    destruct (starts_with _ _) eqn:Hst; [|done]. exfalso. unfold starts_with in Hst.
    destruct (strip_prefix _ _) as [r|] eqn:Hp; [|done]. apply strip_prefix_Some in Hp.
    pose proof (hex_encode_digits (sha256 body)) as Hdig. unfold sha256_hex in Hp.
    rewrite Hp in Hdig. inversion Hdig as [|? ? [H1|H1]]; subst;
      [done|]. revert H1. vm_compute. intros [H1 _]. by destruct H1.
  - simpl. unfold computed_signature. simpl pa_date. simpl pa_region.
    unfold h3. rewrite canonical_request_insert by done. done.
Qed.
End client.

(** ** Concrete requests *)

Import Toy.

Definition s3_test_config : S3Config := mkS3Config "AKIATESTACCESSKEY" "test-secret-key-value" "us-east-1".

Definition host_header : HeaderMap := λ n, if decide (n = "host") then Some "localhost:9000" else None.

Definition signed_names : list string := ["host"; "x-amz-content-sha256"; "x-amz-date"].

Definition signed_at (method : Method) (uri : Uri) (body : bytes) : HeaderMap :=
  client_sign (X:=ToyExternals) method uri host_header signed_names body "AKIATESTACCESSKEY" "test-secret-key-value"
    "us-east-1" "20240101" "100".

Definition object_uri : Uri := mkUri "/v2/bucket/file" (Some "b=2&a=1").
Definition same_object_uri : Uri := mkUri "/v2/bucket/file" (Some "a=1&b=2").

(** A plain text, decided. *)
Definition plain_b (s : string) : bool :=
  forallb (λ c, (33 <=? char_val c) && (char_val c <=? 126) &&
    negb (char_eqb c ",") && negb (char_eqb c "/") && negb (char_eqb c ";"))
    (String.list_ascii_of_string s).

Lemma plain_b_true s : plain_b s = true → all_chars plain s.
Proof.
  unfold plain_b, all_chars. rewrite forallb_forall, Forall_forall. intros H c Hc%list_elem_of_In.
  specialize (H c Hc). unfold plain. rewrite !andb_true_iff, !negb_true_iff in H.
  destruct H as [[[H1 H2] H3] H4].
  split; [lia|]. split_and!; intros ->; rewrite char_eqb_refl in *; done.
Qed.

Lemma signed_request_accepted_witness :
  (verify_sigv4 (X:=ToyExternals) (signed_at "PUT" object_uri [Byte.x01; Byte.x02]) "PUT" object_uri [Byte.x01; Byte.x02]
     s3_test_config (set_now 200000000 zero_world)).1 = Ok tt.
Proof.
  pose proof (signed_request_accepted (X:=ToyExternals) "PUT" object_uri host_header signed_names [Byte.x01; Byte.x02]
    s3_test_config "us-east-1" "20240101" "100" 100000000 (set_now 200000000 zero_world)) as H.
  assert (∀ n, n ∈ signed_names → plain_b n = true ∧ to_lowercase n = n ∧ n ≠ "authorization") as Hn.
  { apply Forall_forall. by repeat constructor. }
  unfold signed_at. change "AKIATESTACCESSKEY" with (s3_access_key s3_test_config).
  change "test-secret-key-value" with (s3_secret_key s3_test_config).
  rewrite H; clear H; [reflexivity|by apply plain_b_true..| | | | | | |].
  - apply Forall_forall. intros n Hin. apply plain_b_true, (Hn n Hin).
  - discriminate.
  - apply Forall_forall. intros n Hin. apply (Hn n Hin).
  - by repeat constructor.
  - intros Hin. by apply (Hn _ Hin).
  - reflexivity.
  - vm_compute. discriminate.
Defined.

Lemma signature_binds_request_witness :
  let h := signed_at "PUT" object_uri [Byte.x01; Byte.x02] in
  let w := set_now 200000000 zero_world in
  (verify_sigv4 (X:=ToyExternals) h "PUT" object_uri [Byte.x01; Byte.x02] s3_test_config w).1 = Ok tt ∧
  (verify_sigv4 (X:=ToyExternals) h "PUT" same_object_uri [Byte.x01; Byte.x02] s3_test_config w).1 = Ok tt ∧
  query_pairs (X:=ToyExternals) "b=2&a=1" = query_pairs (X:=ToyExternals) "a=1&b=2".
Proof.
  cbv zeta. set (h := signed_at "PUT" object_uri [Byte.x01; Byte.x02]).
  set (w := set_now 200000000 zero_world).
  assert ((verify_sigv4 (X:=ToyExternals) h "PUT" object_uri [Byte.x01; Byte.x02] s3_test_config w).1
    = Ok tt) as H1 by (vm_compute; reflexivity).
  assert ((verify_sigv4 (X:=ToyExternals) h "PUT" same_object_uri [Byte.x01; Byte.x02] s3_test_config w).1
    = Ok tt) as H2 by (vm_compute; reflexivity).
  split; [exact H1|]. split; [exact H2|].
  set (a := parse_authorization (default "" (header_str (X:=ToyExternals) h "authorization"))).
  destruct a as [parsed|] eqn:Ea; [|vm_compute in Ea; discriminate Ea].
  pose proof (signature_binds_request (X:=ToyExternals) h s3_test_config "PUT" object_uri
    [Byte.x01; Byte.x02] w "PUT" same_object_uri [Byte.x01; Byte.x02] w parsed "100"
    "0102" "0102" eq_refl eq_refl H1 H2) as H.
  destruct H as (_ & _ & Hq & _).
  - rewrite <- Ea. vm_compute. reflexivity.
  - vm_compute. reflexivity.
  - vm_compute. reflexivity.
  - vm_compute. reflexivity.
  - intros Heq. by apply app_inv_head in Heq.
  - intros Heq. exact Heq.
  - intros Heq. exact Heq.
  - exact Hq.
Defined.
