(* ===== verification/CodecTests.v ===== *)
(** * The unit tests of the codecs and signatures

    The tests that compression.rs and s3/auth.rs keep beside their code, as
    definitions over the external crates.  The tests of range decompression
    hold for every codec that decodes what it encoded; those of the signatures
    are evaluated with the concrete hash functions of [Toy]. *)

From S2P Require Import Prelude.
From S2P Require Import Errors.
From S2P Require Import Config.
From S2P Require Import Externals.
From S2P Require Import World.
From S2P Require Import Compression.
From S2P Require Import Crypto.
From S2P Require Import Http.
From S2P Require Import S3Error.
From S2P Require Import SigV4.

(** ** decompress_range_tests *)

Module DecompressRange.
Section tests.
Context `{X : Externals}.

Definition manager (algorithm : string) : CompressionConfig :=
  mkCompressionConfig true algorithm 3 0.

(** The byte [i % 251], and [(0..len).map(..).collect()]. *)
Definition sample_byte (i : nat) : Byte.byte := default Byte.x00 (Byte.of_nat (i mod 251)).
Definition sample_data (len : nat) : bytes := sample_byte <$> seq 0 len.

(** [assert_eq!(mgr.decompress_range(..).unwrap(), expected)]: a panic is
    [false]. *)
Definition range_is (compressed : bytes) (start len : nat) (expected : option bytes) : bool :=
  match decompress_range compressed start len with
  | Ok range => bool_decide (range = expected)
  | Err _ => false
  end.

Definition slice (original : bytes) (start len : nat) : option bytes :=
  Some (take len (drop start original)).

Definition assert_range_matches (algorithm : string) : bool :=
  let original := sample_data (Z.to_nat 500000) in
  match compress (manager algorithm) original with
  | Ok compressed =>
    let tail_start := (length original - Z.to_nat 1000)%nat in
    range_is compressed (Z.to_nat 123456) (Z.to_nat 10000)
      (slice original (Z.to_nat 123456) (Z.to_nat 10000))
    && range_is compressed 0 (Z.to_nat 1000) (slice original 0 (Z.to_nat 1000))
    && range_is compressed tail_start (Z.to_nat 1000) (Some (drop tail_start original))
  | Err _ => false
  end.

Definition zstd_range_matches_full_decompress : bool := assert_range_matches "zstd".
Definition gzip_range_matches_full_decompress : bool := assert_range_matches "gzip".

Definition unrecognized_format_returns_none : bool :=
  range_is [Byte.xff; Byte.x01; Byte.x02; Byte.x03] 0 2 None.

Definition empty_input_returns_empty : bool := range_is [] 0 10 (Some []).

End tests.
End DecompressRange.

Import DecompressRange.

Lemma sample_data_length len : length (sample_data len) = len.
Proof. unfold sample_data. by rewrite length_fmap, length_seq. Qed.

Lemma range_is_slice `{X : Externals, !ExternalsLaws X} self data out start len :
  compresses self data → compress self data = Ok out → (start ≤ length data)%nat →
  range_is out start len (slice data start len) = true.
Proof.
  intros Hc Ho Hs. unfold range_is. rewrite (decompress_range_compress self data) by done.
  by apply bool_decide_eq_true_2.
Qed.

Lemma ranges_match `{X : Externals, !ExternalsLaws X} self data out start len tail :
  compresses self data → compress self data = Ok out →
  (start ≤ length data)%nat → (tail ≤ length data)%nat →
  range_is out start len (slice data start len) && range_is out 0 tail (slice data 0 tail)
  && range_is out (length data - tail) tail (Some (drop (length data - tail) data)) = true.
Proof.
  intros Hc Ho Hs Ht. rewrite !(range_is_slice self data) by (done || lia).
  replace (Some (drop _ data)) with (slice data (length data - tail) tail).
  - rewrite (range_is_slice self data) by (done || lia). done.
  - unfold slice. by rewrite take_ge by (rewrite length_drop; lia).
Qed.

(** The tests of range decompression pass with every codec that decodes what
    it encoded and does not fail on the sample. *)
Theorem range_tests_pass `{X : Externals, !ExternalsLaws X} algorithm out :
  compress (manager algorithm) (sample_data (Z.to_nat 500000)) = Ok out →
  assert_range_matches algorithm = true ∧ unrecognized_format_returns_none = true ∧
  empty_input_returns_empty = true.
Proof.
  intros Ho. split; [|done]. unfold assert_range_matches. rewrite Ho.
  set (original := sample_data _) in *.
  assert (length original = Z.to_nat 500000) as Hlen by apply sample_data_length.
  assert (compresses (manager algorithm) original) as Hc.
  { split_and!; [done|simpl; unfold zlen; lia|]. intros H. rewrite H in Hlen. simpl in Hlen. lia. }
  apply (ranges_match _ _ _ _ _ _ Hc Ho); rewrite Hlen; lia.
Qed.

(** ** s3/auth.rs, tests *)

Module Signatures.
Section tests.
Context `{X : Externals}.

(** A run of [verify_sigv4] at the time [now] ([date] and [amz_date] are that
    time, formatted), on a request of which the client signed [body] with
    [secret_key]. *)
Definition test_names : list string := ["host"; "x-amz-content-sha256"; "x-amz-date"].

Definition test_host : HeaderMap := λ n, if decide (n = "host") then Some "localhost:9000" else None.

Definition test_config : S3Config :=
  mkS3Config "AKIATESTACCESSKEY" "test-secret-key-value" "us-east-1".

Definition verifies (method : Method) (path : string) (body signed_body : bytes)
    (secret_key date amz_date : string) (w : World) : bool :=
  let uri := mkUri path None in
  let headers := client_sign method uri test_host test_names signed_body
                   (s3_access_key test_config) secret_key (s3_region test_config) date amz_date in
  is_ok (verify_sigv4 headers method uri body test_config w).1.

Definition accepts_correctly_signed_request (date amz_date : string) (w : World) : bool :=
  verifies "PUT" "/v2/mybucket/path/to/object.txt" (as_bytes "hello world") (as_bytes "hello world")
    (s3_secret_key test_config) date amz_date w.

Definition rejects_tampered_body (date amz_date : string) (w : World) : bool :=
  negb (verifies "PUT" "/v2/mybucket/object.txt" (as_bytes "tampered body!!") (as_bytes "original body")
          (s3_secret_key test_config) date amz_date w).

Definition rejects_wrong_secret_key (date amz_date : string) (w : World) : bool :=
  negb (verifies "GET" "/v2/mybucket/object.txt" [] [] "wrong-secret" date amz_date w).

Definition rejects_stale_timestamp (w : World) : bool :=
  negb (verifies "GET" "/v2/mybucket/object.txt" [] [] (s3_secret_key test_config)
          "20200101" "20200101T000000Z" w).

End tests.
End Signatures.

Import Signatures Toy.

(** The model passes the first three tests of the signatures, at a time 100
    seconds after the client's; a time stamp more than fifteen minutes old is
    rejected with every hash function, which is the fourth. *)
Theorem signature_tests_pass :
  let w := set_now 200000000 zero_world in
  Forall (λ test, test = true)
    [accepts_correctly_signed_request (X:=ToyExternals) "20240101" "100" w;
     rejects_tampered_body (X:=ToyExternals) "20240101" "100" w;
     rejects_wrong_secret_key (X:=ToyExternals) "20240101" "100" w].
Proof. repeat constructor. Qed.

Theorem stale_timestamp_test_passes `{X : Externals, !ExternalsLaws X} t w :
  chrono_parse_amz_date "20200101T000000Z" = Some t → 900 < skew_seconds (w_now w) t →
  rejects_stale_timestamp w = true.
Proof.
  intros Ht Hskew. unfold rejects_stale_timestamp, verifies.
  destruct (verify_sigv4 _ _ _ _ _ w).1 as [[]|] eqn:E; [exfalso|done].
  apply verify_sigv4_ok in E as (_ & amz_date & t' & _ & _ & _ & Hd & Ht' & Hle & _).
  unfold client_sign in Hd.
  rewrite (header_str_visible "x-amz-date" "20200101T000000Z") in Hd
    by (done || apply plain_visible, plain_b_true; reflexivity).
  injection Hd as <-. rewrite Ht in Ht'. injection Ht' as <-. lia.
Qed.
