(* ===== verification/S3.v ===== *)
(** * The S3 handlers (s3/handlers.rs, s3/mod.rs)

    Buckets and objects over the S3 protocol: every handler checks the
    signature of the request first. *)

From S2P Require Import Prelude.
From S2P Require Import Errors.
From S2P Require Import Models.
From S2P Require Import FileSystem.
From S2P Require Import Config.
From S2P Require Import Xml.
From S2P Require Import Externals.
From S2P Require Import World.
From S2P Require Import Compression.
From S2P Require Import Crypto.
From S2P Require Import Database.
From S2P Require Import Cache.
From S2P Require Import EncryptionKeys.
From S2P Require Import Performance.
From S2P Require Import Storage.
From S2P Require Import StorageWf.
From S2P Require Import Deletion.
From S2P Require Import Http.
From S2P Require Import FileHandlers.
From S2P Require Import S3Error.
From S2P Require Import SigV4.

Section s3.
Context `{X : Externals}.

Definition require_s3_config (state : AppState) : result S3Error S3Config :=
  ok_or (mkS3Error STATUS_NOT_IMPLEMENTED "NotImplemented" "S3 v2 API is not configured" "")
    (as_s3_config state).

Definition verify (state : AppState) (headers : HeaderMap) (method : Method) (uri : Uri)
    (body : bytes) : H3 unit :=
  map_err S3Failed (
    s3_config ← lift (require_s3_config state);
    verify_sigv4 headers method uri body s3_config).

Definition etag (hash_md5 : string) : string :=
  String double_quote hash_md5 +:+ String double_quote EmptyString.

(** ** Buckets *)

Definition list_buckets (state : AppState) (uri : Uri) (method : Method) (headers : HeaderMap)
    (body : bytes) : H3 Response :=
  _ ← verify state headers method uri body;
  buckets ← run_s3_storage list_buckets_with_created_at;
  let result := mkListAllMyBucketsResult XMLNS (mkOwner "local" "local")
    (map (λ '(name, created_at), mkBucketEntry name (chrono_to_rfc3339 created_at)) buckets) in
  mret (xml_response STATUS_OK (XListBuckets result)).

Definition create_bucket (state : AppState) (uri : Uri) (method : Method) (bucket : string)
    (headers : HeaderMap) (body : bytes) : H3 Response :=
  _ ← verify state headers method uri body;
  _ ← run_s3_storage (Storage.create_bucket (as_storage state) bucket);
  mret (with_header STATUS_OK "Location" ("/" +:+ bucket)).

Definition delete_bucket (state : AppState) (uri : Uri) (method : Method) (bucket : string)
    (headers : HeaderMap) (body : bytes) : H3 Response :=
  _ ← verify state headers method uri body;
  _ ← run_s3_storage (Storage.delete_bucket (as_storage state) bucket);
  mret (mkResponse STATUS_NO_CONTENT [] NoBody).

Record ListObjectsQuery := mkListObjectsQuery { lo_prefix : option string; lo_max_keys : option Z }.

(** [query.max_keys.unwrap_or(1000).clamp(1, 1000)]. *)
Definition clamp_max_keys (max_keys : option Z) : Z := Z.max 1 (Z.min 1000 (default 1000 max_keys)).

Definition object_content (f : FileInfo) : Content :=
  mkContent (fi_key f) (chrono_to_rfc3339 (fi_upload_time f)) (etag (fi_hash_md5 f))
    (fi_file_size f) "STANDARD".

Definition list_objects_v2 (state : AppState) (uri : Uri) (method : Method) (bucket : string)
    (query : ListObjectsQuery) (headers : HeaderMap) (body : bytes) : H3 Response :=
  _ ← verify state headers method uri body;
  let max_keys := clamp_max_keys (lo_max_keys query) in
  files ← run_s3_storage (Storage.list_files (as_storage state) bucket (lo_prefix query)
                            (Some (max_keys + 1)) (Some 0));
  let is_truncated := max_keys <? zlen files in
  let files := take (Z.to_nat max_keys) files in
  let result := mkListBucketResult XMLNS bucket (default EmptyString (lo_prefix query))
    (zlen files) max_keys is_truncated (map object_content files) in
  mret (xml_response STATUS_OK (XListObjects result)).

(** ** Objects *)

Definition ttl_error : S3Error := invalid_request "X-Ttl-Seconds must be a positive integer".

(** The expiry a PUT asks for with [x-ttl-seconds]. *)
Definition ttl_from_header (raw : option string) (t : DateTime) : result S3Failure (option DateTime) :=
  match raw with
  | None => Ok None
  | Some raw =>
    match parse_i64 raw with
    | None => Err (S3Failed ttl_error)
    | Some ttl =>
      if ttl <=? 0 then Err (S3Failed ttl_error)
      else match chrono_add_seconds t ttl with
           | Some e => Ok (Some e)
           | None => Err S3Panicked
           end
    end
  end.

Definition put_object (state : AppState) (uri : Uri) (method : Method) (bucket key : string)
    (headers : HeaderMap) (body : bytes) : H3 Response :=
  _ ← verify state headers method uri body;
  let storage := as_storage state in
  match header_str headers "x-amz-copy-source" with
  | Some source =>
    let source := trim_start_matches "/" source in
    src ← lift (ok_or (S3Failed (invalid_request "Invalid x-amz-copy-source"))
                  (split_once "/" source));
    let '(src_bucket, src_key) := src in
    cc ← run_s3_storage (get_file storage src_bucket src_key);
    let '(content, content_type) := cc in
    file ← run_s3_storage (store_file storage bucket key content content_type default_options);
    let result := mkCopyObjectResult XMLNS (etag (sf_hash_md5 file))
      (default EmptyString (chrono_to_rfc3339 <$> sf_upload_time file)) in
    mret (xml_response STATUS_OK (XCopy result))
  | None =>
    let content_type := header_str headers "content-type" in
    t ← now;
    expires_at ← lift (ttl_from_header (header_str headers "x-ttl-seconds") t);
    let opts := mkStoreOptions None None expires_at None None None None in
    file ← run_s3_storage (store_file storage bucket key body content_type opts);
    mret (with_header STATUS_OK "ETag" (etag (sf_hash_md5 file)))
  end.

(** [if let Ok(v) = value.parse() { headers.insert(name, v) }]. *)
Definition parsed_header (name value : string) : list (string * string) :=
  if header_from_str_ok value then [(name, value)] else [].

Definition get_object (state : AppState) (uri : Uri) (method : Method) (bucket key : string)
    (headers : HeaderMap) (body : bytes) : H3 Response :=
  _ ← verify state headers method uri body;
  let storage := as_storage state in
  cc ← run_s3_storage (get_file storage bucket key);
  let '(content, content_type) := cc in
  info ← run_s3_storage (get_file_info storage bucket key);
  let response_headers :=
    match content_type with Some ct => parsed_header "Content-Type" ct | None => [] end
    ++ parsed_header "ETag" (etag (fi_hash_md5 info)) in
  mret (mkResponse STATUS_OK response_headers (BytesBody content)).

Definition head_object (state : AppState) (uri : Uri) (method : Method) (bucket key : string)
    (headers : HeaderMap) (body : bytes) : H3 Response :=
  _ ← verify state headers method uri body;
  info ← run_s3_storage (get_file_info (as_storage state) bucket key);
  let response_headers :=
    parsed_header "Content-Type" (fi_content_type info)
    ++ parsed_header "ETag" (etag (fi_hash_md5 info))
    ++ parsed_header "Content-Length" (pretty (fi_file_size info)) in
  mret (mkResponse STATUS_OK response_headers NoBody).

Definition delete_object (state : AppState) (uri : Uri) (method : Method) (bucket key : string)
    (headers : HeaderMap) (body : bytes) : H3 Response :=
  _ ← verify state headers method uri body;
  r ← attempt (delete_file (as_storage state) bucket key);
  match r with
  | Ok _ | Err (NotFound _ _) => mret (mkResponse STATUS_NO_CONTENT [] NoBody)
  | Err e => throw (S3Failed (s3_error_from e))
  end.

(** [std::str::from_utf8]. *)
Fixpoint utf8_valid (fuel : nat) (l : list ascii) : bool :=
  match fuel, l with
  | O, _ | _, [] => true
  | Datatypes.S fuel', _ =>
    let '(valid, n) := utf8_front l in (valid : bool) && utf8_valid fuel' (drop n l)
  end.

Definition from_utf8 (b : bytes) : option string :=
  let s := bytes_to_string b in
  let l := String.list_ascii_of_string s in
  if utf8_valid (length l) l then Some s else None.

(** The loop of the batch delete: what was deleted and what failed. *)
Definition delete_objects (storage : StorageManager) (bucket : string)
    (objects : list ObjectIdentifier) : H3 (list DeletedEntry * list DeleteErrorEntry) :=
  for_each objects ([], []) (λ object acc,
    let '(deleted, errors) := acc in
    r ← attempt (delete_file storage bucket (oi_key object));
    mret match r with
         | Ok _ | Err (NotFound _ _) => (deleted ++ [mkDeletedEntry (oi_key object)], errors)
         | Err e =>
           (deleted, errors ++ [mkDeleteErrorEntry (oi_key object) "InternalError" (error_to_string e)])
         end).

Definition bucket_post (state : AppState) (uri : Uri) (method : Method) (bucket : string)
    (query : gmap string string) (headers : HeaderMap) (body : bytes) : H3 Response :=
  _ ← verify state headers method uri body;
  if decide (query !! "delete" = None) then
    throw (S3Failed (invalid_request "Unsupported POST operation on bucket"))
  else
    text ← lift (ok_or (S3Failed (invalid_request "Delete request body is not valid UTF-8"))
                   (from_utf8 body));
    request ← lift (map_result_err
                      (λ e, S3Failed (invalid_request ("Invalid Delete XML body: " +:+ e)))
                      (xml_de_delete text));
    de ← delete_objects (as_storage state) bucket (dr_object request);
    let '(deleted, errors) := de in
    mret (xml_response STATUS_OK (XDelete (mkDeleteResult XMLNS deleted errors))).

(** ** The routes under /v2 *)
Inductive S3Route :=
| RListBuckets
| RCreateBucket (bucket : string)
| RDeleteBucket (bucket : string)
| RListObjects (bucket : string) (query : ListObjectsQuery)
| RBucketPost (bucket : string) (query : gmap string string)
| RPutObject (bucket key : string)
| RGetObject (bucket key : string)
| RHeadObject (bucket key : string)
| RDeleteObject (bucket key : string).

Definition router (state : AppState) (route : S3Route) (uri : Uri) (method : Method)
    (headers : HeaderMap) (body : bytes) : H3 Response :=
  match route with
  | RListBuckets => list_buckets state uri method headers body
  | RCreateBucket bucket => create_bucket state uri method bucket headers body
  | RDeleteBucket bucket => delete_bucket state uri method bucket headers body
  | RListObjects bucket query => list_objects_v2 state uri method bucket query headers body
  | RBucketPost bucket query => bucket_post state uri method bucket query headers body
  | RPutObject bucket key => put_object state uri method bucket key headers body
  | RGetObject bucket key => get_object state uri method bucket key headers body
  | RHeadObject bucket key => head_object state uri method bucket key headers body
  | RDeleteObject bucket key => delete_object state uri method bucket key headers body
  end.
End s3.

(** ** Lemmas *)

Section facts.
Context `{X : Externals, !ExternalsLaws X}.

(** A signature check fails as a client error, or with "not implemented". *)
Lemma verify_sigv4_refusal headers m u b cfg w e :
  (verify_sigv4 headers m u b cfg w).1 = Err e → s3_status e ∈ [400; 403; 501].
Proof.
  assert (∀ e', e' = e → s3_status e' ∈ [400; 403; 501] → s3_status e ∈ [400; 403; 501]) as Hs
    by (by intros ? ->).
  unfold verify_sigv4. rewrite run_bind, run_lift.
  destruct (header_str headers "authorization") as [h|]; simpl; [|intros [= <-]; set_solver].
  rewrite run_bind, run_lift. destruct (parse_authorization h) as [p|]; simpl; [|intros [= <-]; set_solver].
  case_decide; [intros [= <-]; set_solver|]. rewrite run_bind, run_lift.
  destruct (header_str headers "x-amz-date") as [d|]; simpl; [|intros [= <-]; set_solver].
  rewrite run_bind, run_lift. destruct (chrono_parse_amz_date d); simpl; [|intros [= <-]; set_solver].
  rewrite run_bind, run_now. cbn beta iota. case_match; [intros [= <-]; set_solver|].
  rewrite run_bind, run_lift. unfold payload_hash.
  repeat (case_match || case_decide); simpl; try done;
    repeat match goal with H : _ = Ok _ |- _ => clear H | H : Err _ = Err _ |- _ => injection H as <- end;
    try (intros [= <-]); set_solver.
Qed.

Lemma verify_state state headers method uri body w : (verify state headers method uri body w).2 = w.
Proof.
  unfold verify. rewrite run_map_err, run_bind, run_lift.
  destruct (require_s3_config state); [apply verify_sigv4_state|done].
Qed.

(** Every handler starts with the check. *)
Lemma router_guarded state route uri method headers body w e :
  (verify state headers method uri body w).1 = Err e →
  router state route uri method headers body w = (Err e, w).
Proof.
  intros He. assert (∀ B (k : unit → H3 B),
    (verify state headers method uri body ≫= k) w = (Err e, w)) as Hb.
  { intros B k. pose proof (verify_state state headers method uri body w) as Hs.
    rewrite run_bind. destruct (verify _ _ _ _ _ w) as [r w']. simpl in *. by subst. }
  destruct route; apply Hb.
Qed.

Lemma router_verified state cfg headers method uri body w :
  as_s3_config state = Some cfg → (verify_sigv4 headers method uri body cfg w).1 = Ok tt →
  verify state headers method uri body w = (Ok tt, w).
Proof.
  intros Hc Hv. unfold verify, require_s3_config. rewrite Hc, run_map_err, run_bind, run_lift.
  simpl. pose proof (verify_sigv4_state headers method uri body cfg w) as Hs.
  destruct (verify_sigv4 _ _ _ _ _ w) as [r w']. simpl in *. by subst.
Qed.

(** A missing object is only ever reported where there is no row. *)
Lemma run_sql_not_found {A} (q : Stmt A) w e :
  (run_sql q w).1 = Err e → (∀ b k, e ≠ NotFound b k).
Proof.
  unfold run_sql. rewrite run_map_err. simpl. destruct (db_call q w).1; simpl; [done|].
  by intros [= <-].
Qed.

Lemma delete_row_not_found b k b' k' w :
  (delete_row (X:=X) b k w).1 = Err (NotFound b' k') → db_files (w_db w) !! (b, k) = None.
Proof.
  unfold delete_row, transaction.
  pose proof (run_sql_cases (select (λ _, tt)) w) as H0.
  pose proof (run_sql_not_found (select (λ _, tt)) w) as N0.
  destruct (run_sql _ w) as [[[]|e] w1]; simpl in N0.
  2: { intros [= ->]. by destruct (N0 _ eq_refl b' k'). }
  unfold select in H0. injection H0 as Hd0. rewrite run_bind.
  pose proof (run_sql_cases (select (λ d, db_files d !! (b, k))) w1) as H1.
  pose proof (run_sql_not_found (select (λ d, db_files d !! (b, k))) w1) as N1.
  destruct (run_sql _ w1) as [[o|e] w2]; simpl in N1.
  2: { intros [= ->]. by destruct (N1 _ eq_refl b' k'). }
  unfold select in H1. injection H1 as Ho _. subst o. rewrite run_bind, run_lift, <- Hd0.
  destruct (db_files (w_db w) !! (b, k)) as [r|]; [simpl|done]. intros Herr. exfalso.
  rewrite run_bind in Herr.
  pose proof (run_sql_not_found (select (other_references (sf_file_path r) b k)) w2) as N2.
  destruct (run_sql _ w2) as [[n|e] w3]; simpl in N2, Herr.
  2: { injection Herr as ->. by destruct (N2 _ eq_refl b' k'). }
  rewrite run_bind in Herr.
  pose proof (run_sql_not_found (delete_rows (at_key b k)) w3) as N3.
  destruct (run_sql _ w3) as [[m|e] w4]; simpl in N3, Herr.
  2: { injection Herr as ->. by destruct (N3 _ eq_refl b' k'). }
  pose proof (run_sql_not_found (select (λ _, tt)) w4) as N4.
  destruct (run_sql _ w4) as [[[]|e] w5]; simpl in N4, Herr; [done|].
  injection Herr as ->. by destruct (N4 _ eq_refl b' k').
Qed.

(** After a deletion that reports success or "not found" there is no row. *)
Lemma delete_file_gone self b k w :
  db_wf (w_db w) →
  match delete_file self b k w with
  | (Ok _, w') | (Err (NotFound _ _), w') => db_files (w_db w') !! (b, k) = None
  | _ => True
  end.
Proof.
  intros Hwf. destruct (delete_row_cases b k w Hwf) as [_ Hc].
  pose proof (λ b' k', delete_row_not_found b k b' k' w) as Hn. rewrite delete_file_eq, run_bind.
  destruct (delete_row b k w) as [[[path n]|e] w1]; simpl in Hn.
  - destruct Hc as (r & Hr & _ & _ & Hd).
    destruct (unlink_rows_kept self b k path n w1) as [Hu _].
    destruct (unlink_and_invalidate self b k path n w1) as [[[]|e] w2]; simpl in Hu.
    + rewrite Hu, Hd. simpl. apply lookup_delete_eq.
    + destruct e; try done. rewrite Hu, Hd. simpl. apply lookup_delete_eq.
  - destruct e; try done. rewrite Hc. by eapply Hn.
Qed.
End facts.

(** ** Properties *)

Section properties.
Context `{X : Externals, !ExternalsLaws X}.

(** C18: No valid signature, no effect.  On every route, a request whose
    signature does not check (or any request, when the S3 API is not
    configured) is answered with 400, 403 or 501, and the tables, the files
    and the cache stay as they are; only the random source moves, for the
    request id. *)
Theorem unverified_changes_nothing state route uri method headers body w :
  match as_s3_config state with
  | Some cfg => (verify_sigv4 headers method uri body cfg w).1 ≠ Ok tt
  | None => True
  end →
  ∃ resp, s3_answer (router state route uri method headers body) w
          = (Ok resp, set_entropy_pos (w_entropy_pos w + 16) w)
    ∧ rs_status resp ∈ [400; 403; 501].
Proof.
  intros Hv. assert (∃ e, (verify state headers method uri body w).1 = Err (S3Failed e)
    ∧ s3_status e ∈ [400; 403; 501]) as (e & He & Hst).
  { unfold verify, require_s3_config. destruct (as_s3_config state) as [cfg|].
    - rewrite run_map_err, run_bind, run_lift. simpl.
      destruct (verify_sigv4 headers method uri body cfg w).1 as [[]|e] eqn:E; [done|].
      exists e. split; [done|]. by eapply verify_sigv4_refusal.
    - eexists. split; [done|]. set_solver. }
  unfold s3_answer. rewrite (router_guarded _ _ _ _ _ _ _ _ He). simpl.
  eexists. split; [done|]. exact Hst.
Qed.

(** C34: A page of a listing.  A verified listing answers with the newest
    [n] objects of the bucket and prefix, where [n] is the wanted number
    brought into 1..1000, and says "truncated" exactly when there are more
    than [n].  (The list is sorted and has each matching row once.) *)
Theorem list_objects_page state cfg uri method bucket query headers body w :
  as_s3_config state = Some cfg → (verify_sigv4 headers method uri body cfg w).1 = Ok tt →
  w_faults w = [] →
  let n := clamp_max_keys (lo_max_keys query) in
  let rows := listing (n + 1) 0 bucket (lo_prefix query) (w_db w) in
  1 ≤ n ≤ 1000 ∧ (db_wf (w_db w) → lists_matching bucket (lo_prefix query) (w_db w) rows) ∧
  ∃ r, list_objects_v2 state uri method bucket query headers body w
         = (Ok (xml_response STATUS_OK (XListObjects r)), w) ∧
       lr_contents r = map (λ f, object_content (file_info_from f)) (take (Z.to_nat n) rows) ∧
       lr_key_count r = Z.min n (zlen rows) ∧ lr_max_keys r = n ∧
       (lr_is_truncated r = true ↔ n < zlen rows).
Proof.
  intros Hc Hv Hf n rows. assert (1 ≤ n ≤ 1000) as Hn.
  { unfold n, clamp_max_keys. lia. }
  split; [done|]. split; [apply listing_matching|]. unfold list_objects_v2.
  rewrite run_bind, (router_verified _ _ _ _ _ _ _ Hc Hv). cbn beta iota. fold n.
  rewrite run_bind. unfold run_s3_storage, Storage.list_files.
  rewrite run_map_err, run_bind. change (default 100 (Some (n + 1))) with (n + 1).
  change (default 0 (Some 0)) with 0.
  rewrite list_files_run by (done || lia). fold rows. rewrite run_ret. cbn beta iota.
  cbn [fst snd map_result_err]. rewrite run_ret. eexists. split; [reflexivity|].
  cbn [lr_contents lr_key_count lr_max_keys lr_is_truncated].
  rewrite drop_0, <- !fmap_take, take_take. change (Z.to_nat 0) with 0%nat.
  unfold zlen. rewrite !length_fmap, !length_take. split_and!; try lia.
  - rewrite <- list_fmap_compose. by rewrite Nat.min_l by lia.
  - rewrite Z.ltb_lt. lia.
Qed.

Lemma delete_objects_loop storage bucket objects d0 e0 w :
  db_wf (w_db w) →
  ∃ deleted errors w',
    for_each objects (d0, e0) (λ object acc,
      let '(deleted, errors) := acc in
      r ← attempt (F:=S3Failure) (delete_file storage bucket (oi_key object));
      mret match r with
           | Ok _ | Err (NotFound _ _) => (deleted ++ [mkDeletedEntry (oi_key object)], errors)
           | Err e =>
             (deleted, errors ++ [mkDeleteErrorEntry (oi_key object) "InternalError" (error_to_string e)])
           end) w = (Ok (d0 ++ deleted, e0 ++ errors), w') ∧
    map de_key deleted ++ map ee_key errors ≡ₚ map oi_key objects ∧
    (∀ k, k ∈ map de_key deleted → db_files (w_db w') !! (bucket, k) = None) ∧
    (∀ bk, db_files (w_db w) !! bk = None → db_files (w_db w') !! bk = None) ∧
    (∀ bk, bk ∉ map (λ o, (bucket, oi_key o)) objects →
       db_files (w_db w') !! bk = db_files (w_db w) !! bk).
Proof.
  revert d0 e0 w. induction objects as [|o l IH]; intros d0 e0 w Hwf.
  { exists [], [], w. rewrite !app_nil_r. split_and!; try done. set_solver. }
  cbn [for_each]. rewrite !run_bind, run_attempt. cbn beta iota.
  pose proof (delete_file_wf storage bucket (oi_key o) w Hwf) as Hwf1.
  pose proof (delete_file_rows storage bucket (oi_key o) w Hwf) as [_ Hrows].
  pose proof (delete_file_gone storage bucket (oi_key o) w Hwf) as Hgone.
  destruct (delete_file storage bucket (oi_key o) w) as [res w1]. cbn [fst snd] in *.
  assert (∀ bk, db_files (w_db w) !! bk = None → db_files (w_db w1) !! bk = None) as Hmono.
  { intros bk Hbk. destruct Hrows as [->|(r & _ & ->)]; [done|]. simpl.
    apply lookup_delete_None. by right. }
  assert (∀ bk, bk ≠ (bucket, oi_key o) → db_files (w_db w1) !! bk = db_files (w_db w) !! bk) as Hoth.
  { intros bk Hbk. destruct Hrows as [->|(r & _ & ->)]; [done|]. simpl. by rewrite lookup_delete_ne. }
  rewrite run_ret. cbn beta iota.
  set (gone := match res with Ok _ | Err (NotFound _ _) => true | _ => false end).
  assert (match res with
    | Ok _ | Err (NotFound _ _) => (d0 ++ [mkDeletedEntry (oi_key o)], e0)
    | Err e => (d0, e0 ++ [mkDeleteErrorEntry (oi_key o) "InternalError" (error_to_string e)])
    end = (d0 ++ (if gone then [mkDeletedEntry (oi_key o)] else []),
           e0 ++ (if gone then [] else match res with Err e =>
             [mkDeleteErrorEntry (oi_key o) "InternalError" (error_to_string e)] | _ => [] end))) as ->.
  { unfold gone. destruct res as [|[]]; by rewrite ?app_nil_r. }
  set (d1 := if gone then _ else _). set (e1 := if gone then [] else _).
  destruct (IH (d0 ++ d1) (e0 ++ e1) w1 Hwf1) as (deleted & errors & w' & Hrun & Hperm & Hdel & Hm & Ho).
  exists (d1 ++ deleted), (e1 ++ errors), w'. rewrite Hrun, !app_assoc. split; [done|].
  assert (map de_key d1 ++ map ee_key e1 = [oi_key o]) as Hone.
  { unfold d1, e1, gone. by destruct res as [|[]]. }
  split_and!.
  - rewrite !map_app. simpl. rewrite <- Hperm.
    rewrite (Permutation_app_comm (map ee_key e1)), <- app_assoc.
    change (oi_key o :: ?x) with ([oi_key o] ++ x). rewrite <- Hone. solve_Permutation.
  - intros k. rewrite map_app. intros [Hk|Hk]%elem_of_app; [|auto]. apply Hm.
    unfold d1, gone in Hk. destruct res as [|[]]; simpl in Hk;
      first [by inversion Hk|apply list_elem_of_singleton in Hk; by subst].
  - auto.
  - intros bk Hbk. rewrite map_cons, not_elem_of_cons in Hbk. destruct Hbk as [H1 H2].
    rewrite Ho, Hoth; done.
Qed.

(** C33: The answer of a batch delete.  Whatever calls fail, the batch comes
    to its end, every key asked for is reported exactly once, as deleted or
    as failed, a key reported deleted has no row any more, and no other row
    of the table changed. *)
Theorem batch_delete_reports storage bucket objects w :
  db_wf (w_db w) →
  ∃ deleted errors w',
    delete_objects storage bucket objects w = (Ok (deleted, errors), w') ∧
    map de_key deleted ++ map ee_key errors ≡ₚ map oi_key objects ∧
    (∀ k, k ∈ map de_key deleted → db_files (w_db w') !! (bucket, k) = None) ∧
    (∀ bk, bk ∉ map (λ o, (bucket, oi_key o)) objects →
       db_files (w_db w') !! bk = db_files (w_db w) !! bk).
Proof.
  intros Hwf. destruct (delete_objects_loop storage bucket objects [] [] w Hwf)
    as (deleted & errors & w' & H1 & H2 & H3 & _ & H5). by exists deleted, errors, w'.
Qed.
End properties.

(** ** Concrete requests *)

Import Toy.

Definition s3_state : AppState := mkAppState sample_storage (Some s3_test_config) None None.

Lemma unverified_changes_nothing_witness :
  ∃ resp, s3_answer (X:=ToyExternals) (router (X:=ToyExternals) s3_state (RDeleteObject "b" "a/1") object_uri "DELETE"
            (signed_at "PUT" object_uri []) []) (db_world two_rows_db)
          = (Ok resp, set_entropy_pos 16 (db_world two_rows_db)) ∧
    rs_status resp ∈ [400; 403; 501].
Proof.
  apply (unverified_changes_nothing (X:=ToyExternals) s3_state (RDeleteObject "b" "a/1") object_uri
    "DELETE" (signed_at "PUT" object_uri []) [] (db_world two_rows_db)).
  vm_compute. discriminate.
Defined.

Definition first_page : ListObjectsQuery := mkListObjectsQuery (Some "a/") (Some 1).

Lemma list_objects_page_witness :
  ∃ r, list_objects_v2 (X:=ToyExternals) s3_state object_uri "GET" "b" first_page
         (signed_at "GET" object_uri []) [] (db_world two_rows_db)
       = (Ok (xml_response (X:=ToyExternals) STATUS_OK (XListObjects r)), db_world two_rows_db) ∧
    lr_key_count r = 1 ∧ lr_is_truncated r = true ∧ map co_key (lr_contents r) = ["a/2"].
Proof.
  assert ((verify_sigv4 (X:=ToyExternals) (signed_at "GET" object_uri []) "GET" object_uri []
    s3_test_config (db_world two_rows_db)).1 = Ok tt) as Hv by (vm_compute; reflexivity).
  pose proof (list_objects_page (X:=ToyExternals) s3_state s3_test_config object_uri "GET" "b" first_page
    (signed_at "GET" object_uri []) [] (db_world two_rows_db) eq_refl Hv eq_refl) as (_ & _ & r & H).
  destruct H as (Hrun & Hc & Hk & _ & Ht). exists r. split; [exact Hrun|]. split_and!.
  - rewrite Hk. vm_compute. reflexivity.
  - apply Ht. vm_compute. reflexivity.
  - rewrite Hc. vm_compute. reflexivity.
Defined.

Lemma batch_delete_reports_witness :
  let w := set_faults [None; None; None; None; None; None; None;
                       Some (mkFault "connection reset" 0)] (db_world two_rows_db) in
  ∃ deleted errors w',
    delete_objects (X:=ToyExternals) sample_storage "b"
      [mkObjectIdentifier "a/1"; mkObjectIdentifier "a/2"; mkObjectIdentifier "absent"] w
    = (Ok (deleted, errors), w') ∧
    map de_key deleted ++ map ee_key errors ≡ₚ ["a/1"; "a/2"; "absent"] ∧
    db_files (w_db w') !! ("b", "a/1") = None ∧ map ee_key errors = ["a/2"].
Proof.
  cbv zeta. set (w := set_faults _ _).
  assert (db_wf (w_db w)) as Hwf by exact two_rows_db_wf.
  destruct (batch_delete_reports (X:=ToyExternals) sample_storage "b"
    [mkObjectIdentifier "a/1"; mkObjectIdentifier "a/2"; mkObjectIdentifier "absent"] w Hwf)
    as (deleted & errors & w' & Hrun & Hperm & Hgone & _).
  exists deleted, errors, w'. split; [exact Hrun|]. split; [exact Hperm|].
  assert (match (delete_objects (X:=ToyExternals) sample_storage "b"
    [mkObjectIdentifier "a/1"; mkObjectIdentifier "a/2"; mkObjectIdentifier "absent"] w).1 with
    | Ok (d, e) => bool_decide (map de_key d = ["a/1"; "absent"] ∧ map ee_key e = ["a/2"])
    | Err _ => false end = true) as Hc by (vm_compute; reflexivity).
  rewrite Hrun in Hc. apply bool_decide_eq_true in Hc as [Hd He].
  split; [|exact He]. apply Hgone. rewrite Hd. left.
Defined.
