(* ===== verification/Expiry.v ===== *)
(** * Files past their time to live

    What is left of a file whose time has ended is served by no route: the
    downloads check the clock themselves, and the two range reads, which do not,
    are only reached after a look at the file's information, which does. *)

From S2P Require Import Prelude.
From S2P Require Import Errors.
From S2P Require Import Models.
From S2P Require Import FileSystem.
From S2P Require Import Config.
From S2P Require Import Xml.
From S2P Require Import Externals.
From S2P Require Import World.
From S2P Require Import Compression.
From S2P Require Import Crypto.
From S2P Require Import Database.
From S2P Require Import Cache.
From S2P Require Import EncryptionKeys.
From S2P Require Import Performance.
From S2P Require Import Storage.
From S2P Require Import StorageWf.
From S2P Require Import Deletion.
From S2P Require Import Upload.
From S2P Require Import Tasks.
From S2P Require Import Jobs.
From S2P Require Import Guarantee.
From S2P Require Import Ranges.
From S2P Require Import Http.
From S2P Require Import FileHandlers.
From S2P Require Import S3Error.
From S2P Require Import SigV4.
From S2P Require Import S3.

(** Whatever the table or the cache says of the key is out of date. *)
Record past_its_time `{X : Externals} (b k : string) (w : World) : Prop := {
  pt_row row : db_files (w_db w) !! (b, k) = Some row → expired row (w_now w) = true;
  pt_meta ser r : w_cache w !! metadata_key b k = Some ser → json_from_slice ser = Ok r →
    expired r (w_now w) = true
}.

(** Rows and cache entries may go, and nothing else happens to them. *)
Definition fading (w w' : World) : Prop :=
  (∀ bk, db_files (w_db w') !! bk = None ∨ db_files (w_db w') !! bk = db_files (w_db w) !! bk) ∧
  w_cache w' ⊆ w_cache w ∧ w_now w' = w_now w.

#[local] Instance fading_preorder : PreOrder fading.
Proof.
  split.
  - intros w. split_and!; [by right|done|done].
  - intros w1 w2 w3 (R1 & C1 & N1) (R2 & C2 & N2). split_and!; [|by etrans|congruence].
    intros bk. destruct (R2 bk) as [->| ->]; [by left|apply R1].
Qed.

#[local] Instance fading_oblivious : Oblivious fading.
Proof. split; intros w ?; (split_and!; [by right|done|done]). Qed.

Section expiry.
Context `{X : Externals} (self : StorageManager).

Lemma past_its_time_fading b k w w' : fading w w' → past_its_time b k w → past_its_time b k w'.
Proof using Type.
  intros (Hr & Hc & Hn) [H1 H2]. split; rewrite Hn.
  - intros row Hrow. destruct (Hr (b, k)) as [E|E]; rewrite E in Hrow; [done|by apply H1].
  - intros ser r Hser. eapply H2, lookup_weaken; done.
Qed.

Lemma fading_delete_rows p : respects fading (run_sql (delete_rows p)).
Proof using Type.
  apply (respects_run_sql _). intros w n d E. apply delete_rows_inv in E as ->. split_and!; [|done|done].
  intros bk. simpl. destruct (db_files (w_db w) !! bk) as [r|] eqn:Er.
  - destruct (p r) eqn:Ep; [left|right].
    + apply map_lookup_filter_None_2. right. intros r' Hr'. simpl. congruence.
    + by apply map_lookup_filter_Some_2.
  - left. apply map_lookup_filter_None_2. by left.
Qed.

Lemma fading_set_fs w s : fading w (set_fs s w).
Proof using Type. split_and!; [by right|done|done]. Qed.

Lemma fading_fs_call {A} (f : FS → result IoError A * FS) : respects fading (fs_call f).
Proof using Type. apply (respects_fs_call _). intros w. apply fading_set_fs. Qed.

Lemma fading_invalidate b k : respects fading (invalidate_file (sm_cache self) b k).
Proof using Type.
  assert (∀ keys w, fading w (set_cache (remove_keys keys (w_cache w)) w)) as Hrm.
  { intros keys w. split_and!; [by right| |done]. simpl. induction keys as [|key keys IH]; simpl; [done|].
    etrans; [apply delete_subseteq|exact IH]. }
  unfold invalidate_file, backend_del, get_async_connection. destruct (cache_backend _); [intros w; apply Hrm|].
  apply respects_bind; [typeclasses eauto| |intros []];
    apply respects_map_err, (respects_redis_call _); intros w; [split_and!; [by right|done|done]|apply Hrm].
Qed.

Lemma fading_delete_file b k : respects fading (delete_file self b k).
Proof using Type.
  pose proof fading_delete_rows as Hdel. pose proof @fading_fs_call as Hfs.
  pose proof fading_invalidate as Hinv.
  assert (∀ m : M (string * Z), respects fading m → respects fading (transaction m)) as Htr.
  { intros A. apply (respects_transaction _). intros w w' (Hr & Hc & Hn). split_and!; [by right|done|done]. }
  unfold delete_file. apply respects_bind; [typeclasses eauto| |].
  - apply Htr. solve_respects.
  - intros [path others]. solve_respects.
Qed.

(** ** What the reads of the storage manager find *)

Lemma backend_get_cached key w v :
  (backend_get (sm_cache self) key w).1 = Ok (Some v) → w_cache w !! key = Some v.
Proof using Type.
  destruct (w_cache w !! key) as [v'|] eqn:E; [|intros H; by destruct (backend_get_none self key w E v)].
  unfold backend_get, memory_get, memory_call, get_async_connection, redis_call, map_err.
  destruct (cache_backend _).
  - unfold next_fault. destruct (w_faults w) as [|[g|] fs]; simpl; congruence.
  - unfold mbind, prog_bind, next_fault. destruct (w_faults w) as [|[g|] fs] eqn:Ef; simpl; [|done|].
    + rewrite Ef. simpl. congruence.
    + destruct fs as [|[g|] fs]; simpl; congruence.
Qed.

(** The row a read goes by is the one of the table or a cached one. *)
Lemma read_metadata_source b k w row w' :
  read_metadata self b k w = (Ok row, w') →
  (db_files (w_db w) !! (b, k) = Some row
   ∨ ∃ ser, w_cache w !! metadata_key b k = Some ser ∧ json_from_slice ser = Ok row) ∧
  w_now w' = w_now w.
Proof using Type.
  unfold read_metadata. rewrite run_bind, run_attempt.
  pose proof (cache_only_get_file_metadata (sm_cache self) b k w) as (_ & Hd & Hnow).
  assert (∀ f, (get_file_metadata (sm_cache self) b k w).1 = Ok (Some f) →
    ∃ ser, w_cache w !! metadata_key b k = Some ser ∧ json_from_slice ser = Ok f) as Hcached.
  { intros f. unfold get_file_metadata. rewrite run_bind, run_attempt.
    pose proof (backend_get_cached (metadata_key b k) w) as Hb.
    destruct (backend_get _ _ w) as [[[v|]|e] w1]; simpl in *; try done.
    destruct (json_from_slice v) as [r|] eqn:Ej; [|rewrite run_bind, run_attempt; done].
    rewrite run_ret. intros [= <-]. exists v. split; [by apply Hb|done]. }
  destruct (get_file_metadata _ b k w) as [r w1]. cbn [fst snd] in *.
  assert (∀ m : M StoredFile, m = (file ← Database.get_file b k;
      _ ← attempt (F:=StorageError) (set_file_metadata (sm_cache self) b k file); mret file) →
    m w1 = (Ok row, w') → db_files (w_db w) !! (b, k) = Some row ∧ w_now w' = w_now w) as Hm.
  { intros m ->. rewrite run_bind. unfold Database.get_file. rewrite run_bind.
    pose proof (run_sql_cases (select (λ d, db_files d !! (b, k))) w1) as Hs.
    pose proof (db_only_run_sql (select (λ d, db_files d !! (b, k))) w1) as (_ & _ & Hn1).
    destruct (run_sql _ w1) as [[o|e] w2]; [|done]. unfold select in Hs. injection Hs as <- Hd2.
    rewrite run_lift. destruct (db_files (w_db w1) !! (b, k)) as [f|] eqn:E; simpl; [|done].
    rewrite run_bind, run_attempt.
    pose proof (cache_only_set_file_metadata (sm_cache self) b k f w2) as (_ & _ & Hn2).
    rewrite run_ret. intros [= <- <-]. simpl in Hn1. split; [by rewrite <- Hd|congruence]. }
  destruct r as [[f|]|e].
  - rewrite run_ret. intros [= <- <-]. split; [right; by apply Hcached|done].
  - intros H. destruct (Hm _ eq_refl H). auto.
  - intros H. destruct (Hm _ eq_refl H). auto.
Qed.

Lemma get_file_past b k w : past_its_time b k w → is_ok (get_file self b k w).1 = false.
Proof using Type.
  intros [Hr Hm]. unfold get_file. rewrite run_bind.
  destruct (read_metadata self b k w) as [[row|e] w1] eqn:E; [|done].
  apply read_metadata_source in E as [Hsrc Hnow]. rewrite run_bind, run_now, Hnow.
  assert (expired row (w_now w) = true) as ->.
  { destruct Hsrc as [H|(ser & H1 & H2)]; [by apply Hr|by eapply Hm]. }
  rewrite run_bind, run_attempt. done.
Qed.

(** The information is refused, and asking for it brings nothing back. *)
Lemma get_file_info_past b k w :
  past_its_time b k w →
  is_ok (get_file_info self b k w).1 = false ∧ past_its_time b k (get_file_info self b k w).2.
Proof using Type.
  intros Hp. unfold get_file_info, Database.get_file. rewrite !run_bind.
  pose proof (run_sql_cases (select (λ d, db_files d !! (b, k))) w) as Hs.
  assert (fading w (run_sql (select (λ d, db_files d !! (b, k))) w).2) as Hf
    by apply (respects_select fading).
  destruct (run_sql _ w) as [[o|e] w1]; cbn [fst snd] in *;
    [|split; [done|by eapply past_its_time_fading]].
  unfold select in Hs. injection Hs as <- _.
  pose proof (past_its_time_fading _ _ _ _ Hf Hp) as Hp1. destruct Hf as (_ & _ & Hn). rewrite run_lift.
  destruct (db_files (w_db w) !! (b, k)) as [row|] eqn:Er; cbn [ok_or]; [|done].
  rewrite run_bind, run_now, Hn, (pt_row _ _ _ Hp row Er), run_bind, run_attempt. cbn [fst snd].
  rewrite run_throw. split; [done|]. eapply past_its_time_fading; [apply fading_delete_file|done].
Qed.
End expiry.

(** ** The routes *)

Section routes.
Context `{X : Externals} (state : AppState).
Let self : StorageManager := as_storage state.

(** The key a request under /buckets/b/files is about. *)
Definition requested_key (path : string) : string :=
  if ends_with path "/info" then trim_end_matches "/info" path else path.

Lemma full_download_past b k range w :
  past_its_time b k w → ∃ e, (full_download self b k range w).1 = Err (Failed e).
Proof using Type.
  intros Hp. unfold full_download, run_storage. rewrite run_bind, run_map_err.
  pose proof (get_file_past self b k w Hp) as H.
  destruct (get_file self b k w) as [[c|e] w1]; [done|]. by exists e.
Qed.

(** C26: A file past its time is served by no route, before any sweep has run
    and whatever calls fail.  When what the table and the cache say of a key is
    out of date, a GET of the file is an error, with or without a range and also
    for its information, and so are GetObject and HeadObject; and a download by
    the storage manager (which an S3 copy makes) fails too.  The two range reads
    do not look at the clock themselves: the routes reach them only through the
    information of the file, which does. *)
Theorem expired_is_not_served b k w :
  past_its_time b k w →
  (∀ path headers, requested_key path = k →
     ∃ e, (handle_file_request state b path headers w).1 = Err (Failed e)) ∧
  (∀ uri method headers body,
     is_ok (get_object state uri method b k headers body w).1 = false ∧
     is_ok (head_object state uri method b k headers body w).1 = false) ∧
  is_ok (get_file self b k w).1 = false.
Proof.
  intros Hp. pose proof (get_file_past self b k w Hp) as Hget.
  destruct (get_file_info_past self b k w Hp) as [Hinfo Hp1]. split_and!; [| |done].
  - intros path headers Hkey. unfold handle_file_request. rewrite run_bind, run_lift.
    destruct (require_download_token _ _ _) as [[]|e]; [|by eexists]. cbn [map_result_err].
    fold (requested_key path). rewrite Hkey. fold self. destruct (ends_with path "/info").
    + unfold run_storage. rewrite run_bind, run_map_err.
      destruct (get_file_info self b k w) as [[i|e] w1]; [done|]. by exists e.
    + rewrite run_bind. destruct (header_str headers "range") as [v|].
      2:{ rewrite run_ret. by apply full_download_past. }
      unfold range_fast_path. rewrite run_bind, run_attempt.
      destruct (get_file_info self b k w) as [[i|e] w1]; [done|]. cbn [fst snd] in *.
      rewrite run_ret. by apply full_download_past.
  - intros uri method headers body.
    pose proof (verify_state state headers method uri body w) as Hv. split.
    + unfold get_object. rewrite run_bind.
      destruct (verify state headers method uri body w) as [[[]|e] w0]; [|done]. simpl in Hv. subst w0.
      cbv zeta. rewrite run_bind. unfold run_s3_storage. rewrite run_map_err. fold self.
      by destruct (get_file self b k w) as [[c|e] w1].
    + unfold head_object. rewrite run_bind.
      destruct (verify state headers method uri body w) as [[[]|e] w0]; [|done]. simpl in Hv. subst w0.
      rewrite run_bind. unfold run_s3_storage. rewrite run_map_err. fold self.
      by destruct (get_file_info self b k w) as [[c|e] w1].
Qed.
End routes.

(** ** A concrete file *)

(** The file "k" and its alias live until 50, and it is 60. *)
Definition expired_state : AppState := mkAppState sample_storage None None None.

Lemma expired_is_not_served_witness :
  let w := set_cache ∅ aliased_world in
  db_files (w_db w) !! ("b", "k") ≠ None ∧
  ∃ e, (handle_file_request (X:=Toy.ToyExternals) expired_state "b" "k"
          (λ name, if decide (name = "range") then Some "bytes=0-1" else None) w).1 = Err (Failed e).
Proof.
  cbv zeta.
  assert (match db_files (w_db (set_cache ∅ aliased_world)) !! ("b", "k") with
    | Some r => expired r (w_now (set_cache ∅ aliased_world)) | None => false end = true) as Hrow
    by (vm_compute; reflexivity).
  assert (∀ key, w_cache (set_cache ∅ aliased_world) !! key = None) as Hcache by reflexivity.
  generalize dependent (set_cache ∅ aliased_world). intros w Hrow Hcache.
  destruct (db_files (w_db w) !! ("b", "k")) as [r|] eqn:E; [|discriminate Hrow]. split; [discriminate|].
  destruct (expired_is_not_served (X:=Toy.ToyExternals) expired_state "b" "k" w) as [H _].
  - split.
    + intros row Hr. rewrite E in Hr. injection Hr as <-. exact Hrow.
    + intros ser r' H. rewrite Hcache in H. discriminate H.
  - apply H. reflexivity.
Defined.
