(* ===== verification/S3Objects.v ===== *)
(** * Objects over S3

    A PutObject and, later, a GetObject of the same key through the routes of
    the S3 interface, with other requests and background jobs running in
    between. *)

From S2P Require Import Prelude.
From S2P Require Import Errors.
From S2P Require Import Models.
From S2P Require Import FileSystem.
From S2P Require Import Config.
From S2P Require Import Xml.
From S2P Require Import Externals.
From S2P Require Import World.
From S2P Require Import Compression.
From S2P Require Import Crypto.
From S2P Require Import Database.
From S2P Require Import Cache.
From S2P Require Import EncryptionKeys.
From S2P Require Import Performance.
From S2P Require Import Storage.
From S2P Require Import StorageWf.
From S2P Require Import Paths.
From S2P Require Import Deletion.
From S2P Require Import Upload.
From S2P Require Import Tasks.
From S2P Require Import Jobs.
From S2P Require Import Guarantee.
From S2P Require Import Interleaving.
From S2P Require Import Confinement.
From S2P Require Import Durability.
From S2P Require Import Races.
From S2P Require Import Http.
From S2P Require Import FileHandlers.
From S2P Require Import RangeDownload.
From S2P Require Import S3Error.
From S2P Require Import SigV4.
From S2P Require Import S3.

(** A job on ordinary names that does not upload to the key, delete it or drop
    its bucket. *)
Definition elsewhere (b k : string) (e : event) : Prop :=
  ordinary_job e ∧
  match e with
  | Upload b' k' _ _ _ | Remove b' k' => (b', k') ≠ (b, k)
  | DropBucket b' => b' ≠ b
  | _ => True
  end.

Section objects.
Context `{X : Externals, !ExternalsLaws X} (state : AppState).
Let self : StorageManager := as_storage state.

Definition object_headers (content_type md5 : string) : list (string * string) :=
  parsed_header "Content-Type" content_type ++ parsed_header "ETag" (etag md5).

(** A PutObject that answers has checked the signature and stored the body. *)
Lemma put_object_stores uri b k headers content w resp w1 :
  header_str headers "x-amz-copy-source" = None → header_str headers "x-ttl-seconds" = None →
  router state (RPutObject b k) uri "PUT" headers content w = (Ok resp, w1) →
  ∃ file, store_file self b k content (header_str headers "content-type") default_options w = (Ok file, w1) ∧
    resp = with_header STATUS_OK "ETag" (etag (sf_hash_md5 file)).
Proof using Type.
  intros Hcopy Httl. simpl. unfold put_object. rewrite run_bind.
  pose proof (verify_state state headers "PUT" uri content w) as Hv.
  destruct (verify state headers "PUT" uri content w) as [[[]|e] w0]; [|done]. simpl in Hv. subst w0.
  rewrite Hcopy, Httl. cbn beta iota zeta. rewrite run_bind, run_now, run_bind, run_lift. cbn [ttl_from_header].
  rewrite run_bind. unfold run_s3_storage. rewrite run_map_err. fold self default_options.
  destruct (store_file self b k content (header_str headers "content-type") default_options w) as [[file|e] w2];
    [|done]. cbn [fst snd map_result_err]. rewrite run_ret. intros [= <- <-]. by exists file.
Qed.

(** A verified GetObject of a file that is served. *)
Lemma get_object_serves cfg uri b k headers body file raw content w :
  as_s3_config state = Some cfg → (verify_sigv4 headers "GET" uri body cfg w).1 = Ok tt →
  serves self b k file raw content w → laid_out self (w_db w) →
  Forall (λ c, c ≠ "..") (components (sm_base_path self)) →
  ordinary b k → sf_file_path file = get_file_path self b k → sf_expires_at file = None →
  ∃ w', router state (RGetObject b k) uri "GET" headers body w
        = (Ok (mkResponse STATUS_OK (object_headers (sf_content_type file) (sf_hash_md5 file)) (BytesBody content)), w').
Proof using All.
  intros Hc Hv Hs Hl Hbase Hn Hp Hx. simpl. unfold get_object.
  rewrite run_bind, (router_verified _ _ _ _ _ _ _ Hc Hv). cbn beta iota zeta.
  destruct (download_survives self b k file raw content w Hs Hl Hbase Hn Hp Hx) as (w1 & Hget & Hs1).
  rewrite run_bind. unfold run_s3_storage. rewrite run_map_err. fold self. rewrite Hget.
  cbn [fst snd map_result_err]. rewrite run_bind, run_map_err.
  assert (expired file (w_now w1) = false) as Hexp by (unfold expired; by rewrite Hx).
  destruct (serves_info self b k file raw content w1 Hs1 Hexp) as (row & -> & Ha).
  destruct Ha as (_ & _ & _ & _ & _ & Hmd5 & _).
  cbn [fst snd map_result_err]. rewrite run_ret. exists w1. by rewrite <- Hmd5.
Qed.

(** C9: What PutObject stored, GetObject returns, with anything else going on.
    A PutObject of new content that is answered, under an ordinary name and
    without a time to live, answers 200 with the MD5 of the body as its ETag;
    and after any interleaving of jobs on other keys, call by call, without
    failing calls and with jobs dropped anywhere, a correctly signed GetObject
    answers 200 with exactly the body, the content type of the PutObject (or the
    default) and the same ETag.  Assumed: the service is built by [storage_new]
    (with compression on or off), its base path has no "..", and no older content
    of the key is cached or the cache takes the new one in its place (an object
    of more than 1 MB does not replace the cached one).  (A Redis cache has a
    time to live that is not zero.) *)
Theorem put_object_get_object cfg put_uri put_headers get_uri get_headers get_body b k content w resp w1 ps w' :
  as_s3_config state = Some cfg → cache_writable (sm_cache self) →
  as_built self → w_faults w = [] → laid_out self (w_db w) →
  Forall (λ c, c ≠ "..") (components (sm_base_path self)) → ordinary b k →
  not_duplicate self content w →
  (w_cache w !! content_key b k = None ∨
   ∀ row, db_files (w_db w1) !! (b, k) = Some row → sf_file_size row ≤ MAX_CACHE_SIZE) →
  header_str put_headers "x-amz-copy-source" = None → header_str put_headers "x-ttl-seconds" = None →
  router state (RPutObject b k) put_uri "PUT" put_headers content w = (Ok resp, w1) →
  rtc (turn self (elsewhere b k) calm_surroundings) ([], w1) (ps, w') →
  (verify_sigv4 get_headers "GET" get_uri get_body cfg w').1 = Ok tt →
  let content_type := default "application/octet-stream" (header_str put_headers "content-type") in
  resp = with_header STATUS_OK "ETag" (etag (md5_hex content)) ∧
  ∃ w'', router state (RGetObject b k) get_uri "GET" get_headers get_body w'
         = (Ok (mkResponse STATUS_OK (object_headers content_type (md5_hex content)) (BytesBody content)), w'').
Proof.
  intros Hc Hcw Hbuilt Hf Hl Hbase Hn Hnd Hcold Hcopy Httl Hput Hturns Hv content_type.
  destruct (put_object_stores _ _ _ _ _ _ _ _ Hcopy Httl Hput) as (file & Hst & ->).
  destruct (upload_starts self b k content (header_str put_headers "content-type") default_options w file w1)
    as ((raw & Hs) & Hl1 & Hp & Hx & Hct & Hmd5 & Hkid); try done.
  { by eapply upload_decompresses. }
  { destruct (upload_row _ Hcw _ _ _ _ _ _ _ _ Hf Hnd Hst) as [(row & Hrow & <-) _].
    destruct Hcold as [Hcold|Hcold]; [by left|right; by apply Hcold]. }
  rewrite Hmd5. split; [done|]. fold content_type in Hct. rewrite <- Hct, <- Hmd5.
  destruct (file_survives self b k file raw content w1 ps w') as (Hs' & Hl' & _); [|done..|].
  - eapply turns_mono; [|exact Hturns]. intros e [Ho He]. split; [done|].
    destruct e; try done. by rewrite Hkid.
  - by eapply get_object_serves.
Qed.
End objects.

(** ** A concrete exchange *)

Import Toy.

Definition put_request : result S3Failure Response * World :=
  router (X:=ToyExternals) s3_state (RPutObject "b" "k") object_uri "PUT"
    (signed_at "PUT" object_uri long_text) long_text start_world.

(** An alias of the object is stored and deleted again. *)
Definition meanwhile : pool :=
  schedule (X:=ToyExternals) sample_storage
    [Jobs.Arrive (put "l" long_text); Advance 0; Jobs.Arrive (Download "b" "k"); Jobs.Finish 0;
     Jobs.Arrive (Remove "b" "l"); Jobs.Finish 2; Jobs.Drop 1]
    ([], put_request.2).

Lemma put_object_get_object_witness :
  ∃ w'', router (X:=ToyExternals) s3_state (RGetObject "b" "k") object_uri "GET"
           (signed_at "GET" object_uri []) [] meanwhile.2
         = (Ok (mkResponse STATUS_OK (object_headers (X:=ToyExternals) "application/octet-stream" "6162") (BytesBody long_text)), w'').
Proof.
  assert (is_ok put_request.1 = true) as Hok by (vm_compute; reflexivity).
  assert (rtc (turn (X:=ToyExternals) sample_storage (elsewhere "b" "k") calm_surroundings)
    ([], put_request.2) (meanwhile.1, meanwhile.2)) as Hturns.
  { rewrite <- surjective_pairing. apply schedule_turns.
    assert (∀ k, ordinary_key k = true → ordinary "b" k) as Ho.
    { intros k Hk. split; [vm_compute; reflexivity|exact Hk]. }
    repeat constructor; try apply Ho; try (vm_compute; reflexivity); discriminate. }
  assert ((verify_sigv4 (X:=ToyExternals) (signed_at "GET" object_uri []) "GET" object_uri []
    s3_test_config meanwhile.2).1 = Ok tt) as Hv by (vm_compute; reflexivity).
  destruct put_request as [[resp|e] w1] eqn:Hput; [|discriminate Hok].
  destruct (put_object_get_object (X:=ToyExternals) s3_state s3_test_config object_uri
    (signed_at "PUT" object_uri long_text) object_uri (signed_at "GET" object_uri []) [] "b" "k" long_text
    start_world resp w1 meanwhile.1 meanwhile.2) as [_ H].
  - reflexivity.
  - discriminate.
  - reflexivity.
  - reflexivity.
  - exact start_laid_out.
  - exact sample_base_plain.
  - exact ordinary_b_k.
  - intros _. vm_compute. reflexivity.
  - left. vm_compute. reflexivity.
  - vm_compute. reflexivity.
  - vm_compute. reflexivity.
  - transitivity put_request; [reflexivity|exact Hput].
  - exact Hturns.
  - exact Hv.
  - exact H.
Defined.
