(* ===== verification/App.v ===== *)
(** * The application (app.rs, s3/mod.rs)

    The route tables, what a request goes through before its handler runs, and
    the handler each route names.  Which pattern a path matches and how query
    strings and bodies are decoded is the web framework's: [Framework] collects
    these functions. *)

From S2P Require Import Prelude.
From S2P Require Import Errors.
From S2P Require Import Models.
From S2P Require Import FileSystem.
From S2P Require Import Config.
From S2P Require Import Externals.
From S2P Require Import World.
From S2P Require Import Compression.
From S2P Require Import Crypto.
From S2P Require Import Database.
From S2P Require Import Cache.
From S2P Require Import Performance.
From S2P Require Import Storage.
From S2P Require Import StorageWf.
From S2P Require Import Deletion.
From S2P Require Import Upload.
From S2P Require Import Http.
From S2P Require Import FileHandlers.
From S2P Require Import Handlers.
From S2P Require Import S3Error.
From S2P Require Import SigV4.
From S2P Require Import S3.

(** ** Routes *)

Inductive Handler :=
| H_upload_file | H_health_check | H_health_check_deep | H_list_files | H_get_bucket_stats
| H_delete_bucket | H_create_bucket | H_list_buckets | H_get_storage_stats | H_search_files
| H_handle_file_request | H_handle_file_delete | H_create_key | H_list_keys | H_deactivate_key
| H_s3_list_buckets | H_s3_create_bucket | H_s3_delete_bucket | H_s3_list_objects_v2
| H_s3_bucket_post | H_s3_put_object | H_s3_get_object | H_s3_head_object | H_s3_delete_object.

#[export] Instance Handler_eq_dec : EqDecision Handler.
Proof. solve_decision. Defined.

(** A route, and whether it is behind the limiter and the time-out. *)
Record Route := mkRoute {
  rt_pattern : string;
  rt_method : Method;
  rt_handler : Handler;
  rt_limited : bool
}.

Definition upload_router : list Route := [
  mkRoute "/buckets/:bucket/files" "POST" H_upload_file false
].

Definition main_router : list Route := [
  mkRoute "/health" "GET" H_health_check true;
  mkRoute "/health/deep" "GET" H_health_check_deep true;
  mkRoute "/buckets/:bucket/files" "GET" H_list_files true;
  mkRoute "/buckets/:bucket/stats" "GET" H_get_bucket_stats true;
  mkRoute "/buckets/:bucket" "DELETE" H_delete_bucket true;
  mkRoute "/buckets/:bucket" "POST" H_create_bucket true;
  mkRoute "/buckets" "GET" H_list_buckets true;
  mkRoute "/stats" "GET" H_get_storage_stats true;
  mkRoute "/search" "GET" H_search_files true;
  mkRoute "/buckets/:bucket/files/*path" "GET" H_handle_file_request true;
  mkRoute "/buckets/:bucket/files/*path" "DELETE" H_handle_file_delete true;
  mkRoute "/keys" "POST" H_create_key true;
  mkRoute "/keys" "GET" H_list_keys true;
  mkRoute "/keys/:key_id" "DELETE" H_deactivate_key true
].

Definition s3_router : list Route := [
  mkRoute "/v2" "GET" H_s3_list_buckets false;
  mkRoute "/v2/" "GET" H_s3_list_buckets false;
  mkRoute "/v2/:bucket" "PUT" H_s3_create_bucket false;
  mkRoute "/v2/:bucket" "DELETE" H_s3_delete_bucket false;
  mkRoute "/v2/:bucket" "GET" H_s3_list_objects_v2 false;
  mkRoute "/v2/:bucket" "POST" H_s3_bucket_post false;
  mkRoute "/v2/:bucket/*key" "PUT" H_s3_put_object false;
  mkRoute "/v2/:bucket/*key" "GET" H_s3_get_object false;
  mkRoute "/v2/:bucket/*key" "HEAD" H_s3_head_object false;
  mkRoute "/v2/:bucket/*key" "DELETE" H_s3_delete_object false
].

Definition create_router (state : AppState) : list Route :=
  upload_router ++ main_router
  ++ (if bool_decide (is_Some (as_s3_config state)) then s3_router else []).

(** ** The framework *)

(** [to_bytes(body, limit)]: the bytes, or the text of the error. *)
Abbreviation RequestBody := (Z → result string bytes).

(** The captured segments of a path, by name. *)
Abbreviation Captures := (list (string * string)).

Record Framework := mkFramework {
  (* matchit: the pattern a path matches, with the captures *)
  fw_match : list string → string → option (string * Captures);
  (* the Query, Json and Bytes extractors: a value or the status of the rejection *)
  fw_upload_query : option string → result Z UploadQuery;
  fw_list_query : option string → result Z ListFilesQuery;
  fw_search_query : option string → result Z SearchQuery;
  fw_s3_list_query : option string → result Z ListObjectsQuery;
  fw_s3_query : option string → result Z (gmap string string);
  fw_key_request : RequestBody → result Z CreateKeyRequest;
  fw_bytes : RequestBody → result Z bytes
}.

Record HttpRequest := mkHttpRequest {
  rq_method : Method;
  rq_uri : Uri;
  rq_headers : HeaderMap;
  rq_body : RequestBody
}.

(** What a client gets; the bodies of the key routes have types of their own. *)
Inductive Reply :=
| Answer (r : Response)
| KeyCreated (status : Z) (k : EncryptionKeyInfo)
| KeyList (l : list EncryptionKeyInfo).

Definition STATUS_METHOD_NOT_ALLOWED : Z := 405.

Definition status_only (status : Z) : Reply := Answer (mkResponse status [] NoBody).

(** A handler's end: its reply, the reply an error becomes, or a dropped
    connection after a panic. *)
Abbreviation Serve := (World → option Reply * World).

Section application.
Context `{X : Externals} (fw : Framework).

Definition http_answer (h : H Reply) : Serve := λ w,
  match h w with
  | (Ok r, w') => (Some r, w')
  | (Err (Failed e), w') => (Some (Answer (error_response e)), w')
  | (Err Panicked, w') => (None, w')
  end.

Definition http_response (h : H Response) : Serve := http_answer (r ← h; mret (Answer r)).

Definition s3_response (h : H3 Response) : Serve := λ w,
  match s3_answer h w with
  | (Ok r, w') => (Some (Answer r), w')
  | (Err _, w') => (None, w')
  end.

Definition reject (status : Z) : Serve := λ w, (Some (status_only status), w).

(** An extractor that fails answers before the handler runs. *)
Definition extract {A} (r : result Z A) (k : A → Serve) : Serve :=
  match r with Ok a => k a | Err status => reject status end.

(** [Path(..)]: the captures a pattern has are always there. *)
Definition capture (caps : Captures) (name : string) : result Z string :=
  ok_or STATUS_INTERNAL_SERVER_ERROR (snd <$> List.find (λ kv, bool_decide (kv.1 = name)) caps).

Definition run_handler (state : AppState) (h : Handler) (caps : Captures) (rq : HttpRequest) : Serve :=
  let uri := rq_uri rq in
  let query := uri_query uri in
  let headers := rq_headers rq in
  let method := rq_method rq in
  let bucket := extract (capture caps "bucket") in
  let s3 (k : bytes → H3 Response) := extract (fw_bytes fw (rq_body rq)) (λ body, s3_response (k body)) in
  match h with
  | H_upload_file =>
    bucket (λ b, extract (fw_upload_query fw query) (λ q,
      http_response (upload_file state b q headers (rq_body rq))))
  | H_health_check => http_response (mret health_check)
  | H_health_check_deep => http_response (health_check_deep state)
  | H_list_files =>
    bucket (λ b, extract (fw_list_query fw query) (λ q, http_response (list_files state b q headers)))
  | H_get_bucket_stats => bucket (λ b, http_response (get_bucket_stats state b))
  | H_delete_bucket => bucket (λ b, http_response (Handlers.delete_bucket state b))
  | H_create_bucket => bucket (λ b, http_response (Handlers.create_bucket state b))
  | H_list_buckets => http_response (Handlers.list_buckets state)
  | H_get_storage_stats => http_response (get_storage_stats state)
  | H_search_files => extract (fw_search_query fw query) (λ q, http_response (search_files state q headers))
  | H_handle_file_request =>
    bucket (λ b, extract (capture caps "path") (λ p, http_response (handle_file_request state b p headers)))
  | H_handle_file_delete =>
    bucket (λ b, extract (capture caps "path") (λ p, http_response (handle_file_delete state b p)))
  | H_create_key =>
    extract (fw_key_request fw (rq_body rq)) (λ req,
      http_answer (r ← create_key state req; mret (KeyCreated r.1 r.2)))
  | H_list_keys => http_answer (l ← list_keys state; mret (KeyList l))
  | H_deactivate_key => extract (capture caps "key_id") (λ k, http_response (deactivate_key state k))
  | H_s3_list_buckets => s3 (λ body, S3.list_buckets state uri method headers body)
  | H_s3_create_bucket => bucket (λ b, s3 (λ body, S3.create_bucket state uri method b headers body))
  | H_s3_delete_bucket => bucket (λ b, s3 (λ body, S3.delete_bucket state uri method b headers body))
  | H_s3_list_objects_v2 =>
    bucket (λ b, extract (fw_s3_list_query fw query) (λ q,
      s3 (λ body, list_objects_v2 state uri method b q headers body)))
  | H_s3_bucket_post =>
    bucket (λ b, extract (fw_s3_query fw query) (λ q,
      s3 (λ body, bucket_post state uri method b q headers body)))
  | H_s3_put_object =>
    bucket (λ b, extract (capture caps "key") (λ k,
      s3 (λ body, put_object state uri method b k headers body)))
  | H_s3_get_object =>
    bucket (λ b, extract (capture caps "key") (λ k,
      s3 (λ body, get_object state uri method b k headers body)))
  | H_s3_head_object =>
    bucket (λ b, extract (capture caps "key") (λ k,
      s3 (λ body, head_object state uri method b k headers body)))
  | H_s3_delete_object =>
    bucket (λ b, extract (capture caps "key") (λ k,
      s3 (λ body, delete_object state uri method b k headers body)))
  end.

Definition route_at (routes : list Route) (pattern : string) (method : Method) : option Route :=
  List.find (λ r, bool_decide (rt_pattern r = pattern ∧ rt_method r = method)) routes.

(** The route of a pattern and method; a HEAD request falls back to GET. *)
Definition find_route (routes : list Route) (pattern : string) (method : Method) : option Route :=
  match route_at routes pattern method with
  | Some r => Some r
  | None => if decide (method = "HEAD") then route_at routes pattern "GET" else None
  end.

(** The answer to HEAD has no body. *)
Definition without_body (method : Method) (reply : Reply) : Reply :=
  match reply with
  | Answer r => if decide (method = "HEAD") then Answer (mkResponse (rs_status r) (rs_headers r) NoBody) else reply
  | _ => reply
  end.

(** A request through the router; [permits] are the free permits of the
    limiter when it arrives. *)
Definition serve (state : AppState) (permits : Z) (rq : HttpRequest) : Serve :=
  let routes := create_router state in
  match fw_match fw (rt_pattern <$> routes) (uri_path (rq_uri rq)) with
  | None => reject STATUS_NOT_FOUND
  | Some (pattern, caps) =>
    match find_route routes pattern (rq_method rq) with
    | None => reject STATUS_METHOD_NOT_ALLOWED
    | Some r =>
      if rt_limited r && bool_decide (permits = 0) then reject STATUS_TOO_MANY_REQUESTS
      else λ w, let '(reply, w') := run_handler state (rt_handler r) caps rq w in
                (without_body (rq_method rq) <$> reply, w')
    end
  end.
End application.

(** ** What replies reveal *)

(** Stored bytes, or the names and sizes of stored files.  (The reply to an
    upload describes the file just uploaded.) *)
Definition reveals (reply : Reply) : bool :=
  match reply with
  | Answer r =>
    match rs_body r with
    | BytesBody _ | JsonInfos _ => true
    | JsonInfo _ => negb (bool_decide (rs_status r = STATUS_CREATED))
    | _ => false
    end
  | _ => false
  end.

(** Every result of a program. *)
Definition returns {S E A} (P : A → Prop) (m : prog S E A) : Prop :=
  ∀ w a w', m w = (Ok a, w') → P a.

Section returning.
Context {S E : Type}.

Lemma returns_bind {A B} (P : B → Prop) (m : prog S E A) (k : A → prog S E B) :
  (∀ a, returns P (k a)) → returns P (m ≫= k).
Proof. intros Hk w b w'. rewrite run_bind. destruct (m w) as [[a|e] w1]; [apply Hk|done]. Qed.

Lemma returns_ret {A} (P : A → Prop) a : P a → returns P (mret a : prog S E A).
Proof. by intros HP w b w' [= <- _]. Qed.

Lemma returns_throw {A} (P : A → Prop) e : returns P (throw e : prog S E A).
Proof. by intros w b w'. Qed.
End returning.

Create HintDb returns.
#[export] Hint Resolve returns_ret returns_throw : returns.

(** Walks a handler down to its last step. *)
Ltac solve_returns :=
  repeat first
    [ apply returns_bind; intros ?
    | apply returns_throw
    | apply returns_ret; try done
    | progress cbn beta iota zeta
    | match goal with |- returns _ (match ?x with _ => _ end) => destruct x end ].

Definition silent (s : Serve) : Prop := ∀ w reply, (s w).1 = Some reply → reveals reply = false.

Section replies.
Context `{X : Externals} (fw : Framework).

Lemma silent_reject status : silent (reject status).
Proof. by intros w reply [= <-]. Qed.

Lemma silent_extract {A} (r : result Z A) (k : A → Serve) :
  (∀ a, silent (k a)) → silent (extract r k).
Proof. intros Hk. destruct r; [apply Hk|apply silent_reject]. Qed.

Lemma silent_http (h : H Reply) : returns (λ r, reveals r = false) h → silent (http_answer h).
Proof.
  intros Hh w reply. unfold http_answer. specialize (Hh w).
  destruct (h w) as [[r|[e|]] w']; [|intros [= <-]|done].
  - intros [= <-]. by eapply Hh.
  - unfold error_response. by destruct (into_response e).
Qed.

Lemma silent_response (h : H Response) :
  returns (λ r, reveals (Answer r) = false) h → silent (http_response h).
Proof.
  intros Hh. apply silent_http. intros w r w'. rewrite run_bind. specialize (Hh w).
  destruct (h w) as [[r0|e] w1]; [|done]. intros [= <- _]. by eapply Hh.
Qed.

(** A handler that checks the download token first. *)
Lemma silent_gated state headers bucket (k : unit → H Response) token :
  as_download_protection_token state = Some token → as_protected_read_buckets state = None →
  header_str headers DOWNLOAD_TOKEN_HEADER ≠ Some token →
  silent (http_response
    (lift (map_result_err Http.Failed (require_download_token state headers bucket)) ≫= k)).
Proof.
  intros Ht Hp Hh. apply silent_response. intros w r w'. rewrite run_bind, run_lift.
  unfold require_download_token, download_is_authorized. rewrite Ht, Hp. simpl.
  by rewrite bool_decide_eq_false_2.
Qed.

Lemma find_route_in routes pattern method r : find_route routes pattern method = Some r → r ∈ routes.
Proof.
  assert (∀ m, route_at routes pattern m = Some r → r ∈ routes) as Hin.
  { intros m [H _]%List.find_some. by apply list_elem_of_In. }
  unfold find_route. destruct (route_at routes pattern method) eqn:E; [intros [= ->]; by eapply Hin|].
  case_decide; [apply Hin|done].
Qed.

Lemma without_body_reveals method reply : reveals reply = false → reveals (without_body method reply) = false.
Proof. destruct reply as [r| |]; [|done..]. simpl. by case_decide. Qed.

(** C11: With a download token configured for all buckets and the S3 API off,
    no request without the token is shown a stored file: whatever path, method,
    query and body it has, the reply holds no stored bytes and no file's name
    or size (but those of its own upload).  The statistics of buckets are not
    protected: names of buckets, numbers of files and total sizes are shown to
    anybody. *)
Theorem no_content_without_token state permits rq w token reply w' :
  as_download_protection_token state = Some token → as_protected_read_buckets state = None →
  as_s3_config state = None → header_str (rq_headers rq) DOWNLOAD_TOKEN_HEADER ≠ Some token →
  serve fw state permits rq w = (Some reply, w') → reveals reply = false.
Proof.
  intros Ht Hp Hs3 Hh. unfold serve.
  destruct (fw_match _ _ _) as [[pattern caps]|]; [|intros [= <- _]; done].
  destruct (find_route _ pattern _) as [r|] eqn:Hr; [|intros [= <- _]; done].
  apply find_route_in in Hr. destruct (_ && _); [intros [= <- _]; done|].
  assert (silent (run_handler fw state (rt_handler r) caps rq)) as Hsil.
  { unfold create_router in Hr. rewrite Hs3, bool_decide_eq_false_2, app_nil_r in Hr by (by intros []).
    unfold upload_router, main_router in Hr.
    repeat (apply elem_of_cons in Hr as [->|Hr]; [unfold run_handler; cbn [rt_handler]|]);
      try (by apply not_elem_of_nil in Hr);
      repeat (apply silent_extract; intros ?);
      try (unfold list_files, search_files, handle_file_request; by eapply silent_gated);
      first [apply silent_response|apply silent_http].
    all: unfold upload_file, health_check_deep, get_bucket_stats, Handlers.delete_bucket,
      Handlers.create_bucket, Handlers.list_buckets, get_storage_stats, handle_file_delete,
      create_key, list_keys, deactivate_key; solve_returns. }
  specialize (Hsil w). destruct (run_handler _ _ _ _ _ w) as [[reply0|] w1]; [|done].
  intros [= <- _]. apply without_body_reveals. by apply Hsil.
Qed.
End replies.

(** ** An upload and a download over HTTP *)

Section round_trip.
Context `{X : Externals, !ExternalsLaws X} (fw : Framework) (state : AppState).
Context (Hcw : cache_writable (sm_cache (as_storage state))).

(** The key and the content type an upload request names. *)
Definition upload_key (headers : HeaderMap) (t : DateTime) : string :=
  default ("file_" +:+ pretty (t / 1000000) +:+ ".bin") (extract_filename_from_content_disposition headers).

Definition upload_type (headers : HeaderMap) : string :=
  default "application/octet-stream" (header_str headers "content-type").

Lemma upload_file_ok bucket query headers body w resp w1 :
  upload_file state bucket query headers body w = (Ok resp, w1) →
  ∃ content expires opts file,
    body (max_file_size (as_storage state)) = Ok content ∧
    resolve_ttl (uq_ttl_seconds query) (w_now w) = Ok expires ∧ so_expires_at opts = expires ∧
    so_compress opts = uq_compress query ∧
    store_file (as_storage state) bucket (upload_key headers (w_now w)) content
      (Some (upload_type headers)) opts w = (Ok file, w1) ∧
    resp = mkResponse STATUS_CREATED [] (JsonInfo (file_info_from file)).
Proof using Type.
  unfold upload_file. rewrite run_bind, run_now. cbv zeta. rewrite run_bind.
  set (declared := match _ ≫= parse_u64 with Some _ => _ | None => _ end).
  assert (declared w = (Ok tt, w) ∨ ∃ e, declared w = (Err e, w)) as [->|[e ->]]; [|cbn beta iota|done].
  { subst declared. destruct (_ ≫= _); [|by left]. destruct (_ <? _); [right; by eexists|by left]. }
  rewrite run_bind. destruct (body _) as [content|e] eqn:Hb; [rewrite run_ret|rewrite run_throw; done].
  case_decide; [done|]. rewrite run_bind, run_now, run_bind, run_lift.
  destruct (resolve_ttl _ _) as [expires|] eqn:Httl; [|done]. rewrite run_bind. unfold run_storage.
  rewrite run_map_err. set (opts := mkStoreOptions _ _ _ _ _ _ _).
  fold (upload_type headers). fold (upload_key headers (w_now w)).
  destruct (store_file _ _ _ _ _ _ w) as [[file|e] w2] eqn:Hst; [|done]. cbn [map_result_err fst snd].
  rewrite run_ret. intros [= <- <-]. by exists content, expires, opts, file.
Qed.

Lemma download_ok bucket key headers content ct w w' :
  require_download_token state headers (Some bucket) = Ok tt → ends_with key "/info" = false →
  header_str headers "range" = None → header_from_str_ok ct = true →
  get_file (as_storage state) bucket key w = (Ok (content, Some ct), w') →
  handle_file_request state bucket key headers w
  = (Ok (mkResponse STATUS_OK [("Content-Type", ct); ("Accept-Ranges", "bytes")] (BytesBody content)), w').
Proof using Type.
  intros Htok Hinfo Hrange Hct Hget. unfold handle_file_request.
  rewrite run_bind, run_lift, Htok. cbn [map_result_err]. rewrite Hinfo, Hrange, run_bind, run_ret.
  unfold full_download, run_storage. rewrite run_bind, run_map_err, Hget. cbn [map_result_err fst snd].
  rewrite run_bind, run_bind. unfold header_value. rewrite Hct, !run_ret. done.
Qed.

(** The upload route, when it answers 201. *)
Lemma upload_route permits bucket query rq w resp w1 :
  fw_upload_query fw (uri_query (rq_uri rq)) = Ok query → rs_status resp = STATUS_CREATED →
  (match find_route (create_router state) "/buckets/:bucket/files" "POST" with
   | None => reject STATUS_METHOD_NOT_ALLOWED
   | Some r =>
     if rt_limited r && bool_decide (permits = 0) then reject STATUS_TOO_MANY_REQUESTS
     else λ w, let '(reply, w') := run_handler fw state (rt_handler r) [("bucket", bucket)] rq w in
               (without_body "POST" <$> reply, w')
   end) w = (Some (Answer resp), w1) →
  upload_file state bucket query (rq_headers rq) (rq_body rq) w = (Ok resp, w1).
Proof using Type.
  intros Hq Hst.
  assert (find_route (create_router state) "/buckets/:bucket/files" "POST"
          = Some (mkRoute "/buckets/:bucket/files" "POST" H_upload_file false)) as -> by done.
  cbn [rt_limited rt_handler andb]. unfold run_handler.
  assert (capture [("bucket", bucket)] "bucket" = Ok bucket) as -> by done. rewrite Hq. cbn [extract].
  unfold http_response, http_answer. rewrite run_bind.
  destruct (upload_file _ _ _ _ _ w) as [[resp0|[e|]] w0]; [|intros H|done].
  - rewrite run_ret. by intros [= <- <-].
  - injection H as <- _. revert Hst. by destruct e.
Qed.

Lemma download_route permits bucket key rq w resp w1 :
  permits ≠ 0 → handle_file_request state bucket key (rq_headers rq) w = (Ok resp, w1) →
  (match find_route (create_router state) "/buckets/:bucket/files/*path" "GET" with
   | None => reject STATUS_METHOD_NOT_ALLOWED
   | Some r =>
     if rt_limited r && bool_decide (permits = 0) then reject STATUS_TOO_MANY_REQUESTS
     else λ w, let '(reply, w') := run_handler fw state (rt_handler r) [("bucket", bucket); ("path", key)] rq w in
               (without_body "GET" <$> reply, w')
   end) w = (Some (Answer resp), w1).
Proof using Type.
  intros Hp Hh.
  assert (find_route (create_router state) "/buckets/:bucket/files/*path" "GET"
          = Some (mkRoute "/buckets/:bucket/files/*path" "GET" H_handle_file_request true)) as -> by done.
  cbn [rt_limited rt_handler]. rewrite bool_decide_eq_false_2 by done. cbn [andb].
  unfold run_handler.
  assert (capture [("bucket", bucket); ("path", key)] "bucket" = Ok bucket) as -> by done.
  assert (capture [("bucket", bucket); ("path", key)] "path" = Ok key) as -> by done.
  cbn [extract]. unfold http_response, http_answer.
  by rewrite run_bind, Hh, run_ret.
Qed.

(** A stored file expires when its upload said. *)
Lemma upload_alive bucket key content ct opts w file w1 t :
  w_faults w = [] → not_duplicate (as_storage state) content w →
  store_file (as_storage state) bucket key content ct opts w = (Ok file, w1) →
  (∀ e, so_expires_at opts = Some e → t < e) → expired file t = false.
Proof using All.
  intros Hf Hnd Hst He.
  destruct (store_file_new_inv _ Hcw _ _ _ _ _ _ _ _ Hf Hnd Hst) as (w0 & cm & ic & pr & id & ser & _ & Hn).
  destruct Hn as [_ _ -> _ _ _ _ _ _]. unfold expired. cbn [stored_row sf_expires_at].
  destruct (so_expires_at opts) as [e|]; [|done]. specialize (He e eq_refl). by apply Z.leb_gt.
Qed.

(** C8: Over HTTP, what was uploaded is what a download returns.  When an
    upload through the router is answered 201, then at any later time before the
    file expires, and whatever entries the cache has lost meanwhile, a download
    of the key the upload named, with the token where one is required and without
    a range, is answered 200 with exactly the bytes of the body and the content
    type of the upload.  Assumed: no call fails; the service is built by
    [storage_new]; the content is not stored yet; the upload does not ask for
    compression while compression is off (with ?compress=true and the default
    settings the download returns the compressed bytes); no older content of the
    key is cached, or the cache takes the new one in its place; and the key does
    not end in "/info".  (A Redis cache has a time to live that is not zero.) *)
Theorem http_upload_download up bucket query w resp w1 down permits t c :
  let key := upload_key (rq_headers up) (w_now w) in
  let ct := upload_type (rq_headers up) in
  as_built (as_storage state) → w_faults w = [] →
  (∀ content, rq_body up (max_file_size (as_storage state)) = Ok content →
     not_duplicate (as_storage state) content w) →
  (uq_compress query = Some true →
   co_enabled (cfg_compression (sm_config (as_storage state))) = true) →
  (w_cache w !! content_key bucket key = None ∨
   ∀ row, db_files (w_db w1) !! (bucket, key) = Some row → sf_file_size row ≤ MAX_CACHE_SIZE) →
  rq_method up = "POST" →
  fw_match fw (rt_pattern <$> create_router state) (uri_path (rq_uri up))
    = Some ("/buckets/:bucket/files", [("bucket", bucket)]) →
  fw_upload_query fw (uri_query (rq_uri up)) = Ok query →
  serve fw state permits up w = (Some (Answer resp), w1) → rs_status resp = STATUS_CREATED →
  c ⊆ w_cache w1 → (∀ e, resolve_ttl (uq_ttl_seconds query) (w_now w) = Ok (Some e) → t < e) →
  rq_method down = "GET" →
  fw_match fw (rt_pattern <$> create_router state) (uri_path (rq_uri down))
    = Some ("/buckets/:bucket/files/*path", [("bucket", bucket); ("path", key)]) →
  require_download_token state (rq_headers down) (Some bucket) = Ok tt →
  ends_with key "/info" = false → header_str (rq_headers down) "range" = None →
  header_from_str_ok ct = true → permits ≠ 0 →
  ∃ content w2, rq_body up (max_file_size (as_storage state)) = Ok content ∧
    serve fw state permits down (set_now t (set_cache c w1))
    = (Some (Answer (mkResponse STATUS_OK [("Content-Type", ct); ("Accept-Ranges", "bytes")]
               (BytesBody content))), w2).
Proof.
  intros key ct Hbuilt Hf Hnd Hask Hcache Hpost Hup Hq Hserve Hst Hc Halive Hget Hdown Htok Hinfo Hrange Hct Hperm.
  assert (upload_file state bucket query (rq_headers up) (rq_body up) w = (Ok resp, w1)) as Hrun.
  { unfold serve in Hserve. rewrite Hup, Hpost in Hserve.
    by eapply (upload_route permits) in Hserve. }
  destruct (upload_file_ok _ _ _ _ _ _ _ Hrun) as (content & expires & opts & file & Hb & Httl & Hexp & Hco & Hstore & _).
  pose proof (Hnd content Hb) as Hndc.
  assert (expired file t = false) as Hfresh.
  { apply (upload_alive _ _ _ _ _ _ _ _ _ Hf Hndc Hstore). intros e He. apply Halive. congruence. }
  exists content. destruct (upload_read_back (as_storage state) Hcw bucket key content (Some ct) opts w file w1 c t)
    as (w2 & Hg); try done.
  { eapply upload_decompresses; try done. by rewrite Hco. }
  { destruct (upload_row _ Hcw _ _ _ _ _ _ _ _ Hf Hndc Hstore) as [(row & Hrow & <-) _].
    destruct Hcache as [Hcache|Hcache]; [by left|right; by apply Hcache]. }
  exists w2. split; [done|]. unfold serve. rewrite Hget, Hdown.
  by apply download_route, download_ok.
Qed.
End round_trip.

(** ** Concrete requests *)

(** A matcher with the rules of the framework's patterns: a literal segment, a
    named segment, a named rest. *)
Fixpoint match_pieces (ps qs : list string) : option Captures :=
  match ps, qs with
  | [], [] => Some []
  | p :: ps', q :: qs' =>
    match p with
    | String ":" name => if decide (q = EmptyString) then None
                         else cons (name, q) <$> match_pieces ps' qs'
    | String "*" name => let rest := join "/" qs in
                         if decide (rest = EmptyString) then None else Some [(name, rest)]
    | _ => if decide (p = q) then match_pieces ps' qs' else None
    end
  | _, _ => None
  end.

Fixpoint demo_match (patterns : list string) (path : string) : option (string * Captures) :=
  match patterns with
  | [] => None
  | p :: patterns' =>
    match match_pieces (split "/" p) (split "/" path) with
    | Some caps => Some (p, caps)
    | None => demo_match patterns' path
    end
  end.

Definition demo_framework : Framework := {|
  fw_match := demo_match;
  fw_upload_query _ := Ok (mkUploadQuery None None None None None (Some 50));
  fw_list_query _ := Ok (mkListFilesQuery None None None);
  fw_search_query _ := Ok (mkSearchQuery None EmptyString None);
  fw_s3_list_query _ := Ok (mkListObjectsQuery None None);
  fw_s3_query _ := Ok ∅;
  fw_key_request _ := Ok (create_key_request None None);
  fw_bytes body := match body 2097152 with Ok b => Ok b | Err _ => Err STATUS_PAYLOAD_TOO_LARGE end
|}.

Definition open_state : AppState := app_state secure_config secure_storage.

Definition demo_headers : HeaderMap := λ name,
  if decide (name = "content-disposition") then Some "attachment; filename=dir/report.txt"
  else if decide (name = "content-type") then Some "text/plain" else None.

Definition post_request : HttpRequest :=
  mkHttpRequest "POST" (mkUri "/buckets/b/files" None) demo_headers (λ _, Ok long_content).

Definition get_request (path : string) : HttpRequest :=
  mkHttpRequest "GET" (mkUri path None) (λ _, None) (λ _, Ok []).

Definition posted : option Reply * World :=
  serve (X:=Toy.ToyExternals) demo_framework open_state 100 post_request start_world.

Lemma http_upload_download_witness :
  ∃ w2, serve (X:=Toy.ToyExternals) demo_framework open_state 100 (get_request "/buckets/b/files/dir/report.txt")
          (set_now 40 (set_cache ∅ posted.2))
        = (Some (Answer (mkResponse STATUS_OK [("Content-Type", "text/plain"); ("Accept-Ranges", "bytes")]
             (BytesBody long_content))), w2).
Proof.
  assert (match posted.1 with Some (Answer r) => bool_decide (rs_status r = STATUS_CREATED) | _ => false end = true)
    as Hst by (vm_compute; reflexivity).
  destruct posted as [[[resp| |]|] w1] eqn:E; try discriminate Hst. apply bool_decide_eq_true in Hst.
  destruct (http_upload_download (X:=Toy.ToyExternals) demo_framework open_state ltac:(discriminate)
    post_request "b" (mkUploadQuery None None None None None (Some 50)) start_world resp w1
    (get_request "/buckets/b/files/dir/report.txt") 100 40 ∅) as (content & w2 & Hb & Hs).
  - reflexivity.
  - reflexivity.
  - intros content _ _. vm_compute. reflexivity.
  - discriminate.
  - left. reflexivity.
  - reflexivity.
  - vm_compute. reflexivity.
  - reflexivity.
  - exact E.
  - exact Hst.
  - apply map_empty_subseteq.
  - intros e He. vm_compute in He. injection He as <-. lia.
  - reflexivity.
  - vm_compute. reflexivity.
  - reflexivity.
  - vm_compute. reflexivity.
  - reflexivity.
  - vm_compute. reflexivity.
  - discriminate.
  - injection Hb as <-. exists w2. exact Hs.
Defined.

Definition locked_config : Config :=
  mkConfig (cfg_server secure_config) (cfg_database secure_config) (cfg_redis secure_config)
    (cfg_cache secure_config) (cfg_storage secure_config) (cfg_crypto secure_config)
    (cfg_compression secure_config) None (Some "token") None.

Definition locked_state : AppState := app_state locked_config secure_storage.

Lemma no_content_without_token_witness :
  match (serve (X:=Toy.ToyExternals) demo_framework locked_state 100
           (get_request "/buckets/b/files/dir/report.txt") posted.2).1 with
  | Some (Answer r) => rs_status r = STATUS_FORBIDDEN ∧ reveals (Answer r) = false
  | _ => False
  end.
Proof.
  assert (match (serve (X:=Toy.ToyExternals) demo_framework locked_state 100
           (get_request "/buckets/b/files/dir/report.txt") posted.2).1 with
          | Some (Answer r) => bool_decide (rs_status r = STATUS_FORBIDDEN)
          | _ => false end = true) as Hst by (vm_compute; reflexivity).
  destruct (serve _ _ _ _ _) as [[[r| |]|] w'] eqn:E; try discriminate Hst.
  apply bool_decide_eq_true in Hst. split; [exact Hst|].
  apply (no_content_without_token (X:=Toy.ToyExternals) demo_framework locked_state 100
           (get_request "/buckets/b/files/dir/report.txt") posted.2 "token" (Answer r) w').
  - reflexivity.
  - reflexivity.
  - reflexivity.
  - vm_compute. discriminate.
  - exact E.
Defined.
