(* ===== verification/Gaps.v ===== *)
(** * Where the code keeps less than its comments and clients expect

    Behaviours at the seams of the components: options that a repeated upload
    drops, a reference count that fails, headers a client never signed, a
    query that a client sorts otherwise, the length a HEAD reports, a bucket
    created under an error reply, and the routes outside the limiter. *)

From S2P Require Import Prelude.
From S2P Require Import Errors.
From S2P Require Import Models.
From S2P Require Import FileSystem.
From S2P Require Import Config.
From S2P Require Import Xml.
From S2P Require Import Externals.
From S2P Require Import World.
From S2P Require Import Compression.
From S2P Require Import Crypto.
From S2P Require Import Database.
From S2P Require Import Cache.
From S2P Require Import EncryptionKeys.
From S2P Require Import Performance.
From S2P Require Import Storage.
From S2P Require Import StorageWf.
From S2P Require Import Deletion.
From S2P Require Import Upload.
From S2P Require Import Phases.
From S2P Require Import Http.
From S2P Require Import S3Error.
From S2P Require Import SigV4.
From S2P Require Import S3.
From S2P Require Import App.

(** ** The storage manager *)

Section storage.
Context `{X : Externals} (self : StorageManager).

(** A repeated upload of what a key holds answers with the row that is there:
    its time to live, content type and metadata stay, whatever the new request
    asked for. *)
Theorem identical_upload_ignores_options b k content ct opts existing w w1 :
  find_stored self b content w = (Ok (Some existing), w1) →
  sf_bucket existing = b → sf_key existing = k →
  store_file self b k content ct opts w = (Ok existing, w1).
Proof.
  intros Hfind Hb Hk. rewrite store_file_phases, run_bind, Hfind. unfold store_found.
  by rewrite !bool_decide_eq_true_2.
Qed.

(** The algorithm of a stored key is not looked at: whatever it is, the bytes of
    the key are used with the configured one. *)
Theorem stored_key_algorithm_ignored opts kid key algorithm content w w1 :
  should_encrypt self opts = true → so_encryption_key_id opts = Some kid →
  from_str (cr_algorithm (cfg_crypto (sm_config self))) = Ok algorithm → get_key kid w = (Ok key, w1) →
  encrypt_step self opts content w = encrypt_with_key content algorithm (ek_key_data key) w1.
Proof.
  intros Henc Hkid Ha Hk. unfold encrypt_step. by rewrite Henc, run_bind, run_lift, Ha, Hkid, run_bind, Hk.
Qed.

(** When the count of the other references fails, the deletion of a bucket
    takes it for zero and unlinks the bytes, however many rows need them. *)
Theorem failed_count_unlinks b file fault faults w :
  w_faults w = Some fault :: None :: faults →
  let w' := (clean_file self b file w).2 in
  db_files (w_db w') = db_files (w_db w) ∧ ∀ d, fs_read (w_fs w') (sf_file_path file) ≠ Ok d.
Proof.
  intros Hf. unfold clean_file. set (sql := run_sql _). set (rm := fs_call _). rewrite run_bind, run_attempt.
  assert (∃ e, sql w = (Err e, set_faults (None :: faults) w)) as [e ->].
  { subst sql. unfold run_sql, map_err, db_call, next_fault. rewrite Hf. by eexists. }
  set (w1 := set_faults _ w). cbn [fst snd]. rewrite decide_True by done. rewrite run_bind, run_bind, run_attempt.
  assert ((rm w1).2 = set_fs (unlinked (sf_file_path file) 0 (w_fs w)) (set_faults faults w)) as Hrm.
  { subst rm w1. unfold fs_call, next_fault, unlinked, fs_changing. simpl. by destruct (fs_remove_file _ _). }
  destruct (rm w1) as [r w2]. simpl in Hrm. subst w2. cbn [fst snd]. rewrite run_ret, run_bind, run_attempt.
  set (w2 := set_fs _ _).
  destruct (cache_only_invalidate_file (sm_cache self) b (sf_key file) w2) as (Hfs & Hdb & _).
  destruct (invalidate_file _ _ _ w2) as [r3 w3]. cbn [fst snd] in *. rewrite run_ret. cbn [snd].
  rewrite Hfs, Hdb. split; [done|]. intros d. apply remove_file_unreadable.
Qed.
End storage.

(** ** Signatures *)

Section signatures.
Context `{X : Externals}.

(** A header that is not among the signed ones can be added to a captured
    request, or changed, and the signature still holds: the check reads only
    the signed headers and the three it names itself. *)
Theorem unsigned_header_honoured headers name value parsed method uri body cfg w :
  header_str headers "authorization" ≫= parse_authorization = Some parsed →
  name ∉ pa_signed_headers parsed → name ∉ ["authorization"; "x-amz-date"; "x-amz-content-sha256"] →
  verify_sigv4 (insert_header name value headers) method uri body cfg w
  = verify_sigv4 headers method uri body cfg w.
Proof.
  intros Hp Hn Hthree.
  assert (∀ n, n ∈ ["authorization"; "x-amz-date"; "x-amz-content-sha256"] →
    header_str (insert_header name value headers) n = header_str headers n) as Hh.
  { intros n Hin. unfold header_str, insert_header. by rewrite decide_False by (by intros ->). }
  unfold verify_sigv4. rewrite (Hh "authorization"), (Hh "x-amz-date") by set_solver.
  rewrite !run_bind, !run_lift. destruct (header_str headers "authorization") as [h|]; [|done].
  simpl in Hp. cbn [ok_or]. rewrite !run_bind, !run_lift, Hp. cbn [ok_or]. case_decide; [done|].
  rewrite !run_bind, !run_lift. destruct (header_str headers "x-amz-date") as [d|]; [|done]. cbn [ok_or].
  rewrite !run_bind, !run_lift. destruct (chrono_parse_amz_date d) as [rt|]; [|done]. cbn [ok_or].
  rewrite !run_bind, !run_now. case_match; [done|]. rewrite !run_bind, !run_lift.
  unfold payload_hash. rewrite (Hh "x-amz-content-sha256") by set_solver.
  case_match; [|done]. by rewrite canonical_request_insert.
Qed.
End signatures.

(** *** The order of the parameters *)

Section query.
Context `{X : Externals}.

(** The canonical query of the specification of Signature Version 4: the
    encoded parameters are sorted, not the decoded ones. *)
Definition aws_query_string (query : string) : string :=
  let pairs := map query_pair (filter (λ s, s ≠ EmptyString) (split "&" query)) in
  join "&" (map (λ kv, kv.1 +:+ "=" +:+ kv.2)
              (merge_sort pair_le (map (λ kv, (uri_encode kv.1 false, uri_encode kv.2 false)) pairs))).

Definition unreserved_text (s : string) : Prop := all_chars (λ c, is_unreserved c = true) s.

Lemma uri_encode_unreserved s : unreserved_text s → uri_encode s false = s.
Proof.
  unfold unreserved_text. induction s as [|c s IH]; [done|]. intros [Hc Hs]%all_chars_cons.
  rewrite uri_encode_cons, IH by done. unfold encode_char. by rewrite Hc.
Qed.

(** For parameters of unreserved characters the canonical query is that of the
    specification. *)
Theorem query_order_agrees query :
  Forall (λ kv, unreserved_text kv.1 ∧ unreserved_text kv.2) (query_pairs query) →
  canonical_query_string query = aws_query_string query.
Proof.
  intros H. rewrite canonical_query_string_eq. unfold aws_query_string, query_pairs in *.
  rewrite merge_sort_Permutation in H. set (pairs := map query_pair _) in *.
  assert (map (λ kv, (uri_encode kv.1 false, uri_encode kv.2 false)) pairs = pairs) as ->.
  { rewrite <- (map_id pairs) at 2. apply map_ext_Forall. eapply Forall_impl; [exact H|].
    intros [k v] [Hk Hv]. simpl in *. by rewrite !uri_encode_unreserved. }
  f_equal. apply map_ext_Forall. rewrite <- merge_sort_Permutation in H.
  eapply Forall_impl; [exact H|]. intros [k v] [Hk Hv]. unfold encode_pair. simpl in *.
  by rewrite !uri_encode_unreserved.
Qed.
End query.

(** ** The S3 handlers *)

Section s3.
Context `{X : Externals} (state : AppState).

(** A bucket whose name no header can hold is created, and the answer is 500. *)
Theorem bucket_created_under_error uri method b headers body w w1 w2 :
  verify state headers method uri body w = (Ok tt, w1) →
  Storage.create_bucket (as_storage state) b w1 = (Ok tt, w2) →
  header_from_str_ok ("/" +:+ b) = false →
  ∃ text, S3.create_bucket state uri method b headers body w
          = (Ok (mkResponse STATUS_INTERNAL_SERVER_ERROR [] (TextBody text)), w2).
Proof.
  intros Hv Hc Hh. unfold S3.create_bucket, run_s3_storage, with_header.
  rewrite run_bind, Hv, run_bind, run_map_err, Hc, Hh. by eexists.
Qed.

(** Only the routes of the main router are limited: uploads and the S3 routes
    take no permit. *)
Theorem limited_routes :
  Forall (λ r, rt_limited r = true) main_router ∧
  Forall (λ r, rt_limited r = false) (upload_router ++ s3_router).
Proof. split; repeat constructor. Qed.
End s3.

(** ** Concrete runs *)

Import Toy.

Theorem query_order_differs :
  canonical_query_string (X:=ToyExternals) "z=1&{=2" = "z=1&%7B=2" ∧
  aws_query_string (X:=ToyExternals) "z=1&{=2" = "%7B=2&z=1".
Proof. vm_compute. split; reflexivity. Qed.

(** Forty equal bytes are compressed to a few and encrypted to more than forty:
    the trigger on the statistics of the bucket refuses the row, and the upload
    fails. *)
Theorem trigger_refuses_upload :
  (store_file (X:=ToyExternals) secure_storage "b" "k" (replicate 40 Byte.x61) None default_options
     start_world).1
  = Err (Errors.Database "error returned from database: violates check constraint valid_stats").
Proof. vm_compute. reflexivity. Qed.

Definition secure_state : AppState := mkAppState secure_storage (Some s3_test_config) None None.

Definition secured : World :=
  (store_file (X:=ToyExternals) secure_storage "b" "k" (replicate 100 Byte.x61) None default_options
     start_world).2.

(** A HEAD of a compressed and encrypted object reports the length of what is on
    disk, while a GET returns the hundred bytes of the upload. *)
Theorem head_reports_stored_length :
  (∃ headers, (router (X:=ToyExternals) secure_state (RHeadObject "b" "k") object_uri "HEAD"
                 (signed_at "HEAD" object_uri []) [] secured).1 = Ok (mkResponse STATUS_OK headers NoBody) ∧
              ("Content-Length", "48") ∈ headers) ∧
  ∃ headers, (router (X:=ToyExternals) secure_state (RGetObject "b" "k") object_uri "GET"
                (signed_at "GET" object_uri []) [] secured).1
             = Ok (mkResponse STATUS_OK headers (BytesBody (replicate 100 Byte.x61))).
Proof.
  split; eexists; [split|]; [vm_compute; reflexivity|repeat constructor|vm_compute; reflexivity].
Qed.
