(* ===== verification/Responses.v ===== *)
(** * Well-formed responses

    Whatever a client sends and whatever fails below, what the router answers
    is an HTTP response of the service's vocabulary: a known status, header
    values that are header values, and data only with a success. *)

From S2P Require Import Prelude.
From S2P Require Import Errors.
From S2P Require Import Models.
From S2P Require Import FileSystem.
From S2P Require Import Config.
From S2P Require Import Xml.
From S2P Require Import Externals.
From S2P Require Import World.
From S2P Require Import Compression.
From S2P Require Import Crypto.
From S2P Require Import Database.
From S2P Require Import Cache.
From S2P Require Import Performance.
From S2P Require Import Storage.
From S2P Require Import StorageWf.
From S2P Require Import Deletion.
From S2P Require Import Upload.
From S2P Require Import Http.
From S2P Require Import FileHandlers.
From S2P Require Import Handlers.
From S2P Require Import S3Error.
From S2P Require Import SigV4.
From S2P Require Import S3.
From S2P Require Import App.

(** ** Both ends of a program *)

(** Every result satisfies the one predicate, every error the other. *)
Definition ends {S E A} (P : A → Prop) (Q : E → Prop) (m : prog S E A) : Prop :=
  ∀ w, match (m w).1 with Ok a => P a | Err e => Q e end.

Section ends.
Context {S E : Type} (Q : E → Prop).

Lemma ends_bind {A B} (P0 : A → Prop) (P : B → Prop) (m : prog S E A) (k : A → prog S E B) :
  ends P0 Q m → (∀ a, P0 a → ends P Q (k a)) → ends P Q (m ≫= k).
Proof.
  intros Hm Hk w. rewrite run_bind. specialize (Hm w).
  destruct (m w) as [[a|e] w1]; [|done]. by apply Hk.
Qed.

Lemma ends_any {A B} (P : B → Prop) (m : prog S E A) (k : A → prog S E B) :
  ends (λ _, True) Q m → (∀ a, ends P Q (k a)) → ends P Q (m ≫= k).
Proof. intros Hm Hk. eapply ends_bind; [done|]. auto. Qed.

Lemma ends_ret {A} (P : A → Prop) (a : A) : P a → ends P Q (mret a : prog S E A).
Proof. by intros HP w. Qed.

Lemma ends_throw {A} (P : A → Prop) (e : E) : Q e → ends P Q (throw e : prog S E A).
Proof. by intros HQ w. Qed.

Lemma ends_lift {A} (P : A → Prop) (r : result E A) :
  match r with Ok a => P a | Err e => Q e end → ends P Q (lift r : prog S E A).
Proof. by intros Hr w. Qed.

Lemma ends_attempt {F A} (m : prog S F A) : ends (λ _, True) Q (attempt m : prog S E _).
Proof. intros w. by rewrite run_attempt. Qed.

Lemma ends_map_err {F A} (P : A → Prop) (g : F → E) (m : prog S F A) :
  ends P (λ e, Q (g e)) m → ends P Q (map_err g m).
Proof. intros Hm w. rewrite run_map_err. specialize (Hm w). by destruct (m w).1. Qed.

Lemma ends_weaken {A} (P P' : A → Prop) (m : prog S E A) :
  (∀ a, P a → P' a) → ends P Q m → ends P' Q m.
Proof. intros H Hm w. specialize (Hm w). destruct (m w).1; auto. Qed.
End ends.

(** Where nothing is said about errors. *)
Lemma ends_total {S E A} (m : prog S E A) : ends (λ _, True) (λ _, True) m.
Proof. intros w. by destruct (m w).1. Qed.

(** ** The vocabulary *)

(** 405, 415 and 422 are the framework's. *)
Definition STATUSES : list Z :=
  [200; 201; 204; 206; 400; 403; 404; 405; 409; 413; 415; 416; 422; 429; 500; 501; 503].

(** The statuses of the errors under /v2. *)
Definition S3_ERRORS : list Z := [400; 403; 404; 409; 413; 500; 501].

(** The statuses an extractor turns a request away with. *)
Definition REJECTIONS : list Z := [400; 413; 415; 422; 500].

Definition carries_data (b : Body) : bool :=
  match b with BytesBody _ | JsonInfo _ | JsonInfos _ | JsonNames _ | JsonStats _ => true | _ => false end.

Section vocabulary.
Context `{X : Externals}.

Record well_formed (r : Response) : Prop := {
  wr_status : rs_status r ∈ STATUSES;
  wr_headers : Forall (λ nv, header_from_str_ok nv.2 = true) (rs_headers r);
  wr_data : carries_data (rs_body r) = true → 200 ≤ rs_status r < 300;
  wr_range : rs_status r = STATUS_PARTIAL_CONTENT ∨ rs_status r = STATUS_RANGE_NOT_SATISFIABLE →
    "Content-Range" ∈ (rs_headers r).*1
}.

Definition well_formed_reply (reply : Reply) : Prop :=
  match reply with
  | Answer r => well_formed r
  | KeyCreated status _ => status = STATUS_CREATED
  | KeyList _ => True
  end.

(** What the header type accepts of the texts the code writes itself. *)
Definition constants_are_headers : Prop :=
  header_from_str_ok "bytes" = true ∧ header_from_str_ok "application/xml" = true.
End vocabulary.

(** The extractors turn requests away with their documented statuses. *)
Definition rejects {A} (r : result Z A) : Prop := match r with Ok _ => True | Err s => s ∈ REJECTIONS end.

Record framework_rejects (fw : Framework) : Prop := {
  fr_upload_query q : rejects (fw_upload_query fw q);
  fr_list_query q : rejects (fw_list_query fw q);
  fr_search_query q : rejects (fw_search_query fw q);
  fr_s3_list_query q : rejects (fw_s3_list_query fw q);
  fr_s3_query q : rejects (fw_s3_query fw q);
  fr_key_request b : rejects (fw_key_request fw b);
  fr_bytes b : rejects (fw_bytes fw b)
}.

(** Membership of a closed list. *)
Ltac known := apply (bool_decide_unpack _); vm_compute; exact I.

(** One list inside another, by cases. *)
Ltac included :=
  let H := fresh in intros ? H; repeat (apply elem_of_cons in H as [->|H]; [known|]);
  by apply elem_of_nil in H.

Lemma s3_error_known n : n ∈ S3_ERRORS → n ∈ STATUSES ∧ n ∉ [STATUS_PARTIAL_CONTENT; STATUS_RANGE_NOT_SATISFIABLE].
Proof. revert n. apply Forall_forall. apply (bool_decide_unpack _). vm_compute. exact I. Qed.

Lemma rejection_known n : n ∈ REJECTIONS → n ∈ STATUSES ∧ n ∉ [STATUS_PARTIAL_CONTENT; STATUS_RANGE_NOT_SATISFIABLE].
Proof. revert n. apply Forall_forall. apply (bool_decide_unpack _). vm_compute. exact I. Qed.

(** Finishes the facts about one response: its status, headers and body. *)
Ltac response :=
  split; cbn [rs_status rs_headers rs_body carries_data];
  [ known
  | repeat (apply Forall_cons; split); first [apply Forall_nil; done | done | assumption]
  | first [done | by intros [=] | intros _; by vm_compute]
  | first [by intros [|] | intros _; known ] ].

(** ** The handlers *)

Section handlers.
Context `{X : Externals} (Hc : constants_are_headers).

Abbreviation answers := (ends (E:=Failure) well_formed (λ _, True)).

Lemma header_value_ok v msg : ends (E:=Failure) (λ h, header_from_str_ok h = true) (λ _, True) (header_value v msg).
Proof. unfold header_value. destruct (header_from_str_ok v) eqn:E; by intros w. Qed.

Lemma upload_answers state b q headers body : answers (upload_file state b q headers body).
Proof.
  unfold upload_file. repeat first [apply ends_any; [apply ends_total|intros ?]
    |case_decide; [by apply ends_throw|]|progress cbv zeta]. apply ends_ret. response.
Qed.

Lemma partial_answers s e r : answers (partial_response s e r).
Proof.
  destruct Hc as [Hb _]. unfold partial_response. destruct r as [[slice ct] total].
  eapply ends_bind; [apply header_value_ok|]. intros ct' Hct.
  eapply ends_bind; [apply header_value_ok|]. intros cr Hcr. apply ends_ret. response.
Qed.

Lemma fast_path_answers storage b k range :
  ends (E:=Failure) (λ o, ∀ r, o = Some r → well_formed r) (λ _, True) (range_fast_path storage b k range).
Proof.
  destruct Hc as [Hb _]. unfold range_fast_path.
  apply ends_any; [apply ends_total|]. intros [info|e]; [|by apply ends_ret]. cbv zeta.
  destruct (parse_range_header _ _) as [[s e]|].
  - assert (∀ r, ends (E:=Failure) (λ o, ∀ r, o = Some r → well_formed r) (λ _, True)
      (resp ← partial_response s e r; mret (Some resp))) as Hpart.
    { intros r. eapply ends_bind; [apply partial_answers|]. intros resp Hr. apply ends_ret. by intros ? [= <-]. }
    assert (ends (E:=Failure) (λ o, ∀ r, o = Some r → well_formed r) (λ _, True)
      (compressed ← attempt (get_compressed_file_range storage b k s e);
       match compressed with
       | Ok (Some r) => resp ← partial_response s e r; mret (Some resp)
       | _ => mret None
       end)) as Hcomp.
    { apply ends_any; [apply ends_total|]. intros [[r|]|]; [apply Hpart|by apply ends_ret..]. }
    apply ends_any; [apply ends_total|]. intros [[r|]|]; [apply Hpart|apply Hcomp..].
  - destruct (strip_prefix "bytes=" range) as [spec|]; [|by apply ends_ret].
    destruct (negb _); [|by apply ends_ret]. eapply ends_bind; [apply header_value_ok|].
    intros cr Hcr. apply ends_ret. intros r [= <-]. response.
Qed.

Lemma download_answers storage b k range : answers (full_download storage b k range).
Proof.
  destruct Hc as [Hb _]. unfold full_download. apply ends_any; [apply ends_total|].
  intros [content ct]. cbv zeta.
  eapply (ends_bind _ (Forall (λ nv, header_from_str_ok nv.2 = true))).
  { destruct ct as [ct|]; [|by apply ends_ret]. eapply ends_bind; [apply header_value_ok|].
    intros v Hv. apply ends_ret. by repeat constructor. }
  intros hs Hhs.
  assert (Forall (λ nv : string * string, header_from_str_ok nv.2 = true) (hs ++ [("Accept-Ranges", "bytes")]))
    as Hhs' by (by apply Forall_app; split; [|repeat constructor]).
  destruct (range ≫= _) as [[s e]|]; [|apply ends_ret; response].
  apply ends_any; [apply ends_total|]. intros slice.
  eapply ends_bind; [apply header_value_ok|]. intros cr Hcr. apply ends_ret.
  split; cbn [rs_status rs_headers rs_body carries_data]; [known| |done|].
  - apply Forall_app. split; [done|by repeat constructor].
  - intros _. rewrite fmap_app. apply elem_of_app. right. known.
Qed.

Lemma file_request_answers state b path headers : answers (handle_file_request state b path headers).
Proof.
  unfold handle_file_request. apply ends_any; [apply ends_total|]. intros _. cbv zeta.
  destruct (ends_with path "/info").
  - apply ends_any; [apply ends_total|]. intros info. apply ends_ret. response.
  - eapply (ends_bind _ (λ o, ∀ r, o = Some r → well_formed r)).
    { destruct (header_str headers "range"); [apply fast_path_answers|by apply ends_ret]. }
    intros [r|] Hr; [apply ends_ret; auto|apply download_answers].
Qed.

(** The handlers that end with one storage call and one response. *)
Ltac one_call :=
  repeat first [apply ends_any; [apply ends_total|intros ?]|progress cbv zeta
    |match goal with |- ends _ _ (let '(_, _) := ?x in _) => destruct x end
    |match goal with |- ends _ _ (if ?x then _ else _) => destruct x end];
  apply ends_ret; response.

Lemma handle_file_delete_answers state b path : answers (handle_file_delete state b path).
Proof. unfold handle_file_delete. one_call. Qed.

Lemma list_files_answers state b q headers : answers (list_files state b q headers).
Proof. unfold list_files. one_call. Qed.

Lemma search_files_answers state q headers : answers (search_files state q headers).
Proof. unfold search_files. one_call. Qed.

Lemma create_bucket_answers state b : answers (Handlers.create_bucket state b).
Proof. unfold Handlers.create_bucket. one_call. Qed.

Lemma delete_bucket_answers state b : answers (Handlers.delete_bucket state b).
Proof. unfold Handlers.delete_bucket. one_call. Qed.

Lemma list_buckets_answers state : answers (Handlers.list_buckets state).
Proof. unfold Handlers.list_buckets. one_call. Qed.

Lemma get_bucket_stats_answers state b : answers (get_bucket_stats state b).
Proof. unfold get_bucket_stats. one_call. Qed.

Lemma get_storage_stats_answers state : answers (get_storage_stats state).
Proof. unfold get_storage_stats. one_call. Qed.

Lemma deactivate_key_answers state k : answers (deactivate_key state k).
Proof. unfold deactivate_key. one_call. Qed.

Lemma health_check_deep_answers state : answers (health_check_deep state).
Proof. unfold health_check_deep. one_call. Qed.

Lemma health_check_answers : answers (mret health_check : H Response).
Proof. unfold health_check. one_call. Qed.
End handlers.

Create HintDb responses.
#[export] Hint Resolve upload_answers file_request_answers handle_file_delete_answers list_files_answers
  search_files_answers create_bucket_answers delete_bucket_answers list_buckets_answers
  get_bucket_stats_answers get_storage_stats_answers deactivate_key_answers health_check_deep_answers
  health_check_answers : responses.

(** ** The handlers under /v2 *)

Definition known_failure (f : S3Failure) : Prop :=
  match f with S3Failed e => s3_status e ∈ S3_ERRORS | S3Panicked => True end.

Lemma s3_error_from_known e : s3_status (s3_error_from e) ∈ S3_ERRORS.
Proof. destruct e; known. Qed.

Lemma into_response_known e :
  (into_response e).1 ∈ STATUSES ∧ (into_response e).1 ∉ [STATUS_PARTIAL_CONTENT; STATUS_RANGE_NOT_SATISFIABLE].
Proof. destruct e; split; known. Qed.

Section s3_handlers.
Context `{X : Externals, !ExternalsLaws X} (Hc : constants_are_headers).

Abbreviation answers := (ends (E:=S3Failure) well_formed known_failure).

Lemma s3_storage_ends {A} (m : M A) : ends (λ _, True) known_failure (run_s3_storage m).
Proof.
  apply ends_map_err. intros w. destruct (m w).1 as [a|e]; [done|]. apply s3_error_from_known.
Qed.

Lemma verify_ends state headers method uri body :
  ends (λ _, True) known_failure (verify state headers method uri body).
Proof.
  apply ends_map_err, (ends_any _ _ (lift (require_s3_config state))).
  - apply ends_lift. unfold require_s3_config. destruct (as_s3_config state); [done|]. known.
  - intros cfg w. pose proof (verify_sigv4_refusal headers method uri body cfg w) as H.
    destruct (verify_sigv4 _ _ _ _ _ w).1 as [[]|e]; [done|]. specialize (H e eq_refl).
    revert H. unfold known_failure. generalize (s3_status e). included.
Qed.

Lemma xml_well_formed value status :
  status ∈ STATUSES → status ∉ [STATUS_PARTIAL_CONTENT; STATUS_RANGE_NOT_SATISFIABLE] →
  well_formed (xml_response status value).
Proof.
  destruct Hc as [_ Hx]. intros Hs Hn. split; [done|by repeat constructor|done|].
  simpl. intros [->| ->]; destruct Hn; known.
Qed.

Lemma with_header_well_formed name v : well_formed (with_header STATUS_OK name v).
Proof. unfold with_header. destruct (header_from_str_ok v) eqn:E; response. Qed.

Lemma parsed_header_ok name v : Forall (λ nv, header_from_str_ok nv.2 = true) (parsed_header name v).
Proof. unfold parsed_header. destruct (header_from_str_ok v) eqn:E; by repeat constructor. Qed.

Lemma data_well_formed headers body :
  Forall (λ nv, header_from_str_ok nv.2 = true) headers → well_formed (mkResponse STATUS_OK headers body).
Proof. intros Hh. split; [known|done|done|by intros [|]]. Qed.

Lemma fresh_ends {A} (r : result S3Failure A) :
  match r with Err f => known_failure f | Ok _ => True end → ends (λ _, True) known_failure (lift r : H3 A).
Proof. intros Hr. apply ends_lift. by destruct r. Qed.

Lemma ttl_ends raw t : match ttl_from_header raw t with Err f => known_failure f | Ok _ => True end.
Proof.
  unfold ttl_from_header. destruct raw as [raw|]; [|done]. destruct (parse_i64 raw) as [ttl|]; [|known].
  destruct (ttl <=? 0); [known|]. by destruct (chrono_add_seconds _ _).
Qed.

(** Walks a handler: the check, the storage calls, the parses, the response. *)
Ltac walk :=
  repeat first
    [ apply ends_any; [apply verify_ends|intros _]
    | apply ends_any; [apply s3_storage_ends|intros ?]
    | apply ends_any; [apply ends_attempt|intros ?]
    | apply ends_any; [by intros ?|intros ?]
    | apply ends_any; [apply fresh_ends, ttl_ends|intros ?]
    | progress cbv zeta
    | match goal with |- ends _ _ (let '(_, _) := ?x in _) => destruct x end ].

Lemma put_answers state uri method b k headers body : answers (put_object state uri method b k headers body).
Proof.
  unfold put_object. walk. destruct (header_str headers "x-amz-copy-source") as [source|]; walk.
  - apply ends_any.
    { apply fresh_ends. destruct (split_once _ _); [done|]. known. }
    intros [sb sk]. walk. apply ends_ret, xml_well_formed; known.
  - apply ends_ret, with_header_well_formed.
Qed.

Lemma get_answers state uri method b k headers body : answers (get_object state uri method b k headers body).
Proof.
  unfold get_object. walk. apply ends_ret, data_well_formed. apply Forall_app. split; [|apply parsed_header_ok].
  case_match; [apply parsed_header_ok|constructor].
Qed.

Lemma head_answers state uri method b k headers body : answers (head_object state uri method b k headers body).
Proof.
  unfold head_object. walk. apply ends_ret, data_well_formed.
  rewrite !Forall_app. split_and!; apply parsed_header_ok.
Qed.

Lemma delete_answers state uri method b k headers body :
  answers (delete_object state uri method b k headers body).
Proof.
  unfold delete_object. walk. destruct a as [[]|e]; [apply ends_ret; response|].
  pose proof (s3_error_from_known e) as He. destruct e; try (by apply ends_throw). apply ends_ret. response.
Qed.

Lemma s3_list_buckets_answers state uri method headers body :
  answers (S3.list_buckets state uri method headers body).
Proof. unfold S3.list_buckets. walk. apply ends_ret, xml_well_formed; known. Qed.

Lemma s3_create_bucket_answers state uri method b headers body :
  answers (S3.create_bucket state uri method b headers body).
Proof. unfold S3.create_bucket. walk. apply ends_ret, with_header_well_formed. Qed.

Lemma s3_delete_bucket_answers state uri method b headers body :
  answers (S3.delete_bucket state uri method b headers body).
Proof. unfold S3.delete_bucket. walk. apply ends_ret. response. Qed.

Lemma s3_list_objects_answers state uri method b q headers body :
  answers (list_objects_v2 state uri method b q headers body).
Proof. unfold list_objects_v2. walk. apply ends_ret, xml_well_formed; known. Qed.

Lemma post_answers state uri method b q headers body : answers (bucket_post state uri method b q headers body).
Proof.
  unfold bucket_post. walk. case_decide; [apply ends_throw; known|].
  apply ends_any; [apply fresh_ends; destruct (from_utf8 body); [done|known]|]. intros text.
  apply ends_any; [apply fresh_ends; destruct (xml_de_delete text); [done|known]|]. intros request.
  apply ends_any.
  - unfold delete_objects. generalize (dr_object request), ([] : list DeletedEntry, [] : list DeleteErrorEntry).
    intros l. induction l as [|o l IH]; intros acc; [by apply ends_ret|].
    cbn [for_each]. apply ends_any; [|apply IH]. destruct acc. walk. by apply ends_ret.
  - intros [deleted errors]. apply ends_ret, xml_well_formed; known.
Qed.

Lemma s3_response_well_formed (h : H3 Response) w reply :
  answers h → (s3_response h w).1 = Some reply → well_formed_reply reply.
Proof.
  intros Hh. specialize (Hh w). unfold s3_response, s3_answer. destruct (h w) as [[r|[e|]] w']; simpl in *.
  - by intros [= <-].
  - intros [= <-].
    by apply xml_well_formed; apply s3_error_known.
  - done.
Qed.
End s3_handlers.

#[export] Hint Resolve put_answers get_answers head_answers delete_answers post_answers
  s3_list_buckets_answers s3_create_bucket_answers s3_delete_bucket_answers s3_list_objects_answers : responses.

(** ** The router *)

Section router.
Context `{X : Externals, !ExternalsLaws X} (fw : Framework).
Context (Hc : constants_are_headers) (Hfw : framework_rejects fw).

(** Every reply of a handler is well formed. *)
Definition replies_well (s : Serve) : Prop := ∀ w reply, (s w).1 = Some reply → well_formed_reply reply.

Lemma status_only_well status :
  status ∈ STATUSES → status ∉ [STATUS_PARTIAL_CONTENT; STATUS_RANGE_NOT_SATISFIABLE] →
  well_formed_reply (status_only status).
Proof. intros Hs Hn. split; [done|constructor|done|]. simpl. intros [->| ->]; destruct Hn; known. Qed.

Lemma reject_well status : status ∈ REJECTIONS → replies_well (reject status).
Proof. intros Hs w reply [= <-]. by apply status_only_well; apply rejection_known. Qed.

Lemma extract_well {A} (r : result Z A) (k : A → Serve) :
  rejects r → (∀ a, replies_well (k a)) → replies_well (extract r k).
Proof. intros Hr Hk. destruct r; [apply Hk|by apply reject_well]. Qed.

Lemma capture_rejects caps name : rejects (capture caps name).
Proof. unfold capture. destruct (snd <$> _); [done|]. simpl. known. Qed.

Lemma http_answer_well (h : H Reply) :
  ends well_formed_reply (λ _, True) h → replies_well (http_answer h).
Proof.
  intros Hh w reply. specialize (Hh w). unfold http_answer. destruct (h w) as [[r|[e|]] w']; simpl in *.
  - by intros [= <-].
  - intros [= <-]. unfold error_response. destruct (into_response_known e) as [Hs Hn].
    destruct (into_response e) as [status msg].
    split; [done|constructor|done|]. simpl. intros [->| ->]; destruct Hn; known.
  - done.
Qed.

Lemma http_response_well (h : H Response) :
  ends well_formed (λ _, True) h → replies_well (http_response h).
Proof.
  intros Hh. apply http_answer_well. eapply ends_bind; [exact Hh|]. intros r Hr. by apply ends_ret.
Qed.

Lemma s3_well (h : bytes → H3 Response) b :
  (∀ body, ends well_formed known_failure (h body)) →
  replies_well (extract (fw_bytes fw b) (λ body, s3_response (h body))).
Proof.
  intros Hh. apply extract_well; [apply (fr_bytes _ Hfw)|]. intros body w reply. by apply s3_response_well_formed.
Qed.

(** Every handler behind its extractors. *)
Lemma run_handler_well state h caps rq : replies_well (run_handler fw state h caps rq).
Proof.
  pose proof (capture_rejects caps) as Hcap.
  unfold run_handler. destruct h; cbv zeta;
    repeat first
      [ apply s3_well; intros ? | apply extract_well; [first [apply Hcap|apply Hfw]|intros ?]
      | apply http_response_well ];
    try solve [eauto with responses].
  - apply http_answer_well, (ends_bind _ (λ r, r.1 = STATUS_CREATED)).
    + unfold create_key. apply ends_any; [apply ends_total|]. intros k. by apply ends_ret.
    + intros r Hr. by apply ends_ret.
  - apply http_answer_well, ends_any; [apply ends_total|]. intros l. by apply ends_ret.
Qed.

Lemma without_body_well method reply : well_formed_reply reply → well_formed_reply (without_body method reply).
Proof. destruct reply as [r| |]; simpl; [|done..]. case_decide; [|done]. intros [H1 H2 _ H4]. by split. Qed.

(** C27: Every answer is a well-formed response.  Whatever a client sends,
    whatever the state holds and whatever calls fail, a reply of the router
    has one of the statuses of the service, header values a header can hold,
    file data, names or statistics only under a success status, and a
    Content-Range whenever it answers part of a file or refuses a range.
    (Assumed: the extractors' documented rejection statuses, and that two
    constant texts are header values.) *)
Theorem responses_well_formed state permits rq w reply w' :
  serve fw state permits rq w = (Some reply, w') → well_formed_reply reply.
Proof.
  intros Hs. unfold serve in Hs. destruct (fw_match fw _ _) as [[pattern caps]|].
  2:{ injection Hs as <- _. by apply status_only_well; known. }
  destruct (find_route _ _ _) as [r|]; [|injection Hs as <- _; by apply status_only_well; known].
  destruct (_ && _); [injection Hs as <- _; by apply status_only_well; known|].
  pose proof (run_handler_well state (rt_handler r) caps rq w) as Hh.
  destruct (run_handler _ _ _ _ _ w) as [[reply0|] w0]; [|done]. injection Hs as <- _.
  by apply without_body_well, Hh.
Qed.
End router.

(** A range request of the file uploaded by [posted], answered in part. *)
Definition range_headers : HeaderMap := λ name, if decide (name = "range") then Some "bytes=1-3" else None.

Definition range_reply : option Reply * World :=
  serve (X:=Toy.ToyExternals) demo_framework open_state 100
    (mkHttpRequest "GET" (mkUri "/buckets/b/files/dir/report.txt" None) range_headers (λ _, Ok [])) posted.2.

Lemma responses_well_formed_witness :
  match range_reply.1 with
  | Some (Answer r) => rs_status r = STATUS_PARTIAL_CONTENT ∧ "Content-Range" ∈ (rs_headers r).*1
  | _ => False
  end.
Proof.
  assert (match range_reply.1 with
          | Some (Answer r) => bool_decide (rs_status r = STATUS_PARTIAL_CONTENT)
          | _ => false end = true) as Hst by (vm_compute; reflexivity).
  destruct range_reply as [[[r| |]|] w'] eqn:E; try discriminate Hst.
  apply bool_decide_eq_true in Hst. split; [exact Hst|].
  assert (well_formed_reply (X:=Toy.ToyExternals) (Answer r)) as Hw.
  { apply (responses_well_formed (X:=Toy.ToyExternals) demo_framework) in E; [exact E|..].
    - split; reflexivity.
    - split; intros; try exact I. simpl. unfold rejects.
      match goal with |- match match ?x with _ => _ end with _ => _ end => destruct x end; [exact I|known]. }
  apply (wr_range _ Hw). left. exact Hst.
Defined.
