(* ===== verification/Server.v ===== *)
(** * Start-up and background jobs (main.rs)

    What [main] sets up before it serves, the job that applies the migrations
    and looks for orphaned files, and the job that sweeps expired files every
    minute.  The migration runner is a parameter: its result, and whatever it
    does to the state. *)

From S2P Require Import Prelude.
From S2P Require Import Errors.
From S2P Require Import Models.
From S2P Require Import FileSystem.
From S2P Require Import Config.
From S2P Require Import Externals.
From S2P Require Import World.
From S2P Require Import Compression.
From S2P Require Import Crypto.
From S2P Require Import Database.
From S2P Require Import Cache.
From S2P Require Import Performance.
From S2P Require Import Storage.
From S2P Require Import StorageWf.
From S2P Require Import Deletion.
From S2P Require Import Upload.
From S2P Require Import Http.
From S2P Require Import App.

(** ** Start-up *)

Inductive StartError :=
| BadConfiguration (variable : string)
| BadDatabaseUrl (url : string)
| StorageFailed (e : StorageError).

Section start.
Context `{X : Externals} (pg_url_ok : string → bool).

(** [main] up to the listener: the state, the routes and the port.  The
    database pool connects on first use. *)
Definition start (env : Env) : prog World StartError (AppState * list Route * Z) :=
  config ← lift (map_result_err BadConfiguration (load env));
  _ ← (if pg_url_ok (db_url (cfg_database config)) then mret tt
       else throw (BadDatabaseUrl (db_url (cfg_database config))));
  storage ← map_err StorageFailed (storage_new config);
  let state := app_state config storage in
  mret (state, create_router state, server_port (cfg_server config)).
End start.

(** ** Migrations *)

Definition MAX_ATTEMPTS : Z := 30.

Inductive MigrateEnd := Applied | GaveUp (attempts : Z) (e : string).

Inductive InitEnd :=
| LoadFailed (e : string)
| MigrationsFailed (attempts : Z) (e : string)
| Ready (orphans : bool).


Section migrations.
Context (migrator_run : prog World string unit).

(** The retry loop; one unit of fuel is one run of the migrations. *)
Fixpoint migrate_loop (fuel : nat) (attempts : Z) (w : World) : option (MigrateEnd * World) :=
  match fuel with
  | O => None
  | Datatypes.S fuel =>
    match migrator_run w with
    | (Ok _, w') => Some (Applied, w')
    | (Err e, w') =>
      if attempts <? MAX_ATTEMPTS then migrate_loop fuel (attempts + 1) (sleep 500 w')
      else Some (GaveUp attempts e, w')
    end
  end.

(** The number of runs the loop can make. *)
Definition MAX_RUNS : nat := 31.

Definition db_is_empty : prog World SqlxError bool :=
  n ← db_call (select (λ d, Z.of_nat (size (db_files d)))); mret (bool_decide (n = 0)).

(** [read_dir], and whether [next_entry] finds one. *)
Definition read_dir (s : FS) (p : string) : result IoError place :=
  l ← resolve s p;
  match node_at s l with
  | Some NDir => Ok l
  | Some (NFile _) => Err ENOTDIR
  | None => Err ENOENT
  end.

Definition has_entry (l : place) (s : FS) : bool :=
  existsb (λ kv, bool_decide (kv.1 ≠ [] ∧ tail kv.1 = l)) (map_to_list (fs_nodes s)).

(** Whether to warn of files on disk without a row. *)
Definition orphan_check (storage_path : string) : prog World StorageError bool :=
  empty ← attempt db_is_empty;
  if match empty with Ok b => b | Err _ => false end then
    entries ← attempt (fs_call (fs_reading (λ s, read_dir s storage_path)));
    match entries with
    | Ok l =>
      entry ← attempt (fs_call (fs_reading (λ s, Ok (has_entry l s))));
      mret (match entry with Ok b => b | Err _ => false end)
    | Err _ => mret false
    end
  else mret false.

Definition run_background_db_init (migrator : result string unit) (config : Config) (w : World) :
    option (InitEnd * World) :=
  match migrator with
  | Err e => Some (LoadFailed e, w)
  | Ok _ =>
    r ← migrate_loop MAX_RUNS 0 w;
    match r with
    | (GaveUp attempts e, w') => Some (MigrationsFailed attempts e, w')
    | (Applied, w') =>
      let '(warned, w'') := orphan_check (st_path (cfg_storage config)) w' in
      Some (Ready (match warned with Ok b => b | Err _ => false end), w'')
    end
  end.
End migrations.

(** ** The expiry sweep *)

Section sweep.
Context `{X : Externals} (self : StorageManager).

(** One tick: the sweep, its result only logged. *)
Definition sweep_tick (w : World) : World := (sweep_expired_files self w).2.

(** The loop for the ticks that have come, with what happens before each. *)
Fixpoint run_ttl_sweep (before : list (World → World)) (w : World) : World :=
  match before with
  | [] => w
  | others :: before => run_ttl_sweep before (sweep_tick (others w))
  end.
End sweep.

(** ** Lemmas on the retry loop *)

Section retry.
Context (migrator_run : prog World string unit).

(** The state before the n-th run, and whether that run fails. *)
Fixpoint before_run (n : nat) (w : World) : World :=
  match n with
  | O => w
  | Datatypes.S n => before_run n (sleep 500 (migrator_run w).2)
  end.

Definition run_fails (n : nat) (w : World) : bool := negb (is_ok (migrator_run (before_run n w)).1).

(** The runs up to the n-th fail. *)
Definition all_fail (n : nat) (w : World) : Prop := ∀ m, (m < n)%nat → run_fails m w = true.

Lemma all_fail_S n w : all_fail (S n) w → run_fails 0 w = true ∧ all_fail n (sleep 500 (migrator_run w).2).
Proof. intros H. split; [apply H; lia|]. intros m Hm. apply (H (S m)). lia. Qed.

Lemma migrate_loop_success n fuel attempts w :
  (n < fuel)%nat → attempts + Z.of_nat n ≤ MAX_ATTEMPTS → all_fail n w → run_fails n w = false →
  migrate_loop migrator_run fuel attempts w = Some (Applied, (migrator_run (before_run n w)).2).
Proof.
  revert fuel attempts w. induction n as [|n IH]; intros fuel attempts w Hfuel Ha Hall Hok;
    (destruct fuel as [|fuel]; [lia|]); cbn [migrate_loop].
  - unfold run_fails in Hok. simpl in *. by destruct (migrator_run w) as [[[]|e] w'].
  - apply all_fail_S in Hall as [H0 Hall]. unfold run_fails in H0. cbn [before_run] in *.
    destruct (migrator_run w) as [[u|e] w'] eqn:E; [done|].
    rewrite (proj2 (Z.ltb_lt _ _)) by lia. rewrite (IH fuel); [|lia|lia| |]; cbn [snd] in *; try done.
    unfold run_fails in Hok |- *. cbn [before_run] in Hok. by rewrite E in Hok.
Qed.

Lemma migrate_loop_failure n attempts w :
  attempts + Z.of_nat n = MAX_ATTEMPTS → all_fail (S n) w →
  ∃ e, migrate_loop migrator_run (S n) attempts w
       = Some (GaveUp MAX_ATTEMPTS e, (migrator_run (before_run n w)).2).
Proof.
  revert attempts w. induction n as [|n IH]; intros attempts w Ha Hall;
    apply all_fail_S in Hall as [H0 Hall]; unfold run_fails in H0; cbn [migrate_loop before_run] in *;
    destruct (migrator_run w) as [[u|e] w'] eqn:E; try done.
  - rewrite (proj2 (Z.ltb_ge _ _)) by lia. exists e. cbn [snd]. do 3 f_equal. lia.
  - rewrite (proj2 (Z.ltb_lt _ _)) by lia. cbn [snd] in *. apply IH; [lia|done].
Qed.

Lemma first_success n w :
  all_fail n w ∨ ∃ m, (m < n)%nat ∧ all_fail m w ∧ run_fails m w = false.
Proof.
  induction n as [|n [IH|(m & Hm & Hf)]]; [left; intros m; lia| |right; exists m; split; [lia|done]].
  destruct (run_fails n w) eqn:E; [left|right; exists n; split; [lia|done]].
  intros m Hm. destruct (decide (m = n)) as [->|]; [done|]. apply IH. lia.
Qed.

Lemma before_run_now n w :
  (∀ w, w_now (migrator_run w).2 = w_now w) → w_now (before_run n w) = w_now w + Z.of_nat n * 500000.
Proof.
  intros Hm. revert w. induction n as [|n IH]; intros w; cbn [before_run]; [lia|].
  rewrite IH. unfold sleep. simpl. rewrite Hm. lia.
Qed.

Lemma migrations_end w :
  (∃ n, (n ≤ 30)%nat ∧ all_fail n w ∧ run_fails n w = false ∧
     migrate_loop migrator_run MAX_RUNS 0 w = Some (Applied, (migrator_run (before_run n w)).2))
  ∨ (all_fail 31 w ∧ ∃ e,
     migrate_loop migrator_run MAX_RUNS 0 w = Some (GaveUp 30 e, (migrator_run (before_run 30 w)).2)).
Proof.
  destruct (first_success 31 w) as [Hall|(n & Hn & Hall & Hok)].
  - right. split; [done|]. by apply (migrate_loop_failure 30 0).
  - left. exists n. split_and!; [lia|done..|]. unfold MAX_RUNS.
    apply migrate_loop_success; [lia| |done|done]. unfold MAX_ATTEMPTS. lia.
Qed.

(** C20: The wait for the database at start ends.  However the migrations
    behave, the retry loop stops after at most 31 runs: right after the first
    run that succeeds, or, when the first 31 all fail, with the error of the
    last one after 30 retries; the pauses between the runs take at most 15
    seconds. *)
Theorem migrations_retried w :
  (∃ n, (n ≤ 30)%nat ∧ all_fail n w ∧ run_fails n w = false ∧
     migrate_loop migrator_run MAX_RUNS 0 w = Some (Applied, (migrator_run (before_run n w)).2))
  ∨ (all_fail 31 w ∧ ∃ e,
     migrate_loop migrator_run MAX_RUNS 0 w = Some (GaveUp 30 e, (migrator_run (before_run 30 w)).2)).
Proof. apply migrations_end. Qed.

(** What the job must leave alone. *)
Definition same_data (w w' : World) : Prop :=
  db_files (w_db w') = db_files (w_db w) ∧ w_fs w' = w_fs w ∧ w_cache w' = w_cache w.

#[local] Instance same_data_preorder : PreOrder same_data.
Proof using Type.
  split; unfold same_data; [done|]. intros x y z (?&?&?) (?&?&?). split_and!; congruence.
Qed.

Definition checked (w w' : World) : Prop := same_data w w' ∧ w_now w' = w_now w.

#[local] Instance checked_preorder : PreOrder checked.
Proof using Type. split; unfold checked; [done|]. intros x y z [? ?] [? ?]. split; [by etrans|congruence]. Qed.

#[local] Instance checked_oblivious : Oblivious checked.
Proof using Type. by split. Qed.

Lemma orphan_check_checked path : respects checked (orphan_check path).
Proof using Type.
  assert (respects checked (db_call (select (λ d, Z.of_nat (size (db_files d)))))) as Hq.
  { apply (respects_db_call _). intros w a d [= _ <-]. by rewrite set_db_id. }
  unfold orphan_check, db_is_empty. solve_respects.
Qed.

Lemma before_run_data n w :
  (∀ w, same_data w (migrator_run w).2) → same_data w (before_run n w).
Proof using Type.
  intros Hm. revert w. induction n as [|n IH]; intros w; cbn [before_run]; [done|].
  etrans; [apply Hm|]. etrans; [|apply IH]. done.
Qed.

(** The background initialisation always ends, deletes nothing, and waits
    no longer than 15 seconds.  If the migrations keep the rows, the disk, the
    cache and the clock as they are, so does the whole job, whatever calls
    fail, except for the pauses. *)
Theorem init_ends_and_deletes_nothing migrator config w :
  (∀ w, same_data w (migrator_run w).2) → (∀ w, w_now (migrator_run w).2 = w_now w) →
  ∃ r w', run_background_db_init migrator_run migrator config w = Some (r, w') ∧
    same_data w w' ∧ w_now w ≤ w_now w' ≤ w_now w + 15000000.
Proof.
  intros Hd Hn. unfold run_background_db_init. destruct migrator as [u|e].
  2:{ exists (LoadFailed e), w. split; [done|]. split; [done|lia]. }
  assert (∀ n, (n ≤ 30)%nat → let w1 := (migrator_run (before_run n w)).2 in
    same_data w w1 ∧ w_now w ≤ w_now w1 ≤ w_now w + 15000000) as Hend.
  { intros n Hle. split; [etrans; [by apply before_run_data|apply Hd]|].
    rewrite Hn, before_run_now by done. lia. }
  destruct (migrations_end w) as [(n & Hle & _ & _ & ->)|[_ [e ->]]]; simpl.
  - destruct (Hend n Hle) as [H1 H2]. set (w1 := (migrator_run _).2) in *.
    destruct (orphan_check_checked (st_path (cfg_storage config)) w1) as [H3 H4].
    destruct (orphan_check _ w1) as [warned w2]. eexists _, _. split; [done|]. simpl in *.
    split; [by etrans|lia].
  - destruct (Hend 30%nat (le_n _)) as [H1 H2]. eexists _, _. by split.
Qed.

(** The warning of orphaned files is exact.  When nothing fails, the job
    warns exactly when the table of files is empty and the storage directory
    holds an entry, and never changes anything. *)
Theorem orphan_warning path w :
  w_faults w = [] →
  ∃ warned, orphan_check path w = (Ok warned, w) ∧
    (warned = true ↔
      db_files (w_db w) = ∅ ∧ ∃ l name n, read_dir (w_fs w) path = Ok l ∧ fs_nodes (w_fs w) !! (name :: l) = Some n).
Proof.
  intros Hf. unfold orphan_check, db_is_empty. rewrite run_bind, run_attempt, run_bind, db_call_ok by done.
  unfold select. rewrite set_db_id. cbn beta iota. rewrite run_ret. cbn [fst snd].
  case_bool_decide as Hsize.
  2:{ exists false. split; [done|]. split; [done|]. intros [H0 _]. rewrite H0 in Hsize. by destruct Hsize. }
  assert (db_files (w_db w) = ∅) as Hempty by (apply map_size_empty_inv; lia).
  rewrite run_bind, run_attempt, fs_reading_ok by done. cbn [fst snd].
  destruct (read_dir (w_fs w) path) as [l|e] eqn:El.
  2:{ exists false. split; [done|]. split; [done|]. intros [_ (? & ? & ? & ? & _)]. done. }
  rewrite run_bind, run_attempt, fs_reading_ok by done. cbn [fst snd]. rewrite run_ret.
  exists (has_entry l (w_fs w)). split; [done|]. unfold has_entry. rewrite existsb_exists. split.
  - intros ([x n] & Hin & [Hne Htl]%bool_decide_eq_true). split; [done|]. simpl in *.
    destruct x as [|name x]; [done|]. simpl in Htl. subst x. exists l, name, n. split; [done|].
    apply elem_of_map_to_list, list_elem_of_In. done.
  - intros [_ (l' & name & n & [= <-] & Hn)]. exists (name :: l, n). split.
    + by apply list_elem_of_In, elem_of_map_to_list.
    + by apply bool_decide_eq_true.
Qed.
End retry.

(** ** Start-up from the environment *)

Section starting.
Context `{X : Externals} (pg_url_ok : string → bool).

Lemma start_fs_only env : respects fs_only (start pg_url_ok env).
Proof using Type.
  pose proof (@fs_only_call).
  assert (∀ c, respects fs_only (crypto_new c)) as Hc by (intros c; apply (respects_crypto_new _)).
  unfold start, storage_new. solve_respects.
Qed.

(** The settings of a configuration that loads. *)
Lemma load_settings env config :
  load env = Ok config →
  0 ≤ server_port (cfg_server config) < 65536 ∧ cfg_s3 config = s3_from_env env ∧
  cfg_download_protection_token config = download_token_from_env env.
Proof using Type.
  unfold load. destruct (env_parse env parse_u16 "PORT" "8080") as [port|] eqn:Hp; [|done].
  assert (0 ≤ port < 65536) as Hport.
  { unfold env_parse, ok_or in Hp. destruct (parse_u16 _) as [n|] eqn:En; [|done]. injection Hp as <-.
    apply parse_unsigned_range in En. lia. }
  simpl. repeat (match goal with |- (?m ≫= _) = _ → _ => destruct m; [simpl|done] end).
  by intros [= <-].
Qed.

Lemma s3_from_env_spec env :
  is_Some (s3_from_env env) ↔
  ∃ a s, env "S3_ACCESS_KEY" = Some a ∧ env "S3_SECRET_KEY" = Some s ∧ a ≠ EmptyString ∧ s ≠ EmptyString.
Proof using Type.
  unfold s3_from_env. split.
  - destruct (env "S3_ACCESS_KEY") as [a|]; [|by intros []]. destruct (env "S3_SECRET_KEY") as [s|]; [|by intros []].
    destruct (_ && _) eqn:E; [|by intros []]. intros _. apply andb_true_iff in E as [Ha Hs].
    apply bool_decide_eq_true in Ha, Hs. eauto 10.
  - intros (a & s & -> & -> & Ha & Hs). rewrite !bool_decide_eq_true_2 by done. by eexists.
Qed.

(** C35: Start-up needs no database and loses nothing.  Whatever calls fail,
    setting up the service touches neither the tables nor the cache.  When it
    succeeds, the state is the one the environment describes: the routes under
    /v2 are mounted exactly when both S3 keys are set and not empty, and reads
    are protected exactly by a write-protection token that is not empty. *)
Theorem start_from_environment env w r w' :
  start pg_url_ok env w = (r, w') →
  w_db w' = w_db w ∧ w_cache w' = w_cache w ∧ w_now w' = w_now w ∧
  ∀ state routes port, r = Ok (state, routes, port) →
    routes = create_router state ∧ 0 ≤ port < 65536 ∧
    (routes = upload_router ++ main_router ++ s3_router ↔
      ∃ a s, env "S3_ACCESS_KEY" = Some a ∧ env "S3_SECRET_KEY" = Some s ∧ a ≠ EmptyString ∧ s ≠ EmptyString) ∧
    ∀ token, as_download_protection_token state = Some token ↔
             env "WRITE_PROTECTION_TOKEN" = Some token ∧ token ≠ EmptyString.
Proof.
  intros Hrun. pose proof (start_fs_only env w) as (Hd & Hc & Hn). rewrite Hrun in Hd, Hc, Hn.
  split_and!; [done..|]. intros state routes port ->. unfold start in Hrun.
  rewrite run_bind, run_lift in Hrun. destruct (load env) as [config|v] eqn:Hload; [|done].
  cbn [map_result_err] in Hrun. rewrite run_bind in Hrun. destruct (pg_url_ok _); [rewrite run_ret in Hrun|done].
  rewrite run_bind, run_map_err in Hrun.
  destruct (storage_new config w) as [[storage|e] w1]; cbn [map_result_err fst snd] in Hrun; [|done].
  rewrite run_ret in Hrun. injection Hrun as <- <- <- <-.
  destruct (load_settings _ _ Hload) as (Hport & Hs3 & Htok). split; [done|]. split; [done|]. split.
  - unfold create_router. simpl. rewrite Hs3, <- s3_from_env_spec. by case_bool_decide.
  - intros token. simpl. rewrite Htok. unfold download_token_from_env.
    destruct (env "WRITE_PROTECTION_TOKEN") as [v|]; [|naive_solver].
    case_bool_decide; naive_solver.
Qed.
End starting.

(** ** The sweep, again and again *)

Section liveness.
Context `{X : Externals, !ExternalsLaws X} (self : StorageManager).

(** The interval between two ticks, in microseconds. *)
Definition TICK : Z := 60000000.

(** A run of the service as the sweep sees it: the state before each tick.
    Between a tick and the next the service takes any steps, and a tick comes
    every minute. *)
Record sweeping (world : nat → World) : Prop := {
  sw_wf : db_wf (w_db (world 0%nat));
  sw_next n : rtc (step self) (sweep_tick self (world n)) (world (S n));
  sw_clock n : w_now (world 0%nat) + Z.of_nat n * TICK ≤ w_now (world n)
}.

Lemma sweeping_wf world n : sweeping world → db_wf (w_db (world n)).
Proof using Type.
  intros Hs. induction n as [|n IH]; [apply (sw_wf _ Hs)|].
  assert (∀ w w', rtc (step self) w w' → db_wf (w_db w) → db_wf (w_db w')) as Hsteps.
  { induction 1 as [w|w w1 w' H _ IH']; [done|]. intros Hwf. apply IH'.
    destruct H as [e w|]; [by apply run_event_wf|done]. }
  apply (Hsteps _ _ (sw_next _ Hs n)). by apply (sweep_wf self).
Qed.

(** C19: Every file with a time to live goes in the end.  However requests,
    deletions and losses of cache entries mix with the ticks, if from some
    tick on the calls of the sweep do not fail (and no stored form is larger
    than its content), then from some tick on there is, right after every
    tick, no file left whose time ended before the given moment; the ticks
    this takes are at most the minutes until that moment, and one. *)
Theorem expired_files_go world quiet_from deadline :
  sweeping world →
  (∀ n, (quiet_from ≤ n)%nat → w_faults (world n) = [] ∧ no_inflation (db_files (w_db (world n)))) →
  ∃ n0, Z.of_nat n0 ≤ Z.max (Z.of_nat quiet_from) ((deadline - w_now (world 0%nat)) / TICK + 1) ∧
    ∀ n, (n0 ≤ n)%nat → ∀ k r e, db_files (w_db (sweep_tick self (world n))) !! k = Some r →
      sf_expires_at r = Some e → deadline ≤ e.
Proof.
  intros Hs Hq. set (minutes := (deadline - w_now (world 0%nat)) / TICK + 1).
  exists (Nat.max quiet_from (Z.to_nat minutes)). split; [lia|].
  intros n Hn k r e Hr He. destruct (Hq n ltac:(lia)) as [Hf Hinf].
  pose proof (sweep_run self (world n) (sweeping_wf world n Hs) Hf Hinf) as Hrun. unfold sweep_tick in Hr.
  destruct (sweep_expired_files self (world n)) as [res w'].
  apply (proj2 Hrun) in Hr as [_ Halive]. unfold is_expired in Halive. rewrite He in Halive.
  apply Z.ltb_ge in Halive. pose proof (sw_clock _ Hs n) as Hclock.
  assert (deadline ≤ w_now (world 0%nat) + Z.of_nat n * TICK); [|lia].
  assert (minutes ≤ Z.of_nat n) as Hm by lia. unfold minutes in Hm.
  pose proof (Z.mul_succ_div_gt (deadline - w_now (world 0%nat)) TICK ltac:(done)). unfold TICK in *. nia.
Qed.
End liveness.

(** ** Concrete runs *)

(** A database that accepts the migrations from the fourth run on. *)
Definition slow_database : prog World string unit := λ w,
  if w_now w <? 1500000 then (Err "the database system is starting up", w) else (Ok tt, w).

Lemma init_ends_and_deletes_nothing_witness :
  match run_background_db_init slow_database (Ok tt) secure_config start_world with
  | Some (r, w') => r = Ready false ∧ same_data start_world w' ∧ w_now w' = 1500010
  | None => False
  end.
Proof.
  assert ((λ p, (p.1, w_now p.2)) <$> run_background_db_init slow_database (Ok tt) secure_config start_world
          = Some (Ready false, 1500010)) as Hrun by (vm_compute; reflexivity).
  destruct (init_ends_and_deletes_nothing slow_database (Ok tt) secure_config start_world)
    as (r & w' & Hr & Hd & _).
  - intros w. unfold slow_database. destruct (_ <? _); repeat split.
  - intros w. unfold slow_database. destruct (_ <? _); reflexivity.
  - rewrite Hr in Hrun |- *. injection Hrun as Hr1 Hn. split; [exact Hr1|]. split; [exact Hd|exact Hn].
Defined.

(** A storage directory that survived its database. *)
Lemma orphan_warning_witness :
  orphan_check "/data" (set_db empty_db first_world) = (Ok true, set_db empty_db first_world).
Proof.
  destruct (orphan_warning "/data" (set_db empty_db first_world)) as (warned & H & Hiff).
  - vm_compute. reflexivity.
  - rewrite H. do 2 f_equal. apply (proj2 Hiff). split; [reflexivity|].
    exists ["data"], "b", NDir. split; vm_compute; reflexivity.
Defined.

Definition demo_env : Env := λ v,
  if decide (v = "S3_ACCESS_KEY") then Some "key"
  else if decide (v = "S3_SECRET_KEY") then Some "secret"
  else if decide (v = "STORAGE_PATH") then Some "/data" else None.

Definition started : result StartError (AppState * list Route * Z) * World :=
  start (X:=Toy.ToyExternals) (λ _, true) demo_env start_world.

Lemma start_from_environment_witness :
  match started.1 with
  | Ok (state, routes, port) =>
    port = 8080 ∧ routes = upload_router ++ main_router ++ s3_router ∧
    as_download_protection_token state ≠ Some EmptyString
  | Err _ => False
  end ∧ w_db started.2 = w_db start_world.
Proof.
  assert (match started.1 with Ok (_, _, port) => bool_decide (port = 8080) | Err _ => false end = true) as Hok
    by (vm_compute; reflexivity).
  destruct started as [r w'] eqn:E.
  destruct (start_from_environment (X:=Toy.ToyExternals) (λ _, true) demo_env start_world r w' E)
    as (Hd & _ & _ & H).
  split; [|exact Hd]. cbn [fst] in *. destruct r as [[[state routes] port]|e]; [|discriminate Hok].
  destruct (H state routes port eq_refl) as (_ & _ & Hr & Ht). apply bool_decide_eq_true in Hok.
  split; [exact Hok|]. split.
  - apply (proj2 Hr). exists "key", "secret". repeat split; discriminate.
  - intros Hn. apply (proj1 (Ht EmptyString)) in Hn as [_ Hn]. apply Hn. reflexivity.
Defined.

Lemma sweep_nothing `{X : Externals} (self : StorageManager) w :
  w_faults w = [] → scan (is_expired (w_now w)) (w_db w) = [] → sweep_tick self w = w.
Proof.
  intros Hf Hs. unfold sweep_tick, sweep_expired_files, list_expired_files.
  rewrite run_bind, run_sql_ok by done. rewrite Hs, set_db_id. done.
Qed.

(** "k" expires at 50; the ticks come at 10, and every minute after. *)
Definition swept : World := sweep_tick (X:=Toy.ToyExternals) sample_storage (set_now 60000010 first_world).

Lemma swept_facts : w_faults swept = [] ∧ w_now swept = 60000010 ∧ db_files (w_db swept) = ∅.
Proof.
  split; [vm_compute; reflexivity|]. split; [vm_compute; reflexivity|].
  apply map_size_empty_inv. vm_compute. reflexivity.
Qed.

Lemma first_world_facts : db_wf (w_db first_world) ∧ w_now first_world = 10 ∧
  sweep_tick (X:=Toy.ToyExternals) sample_storage first_world = first_world.
Proof.
  split; [|split; [vm_compute; reflexivity|apply sweep_nothing; vm_compute; reflexivity]].
  exact (store_file_wf (X:=Toy.ToyExternals) sample_storage "b" "k" [Byte.x61; Byte.x62] None (with_ttl 50)
           start_world empty_db_wf).
Qed.

Section ticks.
Context (first swept : World) (Hfirst : db_wf (w_db first) ∧ w_now first = 10 ∧
  sweep_tick (X:=Toy.ToyExternals) sample_storage first = first).
Context (Hswept : sweep_tick (X:=Toy.ToyExternals) sample_storage (set_now 60000010 first) = swept).
Context (Hfacts : w_faults swept = [] ∧ w_now swept = 60000010 ∧ db_files (w_db swept) = ∅).

Definition ticks (n : nat) : World :=
  match n with
  | O => first
  | 1%nat => set_now 60000010 first
  | _ => set_now (10 + Z.of_nat n * TICK) swept
  end.

Lemma ticks_sweeping : sweeping (X:=Toy.ToyExternals) sample_storage ticks.
Proof using All.
  destruct Hfirst as (Hwf & Hnow & Hsame), Hfacts as (Hf & Hn & He). split.
  - exact Hwf.
  - assert (∀ w t, w_now w ≤ t → rtc (step (X:=Toy.ToyExternals) sample_storage) w (set_now t w)) as Hlater.
    { intros w t Ht. apply rtc_once. by apply step_environment. }
    intros [|[|n]]; unfold ticks.
    + rewrite Hsame. apply Hlater. by rewrite Hnow.
    + rewrite Hswept. apply Hlater. by rewrite Hn.
    + rewrite sweep_nothing; [|exact Hf|].
      * apply (Hlater (set_now (10 + Z.of_nat (S (S n)) * TICK) swept)). unfold TICK. cbn [w_now set_now]. lia.
      * destruct (scan _ _) as [|f l] eqn:E; [done|]. exfalso.
        assert (f ∈ f :: l) as Hin by (by left). rewrite <- E in Hin. apply elem_of_scan in Hin as [_ [k Hk]].
        cbn [w_db set_now] in Hk. by rewrite He in Hk.
  - intros [|[|n]]; unfold ticks; cbn [w_now set_now]; rewrite Hnow; unfold TICK; lia.
Qed.
End ticks.

Definition ticking : nat → World := ticks first_world swept.

Lemma ticking_sweeping : sweeping (X:=Toy.ToyExternals) sample_storage ticking.
Proof. exact (ticks_sweeping first_world swept first_world_facts eq_refl swept_facts). Qed.

Lemma ticking_quiet n : w_faults (ticking n) = [] ∧ no_inflation (db_files (w_db (ticking n))).
Proof.
  assert (w_faults first_world = [] ∧ no_inflation (db_files (w_db first_world))) as Hfirst.
  { split; [vm_compute; reflexivity|]. apply (bool_decide_unpack _). vm_compute. exact I. }
  destruct swept_facts as (Hf & _ & He). unfold ticking. revert Hf He Hfirst.
  generalize swept as sw, first_world as first. intros sw first Hf He Hfirst.
  destruct n as [|[|n]]; [exact Hfirst..|]. split; [exact Hf|]. cbn [ticks w_db set_now]. rewrite He.
  apply map_Forall_empty.
Qed.

Lemma expired_files_go_witness :
  ∃ n0, Z.of_nat n0 ≤ 1 ∧ ∀ n, (n0 ≤ n)%nat → ∀ k r e,
    db_files (w_db (sweep_tick (X:=Toy.ToyExternals) sample_storage (ticking n))) !! k = Some r →
    sf_expires_at r = Some e → 1000 ≤ e.
Proof.
  destruct (expired_files_go (X:=Toy.ToyExternals) sample_storage ticking 0 1000 ticking_sweeping) as (n0 & Hn & H).
  - intros n _. exact (ticking_quiet n).
  - exists n0. split; [exact Hn|exact H].
Defined.
